(** * contfilter: natural-order comparator, sorted-stream cursor and
      matching engine

    A shallow embedding of the Go sources

      - [strnum_cmp], [digitToInt] and the loop of [main]  (the
        sort-order checker's file),
      - [BamScanner] with [Record], [Ratchet] and [Find]  (bam.go),
      - [extract], [MatchesErcc], the processing loop of [main] and its
        line of stats  (the filter's main file),
      - the processing loop of the [main] for unpaired reads,

    followed by the properties of the specification that concern them
    and by further properties of the code.

    Conventions of the embedding.

      - A Go [string] is a sequence of bytes: Rocq's [string].  [len] is
        the byte length.  A [rune] is a code point, an integer.
      - Go's [int] is taken to be 64 bits wide; increments and
        subtractions are wrapped by [wrap64].
      - [float64] is Rocq's primitive binary64 float.
      - A Go function returning [(T, error)] returns a [result T]; what a
        call does to the process is an [outcome]: it returns, it ends the
        process through [log.Fatal], or it panics.  Loops that Go writes
        as [for { ... }] are iterated with a fuel that is shown to be
        enough, [Timeout] marks the exhausted fuel and is proved
        unreachable.
      - Writes to the verbose log are left out: they influence neither
        control flow nor any of the values below. *)

From Stdlib Require Import ZArith List String Ascii Bool Lia.
From Stdlib Require Import Floats.PrimFloat Numbers.Cyclic.Int63.Uint63.
From stdpp Require Import base tactics option list.

Local Open Scope string_scope.
Local Open Scope list_scope.
Local Open Scope Z_scope.

(** ** Outcomes of calls *)

Inductive error : Type :=
| ErrScanner                      (* "scanner of %s errored: %v" *)
| ErrEmptyRecord                  (* "empty BAM record" *)
| ErrEmptyRecordAt (line : Z)     (* "empty record at line %s" *)
| ErrSortOrder (line : Z)         (* "sorting order violated at line %d" *)
| ErrTooFewFields                 (* "too few fields" *)
| ErrMalformedTag (tag : string)  (* "malformed edit distance tag: %s" *)
| ErrParseEditDist (tag : string) (* "failed to parse edit dist: %s" *)
| ErrSampleRead (e : error) (after : Z)
                                  (* "failed to read from sample BAM: %v after %d lines" *)
| ErrWrite.                       (* the error of a failed Fprintf *)

Inductive result (T : Type) : Type :=
| Val (v : T)
| Error (e : error).
Arguments Val {T} v.
Arguments Error {T} e.

Inductive fatal : Type :=
| FatalParseDigit (s : string)          (* log.Fatal("failed to parse digit ", err) *)
| FatalError (e : error)                (* logger.Fatal(err) *)
| FatalContRead (c : nat) (e : error).  (* logger.Fatalf("failed to read from %s: %v", ...) *)

Inductive panic : Type :=
| SliceBoundsOutOfRange (high len : Z)
| IndexOutOfRange (index : nat) (len : nat).

Inductive outcome (A : Type) : Type :=
| Returned (a : A)
| Exited (f : fatal)
| Panicked (p : panic)
| Timeout.
Arguments Returned {A} a.
Arguments Exited {A} f.
Arguments Panicked {A} p.
Arguments Timeout {A}.

#[global] Instance outcome_ret : MRet outcome := fun A a => Returned a.
#[global] Instance outcome_bind : MBind outcome := fun A B k m =>
  match m with
  | Returned a => k a
  | Exited f => Exited f
  | Panicked p => Panicked p
  | Timeout => Timeout
  end.

(** ** Machine integers and floats *)

Definition intSize : Z := 64.
Definition max_int : Z := 2 ^ (intSize - 1) - 1.
Definition min_int : Z := - 2 ^ (intSize - 1).

Definition wrap64 (z : Z) : Z := (z + 2 ^ 63) mod 2 ^ 64 - 2 ^ 63.

(** [float64(n)] for an [int] [n]: round to nearest even. *)
Definition float64_of_int (n : Z) : float :=
  if n =? min_int then PrimFloat.opp 9223372036854775808%float
  else if n <? 0 then PrimFloat.opp (PrimFloat.of_uint63 (Uint63.of_Z (- n)))
  else PrimFloat.of_uint63 (Uint63.of_Z n).

(** ** The Go library functions the program calls *)

Definition byte (c : ascii) : Z := Z.of_N (N_of_ascii c).
Definition byte_of (z : Z) : ascii := ascii_of_N (Z.to_N z).
Definition len (s : string) : Z := Z.of_nat (String.length s).

Definition rune : Type := Z.
Definition RuneError : rune := 0xFFFD.

Definition is_cont (lo hi : Z) (c : ascii) : bool := (lo <=? byte c) && (byte c <=? hi).

(** [utf8.DecodeRuneInString]: the first code point of [s] and the rest
    of [s]; an invalid or truncated sequence yields [RuneError] and
    consumes one byte. *)
Definition DecodeRune (c0 : ascii) (t0 : string) : rune * string :=
  let b0 := byte c0 in
  let bad := (RuneError, t0) in
  if b0 <? 0x80 then (b0, t0)
  else if b0 <? 0xC2 then bad
  else
    match t0 with
    | String c1 t1 =>
      if b0 <? 0xE0 then
        if is_cont 0x80 0xBF c1
        then (Z.lor (Z.shiftl (Z.land b0 0x1F) 6) (Z.land (byte c1) 0x3F), t1)
        else bad
      else
        match t1 with
        | String c2 t2 =>
          if b0 <? 0xF0 then
            let lo := if b0 =? 0xE0 then 0xA0 else 0x80 in
            let hi := if b0 =? 0xED then 0x9F else 0xBF in
            if is_cont lo hi c1 && is_cont 0x80 0xBF c2
            then (Z.lor (Z.shiftl (Z.land b0 0x0F) 12)
                    (Z.lor (Z.shiftl (Z.land (byte c1) 0x3F) 6)
                       (Z.land (byte c2) 0x3F)), t2)
            else bad
          else if b0 <? 0xF5 then
            match t2 with
            | String c3 t3 =>
              let lo := if b0 =? 0xF0 then 0x90 else 0x80 in
              let hi := if b0 =? 0xF4 then 0x8F else 0xBF in
              if is_cont lo hi c1 && is_cont 0x80 0xBF c2 && is_cont 0x80 0xBF c3
              then (Z.lor (Z.shiftl (Z.land b0 0x07) 18)
                      (Z.lor (Z.shiftl (Z.land (byte c1) 0x3F) 12)
                         (Z.lor (Z.shiftl (Z.land (byte c2) 0x3F) 6)
                            (Z.land (byte c3) 0x3F))), t3)
              else bad
            | EmptyString => bad
            end
          else bad
        | EmptyString => bad
        end
    | EmptyString => bad
    end.

(** [[]rune(s)]. Each step consumes at least one byte, so the byte length
    of [s] bounds the number of steps. *)
Fixpoint runes_from (n : nat) (s : string) : list rune :=
  match n, s with
  | S n', String c t => let '(r, rest) := DecodeRune c t in r :: runes_from n' rest
  | _, _ => []
  end.

Definition runes_of_string (s : string) : list rune := runes_from (String.length s) s.

(** [string(r)] for a rune [r]: its UTF-8 encoding; surrogates and values
    out of range encode as U+FFFD. *)
Definition encode_rune (r : rune) : string :=
  let cont (z : Z) := byte_of (Z.lor 0x80 (Z.land z 0x3F)) in
  if (0 <=? r) && (r <? 0x80) then String (byte_of r) ""
  else if (0 <=? r) && (r <? 0x800) then
    String (byte_of (Z.lor 0xC0 (Z.shiftr r 6))) (String (cont r) "")
  else if (r <? 0) || (0x10FFFF <? r) || ((0xD800 <=? r) && (r <=? 0xDFFF)) then
    String (byte_of 0xEF) (String (byte_of 0xBF) (String (byte_of 0xBD) ""))
  else if r <? 0x10000 then
    String (byte_of (Z.lor 0xE0 (Z.shiftr r 12)))
      (String (cont (Z.shiftr r 6)) (String (cont r) ""))
  else
    String (byte_of (Z.lor 0xF0 (Z.shiftr r 18)))
      (String (cont (Z.shiftr r 12)) (String (cont (Z.shiftr r 6)) (String (cont r) ""))).

(** [string(rs)] for a slice of runes. *)
Definition string_of_runes (rs : list rune) : string :=
  fold_right (fun r acc => String.append (encode_rune r) acc) "" rs.

(** [strconv.Atoi]: an optional sign, then one or more ASCII digits, the
    value within the range of [int]; anything else is an error. *)
Definition is_ascii_digit (c : ascii) : bool := (48 <=? byte c) && (byte c <=? 57).

Fixpoint parse_digits (s : string) (acc : Z) : option Z :=
  match s with
  | EmptyString => Some acc
  | String c t =>
    if is_ascii_digit c then parse_digits t (acc * 10 + (byte c - 48)) else None
  end.

Definition Atoi (s : string) : option Z :=
  let '(neg, body) :=
    match s with
    | String "-"%char t => (true, t)
    | String "+"%char t => (false, t)
    | _ => (false, s)
    end in
  match body with
  | EmptyString => None
  | _ =>
    match parse_digits body 0 with
    | Some n =>
      let v := if neg then - n else n in
      if (min_int <=? v) && (v <=? max_int) then Some v else None
    | None => None
    end
  end.

(** [strings.TrimSpace]: all leading and trailing white space removed, as
    defined by Unicode.  The white-space code points are the six ASCII
    ones and those of [unicode.White_Space]; in a string each occurs as
    its UTF-8 encoding, which is what is stripped from either end. *)
Definition White_Space : list rune :=
  [0x09; 0x0A; 0x0B; 0x0C; 0x0D; 0x20; 0x85; 0xA0; 0x1680;
   0x2000; 0x2001; 0x2002; 0x2003; 0x2004; 0x2005; 0x2006; 0x2007; 0x2008;
   0x2009; 0x200A; 0x2028; 0x2029; 0x202F; 0x205F; 0x3000].

Fixpoint strip_prefix (p s : string) : option string :=
  match p, s with
  | EmptyString, _ => Some s
  | String a p', String b s' => if Ascii.eqb a b then strip_prefix p' s' else None
  | String _ _, EmptyString => None
  end.

Definition strip_any (ps : list string) (s : string) : option string :=
  fold_right (fun p acc => match strip_prefix p s with Some r => Some r | None => acc end)
    None ps.

Fixpoint trim_prefixes (n : nat) (ps : list string) (s : string) : string :=
  match n with
  | O => s
  | S n' =>
    match strip_any ps s with
    | Some r => trim_prefixes n' ps r
    | None => s
    end
  end.

Definition rev_string (s : string) : string :=
  string_of_list_ascii (rev (list_ascii_of_string s)).

Definition TrimLeft (s : string) : string :=
  trim_prefixes (String.length s) (map encode_rune White_Space) s.

Definition TrimRight (s : string) : string :=
  rev_string
    (trim_prefixes (String.length s)
       (map (fun r => rev_string (encode_rune r)) White_Space) (rev_string s)).

Definition TrimSpace (s : string) : string := TrimRight (TrimLeft s).

(** [strings.Split(s, sep)] for a separator of one byte: the pieces of
    [s] between the separators, one more than there are separators. *)
Fixpoint Split (s : string) (sep : ascii) : list string :=
  match s with
  | EmptyString => [ "" ]
  | String c t =>
    if Ascii.eqb c sep then "" :: Split t sep
    else
      match Split t sep with
      | piece :: pieces => String c piece :: pieces
      | [] => [ String c "" ]
      end
  end.

(** [strings.Join(elems, sep)] and [strings.Contains(s, substr)]. *)
Definition Join (elems : list string) (sep : string) : string := String.concat sep elems.

Fixpoint Contains (s substr : string) : bool :=
  if String.prefix substr s then true
  else
    match s with
    | EmptyString => false
    | String _ t => Contains t substr
    end.

Definition tab : ascii := "009"%char.
Definition newline : ascii := "010"%char.

(** A line of decoded alignment data: its fields, separated by tabs. *)
Definition sam_line (fields : list string) : string := Join fields (String tab "").

(** [fmt.Sprintf("%d", n)] for an [int] [n]: the decimal digits of the
    magnitude of [n], written from the last one into a buffer, after a
    minus sign when [n] is negative.  No [int] has more than 19 digits. *)
Fixpoint fmt_digits (fuel : nat) (u : Z) (buf : string) : string :=
  match fuel with
  | O => buf
  | S fuel' =>
    let buf := String (byte_of (48 + u mod 10)) buf in
    if u <? 10 then buf else fmt_digits fuel' (u / 10) buf
  end.

Definition fmt_d (n : Z) : string :=
  if n <? 0 then String "-" (fmt_digits 19 (- n) "") else fmt_digits 19 n "".

(** ** The program *)

Section Contfilter.

(** [unicode.IsDigit] tests membership in the decimal-digit table of the
    Go release in use.  Up to Latin-1 the function answers by the range
    '0'..'9'; the table beyond Latin-1 is data of the Go library and
    stays a parameter. *)
Variable unicode_Digit : rune -> bool.

Definition IsDigit (r : rune) : bool :=
  if r <=? 0xFF then (48 <=? r) && (r <=? 57) else unicode_Digit r.

(** *** The natural-order comparator *)

Definition digitToInt (s : string) : outcome Z :=
  match Atoi s with
  | Some n => Returned n
  | None => Exited (FatalParseDigit s)
  end.

(** [i < len(a) && unicode.IsDigit(a[i])] *)
Definition digit_at (a : list rune) (i : nat) : bool :=
  match a !! i with
  | Some r => IsDigit r
  | None => false
  end.

(** [for i < len(a) && a[i] == '0' { i++ }], [rest] being [a[i:]]. *)
Fixpoint skip_zeros (rest : list rune) (i : nat) : nat :=
  match rest with
  | r :: rest' => if r =? 48 then skip_zeros rest' (S i) else i
  | [] => i
  end.

(** [for i < len(a) && j < len(b) && unicode.IsDigit(a[i]) &&
         unicode.IsDigit(b[j]) && a[i] == b[j] { i++; j++ }] *)
Fixpoint skip_equal_digits (ra rb : list rune) (i j : nat) : nat * nat :=
  match ra, rb with
  | x :: ra', y :: rb' =>
    if IsDigit x && IsDigit y && (x =? y)
    then skip_equal_digits ra' rb' (S i) (S j)
    else (i, j)
  | _, _ => (i, j)
  end.

(** [for i+k < len(a) && unicode.IsDigit(a[i+k]) && j+k < len(b) &&
         unicode.IsDigit(b[j+k]) { k += 1 }] *)
Fixpoint common_digits (ra rb : list rune) (k : nat) : nat :=
  match ra, rb with
  | x :: ra', y :: rb' =>
    if IsDigit x && IsDigit y then common_digits ra' rb' (S k) else k
  | _, _ => k
  end.

(** [a[lo:hi]] *)
Definition slice (a : list rune) (lo hi : nat) : list rune := take (hi - lo) (drop lo a).

Fixpoint strnum_loop (fuel : nat) (a b : list rune) (i j : nat) : outcome Z :=
  match fuel with
  | O => Timeout
  | S fuel' =>
    match a !! i, b !! j with
    | Some ai, Some bj =>
      if IsDigit ai && IsDigit bj then
        let i := skip_zeros (drop i a) i in
        let j := skip_zeros (drop j b) j in
        let '(i, j) := skip_equal_digits (drop i a) (drop j b) i j in
        if digit_at a i && digit_at b j then
          let k := common_digits (drop i a) (drop j b) 0 in
          if digit_at a (i + k) then Returned 1
          else if digit_at b (j + k) then Returned (-1)
          else
            x ← digitToInt (string_of_runes (slice a i (i + k)));
            y ← digitToInt (string_of_runes (slice b j (j + k)));
            Returned (wrap64 (x - y))
        else if digit_at a i then Returned 1
        else if digit_at b j then Returned (-1)
        else if negb (i =? j)%nat then
          if (i <? j)%nat then Returned 1 else Returned (-1)
        else strnum_loop fuel' a b i j
      else
        if negb (ai =? bj) then
          x ← digitToInt (encode_rune ai);
          y ← digitToInt (encode_rune bj);
          Returned (wrap64 (x - y))
        else strnum_loop fuel' a b (S i) (S j)
    | _, _ =>
      if (length b <? length a)%nat then Returned 1
      else if (length a <? length b)%nat then Returned (-1)
      else Returned 0
    end
  end.

Definition strnum_cmp (as_ bs : string) : outcome Z :=
  let a := runes_of_string as_ in
  let b := runes_of_string bs in
  strnum_loop (S (length a)) a b 0 0.

(** *** Field extraction *)

(** [row[n]] for an index the caller has checked to be in range. *)
Definition field (row : list string) (n : nat) : string := nth n row "".

Definition extract (row : list string) : outcome (result (Z * Z)) :=
  if (length row <? 15)%nat then Returned (Error ErrTooFewFields)
  else
    let match_len := len (field row 9) in
    let edit_tag := field row 14 in
    if len edit_tag <? 5 then Panicked (SliceBoundsOutOfRange 5 (len edit_tag))
    else if negb (String.eqb (String.substring 0 5 edit_tag) "nM:i:")
    then Returned (Error (ErrMalformedTag edit_tag))
    else
      match Atoi (String.substring 5 (String.length edit_tag - 5) edit_tag) with
      | None => Returned (Error (ErrParseEditDist edit_tag))
      | Some edit_dist => Returned (Val (match_len, edit_dist))
      end.

(** *** The cursor over a sorted stream (bam.go) *)

(** A [bufio.Scanner] over the lines of the decoder's output: the lines
    still to be yielded, and when a read error, if there is one, shows in
    [Err()]: [Some n] says that [n] more calls of [Scan] see no error and
    every later one does; at the end of the lines [Scan] returns false,
    and [Err()] is non-nil if the input ended by an error and nil if it
    ended by EOF. *)
Record Scanner : Type := {
  tokens : list string;
  read_error : option nat
}.

(** [Scan()] followed by [Text()] and [Err()]. *)
Definition Scan (sc : Scanner) : option string * bool * Scanner :=
  match tokens sc with
  | text :: rest =>
    match read_error sc with
    | None => (Some text, false, {| tokens := rest; read_error := None |})
    | Some O => (Some text, true, {| tokens := rest; read_error := Some O |})
    | Some (S n) => (Some text, false, {| tokens := rest; read_error := Some n |})
    end
  | [] =>
    match read_error sc with
    | None => (None, false, sc)
    | Some _ => (None, true, {| tokens := []; read_error := Some O |})
    end
  end.

(** The fields [filename], [stdin] and [wg] of the Go struct name the
    input and wait for the decoder process; no method below reads them. *)
Record BamScanner : Type := {
  LineNumber : Z;
  scanner : Scanner;
  prev : string;
  record : option (list string);
  Closed : bool
}.

(** [OpenBam]: a cursor on the output of the decoder started for a file. *)
Definition OpenBam (decoded : Scanner) : BamScanner :=
  {| LineNumber := 0;
     scanner := decoded;
     prev := "";
     record := None;
     Closed := false |}.

Definition incr (n : Z) : Z := wrap64 (n + 1).

(** [row[n]], with Go's bounds check. *)
Definition index (row : list string) (n : nat) : outcome string :=
  match row !! n with
  | Some x => Returned x
  | None => Panicked (IndexOutOfRange n (length row))
  end.

Definition BamScanner_Ratchet (s : BamScanner) : BamScanner :=
  {| LineNumber := LineNumber s;
     scanner := scanner s;
     prev := prev s;
     record := None;
     Closed := Closed s |}.

(** [o == nil] for a slice that is [nil] or a record. *)
Definition is_nil {A : Type} (o : option A) : bool :=
  match o with
  | Some _ => false
  | None => true
  end.

(** The cursor after a line has been scanned: the line is counted, the
    cursor is open, the cache and the last identifier are as given. *)
Definition scanned (s : BamScanner) (sc : Scanner) (cache : option (list string))
    (last : string) : BamScanner :=
  {| LineNumber := incr (LineNumber s); scanner := sc; prev := last;
     record := cache; Closed := false |}.

(** Lines 91 to 107 of [Record]: the line that [Scan] has just yielded,
    [sc] being the state of the [bufio.Scanner] after it. *)
Definition Record_line (s : BamScanner) (sc : Scanner) (text : string)
  : outcome (result (option (list string)) * BamScanner) :=
  let line := TrimSpace text in
  if len line =? 0 then Returned (Error ErrEmptyRecord, scanned s sc None (prev s))
  else
    let row := Split line tab in
    if (length row =? 0)%nat
    then Returned (Error (ErrEmptyRecordAt (incr (LineNumber s))),
                   scanned s sc (Some row) (prev s))
    else
      let read := field row 0 in
      if negb (String.eqb (prev s) "") then
        v ← strnum_cmp (prev s) read;
        if v >? 0
        then Returned (Error (ErrSortOrder (incr (LineNumber s))),
                       scanned s sc (Some row) (prev s))
        else Returned (Val (Some row), scanned s sc (Some row) read)
      else Returned (Val (Some row), scanned s sc (Some row) read).

Definition BamScanner_Record (s : BamScanner)
  : outcome (result (option (list string)) * BamScanner) :=
  match record s with
  | Some r => Returned (Val (Some r), s)
  | None =>
    let '(text, err, sc) := Scan (scanner s) in
    let s1 := {| LineNumber := LineNumber s; scanner := sc; prev := prev s;
                 record := None; Closed := is_nil text |} in
    if err then Returned (Error ErrScanner, s1)
    else
      match text with
      | None => Returned (Val None, s1)
      | Some text => Record_line s sc text
      end
  end.

(** One pass through the body of the loop of [Find]: [inl] is the
    [return] of the function, [inr] the state at the next iteration. *)
Definition Find_body (s : BamScanner) (read : string)
  : outcome (result (option (list string)) * BamScanner + BamScanner) :=
  if Closed s then Returned (inl (Val None, s))
  else
    '(r, s) ← BamScanner_Record s;
    match r with
    | Error e => Returned (inl (Error e, s))
    | Val row =>
      if Closed s then Returned (inl (Val None, s))
      else
        let row := default [] row in
        id ← index row 0;
        if String.eqb id read then Returned (inl (Val (Some row), BamScanner_Ratchet s))
        else
          v ← strnum_cmp id read;
          if v <? 0 then Returned (inr (BamScanner_Ratchet s))
          else Returned (inl (Val None, s))
    end.

Fixpoint Find_loop (fuel : nat) (s : BamScanner) (read : string)
  : outcome (result (option (list string)) * BamScanner) :=
  match fuel with
  | O => Timeout
  | S fuel' =>
    step ← Find_body s read;
    match step with
    | inl ret => Returned ret
    | inr s' => Find_loop fuel' s' read
    end
  end.

(** What a cursor can still yield: the cached record and the lines not
    yet scanned. *)
Definition remaining (s : BamScanner) : nat :=
  (match record s with Some _ => 1 | None => 0 end + length (tokens (scanner s)))%nat.

Definition BamScanner_Find (s : BamScanner) (read : string)
  : outcome (result (option (list string)) * BamScanner) :=
  Find_loop (S (remaining s)) s read.

(** *** The matching and scoring loop of [main] *)

Record Args : Type := {
  Margin : float;
  MinLength : Z;
  MaxDist : Z;
  Limit : Z;
  Penalty : float;
  Ercc : bool
}.

(** The flags of the command line, and the contamination files, each
    given by the stream its decoder prints. *)
Variable args : Args.
Variable contamination : list Scanner.

(** [outfp]: the pipe to the encoder.  [room] bounds the writes that
    succeed before the pipe breaks; [None] is a pipe that never does. *)
Record Writer : Type := {
  written : list string;
  room : option nat
}.

Definition Fprintf (w : Writer) (text : string) : bool * Writer :=
  match room w with
  | Some O => (false, w)
  | Some (S n) => (true, {| written := written w ++ [text]; room := Some n |})
  | None => (true, {| written := written w ++ [text]; room := None |})
  end.

(** The slices indexed by contamination source. *)
Record Sources : Type := {
  contScanners : list BamScanner;
  reads_found : list Z;
  reads_filtered : list Z;
  rejected : list bool;
  found : list bool
}.

Record Counters : Type := {
  reads_kept : Z;
  read_mates_kept : Z;
  total_reads : Z;
  total_read_mates : Z;
  ercc : Z;
  considered : Z;
  too_short : Z;
  too_diverged : Z
}.

(** The variables of [main] that live across turns; [sample] is the
    cursor that [main] calls [scanner]. *)
Record Engine : Type := {
  sample : BamScanner;
  sources : Sources;
  counters : Counters;
  outfp : Writer
}.

Definition with_sample (e : Engine) (s : BamScanner) : Engine :=
  {| sample := s; sources := sources e; counters := counters e; outfp := outfp e |}.
Definition with_sources (e : Engine) (st : Sources) : Engine :=
  {| sample := sample e; sources := st; counters := counters e; outfp := outfp e |}.
Definition with_counters (e : Engine) (k : Counters) : Engine :=
  {| sample := sample e; sources := sources e; counters := k; outfp := outfp e |}.
Definition with_outfp (e : Engine) (w : Writer) : Engine :=
  {| sample := sample e; sources := sources e; counters := counters e; outfp := w |}.

(** [l[c]] and [l[c] = v], with Go's bounds check. *)
Definition get {A : Type} (l : list A) (c : nat) : outcome A :=
  match l !! c with
  | Some x => Returned x
  | None => Panicked (IndexOutOfRange c (length l))
  end.

Definition put {A : Type} (l : list A) (c : nat) (v : A) : outcome (list A) :=
  if (c <? length l)%nat then Returned (<[c:=v]> l)
  else Panicked (IndexOutOfRange c (length l)).

Definition extract_opt (row : option (list string)) : outcome (result (Z * Z)) :=
  match row with
  | Some row => extract row
  | None => Returned (Val (0, 0))
  end.

Definition MatchesErcc (mate1 : list string) (mate2 : option (list string)) : outcome bool :=
  if Ercc args then
    ref1 ← index mate1 2;
    if Contains ref1 "ERCC" then Returned true
    else
      match mate2 with
      | Some mate2 => ref2 ← index mate2 2; Returned (Contains ref2 "ERCC")
      | None => Returned false
      end
  else Returned false.

(** The variables of one turn that the preliminary filters work on. *)
Record Mates : Type := {
  mate1 : list string;
  mate2 : option (list string);
  mate1_len : Z;
  mate1_edit_dist : Z;
  mate2_len : Z;
  mate2_edit_dist : Z
}.

(** "Mate2 is okay, so we promote it to mate1, and forget mate2". *)
Definition promote (m : Mates) : Mates :=
  {| mate1 := default [] (mate2 m);
     mate2 := None;
     mate1_len := mate2_len m;
     mate1_edit_dist := mate2_edit_dist m;
     mate2_len := mate2_len m;
     mate2_edit_dist := mate2_edit_dist m |}.

Definition forget_mate2 (m : Mates) : Mates :=
  {| mate1 := mate1 m;
     mate2 := None;
     mate1_len := mate1_len m;
     mate1_edit_dist := mate1_edit_dist m;
     mate2_len := mate2_len m;
     mate2_edit_dist := mate2_edit_dist m |}.

(** The minimum-length filter; [None] is the [continue] that counts the
    pair as too short. *)
Definition min_length_filter (m : Mates) : option Mates :=
  let after_mate1 :=
    if mate1_len m <? MinLength args then
      if is_nil (mate2 m) || (mate2_len m <? MinLength args) then None
      else Some (promote m)
    else Some m in
  match after_mate1 with
  | None => None
  | Some m =>
    if negb (is_nil (mate2 m)) && (mate2_len m <? MinLength args)
    then Some (forget_mate2 m)
    else Some m
  end.

(** The maximum-edit-distance filter, "the same way as length". *)
Definition max_dist_filter (m : Mates) : option Mates :=
  let after_mate1 :=
    if mate1_edit_dist m >? MaxDist args then
      if is_nil (mate2 m) || (mate2_edit_dist m >? MaxDist args) then None
      else Some (promote m)
    else Some m in
  match after_mate1 with
  | None => None
  | Some m =>
    if negb (is_nil (mate2 m)) && (mate2_edit_dist m >? MaxDist args)
    then Some (forget_mate2 m)
    else Some m
  end.

(** [float64(length) - float64(edit_dist)*args.Penalty], each operation
    rounded on its own. *)
Definition score (length edit_dist : Z) : float :=
  PrimFloat.sub (float64_of_int length)
    (PrimFloat.mul (float64_of_int edit_dist) (Penalty args)).

Definition best_score (m : Mates) : float :=
  let mate1_score := score (mate1_len m) (mate1_edit_dist m) in
  match mate2 m with
  | Some _ =>
    let mate2_score := score (mate2_len m) (mate2_edit_dist m) in
    if PrimFloat.ltb mate1_score mate2_score then mate2_score else mate1_score
  | None => mate1_score
  end.

(** The test that rejects a read for one alignment of a contamination
    source. *)
Definition rejects (best : float) (length edit_dist : Z) : bool :=
  (length >=? MinLength args)
  && PrimFloat.leb best (PrimFloat.add (score length edit_dist) (Margin args)).

Definition mark_found (c : nat) (st : Sources) : outcome Sources :=
  f ← get (found st) c;
  if negb f then
    found' ← put (found st) c true;
    n ← get (reads_found st) c;
    reads_found' ← put (reads_found st) c (incr n);
    Returned {| contScanners := contScanners st; reads_found := reads_found';
                reads_filtered := reads_filtered st; rejected := rejected st;
                found := found' |}
  else Returned st.

Definition mark_rejected (c : nat) (st : Sources) (was_rejected : bool)
  : outcome (Sources * bool) :=
  r ← get (rejected st) c;
  if negb r then
    n ← get (reads_filtered st) c;
    reads_filtered' ← put (reads_filtered st) c (incr n);
    rejected' ← put (rejected st) c true;
    Returned ({| contScanners := contScanners st; reads_found := reads_found st;
                 reads_filtered := reads_filtered'; rejected := rejected';
                 found := found st |}, true)
  else Returned (st, was_rejected).

(** One pass through the body of the loop over the alignments of the
    read in source [c]: [inl] is the [break], [inr] the next iteration. *)
Definition scan_body (c : nat) (read : string) (best : float)
    (st : Sources) (was_rejected : bool)
  : outcome (Sources * bool + Sources * bool) :=
  sc ← get (contScanners st) c;
  '(r, sc) ← BamScanner_Find sc read;
  let st := {| contScanners := <[c:=sc]> (contScanners st);
               reads_found := reads_found st; reads_filtered := reads_filtered st;
               rejected := rejected st; found := found st |} in
  match r with
  | Error err => Exited (FatalError err)
  | Val None => Returned (inl (st, was_rejected))
  | Val (Some mate) =>
    st ← mark_found c st;
    x ← extract mate;
    match x with
    | Error err => Exited (FatalContRead c err)
    | Val (length, edit_dist) =>
      if rejects best length edit_dist then
        res ← mark_rejected c st was_rejected;
        Returned (inr res)
      else Returned (inr (st, was_rejected))
    end
  end.

Fixpoint scan_loop (fuel : nat) (c : nat) (read : string) (best : float)
    (st : Sources) (was_rejected : bool) : outcome (Sources * bool) :=
  match fuel with
  | O => Timeout
  | S fuel' =>
    step ← scan_body c read best st was_rejected;
    match step with
    | inl done => Returned done
    | inr (st, was_rejected) => scan_loop fuel' c read best st was_rejected
    end
  end.

Definition scan_source (c : nat) (read : string) (best : float)
    (st : Sources) (was_rejected : bool) : outcome (Sources * bool) :=
  let fuel := match contScanners st !! c with
              | Some sc => S (remaining sc)
              | None => 1%nat
              end in
  scan_loop fuel c read best st was_rejected.

(** [for c := 0; c < len(contamination); c++ { ... }], [todo] being the
    indices still to visit. *)
Fixpoint scan_sources (todo : list nat) (read : string) (best : float)
    (st : Sources) (was_rejected : bool) : outcome (Sources * bool) :=
  match todo with
  | [] => Returned (st, was_rejected)
  | c :: todo' =>
    '(st, was_rejected) ← scan_source c read best st was_rejected;
    scan_sources todo' read best st was_rejected
  end.

Definition contamination_check (read : string) (best : float) (st : Sources)
  : outcome (Sources * bool) :=
  scan_sources (seq 0 (length contamination)) read best st false.

(** [for c, _ := range contamination { rejected[c] = false; found[c] = false }] *)
Fixpoint reset_flags (todo : list nat) (st : Sources) : outcome Sources :=
  match todo with
  | [] => Returned st
  | c :: todo' =>
    rejected' ← put (rejected st) c false;
    found' ← put (found st) c false;
    reset_flags todo'
      {| contScanners := contScanners st; reads_found := reads_found st;
         reads_filtered := reads_filtered st; rejected := rejected'; found := found' |}
  end.

(** [n++] on each of the counters. *)
Definition incr_reads_kept (k : Counters) : Counters :=
  {| reads_kept := incr (reads_kept k);
     read_mates_kept := read_mates_kept k;
     total_reads := total_reads k;
     total_read_mates := total_read_mates k;
     ercc := ercc k;
     considered := considered k;
     too_short := too_short k;
     too_diverged := too_diverged k |}.
Definition incr_read_mates_kept (k : Counters) : Counters :=
  {| reads_kept := reads_kept k;
     read_mates_kept := incr (read_mates_kept k);
     total_reads := total_reads k;
     total_read_mates := total_read_mates k;
     ercc := ercc k;
     considered := considered k;
     too_short := too_short k;
     too_diverged := too_diverged k |}.
Definition incr_total_reads (k : Counters) : Counters :=
  {| reads_kept := reads_kept k;
     read_mates_kept := read_mates_kept k;
     total_reads := incr (total_reads k);
     total_read_mates := total_read_mates k;
     ercc := ercc k;
     considered := considered k;
     too_short := too_short k;
     too_diverged := too_diverged k |}.
Definition incr_total_read_mates (k : Counters) : Counters :=
  {| reads_kept := reads_kept k;
     read_mates_kept := read_mates_kept k;
     total_reads := total_reads k;
     total_read_mates := incr (total_read_mates k);
     ercc := ercc k;
     considered := considered k;
     too_short := too_short k;
     too_diverged := too_diverged k |}.
Definition incr_ercc (k : Counters) : Counters :=
  {| reads_kept := reads_kept k;
     read_mates_kept := read_mates_kept k;
     total_reads := total_reads k;
     total_read_mates := total_read_mates k;
     ercc := incr (ercc k);
     considered := considered k;
     too_short := too_short k;
     too_diverged := too_diverged k |}.
Definition incr_considered (k : Counters) : Counters :=
  {| reads_kept := reads_kept k;
     read_mates_kept := read_mates_kept k;
     total_reads := total_reads k;
     total_read_mates := total_read_mates k;
     ercc := ercc k;
     considered := incr (considered k);
     too_short := too_short k;
     too_diverged := too_diverged k |}.
Definition incr_too_short (k : Counters) : Counters :=
  {| reads_kept := reads_kept k;
     read_mates_kept := read_mates_kept k;
     total_reads := total_reads k;
     total_read_mates := total_read_mates k;
     ercc := ercc k;
     considered := considered k;
     too_short := incr (too_short k);
     too_diverged := too_diverged k |}.
Definition incr_too_diverged (k : Counters) : Counters :=
  {| reads_kept := reads_kept k;
     read_mates_kept := read_mates_kept k;
     total_reads := total_reads k;
     total_read_mates := total_read_mates k;
     ercc := ercc k;
     considered := considered k;
     too_short := too_short k;
     too_diverged := incr (too_diverged k) |}.

Definition count (bump : Counters -> Counters) (e : Engine) : Engine :=
  with_counters e (bump (counters e)).

(** How a turn of the loop ends: with the next turn, or with the
    [return] of the enclosing function, whose value is [nil] or an error. *)
Inductive control : Type :=
| Next
| Return (err : option error).

(** [fmt.Fprintf(outfp, "%s\n", strings.Join(row, "\t"))] writes this. *)
Definition output_line (row : list string) : string :=
  String.append (Join row (String tab "")) (String newline "").

(** Step 10 of the turn: the surviving mates go to the encoder. *)
Definition emit (m : Mates) (e : Engine) : control * Engine :=
  let '(ok, w) := Fprintf (outfp e) (output_line (mate1 m)) in
  if negb ok then (Return (Some ErrWrite), with_outfp e w)
  else
    let e := count incr_read_mates_kept (count incr_reads_kept (with_outfp e w)) in
    match mate2 m with
    | Some mate2 =>
      let '(ok, w) := Fprintf (outfp e) (output_line mate2) in
      if negb ok then (Return (Some ErrWrite), with_outfp e w)
      else (Next, count incr_read_mates_kept (with_outfp e w))
    | None => (Next, e)
    end.

(** The turn from the ERCC test on, for a read whose mates have been
    fetched and measured. *)
Definition judge (read : string) (m : Mates) (e : Engine) : outcome (control * Engine) :=
  is_ercc ← MatchesErcc (mate1 m) (mate2 m);
  if is_ercc : bool then Returned (Next, count incr_ercc e)
  else
    match min_length_filter m with
    | None => Returned (Next, count incr_too_short e)
    | Some m =>
      match max_dist_filter m with
      | None => Returned (Next, count incr_too_diverged e)
      | Some m =>
        let e := count incr_considered e in
        '(st, was_rejected) ← contamination_check read (best_score m) (sources e);
        let e := with_sources e st in
        if negb was_rejected then Returned (emit m e)
        else Returned (Next, e)
      end
    end.

(** One turn of the loop of [main]. *)
Definition turn (e : Engine) : outcome (control * Engine) :=
  if (Limit args >? 0) && (Limit args =? total_reads (counters e))
  then Returned (Return None, e)
  else
    st ← reset_flags (seq 0 (length contamination)) (sources e);
    let e := with_sources e st in
    '(r, sc) ← BamScanner_Record (sample e);
    let e := with_sample e sc in
    match r with
    | Error err =>
      Returned (Return (Some (ErrSampleRead err (total_reads (counters e)))), e)
    | Val row1 =>
      if Closed sc then Returned (Return None, e)
      else
        let e := with_sample e (BamScanner_Ratchet sc) in
        let row1 := default [] row1 in
        read ← index row1 0;
        let e := count incr_total_read_mates (count incr_total_reads e) in
        '(r, sc) ← BamScanner_Find (sample e) read;
        let e := with_sample e sc in
        match r with
        | Error err =>
          Returned (Return (Some (ErrSampleRead err (total_reads (counters e)))), e)
        | Val row2 =>
          let e := match row2 with
                   | Some _ =>
                     count incr_total_read_mates (with_sample e (BamScanner_Ratchet sc))
                   | None => e
                   end in
          x1 ← extract row1;
          match x1 with
          | Error err => Returned (Return (Some err), e)
          | Val (len1, dist1) =>
            x2 ← extract_opt row2;
            match x2 with
            | Error err => Returned (Return (Some err), e)
            | Val (len2, dist2) =>
              judge read
                {| mate1 := row1; mate2 := row2;
                   mate1_len := len1; mate1_edit_dist := dist1;
                   mate2_len := len2; mate2_edit_dist := dist2 |} e
            end
          end
        end
    end.

Fixpoint main_loop (fuel : nat) (e : Engine) : outcome (option error * Engine) :=
  match fuel with
  | O => Timeout
  | S fuel' =>
    '(ctl, e) ← turn e;
    match ctl with
    | Return err => Returned (err, e)
    | Next => main_loop fuel' e
    end
  end.

(** The state at the head of the loop, and the run of the loop. *)
Definition start (sample_input : Scanner) (pipe : option nat) : Engine :=
  let n := length contamination in
  {| sample := OpenBam sample_input;
     sources := {| contScanners := map OpenBam contamination;
                   reads_found := replicate n 0;
                   reads_filtered := replicate n 0;
                   rejected := replicate n false;
                   found := replicate n false |};
     counters := {| reads_kept := 0; read_mates_kept := 0; total_reads := 0;
                    total_read_mates := 0; ercc := 0; considered := 0;
                    too_short := 0; too_diverged := 0 |};
     outfp := {| written := []; room := pipe |} |}.

Definition run (e : Engine) : outcome (option error * Engine) :=
  main_loop (S (remaining (sample e))) e.

(** *** The sort-order checker

    The [main] of the file of [strnum_cmp]: it reads the decoded lines of
    a file, or of the standard input, compares the first field of each
    line with that of the line before, and prints [OK] and the number of
    lines, or ends the process through [log.Fatal] at the first line out
    of order or on a read error.  How the decoder is started and waited
    for is left out. *)
Inductive verdict : Type :=
| PrintedOK (line_no : Z)        (* fmt.Println("OK", line_no) *)
| FatalSortOrder (line_no : Z)   (* log.Fatalf("sorting order violated at line %d", line_no) *)
| FatalScanner.                  (* log.Fatal("scanner errored: ", err) *)

(** [for scanner.Scan() { ... }], and what follows the loop. *)
Fixpoint checker_loop (fuel : nat) (sc : Scanner) (prev : string) (line_no : Z)
  : outcome verdict :=
  match fuel with
  | O => Timeout
  | S fuel' =>
    let '(text, err, sc) := Scan sc in
    match text with
    | Some text =>
      let line_no := incr line_no in
      let line := TrimSpace text in
      let fields := Split line tab in
      read_name ← index fields 0;
      if negb (String.eqb prev "") then
        v ← strnum_cmp prev read_name;
        if v >? 0 then Returned (FatalSortOrder line_no)
        else checker_loop fuel' sc read_name line_no
      else checker_loop fuel' sc read_name line_no
    | None =>
      if err then Returned FatalScanner else Returned (PrintedOK line_no)
    end
  end.

Definition checker_main (input : Scanner) : outcome verdict :=
  checker_loop (S (length (tokens input))) input "" 0.


(** *** The end of [main]

    When the loop has ended without an error, [main] logs a report and,
    last, the line of "machine parsable stats": the counters, then the
    counts of reads found and of reads rejected of the sources.  The lines
    of the report before it, with their percentages, are left out. *)
Definition stats (e : Engine) : list Z :=
  let k := counters e in
  [total_reads k; total_read_mates k; ercc k; too_short k; too_diverged k;
   considered k; reads_kept k; read_mates_kept k]
  ++ reads_found (sources e) ++ reads_filtered (sources e).

Definition statsStr (e : Engine) : string :=
  fold_left (fun statsStr s => String.append statsStr (String tab (fmt_d s)))
    (stats e) "stats".

(** *** The loop of the [main] for unpaired reads

    The [main] that does not pair the mates of a read: every line of the
    sample is a read of its own; the limit is tested after a record has
    been read; the read is filtered on its length and on its edit
    distance before the ERCC test; contamination alignments have their
    own minimum length; and each source is asked twice for the read.  Its
    flags are variables of the package.  It shares [extract] and the
    cursor with the other [main]; its state is given as an [Engine],
    whose two counters of mates it does not have and leaves alone. *)
Record Flags : Type := {
  margin : float;
  minsamplen : Z;
  mincontlen : Z;
  maxdist : Z;
  limit : Z;
  penalty : float;
  filterErcc : bool
}.

Variable flags : Flags.

(** [float64(length) - float64(edit_dist)*penalty] *)
Definition flag_score (length edit_dist : Z) : float :=
  PrimFloat.sub (float64_of_int length)
    (PrimFloat.mul (float64_of_int edit_dist) (penalty flags)).

(** One pass through the body of [for m := 0; m < 2; m++] for the
    source [c]. *)
Definition find_alignment (c : nat) (read : string) (sample_score : float)
    (st : Sources) (was_rejected : bool) : outcome (Sources * bool) :=
  sc ← get (contScanners st) c;
  '(r, sc) ← BamScanner_Find sc read;
  let st := {| contScanners := <[c:=sc]> (contScanners st);
               reads_found := reads_found st; reads_filtered := reads_filtered st;
               rejected := rejected st; found := found st |} in
  match r with
  | Error err => Exited (FatalError err)
  | Val None => Returned (st, was_rejected)
  | Val (Some mate) =>
    st ← mark_found c st;
    x ← extract mate;
    match x with
    | Error err => Exited (FatalContRead c err)
    | Val (length, edit_dist) =>
      if (length >=? mincontlen flags)
         && PrimFloat.leb sample_score
              (PrimFloat.add (flag_score length edit_dist) (margin flags))
      then mark_rejected c st was_rejected
      else Returned (st, was_rejected)
    end
  end.

(** [for c := 0; c < len(contamination); c++ { for m := 0; m < 2; m++ { ... } }],
    [todo] being the indices still to visit. *)
Fixpoint check_sources (todo : list nat) (read : string) (sample_score : float)
    (st : Sources) (was_rejected : bool) : outcome (Sources * bool) :=
  match todo with
  | [] => Returned (st, was_rejected)
  | c :: todo' =>
    '(st, was_rejected) ← find_alignment c read sample_score st was_rejected;
    '(st, was_rejected) ← find_alignment c read sample_score st was_rejected;
    check_sources todo' read sample_score st was_rejected
  end.

(** [filterErcc && strings.Contains(record[2], "ERCC")] *)
Definition is_ercc_record (record : list string) : outcome bool :=
  if filterErcc flags then
    ref ← index record 2;
    Returned (Contains ref "ERCC")
  else Returned false.

(** One turn of the loop. *)
Definition unpaired_turn (e : Engine) : outcome (control * Engine) :=
  st ← reset_flags (seq 0 (length contamination)) (sources e);
  let e := with_sources e st in
  '(r, sc) ← BamScanner_Record (sample e);
  let e := with_sample e sc in
  match r with
  | Error err =>
    Returned (Return (Some (ErrSampleRead err (total_reads (counters e)))), e)
  | Val record =>
    if Closed sc then Returned (Return None, e)
    else
      let e := with_sample e (BamScanner_Ratchet sc) in
      let record := default [] record in
      if (limit flags >? 0) && (limit flags =? total_reads (counters e))
      then Returned (Return None, e)
      else
        let e := count incr_total_reads e in
        x ← extract record;
        match x with
        | Error err => Returned (Return (Some err), e)
        | Val (sample_len, sample_edit_dist) =>
          if sample_len <? minsamplen flags
          then Returned (Next, count incr_too_short e)
          else if sample_edit_dist >? maxdist flags
          then Returned (Next, count incr_too_diverged e)
          else
            let sample_score := flag_score sample_len sample_edit_dist in
            read ← index record 0;
            is_ercc ← is_ercc_record record;
            if is_ercc : bool then Returned (Next, count incr_ercc e)
            else
              let e := count incr_considered e in
              '(st, was_rejected) ←
                check_sources (seq 0 (length contamination)) read sample_score
                  (sources e) false;
              let e := with_sources e st in
              if negb was_rejected then
                let '(ok, w) := Fprintf (outfp e) (output_line record) in
                if negb ok then Returned (Return (Some ErrWrite), with_outfp e w)
                else Returned (Next, count incr_reads_kept (with_outfp e w))
              else Returned (Next, e)
        end
  end.

Fixpoint unpaired_loop (fuel : nat) (e : Engine) : outcome (option error * Engine) :=
  match fuel with
  | O => Timeout
  | S fuel' =>
    '(ctl, e) ← unpaired_turn e;
    match ctl with
    | Return err => Returned (err, e)
    | Next => unpaired_loop fuel' e
    end
  end.

Definition unpaired_run (e : Engine) : outcome (option error * Engine) :=
  unpaired_loop (S (remaining (sample e))) e.

(** ** The vocabulary of the statements *)

(** *** Streams read to their end

    The record a line stands for, its identifier, and the client that
    takes the records of a cursor one by one, [Record] then [Ratchet],
    until the cursor reports the end of the stream or an error.  The
    statements about whole streams are made on it. *)
Definition fields_of (text : string) : list string := Split (TrimSpace text) tab.

Definition ident (text : string) : string := field (fields_of text) 0.

Fixpoint read_all (fuel : nat) (s : BamScanner)
  : outcome (list (list string) * option error) :=
  match fuel with
  | O => Timeout
  | S fuel' =>
    '(r, s) ← BamScanner_Record s;
    match r with
    | Error e => Returned ([], Some e)
    | Val None => Returned ([], None)
    | Val (Some row) =>
      '(rows, e) ← read_all fuel' (BamScanner_Ratchet s);
      Returned (row :: rows, e)
    end
  end.

Definition read_stream (s : BamScanner) : outcome (list (list string) * option error) :=
  read_all (S (remaining s)) s.

(** Two identifiers in the order the comparator accepts, and in the
    order it reports as a violation. *)
Definition in_order (p q : string) : Prop :=
  exists v : Z, strnum_cmp p q = Returned v /\ v <= 0.

Definition out_of_order (p q : string) : Prop :=
  exists v : Z, strnum_cmp p q = Returned v /\ 0 < v.

Fixpoint nondecreasing_from (p : string) (lines : list string) : Prop :=
  match lines with
  | [] => True
  | l :: lines' => in_order p (ident l) /\ nondecreasing_from (ident l) lines'
  end.

Definition nondecreasing (lines : list string) : Prop :=
  match lines with
  | [] => True
  | l :: lines' => nondecreasing_from (ident l) lines'
  end.

(** The order that [Record] checks along a stream: each line against the
    identifier read before it, the first line of a fresh cursor against
    nothing. *)
Fixpoint checked_from (p : string) (lines : list string) : Prop :=
  match lines with
  | [] => True
  | l :: lines' => (p = "" \/ in_order p (ident l)) /\ checked_from (ident l) lines'
  end.

(** *** The contamination check on one source

    The loop over the alignments of source [c] reads and writes the
    slices at index [c] only.  [view] gathers what they hold there,
    [update] writes it back, and [source_step] is the body of the loop on
    the gathered values. *)
Record Source : Type := {
  cursor : BamScanner;
  was_found : bool;
  was_rejected_by : bool;
  n_found : Z;
  n_filtered : Z
}.

Definition view (c : nat) (st : Sources) : option Source :=
  match contScanners st !! c, found st !! c, rejected st !! c,
        reads_found st !! c, reads_filtered st !! c with
  | Some sc, Some f, Some r, Some nf, Some nr =>
    Some {| cursor := sc; was_found := f; was_rejected_by := r;
            n_found := nf; n_filtered := nr |}
  | _, _, _, _, _ => None
  end.

Definition update (c : nat) (v : Source) (st : Sources) : Sources :=
  {| contScanners := <[c := cursor v]> (contScanners st);
     reads_found := <[c := n_found v]> (reads_found st);
     reads_filtered := <[c := n_filtered v]> (reads_filtered st);
     rejected := <[c := was_rejected_by v]> (rejected st);
     found := <[c := was_found v]> (found st) |}.

Definition source_step (c : nat) (read : string) (best : float) (v : Source)
  : outcome (Source + Source) :=
  '(r, sc) ← BamScanner_Find (cursor v) read;
  match r with
  | Error err => Exited (FatalError err)
  | Val None =>
    Returned (inl {| cursor := sc; was_found := was_found v;
                     was_rejected_by := was_rejected_by v;
                     n_found := n_found v; n_filtered := n_filtered v |})
  | Val (Some mate) =>
    x ← extract mate;
    match x with
    | Error err => Exited (FatalContRead c err)
    | Val (length, edit_dist) =>
      let hit := rejects best length edit_dist in
      Returned (inr {| cursor := sc;
                       was_found := true;
                       was_rejected_by := was_rejected_by v || hit;
                       n_found := if was_found v then n_found v else incr (n_found v);
                       n_filtered := if negb (was_rejected_by v) && hit
                                     then incr (n_filtered v) else n_filtered v |})
    end
  end.

Definition newly_rejected (v v' : Source) : bool :=
  negb (was_rejected_by v) && was_rejected_by v'.

Fixpoint source_loop (fuel : nat) (c : nat) (read : string) (best : float)
    (v : Source) : outcome Source :=
  match fuel with
  | O => Timeout
  | S fuel' =>
    step ← source_step c read best v;
    match step with
    | inl v' => Returned v'
    | inr v' => source_loop fuel' c read best v'
    end
  end.

(** The alignments that repeated calls of [Find(read)] take from a
    cursor, up to the call that returns no record. *)
Inductive consumes (read : string)
  : BamScanner -> list (list string) -> BamScanner -> Prop :=
| consumes_none (s s' : BamScanner) :
    BamScanner_Find s read = Returned (Val None, s') ->
    consumes read s [] s'
| consumes_one (s s1 s' : BamScanner) (mate : list string) (mates : list (list string)) :
    BamScanner_Find s read = Returned (Val (Some mate), s1) ->
    consumes read s1 mates s' ->
    consumes read s (mate :: mates) s'.

(** An alignment that rejects the read: [extract] measures it, it is
    long enough, and the best score of the read is at most its score plus
    the margin. *)
Definition rejecting (best : float) (mate : list string) : bool :=
  match extract mate with
  | Returned (Val (length, edit_dist)) => rejects best length edit_dist
  | _ => false
  end.

Definition any_alignment (mates : list (list string)) : bool :=
  match mates with
  | [] => false
  | _ :: _ => true
  end.

(** The slices have one entry for each contamination file. *)
Definition sized (st : Sources) : Prop :=
  length (contScanners st) = length contamination /\
  length (reads_found st) = length contamination /\
  length (reads_filtered st) = length contamination /\
  length (rejected st) = length contamination /\
  length (found st) = length contamination.

(** The flags of every source are down, as the loop of [main] puts them
    at the head of each turn. *)
Definition flags_clear (st : Sources) : Prop :=
  forall c : nat, (c < length contamination)%nat ->
    found st !! c = Some false /\ rejected st !! c = Some false.

(** *** The counters

    No counter has gone down from [k] to [k'], nor a count of a source
    from [st] to [st']. *)
Definition le_counters (k k' : Counters) : Prop :=
  reads_kept k <= reads_kept k' /\ read_mates_kept k <= read_mates_kept k' /\
  total_reads k <= total_reads k' /\ total_read_mates k <= total_read_mates k' /\
  ercc k <= ercc k' /\ considered k <= considered k' /\
  too_short k <= too_short k' /\ too_diverged k <= too_diverged k'.

Definition le_sources (st st' : Sources) : Prop :=
  forall (c : nat) (x x' : Z),
    (reads_found st !! c = Some x -> reads_found st' !! c = Some x' -> x <= x') /\
    (reads_filtered st !! c = Some x -> reads_filtered st' !! c = Some x' -> x <= x').

(** The relations between the counters that C10 is about. *)
Definition tally (e : Engine) : Prop :=
  let k := counters e in
  total_reads k = ercc k + too_short k + too_diverged k + considered k /\
  reads_kept k <= considered k /\
  forall (c : nat) (nf nr : Z),
    reads_found (sources e) !! c = Some nf ->
    reads_filtered (sources e) !! c = Some nr ->
    nr <= nf /\ nf <= considered k.

(** The bookkeeping of the proof.  [d] is 1 between the count of a read
    and its classification, [s] is the number of mates of the turn not
    yet written, [j] is 1 between the count of a read as considered and
    its emission.  [n] bounds the records of the sample, [k0] and [st0]
    are the counts the run is compared with. *)
Definition ledger (d s j : Z) (n : Z) (k0 : Counters) (st0 : Sources) (e : Engine)
  : Prop :=
  let k := counters e in
  sized (sources e) /\
  total_reads k = ercc k + too_short k + too_diverged k + considered k + d /\
  (0 <= ercc k /\ 0 <= too_short k /\ 0 <= too_diverged k) /\
  (0 <= reads_kept k /\ reads_kept k + j <= considered k) /\
  (0 <= read_mates_kept k /\ read_mates_kept k + s <= total_read_mates k) /\
  total_reads k <= total_read_mates k /\
  total_read_mates k + Z.of_nat (remaining (sample e)) <= n /\
  (forall (c : nat) (nf nr : Z),
      reads_found (sources e) !! c = Some nf ->
      reads_filtered (sources e) !! c = Some nr ->
      0 <= nr /\ nr <= nf /\ nf <= considered k) /\
  le_counters k0 k /\ le_sources st0 (sources e).

(** How the bookkeeping stands when a turn has ended: in order after
    [Next] and after the [return] of [nil]; after the [return] of an
    error a read may be counted and not classified. *)
Definition settled (n : Z) (k0 : Counters) (st0 : Sources) (ctl : control)
    (e : Engine) : Prop :=
  match ctl with
  | Return (Some _) => ledger 0 0 0 n k0 st0 e \/ ledger 1 0 0 n k0 st0 e
  | _ => ledger 0 0 0 n k0 st0 e
  end.

(** The states at the head of the turns of a run that starts in [e0]. *)
Inductive head_of_turn (e0 : Engine) : Engine -> Prop :=
| head_first : head_of_turn e0 e0
| head_next (e e' : Engine) :
    head_of_turn e0 e -> turn e = Returned (Next, e') -> head_of_turn e0 e'.

(** *** Identifiers that end in a number

    The bytes of a string all pass a test; an ASCII byte that is not a
    digit; a rune that is one of '0'..'9'; and the number that a run of
    such runes writes in decimal. *)
Definition all_bytes (f : ascii -> bool) (s : string) : bool :=
  forallb f (list_ascii_of_string s).

Definition ascii_no_digit (c : ascii) : bool :=
  (byte c <? 128) && negb (is_ascii_digit c).

Definition digit_rune (r : rune) : Prop := 48 <= r <= 57.

Definition num_from (acc : Z) (ds : list rune) : Z :=
  fold_left (fun acc r => acc * 10 + (r - 48)) ds acc.

Definition num (ds : list rune) : Z := num_from 0 ds.

(** *** A cursor along its stream

    The state of a cursor that has scanned [n] lines of a stream without
    read errors, with the lines still to scan, the identifier read last,
    the cache and the end-of-stream flag as given; and a line whose
    identifier the comparator places strictly before [id]. *)
Definition cursor_at (n : Z) (rest : list string) (last : string)
    (cache : option (list string)) (closed : bool) : BamScanner :=
  {| LineNumber := wrap64 n;
     scanner := {| tokens := rest; read_error := None |};
     prev := last; record := cache; Closed := closed |}.

Definition orders_before (id : string) (l : string) : Prop :=
  ident l <> id /\ exists v : Z, strnum_cmp (ident l) id = Returned v /\ v < 0.

(** *** The mates of a pair and the preliminary criteria

    The alignments a pair holds, each with its length and its edit
    distance as [extract] has measured them; an alignment that reaches
    the minimum length, and one that also stays within the maximum edit
    distance. *)
Definition mates_of (m : Mates) : list (list string * Z * Z) :=
  (mate1 m, mate1_len m, mate1_edit_dist m)
  :: match mate2 m with
     | Some row => [(row, mate2_len m, mate2_edit_dist m)]
     | None => []
     end.

Definition long_enough (x : list string * Z * Z) : bool :=
  MinLength args <=? snd (fst x).

Definition passes (x : list string * Z * Z) : bool :=
  (MinLength args <=? snd (fst x)) && (snd x <=? MaxDist args).

(** *** The checker and the cursor on one stream

    The outcome of reading a stream to its end through the cursor and the
    outcome of the checker on it say the same: both accept the stream,
    [n] being the count of lines that the checker prints; or both stop at
    the same line for its order; or both end in the same fatal exit of
    the comparator. *)
Definition agree (cursor : outcome (list (list string) * option error))
    (checker : outcome verdict) (n : Z) : Prop :=
  match cursor with
  | Returned (_, None) => checker = Returned (PrintedOK n)
  | Returned (_, Some (ErrSortOrder line)) => checker = Returned (FatalSortOrder line)
  | Exited f => checker = Exited f
  | _ => False
  end.

(** *** What a turn of the loop adds

    A counter after [k] increments; the rows a pair holds; the line that
    the filter writes for a line of the sample that it keeps; and the
    lines of its stream that a cursor stands before, the cached record
    being the fields of the first of them. *)
Definition bump (k : nat) (x : Z) : Z := Nat.iter k incr x.

Definition rows (m : Mates) : list (list string) :=
  mate1 m :: match mate2 m with
             | Some row => [row]
             | None => []
             end.

Definition kept_line (l : string) : string :=
  String.append (TrimSpace l) (String newline "").

Definition pending (s : BamScanner) (ls : list string) : Prop :=
  match record s with
  | Some row => exists l : string, row = fields_of l /\ ls = l :: tokens (scanner s)
  | None => ls = tokens (scanner s)
  end.

(** The turn at whose head the limit of reads is reached. *)
Definition limit_reached (e : Engine) : bool :=
  (Limit args >? 0) && (Limit args =? total_reads (counters e)).

(** *** The panics of the loop

    The panic of the slice [edit_tag[:5]] on a tag of fewer than five
    bytes; and sources whose cursors each stand before lines of their
    stream. *)
Definition tag_panic (p : panic) : Prop :=
  exists l : Z, p = SliceBoundsOutOfRange 5 l /\ 0 <= l < 5.

Definition cursors_ready (st : Sources) : Prop :=
  Forall (fun sc => exists ls : list string, pending sc ls) (contScanners st).


(** *** The reads that the sources reject

    The sum of the counts of a slice; and what a turn, or the end of
    one, adds from [e] to [e']: [dc] to the reads considered, [dk] to the
    reads kept, and one to the count of rejected reads of the sources
    that reject, [w] being raised when some source does. *)
Definition sum_counts (l : list Z) : Z := foldr Z.add 0 l.

Definition rejection_step (ctl : control) (e e' : Engine) : Prop :=
  exists (dc dk : nat) (w : bool),
    considered (counters e') = bump dc (considered (counters e)) /\
    reads_kept (counters e') = bump dk (reads_kept (counters e)) /\
    (dk <= dc <= 1)%nat /\
    (forall (c : nat) (nr' : Z),
        reads_filtered (sources e') !! c = Some nr' ->
        exists nr : Z,
          reads_filtered (sources e) !! c = Some nr /\
          (nr' = nr \/ (nr' = incr nr /\ w = true))) /\
    (w = true ->
     dc = 1%nat /\ dk = 0%nat /\
     exists (c : nat) (nr : Z),
       reads_filtered (sources e) !! c = Some nr /\
       reads_filtered (sources e') !! c = Some (incr nr)) /\
    (w = false -> ctl <> Return (Some ErrWrite) -> dk = dc).

(** *** The loop for unpaired reads

    Within a turn the counts of a source follow its flags: the count of
    reads found is one more than in [st0] when [found] is raised, the
    count of reads rejected is one more when [rejected] is raised, and
    [rejected] is raised only after [found]. *)
Definition flags_track (st0 st : Sources) : Prop :=
  sized st /\
  forall c : nat, (c < length contamination)%nat ->
    exists (nf nr : Z) (f r : bool),
      reads_found st0 !! c = Some nf /\ reads_filtered st0 !! c = Some nr /\
      found st !! c = Some f /\ rejected st !! c = Some r /\
      reads_found st !! c = Some (if f then incr nf else nf) /\
      reads_filtered st !! c = Some (if r then incr nr else nr) /\
      (r = true -> f = true).

Definition some_rejected (st : Sources) : Prop :=
  exists c : nat, rejected st !! c = Some true.

(** The relations between the counters, [d] being 1 between the count of
    a read and its classification; and the reads considered and not kept
    being covered by the rejections of the sources. *)
Definition unpaired_books (d : Z) (e : Engine) : Prop :=
  let k := counters e in
  total_reads k = too_short k + too_diverged k + ercc k + considered k + d /\
  (0 <= too_short k /\ 0 <= too_diverged k /\ 0 <= ercc k) /\
  (0 <= reads_kept k /\ reads_kept k <= considered k) /\
  reads_kept k = Z.of_nat (length (written (outfp e))) /\
  (forall (c : nat) (nf nr : Z),
      reads_found (sources e) !! c = Some nf ->
      reads_filtered (sources e) !! c = Some nr ->
      0 <= nr /\ nr <= nf /\ nf <= considered k) /\
  (forall (c : nat) (nr : Z),
      reads_filtered (sources e) !! c = Some nr ->
      nr <= considered k - reads_kept k).

Definition rejections_cover (e : Engine) : Prop :=
  considered (counters e) - reads_kept (counters e)
  <= sum_counts (reads_filtered (sources e)).

(** What holds at the head of every turn of the loop on a sample of the
    lines [lines]: the lines before [rest] have been read, each as one
    read. *)
Definition unpaired_head (lines : list string) (e : Engine) : Prop :=
  exists done_ rest : list string,
    lines = done_ ++ rest /\ pending (sample e) rest /\ Closed (sample e) = false /\
    sized (sources e) /\
    total_reads (counters e) = Z.of_nat (length done_) /\
    unpaired_books 0 e /\ rejections_cover e /\
    sublist (written (outfp e)) (map kept_line done_).

(** What holds when the loop has ended with [err]. *)
Definition unpaired_end (lines : list string) (err : option error) (e : Engine) : Prop :=
  (unpaired_books 0 e \/ (err <> None /\ unpaired_books 1 e)) /\
  (err <> Some ErrWrite -> rejections_cover e) /\
  sublist (written (outfp e)) (map kept_line lines) /\
  (err = None ->
   (Closed (sample e) = true /\ total_reads (counters e) = Z.of_nat (length lines)) \/
   (Closed (sample e) = false /\ 0 < limit flags /\
    total_reads (counters e) = limit flags /\
    Z.of_nat (remaining (sample e)) + total_reads (counters e) + 1
    = Z.of_nat (length lines))).

(** *** Identifiers that differ in a number

    An ASCII byte; a string whose last byte is a digit, and one whose
    first byte is; and a run of runes that does not end in a digit. *)
Definition is_ascii (c : ascii) : bool := byte c <? 128.

Definition ends_with_digit (s : string) : bool :=
  match last (list_ascii_of_string s) with
  | Some c => is_ascii_digit c
  | None => false
  end.

Definition starts_with_digit (s : string) : bool :=
  match s with
  | String c _ => is_ascii_digit c
  | EmptyString => false
  end.

Definition off_digit_last (R : list rune) : Prop :=
  match last R with
  | Some r => IsDigit r = false
  | None => True
  end.

(** ** Properties *)

(** *** Reading the monad *)

Lemma bind_Returned {A B : Type} (m : outcome A) (k : A -> outcome B) (b : B) :
  mbind k m = Returned b -> exists a, m = Returned a /\ k a = Returned b.
Proof. destruct m; simpl; intros H; try discriminate. eauto. Qed.

Lemma bind_not_Timeout {A B : Type} (m : outcome A) (k : A -> outcome B) :
  m <> Timeout -> (forall a, m = Returned a -> k a <> Timeout) -> mbind k m <> Timeout.
Proof. destruct m; simpl; intros Hm Hk; try discriminate; auto. Qed.

Lemma digitToInt_not_Timeout (s : string) : digitToInt s <> Timeout.
Proof. unfold digitToInt. destruct (Atoi s); discriminate. Qed.

(** *** The comparator always comes to an end *)

Lemma skip_zeros_ge (rest : list rune) (i : nat) : (i <= skip_zeros rest i)%nat.
Proof.
  revert i. induction rest as [|r rest IH]; intros i; simpl; [lia|].
  destruct (r =? 48); [|lia]. specialize (IH (S i)). lia.
Qed.

Lemma skip_equal_digits_ge (ra rb : list rune) (i j : nat) :
  (i <= fst (skip_equal_digits ra rb i j))%nat.
Proof.
  revert rb i j. induction ra as [|x ra IH]; intros [|y rb] i j; simpl; try lia.
  destruct (IsDigit x && IsDigit y && (x =? y)); simpl; [|lia].
  specialize (IH rb (S i) (S j)). lia.
Qed.

Lemma strnum_loop_terminates (fuel : nat) (a b : list rune) (i j : nat) :
  (length a - i < fuel)%nat -> strnum_loop fuel a b i j <> Timeout.
Proof.
  revert i j. induction fuel as [|fuel IH]; intros i j Hfuel; [lia|].
  simpl. destruct (a !! i) as [ai|] eqn:Hai; [|repeat case_match; discriminate].
  destruct (b !! j) as [bj|] eqn:Hbj; [|repeat case_match; discriminate].
  apply lookup_lt_Some in Hai as Hlt.
  destruct (IsDigit ai && IsDigit bj) eqn:Hdig.
  - pose proof (skip_zeros_ge (drop i a) i) as Hz.
    pose proof (skip_equal_digits_ge
                  (drop (skip_zeros (drop i a) i) a)
                  (drop (skip_zeros (drop j b) j) b)
                  (skip_zeros (drop i a) i) (skip_zeros (drop j b) j)) as He.
    destruct (skip_equal_digits _ _ _ _) as [i' j'] eqn:Hskip. simpl in He.
    destruct (digit_at a i' && digit_at b j') eqn:Hboth.
    + repeat case_match; try discriminate.
      apply bind_not_Timeout; [apply digitToInt_not_Timeout|]. intros x _.
      apply bind_not_Timeout; [apply digitToInt_not_Timeout|]. discriminate.
    + destruct (digit_at a i') eqn:Hda; [discriminate|].
      repeat case_match; try discriminate.
      apply IH.
      assert (i' <> i) as Hne.
      { intros ->. unfold digit_at in Hda. rewrite Hai in Hda.
        apply andb_true_iff in Hdig as [Hd _]. congruence. }
      lia.
  - destruct (negb (ai =? bj)).
    + apply bind_not_Timeout; [apply digitToInt_not_Timeout|]. intros x _.
      apply bind_not_Timeout; [apply digitToInt_not_Timeout|]. discriminate.
    + apply IH. lia.
Qed.

Lemma strnum_cmp_terminates (a b : string) : strnum_cmp a b <> Timeout.
Proof. unfold strnum_cmp. apply strnum_loop_terminates. lia. Qed.

(** *** The cursor: [Record], [Ratchet] and [Find] *)

Lemma Record_cached (s : BamScanner) (row : list string) :
  record s = Some row -> BamScanner_Record s = Returned (Val (Some row), s).
Proof. intros H. unfold BamScanner_Record. rewrite H. reflexivity. Qed.

Lemma Scan_some (sc sc' : Scanner) (text : string) (err : bool) :
  Scan sc = (Some text, err, sc') -> tokens sc = text :: tokens sc'.
Proof.
  unfold Scan. destruct (tokens sc) as [|t rest], (read_error sc) as [[|n]|];
    intros [= <- <- <-]; reflexivity.
Qed.

Lemma Scan_none (sc sc' : Scanner) (err : bool) :
  Scan sc = (None, err, sc') ->
  tokens sc = [] /\ tokens sc' = [] /\ err = bool_decide (is_Some (read_error sc)).
Proof.
  unfold Scan. destruct (tokens sc) as [|t rest] eqn:Ht, (read_error sc) as [[|n]|];
    intros [= <- <-]; simpl; auto.
Qed.

Lemma Record_line_not_Timeout (s : BamScanner) (sc : Scanner) (text : string) :
  Record_line s sc text <> Timeout.
Proof.
  unfold Record_line. repeat case_match; try discriminate.
  apply bind_not_Timeout; [apply strnum_cmp_terminates|].
  intros v _. case_match; discriminate.
Qed.

Lemma Record_not_Timeout (s : BamScanner) : BamScanner_Record s <> Timeout.
Proof.
  unfold BamScanner_Record. repeat case_match; try discriminate.
  apply Record_line_not_Timeout.
Qed.

Lemma Record_line_some (s s1 : BamScanner) (sc : Scanner) (text : string)
    (row : list string) :
  Record_line s sc text = Returned (Val (Some row), s1) ->
  record s1 = Some row /\ scanner s1 = sc /\ Closed s1 = false.
Proof.
  unfold Record_line. intros H.
  repeat case_match; try discriminate;
    try (apply bind_Returned in H as (? & _ & H); case_match; try discriminate);
    injection H as <- <-; auto.
Qed.

(** A record that [Record] returns is in the cache of the state it
    leaves, nothing of the stream has been dropped, and the cursor is not
    closed unless it was. *)
Lemma Record_some (s s1 : BamScanner) (row : list string) :
  BamScanner_Record s = Returned (Val (Some row), s1) ->
  record s1 = Some row /\ remaining s1 = remaining s /\
  (Closed s = false -> Closed s1 = false).
Proof.
  unfold BamScanner_Record, remaining.
  destruct (record s) as [r|] eqn:Hrec.
  { intros [= <- <-]. rewrite Hrec. auto. }
  destruct (Scan (scanner s)) as [[text err] sc] eqn:Hscan.
  destruct err; [discriminate|]. destruct text as [text|]; [|discriminate].
  intros H. apply Record_line_some in H as (-> & -> & ->).
  apply Scan_some in Hscan as ->. simpl. auto.
Qed.

Lemma Find_body_not_Timeout (s : BamScanner) (read : string) :
  Find_body s read <> Timeout.
Proof.
  unfold Find_body. case_match; [discriminate|].
  apply bind_not_Timeout; [apply Record_not_Timeout|].
  intros [r s1] _. repeat case_match; try discriminate.
  unfold index. case_match; simpl; [|discriminate].
  case_match; [discriminate|].
  apply bind_not_Timeout; [apply strnum_cmp_terminates|].
  intros ? _. case_match; discriminate.
Qed.

(** The body of the loop of [Find] goes to a next iteration only after
    it has advanced past a record. *)
Lemma Find_body_next (s s' : BamScanner) (read : string) :
  Find_body s read = Returned (inr s') ->
  (remaining s' < remaining s)%nat /\ Closed s' = false.
Proof.
  unfold Find_body. destruct (Closed s) eqn:Hc; [discriminate|].
  intros H. apply bind_Returned in H as ([r s1] & Hrec & H).
  destruct r as [row|e]; [|discriminate].
  destruct (Closed s1) eqn:Hc1; [discriminate|].
  destruct row as [row|]; simpl in H; [|discriminate].
  apply Record_some in Hrec as (Hcache & Hrem & _).
  apply bind_Returned in H as (id & _ & H).
  destruct (String.eqb id read); [discriminate|].
  apply bind_Returned in H as (v & _ & H).
  destruct (v <? 0); [|discriminate]. injection H as <-.
  unfold remaining in *. rewrite Hcache in Hrem. simpl in *. split; [lia|done].
Qed.

Lemma Find_loop_terminates (fuel : nat) (s : BamScanner) (read : string) :
  (remaining s < fuel)%nat -> Find_loop fuel s read <> Timeout.
Proof.
  revert s. induction fuel as [|fuel IH]; intros s Hfuel; [lia|].
  simpl. apply bind_not_Timeout; [apply Find_body_not_Timeout|].
  intros [ret|s'] Hbody; [discriminate|].
  apply Find_body_next in Hbody as [Hlt _]. apply IH. lia.
Qed.

Lemma Find_loop_more_fuel (fuel fuel' : nat) (s : BamScanner) (read : string) :
  (fuel <= fuel')%nat -> Find_loop fuel s read <> Timeout ->
  Find_loop fuel' s read = Find_loop fuel s read.
Proof.
  revert fuel' s. induction fuel as [|fuel IH]; intros fuel' s Hle Hnt; [done|].
  destruct fuel' as [|fuel']; [lia|]. simpl in *.
  destruct (Find_body s read) as [[ret|s']| | |]; simpl in *; try done.
  apply IH; [lia|done].
Qed.

Lemma Find_terminates (s : BamScanner) (read : string) :
  BamScanner_Find s read <> Timeout.
Proof. apply Find_loop_terminates. lia. Qed.

(** [Find] is the iteration of its loop body. *)
Lemma Find_unfold (s : BamScanner) (read : string) :
  BamScanner_Find s read =
  step ← Find_body s read;
  match step with
  | inl ret => Returned ret
  | inr s' => BamScanner_Find s' read
  end.
Proof.
  unfold BamScanner_Find at 1. simpl.
  destruct (Find_body s read) as [[ret|s']| | |] eqn:Hbody; simpl; try done.
  apply Find_body_next in Hbody as [Hlt _].
  unfold BamScanner_Find. apply Find_loop_more_fuel; [lia|].
  apply Find_loop_terminates. lia.
Qed.

Lemma Find_closed (s : BamScanner) (read : string) :
  Closed s = true -> BamScanner_Find s read = Returned (Val None, s).
Proof. intros H. rewrite Find_unfold. unfold Find_body. rewrite H. reflexivity. Qed.

(** When [Record] reports the end of the stream, the state it leaves is
    closed and is a fixed point of [Record]. *)
Lemma Record_end (s s' : BamScanner) :
  BamScanner_Record s = Returned (Val None, s') ->
  Closed s' = true /\ BamScanner_Record s' = Returned (Val None, s').
Proof.
  unfold BamScanner_Record at 1.
  destruct (record s) as [r|] eqn:Hrec; [discriminate|].
  destruct (Scan (scanner s)) as [[text err] sc] eqn:Hscan.
  destruct err; [discriminate|]. destruct text as [text|].
  { unfold Record_line. intros H.
    repeat case_match; try discriminate;
      apply bind_Returned in H as (? & _ & H); case_match; discriminate. }
  intros [= <-]. split; [reflexivity|].
  unfold BamScanner_Record. simpl.
  assert (Scan sc = (None, false, sc)) as ->; [|reflexivity].
  unfold Scan in *.
  destruct (tokens (scanner s)) as [|t rest] eqn:Ht, (read_error (scanner s)) as [[|n]|] eqn:He;
    simplify_eq. by rewrite Ht, He.
Qed.

(** How [Find] ends when it returns no record: on a closed cursor, or on
    a cached record whose identifier the comparator does not place
    before the one asked for. *)
Lemma Find_loop_none (fuel : nat) (s s' : BamScanner) (read : string) :
  Find_loop fuel s read = Returned (Val None, s') ->
  Closed s' = true \/
  (Closed s' = false /\
   exists (row : list string) (rid : string) (v : Z),
     record s' = Some row /\ row !! 0%nat = Some rid /\
     String.eqb rid read = false /\ strnum_cmp rid read = Returned v /\ 0 <= v).
Proof.
  revert s. induction fuel as [|fuel IH]; intros s; simpl; [discriminate|].
  intros H. apply bind_Returned in H as (step & Hbody & H).
  destruct step as [ret|s1]; [|by eapply IH].
  injection H as ->. unfold Find_body in Hbody.
  destruct (Closed s) eqn:Hc; [injection Hbody as <-; by left|].
  apply bind_Returned in Hbody as ([r s1] & Hrec & Hbody).
  destruct r as [row|e]; [|discriminate].
  destruct (Closed s1) eqn:Hc1; [injection Hbody as <-; by left|].
  destruct row as [row|]; simpl in Hbody; [|discriminate].
  apply Record_some in Hrec as (Hcache & _ & _).
  unfold index in Hbody. destruct (row !! 0%nat) as [rid|] eqn:Hrid; [|discriminate].
  simpl in Hbody. destruct (String.eqb rid read) eqn:Heq; [discriminate|].
  apply bind_Returned in Hbody as (v & Hcmp & Hbody).
  destruct (v <? 0) eqn:Hv; [discriminate|]. injection Hbody as <-.
  right. split; [done|]. exists row, rid, v. repeat split; try done.
  by apply Z.ltb_ge.
Qed.

(** A query that has returned no record returns no record when it is
    asked again, and leaves the cursor as it is. *)
Lemma Find_none_again (s s' : BamScanner) (read : string) :
  BamScanner_Find s read = Returned (Val None, s') ->
  BamScanner_Find s' read = Returned (Val None, s').
Proof.
  intros H. apply Find_loop_none in H as [Hclosed|(Hopen & row & rid & v & H1 & H2 & H3 & H4 & H5)].
  - by apply Find_closed.
  - rewrite Find_unfold. unfold Find_body.
    rewrite Hopen, (Record_cached _ _ H1). simpl. rewrite Hopen.
    unfold index. rewrite H2. simpl. rewrite H3, H4. simpl.
    apply Z.ltb_ge in H5. by rewrite H5.
Qed.

(** X26.  The end of the stream is final.  Once [Record] has reported
    the end of the stream the cursor is closed, and every later [Record]
    and every later [Find], whatever the identifier asked for, returns no
    record and no error and leaves the cursor as it is. *)
Theorem end_of_stream_is_final (s s' : BamScanner) :
  BamScanner_Record s = Returned (Val None, s') ->
  Closed s' = true /\
  BamScanner_Record s' = Returned (Val None, s') /\
  forall id : string, BamScanner_Find s' id = Returned (Val None, s').
Proof.
  intros Hend. apply Record_end in Hend as [Hclosed Hagain].
  split; [done|]. split; [done|]. intros id. by apply Find_closed.
Qed.

(** *** The first field of a scanned line is never empty *)

Lemma append_assoc (a b c : string) :
  String.append (String.append a b) c = String.append a (String.append b c).
Proof. induction a as [|x a IH]; simpl; [done|]. by rewrite IH. Qed.

Lemma length_append (a b : string) :
  String.length (String.append a b) = (String.length a + String.length b)%nat.
Proof. induction a as [|x a IH]; simpl; [done|]. by rewrite IH. Qed.

Lemma string_of_list_ascii_app (l1 l2 : list ascii) :
  string_of_list_ascii (l1 ++ l2) =
  String.append (string_of_list_ascii l1) (string_of_list_ascii l2).
Proof. induction l1 as [|x l1 IH]; simpl; [done|]. by rewrite IH. Qed.

Lemma strip_prefix_app (p s r : string) :
  strip_prefix p s = Some r -> s = String.append p r.
Proof.
  revert s. induction p as [|a p IH]; intros [|b s]; simpl; try discriminate.
  - intros [= <-]. reflexivity.
  - intros [= <-]. reflexivity.
  - destruct (Ascii.eqb_spec a b) as [->|]; [|discriminate].
    intros H. apply IH in H as ->. reflexivity.
Qed.

Lemma strip_any_app (ps : list string) (s r : string) :
  strip_any ps s = Some r -> exists p, In p ps /\ s = String.append p r.
Proof.
  unfold strip_any. induction ps as [|p ps IH]; simpl; [discriminate|].
  destruct (strip_prefix p s) as [r'|] eqn:Hp.
  - intros [= <-]. exists p. split; [by left|]. by apply strip_prefix_app.
  - intros H. apply IH in H as (q & Hq & ->). exists q. split; [by right|done].
Qed.

Lemma strip_any_none (ps : list string) (s p : string) :
  strip_any ps s = None -> In p ps -> strip_prefix p s = None.
Proof.
  unfold strip_any. induction ps as [|q ps IH]; simpl; [done|].
  destruct (strip_prefix q s) eqn:Hq; [discriminate|].
  intros H [->|Hin]; [done|]. by apply IH.
Qed.

Lemma trim_prefixes_suffix (n : nat) (ps : list string) (s : string) :
  exists d, s = String.append d (trim_prefixes n ps s).
Proof.
  revert s. induction n as [|n IH]; intros s; simpl; [by exists ""|].
  destruct (strip_any ps s) as [r|] eqn:Hs; [|by exists ""].
  apply strip_any_app in Hs as (p & _ & ->).
  destruct (IH r) as [d Hd]. exists (String.append p d).
  rewrite append_assoc. by rewrite <- Hd.
Qed.

Lemma trim_prefixes_done (n : nat) (ps : list string) (s : string) :
  Forall (fun p => p <> "") ps -> (String.length s <= n)%nat ->
  strip_any ps (trim_prefixes n ps s) = None.
Proof.
  intros Hps. revert s. induction n as [|n IH]; intros s Hlen; simpl.
  - destruct s; [|simpl in Hlen; lia].
    destruct (strip_any ps "") as [r|] eqn:Hs; [|done].
    apply strip_any_app in Hs as (p & Hin & Hp).
    rewrite List.Forall_forall in Hps. specialize (Hps p Hin).
    destruct p; [done|discriminate].
  - destruct (strip_any ps s) as [r|] eqn:Hs; [|done].
    apply IH. apply strip_any_app in Hs as (p & Hin & ->).
    rewrite List.Forall_forall in Hps. specialize (Hps p Hin).
    rewrite length_append in Hlen. destruct p; [done|]. simpl in Hlen. lia.
Qed.

Lemma rev_string_involutive (s : string) : rev_string (rev_string s) = s.
Proof.
  unfold rev_string. rewrite list_ascii_of_string_of_list_ascii, rev_involutive.
  apply string_of_list_ascii_of_string.
Qed.

Lemma rev_string_append (a b : string) :
  rev_string (String.append a b) = String.append (rev_string b) (rev_string a).
Proof.
  unfold rev_string.
  rewrite <- (string_of_list_ascii_of_string a) at 1.
  rewrite <- (string_of_list_ascii_of_string b) at 1.
  rewrite <- string_of_list_ascii_app, list_ascii_of_string_of_list_ascii, rev_app_distr.
  apply string_of_list_ascii_app.
Qed.

(** [TrimRight] keeps a prefix of its argument. *)
Lemma TrimRight_prefix (s : string) : exists d, s = String.append (TrimRight s) d.
Proof.
  unfold TrimRight.
  destruct (trim_prefixes_suffix (String.length s)
              (map (fun r => rev_string (encode_rune r)) White_Space) (rev_string s))
    as [d Hd].
  exists (rev_string d).
  rewrite <- rev_string_append, <- Hd. symmetry. apply rev_string_involutive.
Qed.

Lemma TrimLeft_no_tab (s t : string) : TrimLeft s <> String tab t.
Proof.
  intros H.
  assert (strip_any (map encode_rune White_Space) (TrimLeft s) = None) as Hnone.
  { apply trim_prefixes_done; [|lia].
    unfold White_Space. repeat constructor; discriminate. }
  apply strip_any_none with (p := String tab "") in Hnone.
  - rewrite H in Hnone. discriminate.
  - unfold White_Space. simpl. left. reflexivity.
Qed.

Lemma TrimSpace_no_tab (s t : string) : TrimSpace s <> String tab t.
Proof.
  unfold TrimSpace. intros H.
  destruct (TrimRight_prefix (TrimLeft s)) as [d Hd]. rewrite H in Hd.
  by apply TrimLeft_no_tab in Hd.
Qed.

Lemma Split_not_nil (s : string) (sep : ascii) : Split s sep <> [].
Proof. destruct s as [|c t]; simpl; [done|]. repeat case_match; done. Qed.

(** The identifier of a line that is not blank is not the empty string. *)
Lemma first_field_nonempty (text : string) :
  TrimSpace text <> "" -> field (Split (TrimSpace text) tab) 0 <> "".
Proof.
  intros Hne. destruct (TrimSpace text) as [|c t] eqn:Ht; [done|].
  simpl. destruct (Ascii.eqb_spec c tab) as [->|_].
  - by apply TrimSpace_no_tab in Ht.
  - destruct (Split t tab); simpl; discriminate.
Qed.

(** *** What [Record] checks *)

Lemma len_zero (s : string) : (len s =? 0) = true <-> s = "".
Proof.
  unfold len. destruct s; simpl; [done|]. split; discriminate.
Qed.

Lemma len_nonzero (s : string) : s <> "" -> (len s =? 0) = false.
Proof.
  intros H. destruct (len s =? 0) eqn:E; [|done]. by apply len_zero in E.
Qed.

Lemma Split_length (s : string) (sep : ascii) : (length (Split s sep) =? 0)%nat = false.
Proof.
  pose proof (Split_not_nil s sep). destruct (Split s sep); [done|reflexivity].
Qed.


Lemma Record_line_first (s : BamScanner) (sc : Scanner) (text : string) :
  TrimSpace text <> "" -> prev s = "" ->
  Record_line s sc text =
  Returned (Val (Some (fields_of text)), scanned s sc (Some (fields_of text)) (ident text)).
Proof.
  intros Hne Hprev. unfold Record_line.
  rewrite (len_nonzero _ Hne), Split_length, Hprev. reflexivity.
Qed.

Lemma Record_line_in_order (s : BamScanner) (sc : Scanner) (text : string) :
  TrimSpace text <> "" -> in_order (prev s) (ident text) ->
  Record_line s sc text =
  Returned (Val (Some (fields_of text)), scanned s sc (Some (fields_of text)) (ident text)).
Proof.
  intros Hne (v & Hcmp & Hv). unfold Record_line.
  rewrite (len_nonzero _ Hne), Split_length.
  destruct (negb (String.eqb (prev s) "")); [|reflexivity].
  fold (fields_of text). fold (ident text). rewrite Hcmp. simpl.
  destruct (v >? 0) eqn:E; [lia|reflexivity].
Qed.

Lemma Record_line_out_of_order (s : BamScanner) (sc : Scanner) (text : string) :
  TrimSpace text <> "" -> prev s <> "" -> out_of_order (prev s) (ident text) ->
  Record_line s sc text =
  Returned (Error (ErrSortOrder (incr (LineNumber s))),
            scanned s sc (Some (fields_of text)) (prev s)).
Proof.
  intros Hne Hprev (v & Hcmp & Hv). unfold Record_line.
  rewrite (len_nonzero _ Hne), Split_length.
  apply String.eqb_neq in Hprev. rewrite Hprev. simpl.
  fold (fields_of text). fold (ident text). rewrite Hcmp. simpl.
  destruct (v >? 0) eqn:E; [reflexivity|lia].
Qed.


(** *** Streams in order and out of order *)

Lemma incr_wrap64 (n : Z) : incr (wrap64 n) = wrap64 (n + 1).
Proof.
  unfold incr, wrap64.
  replace ((n + 2 ^ 63) mod 2 ^ 64 - 2 ^ 63 + 1 + 2 ^ 63)
    with ((n + 2 ^ 63) mod 2 ^ 64 + 1) by lia.
  rewrite Zplus_mod_idemp_l. f_equal. f_equal. lia.
Qed.

Lemma nondecreasing_from_checked (p : string) (lines : list string) :
  nondecreasing_from p lines -> checked_from p lines.
Proof.
  revert p. induction lines as [|l lines IH]; intros p; simpl; [done|].
  intros [H1 H2]. auto.
Qed.

Lemma nondecreasing_checked (lines : list string) :
  nondecreasing lines -> checked_from "" lines.
Proof.
  destruct lines as [|l lines]; simpl; [done|].
  intros H. split; [by left|]. by apply nondecreasing_from_checked.
Qed.

Lemma checked_from_app (p : string) (l1 l2 : list string) :
  checked_from p (l1 ++ l2) ->
  checked_from p l1 /\ checked_from (fold_left (fun _ l => ident l) l1 p) l2.
Proof.
  revert p. induction l1 as [|l l1 IH]; intros p; simpl; [done|].
  intros [H1 H2]. apply IH in H2 as [H2 H3]. auto.
Qed.

Lemma Record_next_line (s : BamScanner) (l : string) (rest : list string) :
  record s = None -> tokens (scanner s) = l :: rest -> read_error (scanner s) = None ->
  BamScanner_Record s =
  Record_line s {| tokens := rest; read_error := None |} l.
Proof.
  intros Hrec Htok Herr. unfold BamScanner_Record, Scan.
  rewrite Hrec, Htok, Herr. reflexivity.
Qed.

Lemma read_all_in_order (lines : list string) :
  forall (fuel : nat) (s : BamScanner),
    (length lines < fuel)%nat ->
    record s = None -> tokens (scanner s) = lines -> read_error (scanner s) = None ->
    Forall (fun l => TrimSpace l <> "") lines ->
    checked_from (prev s) lines ->
    read_all fuel s = Returned (map fields_of lines, None).
Proof.
  induction lines as [|l lines IH]; intros fuel s Hfuel Hrec Htok Herr Hnb Hord;
    (destruct fuel as [|fuel]; [simpl in Hfuel; lia|]); simpl.
  - unfold BamScanner_Record, Scan. rewrite Hrec, Htok, Herr. reflexivity.
  - rewrite (Record_next_line _ _ _ Hrec Htok Herr).
    apply Forall_cons_1 in Hnb as [Hl Hnb]. destruct Hord as [Hl_ord Hord].
    assert (Record_line s {| tokens := lines; read_error := None |} l =
            Returned (Val (Some (fields_of l)),
                      scanned s {| tokens := lines; read_error := None |}
                        (Some (fields_of l)) (ident l))) as ->.
    { destruct Hl_ord; [by apply Record_line_first | by apply Record_line_in_order]. }
    simpl. rewrite IH; simpl in *; try done. lia.
Qed.

Lemma read_all_out_of_order (pre : list string) :
  forall (fuel : nat) (s : BamScanner) (n : Z) (y : string) (post : list string),
    (length pre < fuel)%nat ->
    record s = None -> tokens (scanner s) = pre ++ y :: post ->
    read_error (scanner s) = None -> LineNumber s = wrap64 n ->
    Forall (fun l => TrimSpace l <> "") (pre ++ [y]) ->
    checked_from (prev s) pre ->
    fold_left (fun _ l => ident l) pre (prev s) <> "" ->
    out_of_order (fold_left (fun _ l => ident l) pre (prev s)) (ident y) ->
    read_all fuel s =
    Returned (map fields_of pre,
              Some (ErrSortOrder (wrap64 (n + Z.of_nat (length pre) + 1)))).
Proof.
  induction pre as [|l pre IH];
    intros fuel s n y post Hfuel Hrec Htok Herr Hline Hnb Hord Hlast Hbad;
    (destruct fuel as [|fuel]; [simpl in Hfuel; lia|]); simpl in *.
  - rewrite (Record_next_line _ _ _ Hrec Htok Herr).
    apply Forall_cons_1 in Hnb as [Hy _].
    rewrite Record_line_out_of_order by done. simpl.
    rewrite Hline, incr_wrap64. do 5 f_equal. lia.
  - rewrite (Record_next_line _ _ _ Hrec Htok Herr).
    apply Forall_cons_1 in Hnb as [Hl Hnb]. destruct Hord as [Hl_ord Hord].
    assert (Record_line s {| tokens := pre ++ y :: post; read_error := None |} l =
            Returned (Val (Some (fields_of l)),
                      scanned s {| tokens := pre ++ y :: post; read_error := None |}
                        (Some (fields_of l)) (ident l))) as ->.
    { destruct Hl_ord; [by apply Record_line_first | by apply Record_line_in_order]. }
    simpl. erewrite IH with (n := n + 1); simpl; try done.
    + do 5 f_equal. lia.
    + lia.
    + rewrite Hline. apply incr_wrap64.
Qed.

(** X25.  The order that [Record] enforces, where the comparator
    returns.  Take a stream of lines none of which is blank, and read it
    to its end through [Record] and [Ratchet].  If for each identifier
    and the one after it the comparator returns a value that is not
    positive, every line is yielded as its record, in the order of the
    stream, and no error is raised.  If [x], [y] are consecutive
    identifiers for which the comparator returns a positive value, and
    for every pair before them it returns one that is not, the records up
    to that of [x] are yielded, each once and in the order of the
    stream, and the [Record] that scans [y] fails with the sort-order
    error for the line of [y]. *)
Theorem Record_enforces_order (lines : list string) :
  Forall (fun l => TrimSpace l <> "") lines ->
  (nondecreasing lines ->
   read_stream (OpenBam {| tokens := lines; read_error := None |}) =
   Returned (map fields_of lines, None))
  /\ (forall (pre : list string) (x y : string) (post : list string),
        lines = pre ++ x :: y :: post ->
        nondecreasing (pre ++ [x]) ->
        out_of_order (ident x) (ident y) ->
        read_stream (OpenBam {| tokens := lines; read_error := None |}) =
        Returned (map fields_of (pre ++ [x]),
                  Some (ErrSortOrder (wrap64 (Z.of_nat (length pre) + 2))))).
Proof.
  intros Hnb. split.
  - intros Hord. apply read_all_in_order; simpl; try done.
    + unfold remaining. simpl. lia.
    + by apply nondecreasing_checked.
  - intros pre x y post -> Hord Hbad.
    assert (fold_left (fun _ l => ident l) (pre ++ [x]) "" = ident x) as Hlast.
    { rewrite fold_left_app. reflexivity. }
    unfold read_stream.
    rewrite read_all_out_of_order with (pre := pre ++ [x]) (n := 0) (y := y) (post := post);
      simpl; try done.
    + rewrite length_app. simpl. do 5 f_equal. lia.
    + unfold remaining. simpl. rewrite !length_app. simpl. lia.
    + by rewrite <- app_assoc.
    + rewrite <- app_assoc. simpl.
      replace (pre ++ x :: y :: post) with ((pre ++ [x; y]) ++ post) in Hnb
        by (by rewrite <- app_assoc).
      by apply Forall_app in Hnb as [Hnb _].
    + by apply nondecreasing_checked.
    + rewrite Hlast. apply first_field_nonempty.
      apply Forall_app in Hnb as [_ Hnb]. by apply Forall_cons_1 in Hnb as [Hx _].
    + by rewrite Hlast.
Qed.

(** *** The minimum-length filter *)

Lemma emit_single (m : Mates) (e e' : Engine) (ctl : control) :
  mate2 m = None -> emit m e = (ctl, e') ->
  written (outfp e') = written (outfp e) \/
  written (outfp e') = written (outfp e) ++ [output_line (mate1 m)].
Proof.
  intros Hsingle. unfold emit, Fprintf. rewrite Hsingle.
  destruct (room (outfp e)) as [[|n]|]; simpl; intros [= <- <-]; simpl; auto.
Qed.

(** A pair that has a single mate left after the minimum-length filter
    adds to the output the line of that mate, or nothing. *)
Lemma judge_single (read : string) (m m' : Mates) (e e' : Engine) (ctl : control) :
  MatchesErcc (mate1 m) (mate2 m) = Returned false ->
  min_length_filter m = Some m' -> mate2 m' = None ->
  judge read m e = Returned (ctl, e') ->
  written (outfp e') = written (outfp e) \/
  written (outfp e') = written (outfp e) ++ [output_line (mate1 m')].
Proof.
  intros Hercc Hlen Hsingle. unfold judge. rewrite Hercc. simpl. rewrite Hlen.
  assert (max_dist_filter m' = None \/ max_dist_filter m' = Some m') as [-> | ->].
  { unfold max_dist_filter. rewrite Hsingle. simpl.
    destruct (mate1_edit_dist m' >? MaxDist args); simpl; rewrite ?Hsingle; auto. }
  { intros [= <- <-]. auto. }
  intros H. apply bind_Returned in H as ([st w] & _ & H).
  destruct w; simpl in H.
  - injection H as <- <-. auto.
  - injection H as H. by apply emit_single in H.
Qed.

(** C4.  A pair that comes to the minimum-length filter, that is, one
    that the ERCC test lets through.  When mate1 is shorter than the
    minimum: without a mate2 that reaches the minimum the pair is
    discarded, the turn ends with [too_short] one more, as an [int], and
    with every other counter, the sources, the cursor of the sample and
    the output as they were; with
    such a mate2, mate2 takes the place of mate1 with its length and edit
    distance, no second mate is left, and all the turn can add to the
    output is the line of mate2.  When mate1 reaches the minimum and a
    mate2 is there that does not, mate2 alone is dropped: mate1 stays,
    single, with its own measures. *)
Theorem min_length_filter_promotes (read : string) (m : Mates) (e : Engine) :
  MatchesErcc (mate1 m) (mate2 m) = Returned false ->
  (mate1_len m < MinLength args ->
   (mate2 m = None \/ mate2_len m < MinLength args ->
    min_length_filter m = None /\
    judge read m e =
    Returned (Next,
              {| sample := sample e; sources := sources e;
                 counters :=
                   {| reads_kept := reads_kept (counters e);
                      read_mates_kept := read_mates_kept (counters e);
                      total_reads := total_reads (counters e);
                      total_read_mates := total_read_mates (counters e);
                      ercc := ercc (counters e);
                      considered := considered (counters e);
                      too_short := wrap64 (too_short (counters e) + 1);
                      too_diverged := too_diverged (counters e) |};
                 outfp := outfp e |}))
   /\ (forall row2 : list string,
         mate2 m = Some row2 -> MinLength args <= mate2_len m ->
         exists m' : Mates,
           min_length_filter m = Some m' /\
           mate1 m' = row2 /\ mate2 m' = None /\
           mate1_len m' = mate2_len m /\ mate1_edit_dist m' = mate2_edit_dist m /\
           forall (ctl : control) (e' : Engine),
             judge read m e = Returned (ctl, e') ->
             written (outfp e') = written (outfp e) \/
             written (outfp e') = written (outfp e) ++ [output_line row2]))
  /\ (MinLength args <= mate1_len m ->
      forall row2 : list string,
        mate2 m = Some row2 -> mate2_len m < MinLength args ->
        exists m' : Mates,
          min_length_filter m = Some m' /\
          mate1 m' = mate1 m /\ mate2 m' = None /\
          mate1_len m' = mate1_len m /\ mate1_edit_dist m' = mate1_edit_dist m /\
          forall (ctl : control) (e' : Engine),
            judge read m e = Returned (ctl, e') ->
            written (outfp e') = written (outfp e) \/
            written (outfp e') = written (outfp e) ++ [output_line (mate1 m)]).
Proof.
  intros Hercc. split; [intros Hshort; split|intros Hlong].
  - intros Hno.
    assert (min_length_filter m = None) as Hnone.
    { unfold min_length_filter.
      destruct (Z.ltb_spec (mate1_len m) (MinLength args)); [|lia].
      destruct Hno as [-> | Hno]; [done|].
      destruct (Z.ltb_spec (mate2_len m) (MinLength args)); [|lia].
      by rewrite orb_true_r. }
    split; [done|]. unfold judge. rewrite Hercc. simpl. by rewrite Hnone.
  - intros row2 Hrow2 Hlong2.
    assert (min_length_filter m = Some (promote m)) as Hsome.
    { unfold min_length_filter. rewrite Hrow2.
      destruct (Z.ltb_spec (mate1_len m) (MinLength args)); [|lia].
      destruct (Z.ltb_spec (mate2_len m) (MinLength args)); [lia|]. reflexivity. }
    exists (promote m). unfold promote at 2 3 4 5. rewrite Hrow2. simpl.
    repeat split; try done.
    intros ctl e' Hjudge.
    replace row2 with (mate1 (promote m)) by (unfold promote; by rewrite Hrow2).
    by eapply judge_single.
  - intros row2 Hrow2 Hshort2.
    assert (min_length_filter m = Some (forget_mate2 m)) as Hsome.
    { unfold min_length_filter. rewrite Hrow2.
      destruct (Z.ltb_spec (mate1_len m) (MinLength args)); [lia|].
      destruct (Z.ltb_spec (mate2_len m) (MinLength args)); [|lia].
      by rewrite Hrow2. }
    exists (forget_mate2 m). repeat split; try done.
    intros ctl e' Hjudge.
    change (mate1 m) with (mate1 (forget_mate2 m)).
    by eapply judge_single.
Qed.

(** *** The contamination check, source by source *)

Lemma get_lookup {A : Type} (l : list A) (c : nat) (x : A) :
  l !! c = Some x -> get l c = Returned x.
Proof. intros H. unfold get. by rewrite H. Qed.

Lemma put_lookup {A : Type} (l : list A) (c : nat) (x v : A) :
  l !! c = Some x -> put l c v = Returned (<[c:=v]> l).
Proof.
  intros H. unfold put. apply lookup_lt_Some in H.
  destruct (Nat.ltb_spec c (length l)); [done|lia].
Qed.

Lemma view_inv (c : nat) (st : Sources) (v : Source) :
  view c st = Some v ->
  contScanners st !! c = Some (cursor v) /\ found st !! c = Some (was_found v) /\
  rejected st !! c = Some (was_rejected_by v) /\
  reads_found st !! c = Some (n_found v) /\
  reads_filtered st !! c = Some (n_filtered v).
Proof.
  unfold view. repeat case_match; try discriminate. intros [= <-]. auto.
Qed.

Lemma scan_body_view (c : nat) (read : string) (best : float) (st : Sources)
    (w : bool) (v : Source) :
  view c st = Some v ->
  scan_body c read best st w =
  step ← source_step c read best v;
  Returned (match step with
            | inl v' => inl (update c v' st, w)
            | inr v' => inr (update c v' st, w || newly_rejected v v')
            end).
Proof.
  intros Hview. apply view_inv in Hview as (Hsc & Hf & Hr & Hnf & Hnr).
  unfold scan_body, source_step. rewrite (get_lookup _ _ _ Hsc). simpl.
  destruct (BamScanner_Find (cursor v) read) as [[[[mate|]|err] sc]| | |]; simpl; try done.
  - unfold mark_found. simpl. rewrite (get_lookup _ _ _ Hf). simpl.
    assert (forall (st1 : Sources),
      contScanners st1 = <[c:=sc]> (contScanners st) ->
      reads_found st1 = <[c:=if was_found v then n_found v else incr (n_found v)]> (reads_found st) ->
      found st1 = <[c:=true]> (found st) ->
      reads_filtered st1 = reads_filtered st -> rejected st1 = rejected st ->
      (x ← extract mate;
       match x with
       | Val (length, edit_dist) =>
         if rejects best length edit_dist
         then res ← mark_rejected c st1 w; Returned (inr res)
         else Returned (inr (st1, w))
       | Error err => Exited (FatalContRead c err)
       end) =
      (step ← (x ← extract mate;
               match x with
               | Val (length, edit_dist) =>
                 let hit := rejects best length edit_dist in
                 Returned (inr {| cursor := sc; was_found := true;
                                  was_rejected_by := was_rejected_by v || hit;
                                  n_found := if was_found v then n_found v
                                             else incr (n_found v);
                                  n_filtered := if negb (was_rejected_by v) && hit
                                                then incr (n_filtered v)
                                                else n_filtered v |})
               | Error err => Exited (FatalContRead c err)
               end);
       Returned (match step with
                 | inl v' => inl (update c v' st, w)
                 | inr v' => inr (update c v' st, w || newly_rejected v v')
                 end))) as Hrest.
    { intros st1 H1 H2 H3 H4 H5.
      destruct (extract mate) as [[[l d]|err]| | |]; simpl; try done.
      unfold mark_rejected, newly_rejected, update. rewrite H5, H4.
      rewrite (get_lookup _ _ _ Hr). simpl.
      destruct (rejects best l d); simpl.
      - destruct (was_rejected_by v) eqn:Hrej; simpl.
        + rewrite orb_false_r. do 3 f_equal. destruct st1; simpl in *. subst.
          f_equal; symmetry; by apply list_insert_id.
        + rewrite (get_lookup _ _ _ Hnr). simpl.
          rewrite (put_lookup _ _ _ _ Hnr), (put_lookup _ _ _ _ Hr). simpl.
          rewrite orb_true_r. do 3 f_equal. by rewrite H1, H2, H3.
      - rewrite !orb_false_r, andb_false_r. destruct (was_rejected_by v) eqn:Hrej; simpl;
          rewrite ?orb_false_r; do 3 f_equal; destruct st1; simpl in *; subst;
          f_equal; symmetry; by apply list_insert_id. }
    destruct (was_found v) eqn:Hfound; simpl.
    + apply Hrest; simpl; try done; symmetry; by apply list_insert_id.
    + rewrite (put_lookup _ _ _ _ Hf). simpl. rewrite (get_lookup _ _ _ Hnf). simpl.
      rewrite (put_lookup _ _ _ _ Hnf). simpl. by apply Hrest.
  - do 3 f_equal. unfold update. simpl.
    f_equal; symmetry; by apply list_insert_id.
Qed.

Lemma Record_remaining (s s' : BamScanner) (r : result (option (list string))) :
  BamScanner_Record s = Returned (r, s') -> (remaining s' <= remaining s)%nat.
Proof.
  unfold BamScanner_Record, remaining.
  destruct (record s) as [row|] eqn:Hrec.
  { intros [= <- <-]. by rewrite Hrec. }
  destruct (Scan (scanner s)) as [[text err] sc] eqn:Hscan.
  destruct text as [text|].
  - apply Scan_some in Hscan as ->. simpl.
    destruct err; [intros [= <- <-]; simpl; lia|].
    unfold Record_line. intros H.
    repeat case_match; try discriminate;
      try (apply bind_Returned in H as (? & _ & H); case_match; try discriminate);
      injection H as <- <-; simpl; lia.
  - apply Scan_none in Hscan as (-> & Hsc & _).
    destruct err; intros [= <- <-]; simpl; rewrite Hsc; simpl; lia.
Qed.

(** [Find] moves a cursor forward only, and past the record it returns. *)
Lemma Find_loop_remaining (fuel : nat) (s s' : BamScanner) (read : string)
    (r : result (option (list string))) :
  Find_loop fuel s read = Returned (r, s') ->
  (remaining s' <= remaining s)%nat /\
  (forall mate, r = Val (Some mate) -> (remaining s' < remaining s)%nat).
Proof.
  revert s. induction fuel as [|fuel IH]; intros s; simpl; [discriminate|].
  intros H. apply bind_Returned in H as (step & Hbody & H).
  destruct step as [ret|s1].
  - injection H as ->. unfold Find_body in Hbody.
    destruct (Closed s); [injection Hbody as <- <-; split; [lia|discriminate]|].
    apply bind_Returned in Hbody as ([r1 s1] & Hrec & Hbody).
    pose proof (Record_remaining _ _ _ Hrec) as Hle.
    destruct r1 as [row|e]; [|injection Hbody as <- <-; split; [lia|discriminate]].
    destruct (Closed s1); [injection Hbody as <- <-; split; [lia|discriminate]|].
    apply bind_Returned in Hbody as (id & Hid & Hbody).
    destruct row as [row|]; simpl in *; [|discriminate].
    apply Record_some in Hrec as (Hcache & Hrem & _).
    destruct (String.eqb id read).
    + injection Hbody as <- <-. unfold remaining in *. rewrite Hcache in Hrem.
      simpl in *. split; [lia|intros; lia].
    + apply bind_Returned in Hbody as (v & _ & Hbody).
      destruct (v <? 0); [discriminate|]. injection Hbody as <- <-.
      split; [lia|discriminate].
  - apply Find_body_next in Hbody as [Hlt _]. apply IH in H as [H1 H2].
    split; [lia|]. intros mate Hm. specialize (H2 mate Hm). lia.
Qed.

Lemma Find_remaining (s s' : BamScanner) (read : string)
    (r : result (option (list string))) :
  BamScanner_Find s read = Returned (r, s') ->
  (remaining s' <= remaining s)%nat /\
  (forall mate, r = Val (Some mate) -> (remaining s' < remaining s)%nat).
Proof. apply Find_loop_remaining. Qed.

Lemma source_step_not_Timeout (c : nat) (read : string) (best : float) (v : Source) :
  source_step c read best v <> Timeout.
Proof.
  unfold source_step. apply bind_not_Timeout; [apply Find_terminates|].
  intros [r sc] _. destruct r as [[mate|]|err]; try discriminate.
  destruct (extract mate) as [[[l d]|err]| | |] eqn:E; simpl; try discriminate.
  unfold extract in E. repeat case_match; discriminate.
Qed.

Lemma source_step_next (c : nat) (read : string) (best : float) (v v' : Source) :
  source_step c read best v = Returned (inr v') ->
  exists (mate : list string) (length edit_dist : Z),
    BamScanner_Find (cursor v) read = Returned (Val (Some mate), cursor v') /\
    extract mate = Returned (Val (length, edit_dist)) /\
    was_found v' = true /\
    was_rejected_by v' = was_rejected_by v || rejects best length edit_dist /\
    n_found v' = (if was_found v then n_found v else incr (n_found v)) /\
    n_filtered v' = (if negb (was_rejected_by v) && rejects best length edit_dist
                     then incr (n_filtered v) else n_filtered v).
Proof.
  unfold source_step. intros H.
  apply bind_Returned in H as ([r sc] & Hfind & H).
  destruct r as [[mate|]|err]; try discriminate.
  apply bind_Returned in H as (x & Hx & H).
  destruct x as [[l d]|err]; [|discriminate]. injection H as <-.
  exists mate, l, d. simpl. repeat split; done.
Qed.

Lemma source_step_done (c : nat) (read : string) (best : float) (v v' : Source) :
  source_step c read best v = Returned (inl v') ->
  BamScanner_Find (cursor v) read = Returned (Val None, cursor v') /\
  was_found v' = was_found v /\ was_rejected_by v' = was_rejected_by v /\
  n_found v' = n_found v /\ n_filtered v' = n_filtered v.
Proof.
  unfold source_step. intros H.
  apply bind_Returned in H as ([r sc] & Hfind & H).
  destruct r as [[mate|]|err]; try discriminate.
  - apply bind_Returned in H as (x & Hx & H).
    destruct x as [[l d]|err]; discriminate.
  - injection H as <-. simpl. auto.
Qed.

Lemma source_loop_terminates (fuel : nat) (c : nat) (read : string) (best : float)
    (v : Source) :
  (remaining (cursor v) < fuel)%nat -> source_loop fuel c read best v <> Timeout.
Proof.
  revert v. induction fuel as [|fuel IH]; intros v Hfuel; [lia|]. simpl.
  apply bind_not_Timeout; [apply source_step_not_Timeout|].
  intros [v'|v'] Hstep; [discriminate|].
  apply source_step_next in Hstep as (mate & l & d & Hfind & _).
  apply Find_remaining in Hfind as [_ Hlt]. specialize (Hlt mate eq_refl).
  apply IH. lia.
Qed.

(** What the loop over the alignments of one source computes. *)
Lemma source_loop_spec (fuel : nat) (c : nat) (read : string) (best : float)
    (v v' : Source) :
  source_loop fuel c read best v = Returned v' ->
  exists mates : list (list string),
    consumes read (cursor v) mates (cursor v') /\
    Forall (fun mate => exists x, extract mate = Returned (Val x)) mates /\
    was_found v' = was_found v || any_alignment mates /\
    n_found v' = (if negb (was_found v) && any_alignment mates
                  then incr (n_found v) else n_found v) /\
    was_rejected_by v' = was_rejected_by v || existsb (rejecting best) mates /\
    n_filtered v' = (if negb (was_rejected_by v) && existsb (rejecting best) mates
                     then incr (n_filtered v) else n_filtered v).
Proof.
  revert v. induction fuel as [|fuel IH]; intros v; simpl; [discriminate|].
  intros H. apply bind_Returned in H as (step & Hstep & H).
  destruct step as [v1|v1].
  - injection H as ->.
    apply source_step_done in Hstep as (Hfind & Hf & Hr & Hnf & Hnr).
    exists []. simpl. rewrite !orb_false_r, !andb_false_r.
    repeat split; try done. by constructor.
  - apply source_step_next in Hstep as (mate & l & d & Hfind & Hx & Hf & Hr & Hnf & Hnr).
    apply IH in H as (mates & Hcons & Hall & Hf' & Hnf' & Hr' & Hnr').
    exists (mate :: mates). simpl.
    assert (rejecting best mate = rejects best l d) as Hhit.
    { unfold rejecting. by rewrite Hx. }
    rewrite Hhit. repeat split.
    + by econstructor.
    + constructor; [by eexists|done].
    + rewrite Hf', Hf. by rewrite orb_true_r.
    + rewrite Hnf', Hf, Hnf. simpl. rewrite andb_true_r. by destruct (was_found v).
    + rewrite Hr', Hr. by rewrite orb_assoc.
    + rewrite Hnr', Hr, Hnr.
      destruct (was_rejected_by v), (rejects best l d); simpl; try done.
Qed.

Lemma sized_view (st : Sources) (c : nat) :
  sized st -> (c < length contamination)%nat -> exists v, view c st = Some v.
Proof.
  intros (H1 & H2 & H3 & H4 & H5) Hc. unfold view.
  destruct (lookup_lt_is_Some_2 (contScanners st) c) as [x1 ->]; [lia|].
  destruct (lookup_lt_is_Some_2 (found st) c) as [x2 ->]; [lia|].
  destruct (lookup_lt_is_Some_2 (rejected st) c) as [x3 ->]; [lia|].
  destruct (lookup_lt_is_Some_2 (reads_found st) c) as [x4 ->]; [lia|].
  destruct (lookup_lt_is_Some_2 (reads_filtered st) c) as [x5 ->]; [lia|].
  by eexists.
Qed.

Lemma sized_update (st : Sources) (c : nat) (v : Source) :
  sized st -> sized (update c v st).
Proof. unfold sized, update. simpl. by rewrite !length_insert. Qed.

Lemma view_update (c : nat) (v0 v : Source) (st : Sources) :
  view c st = Some v0 -> view c (update c v st) = Some v.
Proof.
  intros H. apply view_inv in H as (H1 & H2 & H3 & H4 & H5).
  unfold view, update. simpl.
  rewrite !list_lookup_insert_eq by (by eapply lookup_lt_Some). by destruct v.
Qed.

Lemma view_update_ne (c c' : nat) (v : Source) (st : Sources) :
  c <> c' -> view c' (update c v st) = view c' st.
Proof.
  intros H. unfold view, update. simpl. by rewrite !list_lookup_insert_ne.
Qed.

Lemma update_update (c : nat) (v v' : Source) (st : Sources) :
  update c v' (update c v st) = update c v' st.
Proof. unfold update. simpl. by rewrite !list_insert_insert_eq. Qed.

Lemma scan_loop_view (fuel : nat) (c : nat) (read : string) (best : float) :
  forall (st : Sources) (w : bool) (v : Source),
    view c st = Some v ->
    scan_loop fuel c read best st w =
    v' ← source_loop fuel c read best v;
    Returned (update c v' st, w || newly_rejected v v').
Proof.
  induction fuel as [|fuel IH]; intros st w v Hview; simpl; [done|].
  rewrite (scan_body_view _ _ _ _ _ _ Hview).
  destruct (source_step c read best v) as [[v1|v1]| | |] eqn:Hstep; simpl; try done.
  - apply source_step_done in Hstep as (_ & _ & Hr & _).
    unfold newly_rejected. rewrite Hr. by destruct (was_rejected_by v), w.
  - rewrite (IH _ _ v1) by (by eapply view_update).
    destruct (source_loop fuel c read best v1) as [v'| | |] eqn:Hloop; simpl; try done.
    rewrite update_update. do 2 f_equal.
    apply source_step_next in Hstep as (_ & l & d & _ & _ & _ & Hr & _).
    apply source_loop_spec in Hloop as (mates & _ & _ & _ & _ & Hr' & _).
    unfold newly_rejected. rewrite Hr', Hr.
    by destruct w, (was_rejected_by v), (rejects best l d), (existsb _ mates).
Qed.

Lemma scan_source_view (c : nat) (read : string) (best : float) (st : Sources)
    (w : bool) (v : Source) :
  view c st = Some v ->
  scan_source c read best st w =
  v' ← source_loop (S (remaining (cursor v))) c read best v;
  Returned (update c v' st, w || newly_rejected v v').
Proof.
  intros Hview. unfold scan_source.
  pose proof (view_inv _ _ _ Hview) as (-> & _). by apply scan_loop_view.
Qed.

Lemma scan_source_terminates (c : nat) (read : string) (best : float) (st : Sources)
    (w : bool) (v : Source) :
  view c st = Some v -> scan_source c read best st w <> Timeout.
Proof.
  intros Hview. rewrite (scan_source_view _ _ _ _ _ _ Hview).
  apply bind_not_Timeout; [|discriminate].
  apply source_loop_terminates. lia.
Qed.

(** The loop over the sources visits each index of [todo] once: the
    entries at the other indices are not touched, the entry at a visited
    index is what the loop over its alignments leaves, and [was_rejected]
    is raised exactly when some visited source comes to reject. *)
Lemma scan_sources_spec (read : string) (best : float) (todo : list nat) :
  forall (st st' : Sources) (w w' : bool),
    NoDup todo -> Forall (fun c => (c < length contamination)%nat) todo ->
    sized st ->
    scan_sources todo read best st w = Returned (st', w') ->
    sized st' /\
    (forall c, c ∉ todo -> view c st' = view c st) /\
    (forall c, c ∈ todo ->
       exists v v', view c st = Some v /\ view c st' = Some v' /\
         source_loop (S (remaining (cursor v))) c read best v = Returned v') /\
    (w' = true <->
     w = true \/
     exists c v v', c ∈ todo /\ view c st = Some v /\ view c st' = Some v' /\
       newly_rejected v v' = true).
Proof.
  induction todo as [|c todo IH]; intros st st' w w' Hnd Hlt Hsized; simpl.
  - intros [= <- <-]. split; [done|]. split; [done|]. split.
    + intros c Hc. by apply elem_of_nil in Hc.
    + split; [by left|].
      intros [H|(c & v & v' & Hc & _)]; [done|]. by apply elem_of_nil in Hc.
  - apply NoDup_cons in Hnd as [Hnotin Hnd]. apply Forall_cons_1 in Hlt as [Hc Hlt].
    destruct (sized_view st c Hsized Hc) as [v Hview].
    rewrite (scan_source_view _ _ _ _ _ _ Hview).
    intros H. apply bind_Returned in H as ([st1 w1] & H1 & H).
    apply bind_Returned in H1 as (v1 & Hloop & [= <- <-]).
    apply IH in H as (Hsized' & Hother & Hvisited & Hw); try done;
      [|by apply sized_update].
    assert (view c st' = Some v1) as Hview'.
    { rewrite (Hother c Hnotin). by eapply view_update. }
    split; [done|]. split; [|split; [|split]].
    + intros c' Hc'. apply not_elem_of_cons in Hc' as [Hne Hc'].
      rewrite (Hother c' Hc'). by apply view_update_ne.
    + intros c' Hc'. apply elem_of_cons in Hc' as [->|Hc'].
      * by exists v, v1.
      * destruct (Hvisited c' Hc') as (u & u' & Hu & Hu' & Hrun).
        exists u, u'. repeat split; try done.
        rewrite <- Hu. symmetry. apply view_update_ne. by intros ->.
    + intros Hw'. apply Hw in Hw' as [Hw'|(c' & u & u' & Hc' & Hu & Hu' & Hnew)].
      * apply orb_true_iff in Hw' as [Hw'|Hnew]; [by left|].
        right. exists c, v, v1. repeat split; try done. by left.
      * right. exists c', u, u'. repeat split; try done; [by right|].
        rewrite <- Hu. symmetry. apply view_update_ne. by intros ->.
    + intros [->|(c' & u & u' & Hc' & Hu & Hu' & Hnew)]; apply Hw.
      * by left.
      * apply elem_of_cons in Hc' as [->|Hc'].
        -- left. rewrite Hview in Hu. rewrite Hview' in Hu'. simplify_eq.
           rewrite Hnew. by rewrite orb_true_r.
        -- right. exists c', u, u'. repeat split; try done.
           rewrite <- Hu. apply view_update_ne. by intros ->.
Qed.

Lemma scan_sources_terminates (read : string) (best : float) (todo : list nat) :
  forall (st : Sources) (w : bool),
    Forall (fun c => (c < length contamination)%nat) todo -> sized st ->
    scan_sources todo read best st w <> Timeout.
Proof.
  induction todo as [|c todo IH]; intros st w Hlt Hsized; simpl; [done|].
  apply Forall_cons_1 in Hlt as [Hc Hlt].
  destruct (sized_view st c Hsized Hc) as [v Hview].
  apply bind_not_Timeout; [by eapply scan_source_terminates|].
  intros [st1 w1] H1. apply IH; [done|].
  rewrite (scan_source_view _ _ _ _ _ _ Hview) in H1.
  apply bind_Returned in H1 as (v1 & _ & [= <- <-]). by apply sized_update.
Qed.


(** What the contamination check leaves for each source, and when it
    raises [was_rejected]. *)
Lemma contamination_check_sources (read : string) (best : float) (st st' : Sources)
    (was_rejected : bool) :
  sized st -> flags_clear st ->
  contamination_check read best st = Returned (st', was_rejected) ->
  (forall c : nat, (c < length contamination)%nat ->
     exists (sc sc' : BamScanner) (mates : list (list string)) (nf nr : Z),
       contScanners st !! c = Some sc /\
       contScanners st' !! c = Some sc' /\
       consumes read sc mates sc' /\
       Forall (fun mate => exists x, extract mate = Returned (Val x)) mates /\
       reads_found st !! c = Some nf /\
       reads_filtered st !! c = Some nr /\
       found st' !! c = Some (any_alignment mates) /\
       reads_found st' !! c = Some (if any_alignment mates then incr nf else nf) /\
       rejected st' !! c = Some (existsb (rejecting best) mates) /\
       reads_filtered st' !! c =
         Some (if existsb (rejecting best) mates then incr nr else nr))
  /\ (was_rejected = true <->
      exists c : nat, (c < length contamination)%nat /\ rejected st' !! c = Some true).
Proof.
  intros Hsized Hclear Hrun.
  apply scan_sources_spec in Hrun as (Hsized' & _ & Hvisited & Hw);
    [|apply NoDup_seq| |done].
  2:{ apply Forall_forall. intros c Hc. apply elem_of_seq in Hc. lia. }
  split.
  - intros c Hc.
    destruct (Hvisited c) as (v & v' & Hv & Hv' & Hloop); [apply elem_of_seq; lia|].
    apply source_loop_spec in Hloop as (mates & Hcons & Hall & Hf & Hnf & Hr & Hnr).
    apply view_inv in Hv as (H1 & H2 & H3 & H4 & H5).
    apply view_inv in Hv' as (H1' & H2' & H3' & H4' & H5').
    destruct (Hclear c Hc) as [Hfc Hrc].
    rewrite H2 in Hfc. rewrite H3 in Hrc. simplify_eq.
    rewrite Hfc in Hf, Hnf. rewrite Hrc in Hr, Hnr. simpl in *.
    exists (cursor v), (cursor v'), mates, (n_found v), (n_filtered v).
    repeat split; try done; congruence.
  - split.
    + intros Hw'. apply Hw in Hw' as [?|(c & v & v' & Hc & Hv & Hv' & Hnew)]; [done|].
      apply elem_of_seq in Hc. exists c. split; [lia|].
      apply view_inv in Hv' as (_ & _ & -> & _).
      unfold newly_rejected in Hnew. apply andb_true_iff in Hnew as [_ ->]. done.
    + intros (c & Hc & Hrej). apply Hw. right.
      destruct (Hvisited c) as (v & v' & Hv & Hv' & _); [apply elem_of_seq; lia|].
      exists c, v, v'. repeat split; try done; [apply elem_of_seq; lia|].
      pose proof (view_inv _ _ _ Hv) as (_ & _ & H3 & _).
      pose proof (view_inv _ _ _ Hv') as (_ & _ & H3' & _).
      destruct (Hclear c Hc) as [_ Hrc].
      unfold newly_rejected.
      rewrite H3 in Hrc. rewrite H3' in Hrej. simplify_eq. by rewrite Hrc, Hrej.
Qed.



(** *** The counters along the run *)

Lemma incr_no_wrap (x : Z) : 0 <= x -> x < max_int -> incr x = x + 1.
Proof.
  unfold incr, wrap64, max_int, intSize. intros H0 H1.
  change (2 ^ (64 - 1)) with (2 ^ 63) in H1.
  rewrite Z.mod_small; lia.
Qed.

Lemma put_in_range {A : Type} (l : list A) (c : nat) (v : A) :
  (c < length l)%nat -> put l c v = Returned (<[c:=v]> l).
Proof. intros H. unfold put. destruct (Nat.ltb_spec c (length l)); [done|lia]. Qed.

Lemma reset_flags_spec (todo : list nat) :
  forall st : Sources,
    Forall (fun c => (c < length contamination)%nat) todo -> sized st ->
    exists st' : Sources,
      reset_flags todo st = Returned st' /\ sized st' /\
      contScanners st' = contScanners st /\
      reads_found st' = reads_found st /\
      reads_filtered st' = reads_filtered st /\
      (forall c, c ∈ todo ->
         found st' !! c = Some false /\ rejected st' !! c = Some false) /\
      (forall c, c ∉ todo ->
         found st' !! c = found st !! c /\ rejected st' !! c = rejected st !! c).
Proof.
  induction todo as [|c todo IH]; intros st Hlt Hsized; simpl.
  - exists st. do 5 (split; [done|]). split; [|done].
    intros c Hc. by apply elem_of_nil in Hc.
  - apply Forall_cons_1 in Hlt as [Hc Hlt].
    pose proof Hsized as (H1 & H2 & H3 & H4 & H5).
    rewrite (put_in_range (rejected st)) by lia. simpl.
    rewrite (put_in_range (found st)) by lia. simpl.
    set (st1 := {| contScanners := contScanners st; reads_found := reads_found st;
                   reads_filtered := reads_filtered st;
                   rejected := <[c:=false]> (rejected st);
                   found := <[c:=false]> (found st) |}).
    assert (sized st1) as Hsized1.
    { unfold sized, st1. simpl. by rewrite !length_insert. }
    destruct (IH st1 Hlt Hsized1) as (st' & Hrun & Hs' & E1 & E2 & E3 & Hin & Hout).
    exists st'. split; [done|]. split; [done|]. split; [done|]. split; [done|].
    split; [done|]. split.
    + intros c' Hc'. destruct (decide (c' ∈ todo)) as [Hd|Hd]; [by apply Hin|].
      apply elem_of_cons in Hc' as [->|Hc']; [|done].
      destruct (Hout c Hd) as [-> ->]. unfold st1. simpl.
      rewrite !list_lookup_insert_eq by lia. done.
    + intros c' Hc'. apply not_elem_of_cons in Hc' as [Hne Hc'].
      destruct (Hout c' Hc') as [-> ->]. unfold st1. simpl.
      rewrite !list_lookup_insert_ne by done. done.
Qed.

Lemma reset_flags_all (st : Sources) :
  sized st ->
  exists st' : Sources,
    reset_flags (seq 0 (length contamination)) st = Returned st' /\
    sized st' /\ flags_clear st' /\
    contScanners st' = contScanners st /\
    reads_found st' = reads_found st /\
    reads_filtered st' = reads_filtered st.
Proof.
  intros Hsized.
  destruct (reset_flags_spec (seq 0 (length contamination)) st)
    as (st' & Hrun & Hs' & E1 & E2 & E3 & Hin & _); [|done|].
  { apply Forall_forall. intros c Hc. apply elem_of_seq in Hc. lia. }
  exists st'. split; [done|]. split; [done|]. split; [|done].
  intros c Hc. apply Hin. apply elem_of_seq. lia.
Qed.

(** What the contamination check does to the counts of a source: the
    count of reads found goes up by one or stays, and the count of reads
    rejected goes up by one only if the count of reads found does. *)
Lemma contamination_check_counts (read : string) (best : float) (st st' : Sources)
    (w : bool) :
  sized st -> flags_clear st ->
  contamination_check read best st = Returned (st', w) ->
  sized st' /\
  forall (c : nat) (nf' nr' : Z),
    reads_found st' !! c = Some nf' -> reads_filtered st' !! c = Some nr' ->
    exists nf nr : Z,
      reads_found st !! c = Some nf /\ reads_filtered st !! c = Some nr /\
      ((nf' = nf /\ nr' = nr) \/ (nf' = incr nf /\ nr' = nr) \/
       (nf' = incr nf /\ nr' = incr nr)).
Proof.
  intros Hsized Hclear Hrun.
  pose proof (contamination_check_sources _ _ _ _ _ Hsized Hclear Hrun) as (Hall & _).
  assert (sized st') as Hsized'.
  { unfold contamination_check in Hrun.
    apply scan_sources_spec in Hrun as (H & _); try done; [apply NoDup_seq|].
    apply Forall_forall. intros c Hc. apply elem_of_seq in Hc. lia. }
  split; [done|]. intros c nf' nr' Hnf' Hnr'.
  assert (c < length contamination)%nat as Hc.
  { apply lookup_lt_Some in Hnf'. destruct Hsized' as (_ & <- & _). done. }
  destruct (Hall c Hc) as (sc & sc' & mates & nf & nr & _ & _ & _ & _ & H1 & H2 & _ & H3 & _ & H4).
  exists nf, nr. split; [done|]. split; [done|].
  rewrite Hnf' in H3. rewrite Hnr' in H4. simplify_eq.
  destruct mates as [|mate mates]; simpl; [by left|].
  destruct (rejecting best mate || existsb (rejecting best) mates); auto.
Qed.

Ltac open_ledger H :=
  let Hsz := fresh "Hsized" in
  let Htot := fresh "Htotal" in
  let Hsrc := fresh "Hsrc" in
  let Hle := fresh "Hle" in
  let Hles := fresh "Hles" in
  destruct H as (Hsz & Htot & (? & ? & ?) & (? & ?) & (? & ?) & ? & ? & Hsrc & Hle & Hles);
  unfold le_counters in Hle; destruct Hle as (? & ? & ? & ? & ? & ? & ? & ?).

Ltac no_wrap :=
  repeat match goal with
         | |- context [incr ?x] => rewrite (incr_no_wrap x) by lia
         end.

Ltac close_ledger :=
  unfold ledger, le_counters; simpl; no_wrap;
  repeat match goal with |- _ /\ _ => split end;
  try done; try lia.

Section Ledger.

Variable n : Z.
Hypothesis n_fits : n <= max_int.
Variable k0 : Counters.
Variable st0 : Sources.

Lemma ledger_with_sample (d s j : Z) (e : Engine) (sc : BamScanner) :
  ledger d s j n k0 st0 e -> (remaining sc <= remaining (sample e))%nat ->
  ledger d s j n k0 st0 (with_sample e sc).
Proof. intros H Hrem. open_ledger H. close_ledger. Qed.

Lemma ledger_with_flags (d s j : Z) (e : Engine) (st : Sources) :
  ledger d s j n k0 st0 e -> sized st ->
  reads_found st = reads_found (sources e) ->
  reads_filtered st = reads_filtered (sources e) ->
  ledger d s j n k0 st0 (with_sources e st).
Proof.
  intros H Hsized E1 E2. open_ledger H. close_ledger.
  - by rewrite E1, E2.
  - unfold le_sources. by rewrite E1, E2.
Qed.

Lemma ledger_fetch (e : Engine) (sc : BamScanner) :
  ledger 0 0 0 n k0 st0 e -> (remaining sc + 1 <= remaining (sample e))%nat ->
  ledger 1 1 0 n k0 st0
    (count incr_total_read_mates (count incr_total_reads (with_sample e sc))).
Proof. intros H Hrem. open_ledger H. close_ledger. Qed.

Lemma ledger_mate2 (e : Engine) (sc : BamScanner) :
  ledger 1 1 0 n k0 st0 e -> (remaining sc + 1 <= remaining (sample e))%nat ->
  ledger 1 2 0 n k0 st0 (count incr_total_read_mates (with_sample e sc)).
Proof. intros H Hrem. open_ledger H. close_ledger. Qed.

Lemma ledger_ercc (s : Z) (e : Engine) :
  ledger 1 s 0 n k0 st0 e -> 0 <= s -> ledger 0 0 0 n k0 st0 (count incr_ercc e).
Proof. intros H Hs. open_ledger H. close_ledger. Qed.

Lemma ledger_too_short (s : Z) (e : Engine) :
  ledger 1 s 0 n k0 st0 e -> 0 <= s -> ledger 0 0 0 n k0 st0 (count incr_too_short e).
Proof. intros H Hs. open_ledger H. close_ledger. Qed.

Lemma ledger_too_diverged (s : Z) (e : Engine) :
  ledger 1 s 0 n k0 st0 e -> 0 <= s ->
  ledger 0 0 0 n k0 st0 (count incr_too_diverged e).
Proof. intros H Hs. open_ledger H. close_ledger. Qed.

Lemma ledger_considered (s : Z) (e : Engine) (read : string) (best : float)
    (st' : Sources) (w : bool) :
  ledger 1 s 0 n k0 st0 e -> flags_clear (sources e) ->
  contamination_check read best (sources e) = Returned (st', w) ->
  ledger 0 s 1 n k0 st0 (with_sources (count incr_considered e) st').
Proof.
  intros H Hclear Hrun. open_ledger H.
  apply contamination_check_counts in Hrun as [Hsized' Hcounts]; try done.
  assert (forall c nf', reads_found st' !! c = Some nf' ->
            exists nr', reads_filtered st' !! c = Some nr') as Hboth1.
  { intros c nf' Hc. apply lookup_lt_Some in Hc. apply lookup_lt_is_Some_2.
    destruct Hsized' as (_ & Hl1 & Hl2 & _). lia. }
  assert (forall c nr', reads_filtered st' !! c = Some nr' ->
            exists nf', reads_found st' !! c = Some nf') as Hboth2.
  { intros c nr' Hc. apply lookup_lt_Some in Hc. apply lookup_lt_is_Some_2.
    destruct Hsized' as (_ & Hl1 & Hl2 & _). lia. }
  close_ledger.
  - intros c nf' nr' Hnf' Hnr'.
    destruct (Hcounts c nf' nr' Hnf' Hnr') as (nf & nr & Hnf & Hnr & Hcase).
    destruct (Hsrc c nf nr Hnf Hnr) as (? & ? & ?).
    destruct Hcase as [[-> ->]|[[-> ->]|[-> ->]]];
      no_wrap; lia.
  - intros c x x'. split.
    + intros Hx Hnf'. destruct (Hboth1 c x' Hnf') as [nr' Hnr'].
      destruct (Hcounts c x' nr' Hnf' Hnr') as (nf & nr & Hnf & Hnr & Hcase).
      destruct (Hsrc c nf nr Hnf Hnr) as (? & ? & ?).
      pose proof (proj1 (Hles c x nf) Hx Hnf).
      destruct Hcase as [[-> ->]|[[-> ->]|[-> ->]]];
        no_wrap; lia.
    + intros Hx Hnr'. destruct (Hboth2 c x' Hnr') as [nf' Hnf'].
      destruct (Hcounts c nf' x' Hnf' Hnr') as (nf & nr & Hnf & Hnr & Hcase).
      destruct (Hsrc c nf nr Hnf Hnr) as (? & ? & ?).
      pose proof (proj2 (Hles c x nr) Hx Hnr).
      destruct Hcase as [[-> ->]|[[-> ->]|[-> ->]]];
        no_wrap; lia.
Qed.

Lemma ledger_emit (s : Z) (m : Mates) (e e' : Engine) (ctl : control) :
  ledger 0 s 1 n k0 st0 e -> 1 <= s ->
  (forall row, mate2 m = Some row -> 2 <= s) ->
  emit m e = (ctl, e') ->
  ledger 0 0 0 n k0 st0 e' /\ sample e' = sample e.
Proof.
  intros H Hs Hs2. open_ledger H. unfold emit, Fprintf.
  destruct (room (outfp e)) as [[|r1]|]; simpl.
  - intros [= <- <-]. split; [|done]. close_ledger.
  - destruct (mate2 m) as [row2|] eqn:Hm2; simpl.
    + specialize (Hs2 row2 eq_refl).
      destruct r1 as [|r2]; simpl; intros [= <- <-]; (split; [|done]); close_ledger.
    + intros [= <- <-]. split; [|done]. close_ledger.
  - destruct (mate2 m) as [row2|] eqn:Hm2; simpl.
    + specialize (Hs2 row2 eq_refl). intros [= <- <-]. split; [|done]. close_ledger.
    + intros [= <- <-]. split; [|done]. close_ledger.
Qed.

Lemma ledger_relax (d s j : Z) (e : Engine) :
  ledger d s j n k0 st0 e -> 0 <= s -> 0 <= j -> ledger d 0 0 n k0 st0 e.
Proof. intros H Hs Hj. open_ledger H. close_ledger. Qed.

Lemma min_length_filter_mate2 (m m' : Mates) :
  min_length_filter m = Some m' -> mate2 m' = None \/ mate2 m' = mate2 m.
Proof.
  unfold min_length_filter. intros H.
  repeat case_match; simplify_eq; simpl; auto.
Qed.

Lemma max_dist_filter_mate2 (m m' : Mates) :
  max_dist_filter m = Some m' -> mate2 m' = None \/ mate2 m' = mate2 m.
Proof.
  unfold max_dist_filter. intros H.
  repeat case_match; simplify_eq; simpl; auto.
Qed.

Lemma judge_ledger (s : Z) (read : string) (m : Mates) (e e' : Engine) (ctl : control) :
  ledger 1 s 0 n k0 st0 e -> 1 <= s ->
  (forall row, mate2 m = Some row -> 2 <= s) ->
  flags_clear (sources e) ->
  judge read m e = Returned (ctl, e') ->
  settled n k0 st0 ctl e' /\ sample e' = sample e.
Proof.
  intros H Hs Hs2 Hclear. unfold judge. intros Hrun.
  apply bind_Returned in Hrun as (is_ercc & _ & Hrun).
  destruct is_ercc.
  { injection Hrun as <- <-. split; [|done]. eapply ledger_ercc; [done|lia]. }
  destruct (min_length_filter m) as [m1|] eqn:Hm1.
  2:{ injection Hrun as <- <-. split; [|done]. eapply ledger_too_short; [done|lia]. }
  destruct (max_dist_filter m1) as [m2|] eqn:Hm2.
  2:{ injection Hrun as <- <-. split; [|done]. eapply ledger_too_diverged; [done|lia]. }
  apply bind_Returned in Hrun as ([st' w] & Hcheck & Hrun).
  pose proof (ledger_considered _ _ _ _ _ _ H Hclear Hcheck) as H'.
  destruct w; simpl in Hrun.
  - injection Hrun as <- <-. split; [|done]. apply (ledger_relax 0 s 1); [done|lia|lia].
  - injection Hrun as Hemit.
    apply (ledger_emit s) in Hemit as [Hl Hsample]; try done.
    + split; [|done]. by destruct ctl as [|[err|]]; [|left|].
    + intros row Hrow. apply max_dist_filter_mate2 in Hm2 as [Hn|Hn];
        [congruence|]. rewrite Hn in Hrow.
      apply min_length_filter_mate2 in Hm1 as [Hn1|Hn1]; [congruence|].
      rewrite Hn1 in Hrow. by eapply Hs2.
Qed.

Lemma turn_ledger (e e' : Engine) (ctl : control) :
  ledger 0 0 0 n k0 st0 e ->
  turn e = Returned (ctl, e') ->
  settled n k0 st0 ctl e' /\
  (ctl = Next -> (remaining (sample e') < remaining (sample e))%nat).
Proof.
  intros H. unfold turn.
  destruct ((Limit args >? 0) && (Limit args =? total_reads (counters e))).
  { intros [= <- <-]. split; [done|discriminate]. }
  pose proof H as Hsized. destruct Hsized as [Hsized _].
  destruct (reset_flags_all _ Hsized) as (st1 & -> & Hsized1 & Hclear & _ & E1 & E2).
  simpl. intros Hrun.
  pose proof (ledger_with_flags _ _ _ _ _ H Hsized1 E1 E2) as H1.
  apply bind_Returned in Hrun as ([r sc] & Hrec & Hrun). simpl in Hrec.
  pose proof (Record_remaining _ _ _ Hrec) as Hrem.
  pose proof (ledger_with_sample _ _ _ _ sc H1 Hrem) as H2.
  destruct r as [row1|err].
  2:{ injection Hrun as <- <-. split; [by left|discriminate]. }
  destruct (Closed sc).
  { injection Hrun as <- <-. split; [done|discriminate]. }
  destruct row1 as [row1|]; simpl in Hrun; [|discriminate].
  apply Record_some in Hrec as (Hcache & Hrem1 & _).
  apply bind_Returned in Hrun as (read & _ & Hrun).
  assert (remaining (BamScanner_Ratchet sc) + 1 = remaining (sample e))%nat as Hrem2.
  { unfold remaining in *. rewrite Hcache in Hrem1. simpl in *. lia. }
  assert (ledger 1 1 0 n k0 st0
            (count incr_total_read_mates
               (count incr_total_reads
                  (with_sample (with_sample (with_sources e st1) sc)
                     (BamScanner_Ratchet sc))))) as H3.
  { apply (ledger_fetch (with_sample (with_sources e st1) sc)); [done|simpl; lia]. }
  apply bind_Returned in Hrun as ([r2 sc2] & Hfind & Hrun). simpl in Hfind.
  apply Find_remaining in Hfind as [Hrem3 Hrem4].
  destruct r2 as [row2|err].
  2:{ injection Hrun as <- <-. split; [|discriminate]. right.
      apply (ledger_relax 1 1 0); [|lia|lia].
      apply ledger_with_sample; [done|simpl; lia]. }
  set (e6 := match row2 with
             | Some _ => _
             | None => _
             end) in Hrun.
  assert (exists s, ledger 1 s 0 n k0 st0 e6 /\ 1 <= s /\
                    (forall row, row2 = Some row -> 2 <= s) /\
                    flags_clear (sources e6) /\
                    (remaining (sample e6) < remaining (sample e))%nat) as
    (s & H6 & Hs & Hs2 & Hclear6 & Hrem6).
  { unfold e6. destruct row2 as [row2|].
    - exists 2. split; [|split; [lia|split; [lia|split; [done|]]]].
      + apply (ledger_mate2 _ (BamScanner_Ratchet sc2)) in H3; [done|].
        specialize (Hrem4 row2 eq_refl). unfold remaining in *. simpl in *.
        destruct (record sc2); lia.
      + simpl. unfold remaining in *. simpl in *. destruct (record sc2); lia.
    - exists 1. split; [|split; [lia|split; [discriminate|split; [done|]]]].
      + by apply ledger_with_sample.
      + simpl. lia. }
  clearbody e6.
  apply bind_Returned in Hrun as (x1 & _ & Hrun).
  destruct x1 as [[len1 dist1]|err].
  2:{ injection Hrun as <- <-. split; [|discriminate]. right.
      apply (ledger_relax 1 s 0); [done|lia|lia]. }
  apply bind_Returned in Hrun as (x2 & _ & Hrun).
  destruct x2 as [[len2 dist2]|err].
  2:{ injection Hrun as <- <-. split; [|discriminate]. right.
      apply (ledger_relax 1 s 0); [done|lia|lia]. }
  apply (judge_ledger s) in Hrun as [Hsettled Hsample]; try done.
  split; [done|]. intros _. by rewrite Hsample.
Qed.

Lemma extract_not_Timeout (row : list string) : extract row <> Timeout.
Proof. unfold extract. repeat case_match; discriminate. Qed.

Lemma index_not_Timeout (row : list string) (i : nat) : index row i <> Timeout.
Proof. unfold index. case_match; discriminate. Qed.

Lemma judge_not_Timeout (read : string) (m : Mates) (e : Engine) :
  sized (sources e) -> judge read m e <> Timeout.
Proof.
  intros Hsized. unfold judge. apply bind_not_Timeout.
  { unfold MatchesErcc. destruct (Ercc args); [|discriminate].
    apply bind_not_Timeout; [apply index_not_Timeout|]. intros ref1 _.
    repeat case_match; try discriminate.
    apply bind_not_Timeout; [apply index_not_Timeout|]. discriminate. }
  intros is_ercc _. destruct is_ercc; [discriminate|].
  destruct (min_length_filter m) as [m1|]; [|discriminate].
  destruct (max_dist_filter m1) as [m2|]; [|discriminate].
  apply bind_not_Timeout.
  { apply scan_sources_terminates; [|done].
    apply Forall_forall. intros c Hc. apply elem_of_seq in Hc. lia. }
  intros [st' w] _. destruct w; simpl; [discriminate|].
  destruct (emit m2 _); discriminate.
Qed.

Lemma turn_not_Timeout (e : Engine) : sized (sources e) -> turn e <> Timeout.
Proof.
  intros Hsized. unfold turn.
  destruct ((Limit args >? 0) && (Limit args =? total_reads (counters e)));
    [discriminate|].
  destruct (reset_flags_all _ Hsized) as (st1 & -> & Hsized1 & _). simpl.
  apply bind_not_Timeout; [apply Record_not_Timeout|].
  intros [r sc] _. destruct r as [row1|err]; [|discriminate].
  destruct (Closed sc); [discriminate|].
  apply bind_not_Timeout; [apply index_not_Timeout|]. intros read _.
  apply bind_not_Timeout; [apply Find_terminates|].
  intros [r2 sc2] _. destruct r2 as [row2|err]; [|discriminate].
  apply bind_not_Timeout; [apply extract_not_Timeout|].
  intros [[len1 dist1]|err] _; [|discriminate].
  apply bind_not_Timeout.
  { destruct row2; simpl; [apply extract_not_Timeout|discriminate]. }
  intros [[len2 dist2]|err] _; [|discriminate].
  apply judge_not_Timeout. by destruct row2.
Qed.

Lemma main_loop_ledger (fuel : nat) :
  forall (e e' : Engine) (err : option error),
    ledger 0 0 0 n k0 st0 e ->
    main_loop fuel e = Returned (err, e') ->
    settled n k0 st0 (Return err) e'.
Proof.
  induction fuel as [|fuel IH]; intros e e' err H; simpl; [discriminate|].
  intros Hrun. apply bind_Returned in Hrun as ([ctl e1] & Hturn & Hrun).
  apply turn_ledger in Hturn as [Hsettled _]; [|done].
  destruct ctl as [|err1].
  - by eapply IH.
  - by injection Hrun as <- <-.
Qed.

Lemma main_loop_terminates (fuel : nat) :
  forall e : Engine,
    ledger 0 0 0 n k0 st0 e -> (remaining (sample e) < fuel)%nat ->
    main_loop fuel e <> Timeout.
Proof.
  induction fuel as [|fuel IH]; intros e H Hfuel; [lia|]. simpl.
  apply bind_not_Timeout; [apply turn_not_Timeout; by destruct H|].
  intros [ctl e1] Hturn. apply turn_ledger in Hturn as [Hsettled Hless]; [|done].
  destruct ctl as [|err1]; [|discriminate].
  apply IH; [done|]. specialize (Hless eq_refl). lia.
Qed.

End Ledger.

Lemma head_ledger (n : Z) (k0 : Counters) (st0 : Sources) (e0 e : Engine) :
  n <= max_int -> ledger 0 0 0 n k0 st0 e0 -> head_of_turn e0 e ->
  ledger 0 0 0 n k0 st0 e.
Proof.
  intros Hn H0 Hhead. induction Hhead as [|e e' _ IH Hturn]; [done|].
  by apply (turn_ledger n Hn k0 st0) in Hturn as [Hsettled _].
Qed.

(** The loop ends in the turn that returns. *)
Lemma main_loop_last (e0 : Engine) (fuel : nat) :
  forall (e e' : Engine) (err : option error),
    head_of_turn e0 e -> main_loop fuel e = Returned (err, e') ->
    exists e1 : Engine, head_of_turn e0 e1 /\ turn e1 = Returned (Return err, e').
Proof.
  induction fuel as [|fuel IH]; intros e e' err Hhead; simpl; [discriminate|].
  intros Hrun. apply bind_Returned in Hrun as ([ctl e1] & Hturn & Hrun).
  destruct ctl as [|err1].
  - eapply IH; [|done]. by econstructor.
  - injection Hrun as <- <-. by exists e.
Qed.

Lemma ledger_tally (s j : Z) (n : Z) (k0 : Counters) (st0 : Sources) (e : Engine) :
  0 <= j -> ledger 0 s j n k0 st0 e ->
  tally e /\ le_counters k0 (counters e) /\ le_sources st0 (sources e).
Proof.
  intros Hj H. open_ledger H. unfold tally, le_counters. simpl.
  repeat match goal with |- _ /\ _ => split end; try done; try lia.
  intros c nf nr Hnf Hnr. destruct (Hsrc c nf nr Hnf Hnr) as (? & ? & ?). lia.
Qed.

Lemma ledger_rebase (d s j : Z) (n : Z) (k0 : Counters) (st0 : Sources) (e : Engine) :
  ledger d s j n k0 st0 e -> ledger d s j n (counters e) (sources e) e.
Proof.
  intros H. open_ledger H. close_ledger.
  intros c x x'. split; intros E1 E2; rewrite E1 in E2; injection E2 as ->; lia.
Qed.

Lemma ledger_start (sample_input : Scanner) (pipe : option nat) :
  let e0 := start sample_input pipe in
  ledger 0 0 0 (Z.of_nat (length (tokens sample_input))) (counters e0) (sources e0) e0.
Proof.
  unfold start. close_ledger.
  - unfold sized. simpl. by rewrite length_map, !length_replicate.
  - intros c nf nr Hnf Hnr. apply lookup_replicate in Hnf as [-> _].
    apply lookup_replicate in Hnr as [-> _]. lia.
  - intros c x x'. split; intros E1 E2; rewrite E1 in E2; injection E2 as ->; lia.
Qed.

(** C10, as the code has it.  Let the sample stream have no more lines
    than an [int] can count.  At the head of every turn, and when the
    loop has ended with the [return] of [nil], the total of reads is the
    sum of the reads excluded as ERCC, too short and too diverged and of
    the reads considered; the reads kept are at most the reads
    considered; and for every source the reads rejected are at most the
    reads found, which are at most the reads considered.  No counter goes
    down in a turn, however the turn ends.  The loop comes to an end, in
    the turn that returns.  When it ends with the [return] of an error, the read of the failed
    turn may be counted in the total and in no class: the total is the
    sum or one more. *)
Theorem counters_tally (sample_input : Scanner) (pipe : option nat) :
  Z.of_nat (length (tokens sample_input)) <= max_int ->
  let e0 := start sample_input pipe in
  (forall e : Engine,
      head_of_turn e0 e ->
      tally e /\ le_counters (counters e0) (counters e) /\
      le_sources (sources e0) (sources e))
  /\ (forall (e e' : Engine) (ctl : control),
        head_of_turn e0 e -> turn e = Returned (ctl, e') ->
        le_counters (counters e) (counters e') /\ le_sources (sources e) (sources e'))
  /\ run e0 <> Timeout
  /\ (forall (e' : Engine) (err : option error),
        run e0 = Returned (err, e') ->
        exists e : Engine, head_of_turn e0 e /\ turn e = Returned (Return err, e'))
  /\ (forall e' : Engine,
        run e0 = Returned (None, e') ->
        tally e' /\ le_counters (counters e0) (counters e') /\
        le_sources (sources e0) (sources e'))
  /\ (forall (e' : Engine) (err : error),
        run e0 = Returned (Some err, e') ->
        let k := counters e' in
        (total_reads k = ercc k + too_short k + too_diverged k + considered k \/
         total_reads k = ercc k + too_short k + too_diverged k + considered k + 1) /\
        le_counters (counters e0) k).
Proof.
  intros Hn e0. pose proof (ledger_start sample_input pipe) as H0. fold e0 in H0.
  cbv zeta in H0.
  split; [|split; [|split; [|split; [|split]]]].
  - intros e Hhead. eapply ledger_tally with (j := 0); [lia|].
    by eapply head_ledger.
  - intros e e' ctl Hhead Hturn.
    pose proof (head_ledger _ _ _ _ _ Hn H0 Hhead) as He.
    apply ledger_rebase in He.
    apply (turn_ledger _ Hn (counters e) (sources e)) in Hturn as [Hsettled _];
      [|exact He].
    assert (exists d, ledger d 0 0 (Z.of_nat (length (tokens sample_input)))
                        (counters e) (sources e) e') as [d Hd].
    { destruct ctl as [|[err|]]; simpl in Hsettled;
        [by exists 0|destruct Hsettled; [by exists 0|by exists 1]|by exists 0]. }
    open_ledger Hd. unfold le_counters. done.
  - apply (main_loop_terminates _ Hn _ _ _ _ H0). lia.
  - intros e' err Hrun. eapply main_loop_last; [|exact Hrun]. constructor.
  - intros e' Hrun. apply (main_loop_ledger _ Hn _ _ _ _ _ _ H0) in Hrun.
    simpl in Hrun. eapply ledger_tally with (j := 0); [lia|done].
  - intros e' err Hrun. cbv zeta. apply (main_loop_ledger _ Hn _ _ _ _ _ _ H0) in Hrun.
    simpl in Hrun. destruct Hrun as [H|H]; open_ledger H; unfold le_counters;
      (split; [lia|done]).
Qed.


(** *** The comparator and [extract] on particular inputs *)

(** [strconv.Atoi] accepts a string only if its first byte is a digit
    or a sign, an ASCII byte in either case. *)
Lemma Atoi_first_byte (c : ascii) (t : string) (n : Z) :
  Atoi (String c t) = Some n -> byte c < 0x80.
Proof.
  destruct c as [[] [] [] [] [] [] [] []]; try (intros _; vm_compute; reflexivity);
    unfold Atoi; cbn [parse_digits is_ascii_digit]; vm_compute (is_ascii_digit _);
    cbv iota; intros H; destruct t; discriminate.
Qed.

Lemma Atoi_single_byte (c : ascii) (n : Z) :
  Atoi (String c "") = Some n -> 48 <= byte c <= 57.
Proof.
  destruct c as [[] [] [] [] [] [] [] []]; vm_compute; intros H;
    solve [discriminate H | split; discriminate].
Qed.

Lemma byte_byte_of (z : Z) : 0 <= z < 256 -> byte (byte_of z) = z.
Proof.
  intros H. unfold byte, byte_of. rewrite N_ascii_embedding; lia.
Qed.

Lemma lead_byte_not_ascii (k y : Z) :
  128 <= k < 256 -> 0 <= y < 128 -> 128 <= byte (byte_of (Z.lor k y)).
Proof.
  intros Hk Hy.
  assert (0 <= Z.lor k y) as Hnn by (apply Z.lor_nonneg; lia).
  assert (Z.log2 (Z.lor k y) = 7) as Hlog.
  { rewrite Z.log2_lor by lia.
    assert (Z.log2 k = 7) as ->.
    { apply Z.log2_unique; simpl; lia. }
    assert (Z.log2 y <= 6); [|lia].
    destruct (Z.eq_dec y 0) as [->|]; [simpl; lia|].
    assert (Z.log2 y < 7); [|lia]. apply Z.log2_lt_pow2; simpl; lia. }
  assert (0 < Z.lor k y) as Hpos.
  { destruct (Z.eq_dec (Z.lor k y) 0) as [E|]; [|lia]. rewrite E in Hlog. discriminate. }
  pose proof (Z.log2_spec _ Hpos) as Hspec. rewrite Hlog in Hspec.
  simpl in Hspec. rewrite byte_byte_of; lia.
Qed.

(** A rune that [digitToInt(string(r))] accepts is an ASCII digit. *)
Lemma Atoi_encode_rune (r : rune) (n : Z) :
  Atoi (encode_rune r) = Some n -> 48 <= r <= 57.
Proof.
  unfold encode_rune.
  destruct ((0 <=? r) && (r <? 128)) eqn:E1.
  { intros H. apply Atoi_single_byte in H. rewrite byte_byte_of in H; lia. }
  destruct ((0 <=? r) && (r <? 2048)) eqn:E2.
  { intros H. apply Atoi_first_byte in H.
    assert (0 <= Z.shiftr r 6 < 128).
    { rewrite Z.shiftr_div_pow2 by lia. change (2 ^ 6) with 64.
      split; [apply Z.div_pos; lia|]. apply Z.div_lt_upper_bound; lia. }
    pose proof (lead_byte_not_ascii 192 (Z.shiftr r 6)). lia. }
  destruct ((r <? 0) || (1114111 <? r) || ((55296 <=? r) && (r <=? 57343))) eqn:E3.
  { intros H. apply Atoi_first_byte in H. vm_compute in H. discriminate. }
  destruct (r <? 65536) eqn:E4.
  { intros H. apply Atoi_first_byte in H.
    assert (0 <= Z.shiftr r 12 < 128).
    { rewrite Z.shiftr_div_pow2 by lia. change (2 ^ 12) with 4096.
      split; [apply Z.div_pos; lia|]. apply Z.div_lt_upper_bound; lia. }
    pose proof (lead_byte_not_ascii 224 (Z.shiftr r 12)). lia. }
  intros H. apply Atoi_first_byte in H.
  assert (0 <= Z.shiftr r 18 < 128).
  { rewrite Z.shiftr_div_pow2 by lia. change (2 ^ 18) with 262144.
    split; [apply Z.div_pos; lia|]. apply Z.div_lt_upper_bound; lia. }
  pose proof (lead_byte_not_ascii 240 (Z.shiftr r 18)). lia.
Qed.

(** The branch of the comparator for characters that are not both
    digits never returns when they differ: one of the two is no ASCII
    digit, and [digitToInt] ends the process on it. *)
Lemma strnum_loop_letters_exit (fuel : nat) (a b : list rune) (i j : nat) (x y : rune) :
  a !! i = Some x -> b !! j = Some y ->
  IsDigit x && IsDigit y = false -> x <> y ->
  exists s : string, strnum_loop (S fuel) a b i j = Exited (FatalParseDigit s).
Proof.
  intros Hx Hy Hdig Hne. simpl. rewrite Hx, Hy, Hdig.
  apply Z.eqb_neq in Hne. rewrite Hne. simpl.
  assert (forall r n, Atoi (encode_rune r) = Some n -> IsDigit r = true) as Hdigit.
  { intros r n H. apply Atoi_encode_rune in H. unfold IsDigit.
    destruct (Z.leb_spec r 255); [|lia].
    apply andb_true_iff. split; apply Z.leb_le; lia. }
  unfold digitToInt.
  destruct (Atoi (encode_rune x)) as [n|] eqn:Ex; simpl; [|by eexists].
  destruct (Atoi (encode_rune y)) as [m|] eqn:Ey; simpl; [|by eexists].
  apply Hdigit in Ex, Ey. rewrite Ex, Ey in Hdig. discriminate.
Qed.

(** C2.  Where the two strings differ in a character that is not a digit
    on both sides, [strnum_cmp] hands the characters to [digitToInt],
    whose [strconv.Atoi] fails on a letter: the process ends in
    [log.Fatal] and the comparison returns nothing, neither for
    [("a", "b")] nor for [("b", "a")]. *)
Theorem strnum_cmp_letters_exit :
  strnum_cmp "a" "b" = Exited (FatalParseDigit "a") /\
  strnum_cmp "b" "a" = Exited (FatalParseDigit "b") /\
  strnum_cmp "read1x" "read1y" = Exited (FatalParseDigit "x").
Proof. repeat match goal with |- _ /\ _ => split end; vm_compute; reflexivity. Qed.

(** C8, as the code has it.  ["read2"] orders before ["read10"], against
    the lexicographic order of the bytes.  ["read02"] and ["read2"] are
    not equal under the comparator: of two identifiers that differ only
    in leading zeros the one with more zeros orders first, here as in
    the lexicographic order of the bytes. *)
Theorem strnum_cmp_read_examples :
  strnum_cmp "read2" "read10" = Returned (-1) /\
  String.compare "read2" "read10" = Gt /\
  strnum_cmp "read02" "read2" = Returned (-1) /\
  strnum_cmp "read2" "read02" = Returned 1 /\
  String.compare "read02" "read2" = Lt.
Proof. repeat match goal with |- _ /\ _ => split end; vm_compute; reflexivity. Qed.

(** What [extract] does on the rows whose tag has the five bytes that the
    test of the prefix takes. *)
Lemma extract_cases (row : list string) :
  ((length row < 15)%nat -> extract row = Returned (Error ErrTooFewFields)) /\
  ((15 <= length row)%nat ->
   let edit_tag := field row 14 in
   (len edit_tag < 5 ->
    extract row = Panicked (SliceBoundsOutOfRange 5 (len edit_tag))) /\
   (5 <= len edit_tag ->
    (String.substring 0 5 edit_tag <> "nM:i:" ->
     extract row = Returned (Error (ErrMalformedTag edit_tag))) /\
    (String.substring 0 5 edit_tag = "nM:i:" ->
     extract row =
     match Atoi (String.substring 5 (String.length edit_tag - 5) edit_tag) with
     | Some edit_dist => Returned (Val (len (field row 9), edit_dist))
     | None => Returned (Error (ErrParseEditDist edit_tag))
     end))).
Proof.
  unfold extract. split.
  - intros H. by destruct (Nat.ltb_spec (length row) 15); [|lia].
  - intros H. cbv zeta. destruct (Nat.ltb_spec (length row) 15); [lia|].
    set (edit_tag := field row 14). split.
    + intros Hshort. by destruct (Z.ltb_spec (len edit_tag) 5); [|lia].
    + intros Hlong. destruct (Z.ltb_spec (len edit_tag) 5); [lia|]. split.
      * intros Hne. apply String.eqb_neq in Hne. by rewrite Hne.
      * intros Heq. apply String.eqb_eq in Heq. rewrite Heq. simpl.
        by destruct (Atoi _).
Qed.

(** C6.  A row of fifteen fields whose last field is shorter than five
    bytes: [edit_tag[:5]] is out of range and [extract] panics, where an
    error value was due. *)
Theorem extract_short_tag_panics :
  extract ["r1"; "0"; "chr1"; "1"; "255"; "4M"; "*"; "0"; "0"; "ACGT"; "IIII";
           "NH:i:1"; "HI:i:1"; "AS:i:3"; "nM"]
  = Panicked (SliceBoundsOutOfRange 5 2).
Proof. vm_compute. reflexivity. Qed.


(** C3.  A cursor over two records with the identifiers readA and
    readB.  readA orders strictly before readB, so [Find] for readB is to
    advance past the first record and to return the second.  It does
    neither: to order the two identifiers the comparator hands the
    characters in which they differ to [digitToInt], and the process ends
    in [log.Fatal].  The same happens where the record is to stay cached:
    on a cursor over the record of readB, [Find] for readA is to return
    no record, and the process ends. *)
Theorem Find_exits_on_letters :
  BamScanner_Find
    (OpenBam {| tokens := [sam_line ["readA"; "x"]; sam_line ["readB"; "y"]];
                read_error := None |}) "readB"
  = Exited (FatalParseDigit "A") /\
  BamScanner_Find
    (OpenBam {| tokens := [sam_line ["readB"; "y"]]; read_error := None |}) "readA"
  = Exited (FatalParseDigit "B").
Proof. split; vm_compute; reflexivity. Qed.

(** C7.  A stream of two records with the identifiers readB and readA,
    which is not in order.  [Record] yields the first record; the
    [Record] that scans the second is to fail with the sort-order error
    for line 2.  It returns no error: comparing the identifiers the
    comparator hands the character B to [digitToInt], and the process
    ends in [log.Fatal].  The stream of readA and readB, which is in
    order, ends the process in the same way. *)
Theorem Record_exits_on_letters :
  let s := OpenBam {| tokens := [sam_line ["readB"; "x"]; sam_line ["readA"; "y"]];
                      read_error := None |} in
  let s1 := {| LineNumber := 1;
               scanner := {| tokens := [sam_line ["readA"; "y"]]; read_error := None |};
               prev := "readB"; record := Some ["readB"; "x"]; Closed := false |} in
  BamScanner_Record s = Returned (Val (Some ["readB"; "x"]), s1) /\
  BamScanner_Record (BamScanner_Ratchet s1) = Exited (FatalParseDigit "B") /\
  read_stream s = Exited (FatalParseDigit "B") /\
  read_stream
    (OpenBam {| tokens := [sam_line ["readA"; "x"]; sam_line ["readB"; "y"]];
                read_error := None |})
  = Exited (FatalParseDigit "A").
Proof.
  cbv zeta. repeat match goal with |- _ /\ _ => split end; vm_compute; reflexivity. Qed.

(** *** The comparator on equal identifiers, on the empty identifier, and
        with its arguments exchanged *)

Lemma skip_equal_digits_same (ra : list rune) (i : nat) :
  exists n : nat,
    skip_equal_digits ra ra i i = ((i + n)%nat, (i + n)%nat) /\
    match ra !! n with Some r => IsDigit r = false | None => True end.
Proof.
  revert i. induction ra as [|x ra IH]; intros i; simpl.
  - exists 0%nat. by rewrite Nat.add_0_r.
  - rewrite Z.eqb_refl, andb_true_r, andb_diag.
    destruct (IsDigit x) eqn:Hx.
    + destruct (IH (S i)) as (n & -> & Hn). exists (S n).
      split; [f_equal; lia|done].
    + exists 0%nat. by rewrite Nat.add_0_r.
Qed.

Lemma strnum_loop_same (fuel : nat) (a : list rune) (i : nat) :
  strnum_loop fuel a a i i = Returned 0 \/ strnum_loop fuel a a i i = Timeout.
Proof.
  revert i. induction fuel as [|fuel IH]; intros i; simpl; [by right|].
  destruct (a !! i) as [ai|] eqn:Hai.
  - rewrite andb_diag. destruct (IsDigit ai) eqn:Hd.
    + set (i1 := skip_zeros (drop i a) i).
      destruct (skip_equal_digits_same (drop i1 a) i1) as (n & -> & Hn).
      rewrite lookup_drop in Hn.
      assert (digit_at a (i1 + n) = false) as ->.
      { unfold digit_at. by destruct (a !! (i1 + n)%nat). }
      simpl. rewrite Nat.eqb_refl. simpl. apply IH.
    + rewrite Z.eqb_refl. simpl. apply IH.
  - rewrite Nat.ltb_irrefl. by left.
Qed.

(** X1.  An identifier compared with itself: the comparator returns 0,
    whatever the identifier holds; no character of it reaches
    [digitToInt]. *)
Theorem strnum_cmp_reflexive (s : string) : strnum_cmp s s = Returned 0.
Proof.
  pose proof (strnum_cmp_terminates s s) as Hnt. unfold strnum_cmp in *.
  by destruct (strnum_loop_same (S (length (runes_of_string s))) (runes_of_string s) 0).
Qed.

Lemma runes_of_string_nonempty (s : string) : s <> "" -> runes_of_string s <> [].
Proof.
  destruct s as [|c t]; [done|]. intros _. unfold runes_of_string. simpl.
  by destruct (DecodeRune c t).
Qed.

Lemma strnum_cmp_nil_r (s : string) : s <> "" -> strnum_cmp s "" = Returned 1.
Proof.
  intros Hs. apply runes_of_string_nonempty in Hs. unfold strnum_cmp.
  by destruct (runes_of_string s) as [|r rs] eqn:E.
Qed.

Lemma strnum_cmp_nil_l (s : string) : s <> "" -> strnum_cmp "" s = Returned (-1).
Proof.
  intros Hs. apply runes_of_string_nonempty in Hs. unfold strnum_cmp.
  by destruct (runes_of_string s) as [|r rs] eqn:E.
Qed.

(** X2.  The empty identifier orders strictly before every other one,
    and every other one strictly after it. *)
Theorem strnum_cmp_empty (s : string) :
  s <> "" -> strnum_cmp "" s = Returned (-1) /\ strnum_cmp s "" = Returned 1.
Proof. intros Hs. split; [by apply strnum_cmp_nil_l|by apply strnum_cmp_nil_r]. Qed.

Lemma skip_equal_digits_swap (ra rb : list rune) (i j : nat) :
  skip_equal_digits rb ra j i =
  (snd (skip_equal_digits ra rb i j), fst (skip_equal_digits ra rb i j)).
Proof.
  revert rb i j. induction ra as [|x ra IH]; intros [|y rb] i j; simpl; try done.
  rewrite (andb_comm (IsDigit y)), (Z.eqb_sym y x).
  destruct (IsDigit x && IsDigit y && (x =? y)); [apply IH|done].
Qed.

Lemma common_digits_swap (ra rb : list rune) (k : nat) :
  common_digits rb ra k = common_digits ra rb k.
Proof.
  revert rb k. induction ra as [|x ra IH]; intros [|y rb] k; simpl; try done.
  rewrite (andb_comm (IsDigit y)).
  destruct (IsDigit x && IsDigit y); [apply IH|done].
Qed.

Lemma digit_at_drop (a : list rune) (i n : nat) :
  digit_at (drop i a) n = digit_at a (i + n).
Proof. unfold digit_at. by rewrite lookup_drop. Qed.

(** The count of common digits stops where one of the two runs ends. *)
Lemma common_digits_stops (ra rb : list rune) (k0 : nat) :
  exists n : nat,
    common_digits ra rb k0 = (k0 + n)%nat /\
    digit_at ra n && digit_at rb n = false /\
    forall m : nat, (m < n)%nat -> digit_at ra m = true /\ digit_at rb m = true.
Proof.
  revert rb k0. induction ra as [|x ra IH]; intros [|y rb] k0; simpl.
  1-3: exists 0%nat; rewrite Nat.add_0_r; unfold digit_at; simpl;
       rewrite ?andb_false_r; (split; [done|split; [done|intros; lia]]).
  destruct (IsDigit x && IsDigit y) eqn:Hxy.
  - destruct (IH rb (S k0)) as (n & -> & Hn & Hbelow). exists (S n).
    split; [lia|]. split; [done|]. intros [|m] Hm.
    + unfold digit_at. simpl. by apply andb_true_iff.
    + apply Hbelow. lia.
  - exists 0%nat. rewrite Nat.add_0_r. split; [done|]. split; [done|intros; lia].
Qed.

Lemma wrap64_small (z : Z) : min_int <= z <= max_int -> wrap64 z = z.
Proof.
  unfold wrap64, min_int, max_int, intSize. intros H.
  change (2 ^ (64 - 1)) with (2 ^ 63) in H. rewrite Z.mod_small; lia.
Qed.

Lemma is_ascii_digit_range (c : ascii) : is_ascii_digit c = true -> 48 <= byte c <= 57.
Proof. unfold is_ascii_digit. intros H. apply andb_true_iff in H. lia. Qed.

Lemma parse_digits_ge (s : string) (acc n : Z) :
  parse_digits s acc = Some n -> 0 <= acc -> acc <= n.
Proof.
  revert acc. induction s as [|c t IH]; intros acc; simpl.
  - intros [= <-] _. lia.
  - destruct (is_ascii_digit c) eqn:Hc; [|discriminate].
    apply is_ascii_digit_range in Hc. intros H Hacc. apply IH in H; lia.
Qed.

(** [strconv.Atoi] on a string whose first byte is a digit: no sign is
    read, and the value is that of the digits. *)
Lemma Atoi_digit_head (c : ascii) (t : string) :
  is_ascii_digit c = true ->
  Atoi (String c t) =
  match parse_digits (String c t) 0 with
  | Some n => if n <=? max_int then Some n else None
  | None => None
  end.
Proof.
  intros Hc.
  assert (Atoi (String c t) =
          match parse_digits (String c t) 0 with
          | Some n => if (min_int <=? n) && (n <=? max_int) then Some n else None
          | None => None
          end) as ->.
  { destruct c as [[] [] [] [] [] [] [] []]; try (vm_compute in Hc; discriminate Hc);
      reflexivity. }
  destruct (parse_digits (String c t) 0) as [n|] eqn:E; [|done].
  apply parse_digits_ge in E; [|lia].
  destruct (Z.leb_spec min_int n) as [_|Hlt]; [done|].
  unfold min_int, intSize in Hlt. simpl in Hlt. lia.
Qed.

Lemma Atoi_digit_head_range (c : ascii) (t : string) (n : Z) :
  is_ascii_digit c = true -> Atoi (String c t) = Some n -> 0 <= n <= max_int.
Proof.
  intros Hc. rewrite (Atoi_digit_head _ _ Hc).
  destruct (parse_digits (String c t) 0) as [m|] eqn:E; [|discriminate].
  apply parse_digits_ge in E; [|lia].
  destruct (Z.leb_spec m max_int); [|discriminate]. intros [= <-]. lia.
Qed.

(** The first byte of the encoding of a rune is an ASCII byte only for
    an ASCII rune, which it is then. *)
Lemma encode_rune_head (r : rune) :
  exists (c : ascii) (t : string),
    encode_rune r = String c t /\ (byte c < 128 -> t = "" /\ r = byte c).
Proof.
  unfold encode_rune.
  destruct ((0 <=? r) && (r <? 128)) eqn:E1.
  { eexists _, _. split; [reflexivity|]. intros _. split; [done|].
    rewrite byte_byte_of; lia. }
  destruct ((0 <=? r) && (r <? 2048)) eqn:E2.
  { eexists _, _. split; [reflexivity|]. intros H.
    assert (0 <= Z.shiftr r 6 < 128).
    { rewrite Z.shiftr_div_pow2 by lia. change (2 ^ 6) with 64.
      split; [apply Z.div_pos; lia|]. apply Z.div_lt_upper_bound; lia. }
    pose proof (lead_byte_not_ascii 192 (Z.shiftr r 6)). lia. }
  destruct ((r <? 0) || (1114111 <? r) || ((55296 <=? r) && (r <=? 57343))) eqn:E3.
  { eexists _, _. split; [reflexivity|]. intros H. vm_compute in H. discriminate. }
  destruct (r <? 65536) eqn:E4.
  { eexists _, _. split; [reflexivity|]. intros H.
    assert (0 <= Z.shiftr r 12 < 128).
    { rewrite Z.shiftr_div_pow2 by lia. change (2 ^ 12) with 4096.
      split; [apply Z.div_pos; lia|]. apply Z.div_lt_upper_bound; lia. }
    pose proof (lead_byte_not_ascii 224 (Z.shiftr r 12)). lia. }
  eexists _, _. split; [reflexivity|]. intros H.
  assert (0 <= Z.shiftr r 18 < 128).
  { rewrite Z.shiftr_div_pow2 by lia. change (2 ^ 18) with 262144.
    split; [apply Z.div_pos; lia|]. apply Z.div_lt_upper_bound; lia. }
  pose proof (lead_byte_not_ascii 240 (Z.shiftr r 18)). lia.
Qed.

(** The number that [digitToInt] reads from a run of digits is not
    negative. *)
Lemma digit_run_value (a : list rune) (i k : nat) (x : Z) :
  digit_at a i = true -> (0 < k)%nat ->
  digitToInt (string_of_runes (slice a i (i + k))) = Returned x ->
  0 <= x <= max_int.
Proof.
  unfold digit_at, slice, digitToInt. intros Hd Hk.
  destruct (a !! i) as [r|] eqn:Hr; [|discriminate].
  replace (i + k - i)%nat with (S (k - 1)) by lia.
  rewrite (drop_S _ _ _ Hr). simpl.
  destruct (Atoi _) as [n|] eqn:E; [|discriminate]. intros [= <-].
  destruct (encode_rune_head r) as (c & t & Hc & Hascii). rewrite Hc in E. simpl in E.
  pose proof (Atoi_first_byte _ _ _ E) as Hlt.
  destruct (Hascii Hlt) as [-> ->].
  apply Atoi_digit_head_range in E; [done|].
  unfold IsDigit in Hd. destruct (Z.leb_spec (byte c) 255); [|lia]. done.
Qed.

(** The comparator with its arguments exchanged, step by step. *)
Lemma strnum_loop_swap (fuel : nat) (a b : list rune) :
  forall (fuel' i j : nat) (v : Z),
    strnum_loop fuel a b i j = Returned v ->
    strnum_loop fuel' b a j i <> Timeout ->
    strnum_loop fuel' b a j i = Returned (- v).
Proof.
  induction fuel as [|fuel IH]; intros fuel' i j v; simpl; [discriminate|].
  destruct fuel' as [|fuel']; [done|]. simpl.
  destruct (a !! i) as [ai|] eqn:Hai, (b !! j) as [bj|] eqn:Hbj.
  2-4: destruct (Nat.ltb_spec (length b) (length a)),
                (Nat.ltb_spec (length a) (length b)); try lia;
       intros [= <-] _; reflexivity.
  rewrite (andb_comm (IsDigit bj)). destruct (IsDigit ai && IsDigit bj) eqn:Hdig.
  - set (i1 := skip_zeros (drop i a) i). set (j1 := skip_zeros (drop j b) j).
    rewrite (skip_equal_digits_swap (drop i1 a) (drop j1 b) i1 j1).
    destruct (skip_equal_digits (drop i1 a) (drop j1 b) i1 j1) as [i2 j2]. simpl.
    rewrite (andb_comm (digit_at b j2)).
    destruct (digit_at a i2) eqn:Hda, (digit_at b j2) eqn:Hdb; simpl.
    2-3: intros [= <-] _; reflexivity.
    + rewrite (common_digits_swap (drop i2 a) (drop j2 b)).
      destruct (common_digits_stops (drop i2 a) (drop j2 b) 0) as (k & -> & Hstop & Hbelow).
      simpl. rewrite !digit_at_drop in Hstop.
      assert (0 < k)%nat as Hk.
      { destruct k; [|lia]. rewrite !Nat.add_0_r, Hda, Hdb in Hstop. discriminate. }
      destruct (digit_at a (i2 + k)) eqn:Hak, (digit_at b (j2 + k)) eqn:Hbk;
        simpl in Hstop; try discriminate.
      1-2: intros [= <-] _; reflexivity.
      intros H _. apply bind_Returned in H as (x & Hx & H).
      apply bind_Returned in H as (y & Hy & [= <-]).
      rewrite Hx, Hy. simpl.
      apply digit_run_value in Hx; [|done|done]. apply digit_run_value in Hy; [|done|done].
      unfold max_int, intSize in *. simpl in *.
      rewrite !wrap64_small by (unfold min_int, max_int, intSize; simpl; lia).
      f_equal. lia.
    + destruct (Nat.eqb_spec i2 j2) as [->|Hne]; simpl.
      * rewrite Nat.eqb_refl. simpl. apply IH.
      * destruct (Nat.eqb_spec j2 i2); [lia|]. simpl.
        destruct (Nat.ltb_spec i2 j2), (Nat.ltb_spec j2 i2); try lia;
          intros [= <-] _; reflexivity.
  - rewrite (Z.eqb_sym bj ai). destruct (ai =? bj) eqn:Heq; simpl; [apply IH|].
    intros H _. apply bind_Returned in H as (x & Hx & H).
    apply bind_Returned in H as (y & Hy & _). unfold digitToInt in Hx, Hy.
    destruct (Atoi (encode_rune ai)) as [n|] eqn:Ex; [|discriminate].
    destruct (Atoi (encode_rune bj)) as [m|] eqn:Ey; [|discriminate].
    apply Atoi_encode_rune in Ex, Ey. unfold IsDigit in Hdig.
    destruct (Z.leb_spec ai 255), (Z.leb_spec bj 255); lia.
Qed.

(** X3.  When the comparator returns a value for a pair of identifiers,
    it returns the opposite value for the pair exchanged. *)
Theorem strnum_cmp_antisymmetric (a b : string) (v : Z) :
  strnum_cmp a b = Returned v -> strnum_cmp b a = Returned (- v).
Proof.
  intros H. unfold strnum_cmp in *.
  eapply strnum_loop_swap; [exact H|]. apply strnum_cmp_terminates.
Qed.

(** *** The comparator on identifiers that end in a number *)

Lemma list_ascii_of_string_app (s t : string) :
  list_ascii_of_string (String.append s t) =
  list_ascii_of_string s ++ list_ascii_of_string t.
Proof. induction s as [|c s IH]; simpl; [done|]. by rewrite IH. Qed.

Lemma runes_from_ascii (s : string) (n : nat) :
  all_bytes (fun c => byte c <? 128) s = true -> (String.length s <= n)%nat ->
  runes_from n s = map byte (list_ascii_of_string s).
Proof.
  unfold all_bytes. revert n. induction s as [|c t IH]; intros n; simpl.
  - by destruct n.
  - intros H Hn. apply andb_true_iff in H as [Hc Ht].
    destruct n as [|n]; [lia|]. simpl.
    unfold DecodeRune. cbv zeta. rewrite Hc. f_equal. apply IH; [done|lia].
Qed.

Lemma runes_of_ascii (s : string) :
  all_bytes (fun c => byte c <? 128) s = true ->
  runes_of_string s = map byte (list_ascii_of_string s).
Proof. intros H. by apply runes_from_ascii. Qed.

Lemma all_bytes_app (f : ascii -> bool) (s t : string) :
  all_bytes f (String.append s t) = all_bytes f s && all_bytes f t.
Proof. unfold all_bytes. by rewrite list_ascii_of_string_app, forallb_app. Qed.

Lemma all_bytes_impl (f g : ascii -> bool) (s : string) :
  (forall c, f c = true -> g c = true) -> all_bytes f s = true -> all_bytes g s = true.
Proof.
  unfold all_bytes. intros Hfg. induction (list_ascii_of_string s) as [|c l IH]; simpl; [done|].
  intros H. apply andb_true_iff in H as [Hc Hl]. by rewrite (Hfg c Hc), IH.
Qed.

Lemma digit_rune_IsDigit (r : rune) : digit_rune r -> IsDigit r = true.
Proof. unfold digit_rune, IsDigit. intros H. destruct (Z.leb_spec r 255); lia. Qed.

Lemma digit_runes_of_bytes (s : string) :
  all_bytes is_ascii_digit s = true ->
  Forall digit_rune (map byte (list_ascii_of_string s)).
Proof.
  unfold all_bytes. induction (list_ascii_of_string s) as [|c l IH]; simpl; [constructor|].
  intros H. apply andb_true_iff in H as [Hc Hl]. constructor; [|by apply IH].
  by apply is_ascii_digit_range.
Qed.

Lemma parse_digits_bytes (s : string) (acc : Z) :
  all_bytes is_ascii_digit s = true ->
  parse_digits s acc = Some (num_from acc (map byte (list_ascii_of_string s))).
Proof.
  unfold all_bytes, num_from. revert acc. induction s as [|c t IH]; intros acc; simpl; [done|].
  intros H. apply andb_true_iff in H as [Hc Ht]. rewrite Hc. by apply IH.
Qed.

Lemma string_of_digit_runes (ds : list rune) :
  Forall digit_rune ds ->
  all_bytes is_ascii_digit (string_of_runes ds) = true /\
  map byte (list_ascii_of_string (string_of_runes ds)) = ds.
Proof.
  unfold all_bytes. induction 1 as [|r ds Hr Hds [IH1 IH2]]; simpl; [done|].
  unfold digit_rune in Hr. unfold encode_rune.
  destruct (Z.leb_spec 0 r), (Z.ltb_spec r 128); try lia. simpl.
  unfold is_ascii_digit at 1. rewrite byte_byte_of by lia.
  rewrite IH1, IH2. split; [lia|done].
Qed.

(** What [digitToInt] reads from a run of ASCII digits. *)
Lemma digitToInt_digit_runes (ds : list rune) :
  Forall digit_rune ds -> ds <> [] -> num ds <= max_int ->
  digitToInt (string_of_runes ds) = Returned (num ds).
Proof.
  intros Hds Hne Hfit. destruct (string_of_digit_runes ds Hds) as [Hall Hback].
  unfold digitToInt.
  destruct (string_of_runes ds) as [|c t] eqn:E.
  { simpl in Hback. by subst. }
  rewrite Atoi_digit_head.
  - rewrite (parse_digits_bytes _ _ Hall), Hback. fold (num ds).
    by destruct (Z.leb_spec (num ds) max_int); [|lia].
  - unfold all_bytes in Hall. simpl in Hall. by apply andb_true_iff in Hall as [? _].
Qed.

Lemma Atoi_digit_bytes (s : string) (x : Z) :
  all_bytes is_ascii_digit s = true -> Atoi s = Some x ->
  s <> "" /\ x = num (map byte (list_ascii_of_string s)) /\ x <= max_int.
Proof.
  intros Hall. destruct s as [|c t]; [discriminate|].
  rewrite Atoi_digit_head, (parse_digits_bytes _ _ Hall).
  - fold (num (map byte (list_ascii_of_string (String c t)))).
    destruct (Z.leb_spec (num (map byte (list_ascii_of_string (String c t)))) max_int);
      [|discriminate].
    intros [= <-]. done.
  - unfold all_bytes in Hall. simpl in Hall. by apply andb_true_iff in Hall as [? _].
Qed.

(** Decimal numbers: leading zeros, digits appended, and the size of a
    number by the count of its digits. *)
Lemma num_from_app (acc : Z) (xs ys : list rune) :
  num_from acc (xs ++ ys) = num_from (num_from acc xs) ys.
Proof. unfold num_from. apply fold_left_app. Qed.

Lemma num_from_shift (acc : Z) (ds : list rune) :
  num_from acc ds = acc * 10 ^ Z.of_nat (length ds) + num ds.
Proof.
  unfold num. revert acc. induction ds as [|r ds IH]; intros acc.
  - unfold num_from. simpl. lia.
  - unfold num_from in *. simpl fold_left. rewrite IH, (IH (0 * 10 + (r - 48))).
    rewrite length_cons, Nat2Z.inj_succ, Z.pow_succ_r by lia. lia.
Qed.

Lemma num_app (xs ys : list rune) :
  num (xs ++ ys) = num xs * 10 ^ Z.of_nat (length ys) + num ys.
Proof. unfold num at 1. by rewrite num_from_app, num_from_shift. Qed.

Lemma num_bounds (ds : list rune) :
  Forall digit_rune ds -> 0 <= num ds < 10 ^ Z.of_nat (length ds).
Proof.
  induction ds as [|r ds IH] using rev_ind; intros H.
  - unfold num, num_from. simpl. lia.
  - apply Forall_app in H as [Hds Hr]. apply Forall_cons_1 in Hr as [Hr _].
    specialize (IH Hds). unfold digit_rune in Hr.
    rewrite num_app, length_app. simpl length.
    replace (Z.of_nat (length ds + 1)) with (Z.succ (Z.of_nat (length ds))) by lia.
    rewrite Z.pow_succ_r by lia.
    assert (num [r] = r - 48) as -> by (unfold num, num_from; simpl; lia).
    change (Z.of_nat 1) with 1. change (10 ^ 1) with 10. lia.
Qed.

Lemma num_zeros (z : nat) (ds : list rune) : num (replicate z 48 ++ ds) = num ds.
Proof.
  induction z as [|z IH]; [done|]. simpl. unfold num, num_from in *. simpl. exact IH.
Qed.

Lemma num_lead (r : rune) (ds : list rune) :
  Forall digit_rune (r :: ds) -> r <> 48 -> 10 ^ Z.of_nat (length ds) <= num (r :: ds).
Proof.
  intros H Hr. apply Forall_cons_1 in H as [Hd Hds]. unfold digit_rune in Hd.
  change (r :: ds) with ([r] ++ ds). rewrite num_app.
  pose proof (num_bounds ds Hds). unfold num at 1, num_from. simpl.
  assert (0 < 10 ^ Z.of_nat (length ds)) by (apply Z.pow_pos_nonneg; lia). nia.
Qed.

(** A number with more digits, the first of which is not zero, is the
    greater one. *)
Lemma num_longer (xs ys : list rune) :
  Forall digit_rune xs -> Forall digit_rune ys ->
  (length ys < length xs)%nat -> head xs <> Some 48 -> num ys < num xs.
Proof.
  intros Hx Hy Hlen Hhead. destruct xs as [|r xs]; [simpl in Hlen; lia|].
  assert (r <> 48) as Hr by (intros ->; by apply Hhead).
  pose proof (num_lead r xs Hx Hr). pose proof (num_bounds ys Hy) as [_ Hlt].
  simpl in Hlen.
  assert (10 ^ Z.of_nat (length ys) <= 10 ^ Z.of_nat (length xs)); [|lia].
  apply Z.pow_le_mono_r; lia.
Qed.

Lemma zeros_split (ds : list rune) :
  exists (z : nat) (rest : list rune),
    ds = replicate z 48 ++ rest /\ head rest <> Some 48.
Proof.
  induction ds as [|r ds (z & rest & -> & Hh)].
  - by exists 0%nat, [].
  - destruct (Z.eq_dec r 48) as [->|Hr].
    + by exists (S z), rest.
    + exists 0%nat, (r :: replicate z 48 ++ rest). split; [done|]. simpl. congruence.
Qed.

Lemma skip_zeros_run (z : nat) (rest : list rune) (i : nat) :
  head rest <> Some 48 -> skip_zeros (replicate z 48 ++ rest) i = (i + z)%nat.
Proof.
  revert i. induction z as [|z IH]; intros i Hh; simpl.
  - destruct rest as [|r rest]; simpl; [lia|].
    destruct (Z.eqb_spec r 48) as [->|]; [done|lia].
  - rewrite IH by done. lia.
Qed.

Lemma skip_equal_run (xs : list rune) :
  forall (ys : list rune) (i j : nat),
    Forall digit_rune xs -> Forall digit_rune ys ->
    exists c rx ry : list rune,
      xs = c ++ rx /\ ys = c ++ ry /\
      skip_equal_digits xs ys i j = ((i + length c)%nat, (j + length c)%nat) /\
      (forall u w, head rx = Some u -> head ry = Some w -> u <> w).
Proof.
  induction xs as [|x xs IH]; intros ys i j Hx Hy.
  - exists [], [], ys. simpl. rewrite !Nat.add_0_r. by repeat split.
  - destruct ys as [|y ys].
    + exists [], (x :: xs), []. simpl. rewrite !Nat.add_0_r. by repeat split.
    + apply Forall_cons_1 in Hx as [Hdx Hx]. apply Forall_cons_1 in Hy as [Hdy Hy].
      simpl. rewrite !digit_rune_IsDigit by done. simpl.
      destruct (Z.eqb_spec x y) as [->|Hne].
      * destruct (IH ys (S i) (S j) Hx Hy) as (c & rx & ry & -> & -> & -> & Hd).
        exists (y :: c), rx, ry. simpl. repeat split; [f_equal; lia|done].
      * exists [], (x :: xs), (y :: ys). simpl. rewrite !Nat.add_0_r.
        repeat split. intros u w [= <-] [= <-]. done.
Qed.

Lemma common_digits_run (xs : list rune) :
  forall (ys : list rune) (k : nat),
    Forall digit_rune xs -> Forall digit_rune ys ->
    common_digits xs ys k = (k + Nat.min (length xs) (length ys))%nat.
Proof.
  induction xs as [|x xs IH]; intros [|y ys] k Hx Hy; simpl; try lia.
  apply Forall_cons_1 in Hx as [Hdx Hx]. apply Forall_cons_1 in Hy as [Hdy Hy].
  rewrite !digit_rune_IsDigit by done. simpl. rewrite IH by done. lia.
Qed.

Lemma digit_at_app (xs ys : list rune) (m : nat) :
  digit_at (xs ++ ys) (length xs + m) = digit_at ys m.
Proof.
  unfold digit_at. rewrite lookup_app_r by lia.
  by replace (length xs + m - length xs)%nat with m by lia.
Qed.

Lemma digit_at_run (ds : list rune) (m : nat) :
  Forall digit_rune ds -> digit_at ds m = bool_decide (m < length ds)%nat.
Proof.
  unfold digit_at. intros H. destruct (ds !! m) as [r|] eqn:E.
  - rewrite bool_decide_eq_true_2 by (by eapply lookup_lt_Some).
    apply digit_rune_IsDigit. by eapply Forall_lookup_1.
  - rewrite bool_decide_eq_false_2; [done|]. apply lookup_ge_None in E. lia.
Qed.

Lemma num_inj (xs : list rune) :
  forall ys : list rune,
    Forall digit_rune xs -> Forall digit_rune ys ->
    length xs = length ys -> num xs = num ys -> xs = ys.
Proof.
  induction xs as [|x xs IH]; intros [|y ys] Hx Hy Hlen Hnum; simpl in Hlen; try done.
  apply Forall_cons_1 in Hx as [Hdx Hx]. apply Forall_cons_1 in Hy as [Hdy Hy].
  injection Hlen as Hlen.
  change (x :: xs) with ([x] ++ xs) in Hnum. change (y :: ys) with ([y] ++ ys) in Hnum.
  rewrite !num_app, Hlen in Hnum.
  assert (forall r, num [r] = r - 48) as Hone by (intros r; unfold num, num_from; simpl; lia).
  rewrite !Hone in Hnum.
  pose proof (num_bounds xs Hx) as Bx. pose proof (num_bounds ys Hy) as By.
  rewrite Hlen in Bx. unfold digit_rune in *.
  assert (x = y) as -> by nia.
  f_equal. apply IH; try done. lia.
Qed.

(** The comparator where two identifiers, equal so far, go on with a
    number each. *)
Lemma strnum_loop_numbers (fuel : nat) (P A B : list rune) :
  Forall digit_rune A -> Forall digit_rune B -> A <> [] -> B <> [] ->
  num A <= max_int -> num B <= max_int -> (0 < fuel)%nat ->
  exists v : Z,
    strnum_loop (S fuel) (P ++ A) (P ++ B) (length P) (length P) = Returned v /\
    (num A < num B -> v < 0) /\ (num B < num A -> 0 < v) /\
    (num A = num B ->
     ((length A < length B)%nat -> 0 < v) /\ ((length B < length A)%nat -> v < 0) /\
     (length A = length B -> v = 0)).
Proof.
  intros HA HB HAne HBne HfitA HfitB Hfuel.
  assert (forall X : list rune, (P ++ X) !! length P = X !! 0%nat) as Hhead.
  { intros X. rewrite lookup_app_r by lia. by rewrite Nat.sub_diag. }
  destruct (A !! 0%nat) as [a0|] eqn:Ha0; [|by destruct A].
  destruct (B !! 0%nat) as [b0|] eqn:Hb0; [|by destruct B].
  simpl. rewrite !Hhead, Ha0, Hb0.
  rewrite (digit_rune_IsDigit a0 (Forall_lookup_1 _ _ _ _ HA Ha0)).
  rewrite (digit_rune_IsDigit b0 (Forall_lookup_1 _ _ _ _ HB Hb0)).
  simpl. rewrite !drop_app_length.
  destruct (zeros_split A) as (za & SA & EA & HhA).
  destruct (zeros_split B) as (zb & SB & EB & HhB).
  assert (skip_zeros A (length P) = (length P + za)%nat) as ->
    by (rewrite EA; by apply skip_zeros_run).
  assert (skip_zeros B (length P) = (length P + zb)%nat) as ->
    by (rewrite EB; by apply skip_zeros_run).
  assert (Forall digit_rune SA) as HSA by (rewrite EA in HA; by apply Forall_app in HA as [_ ?]).
  assert (Forall digit_rune SB) as HSB by (rewrite EB in HB; by apply Forall_app in HB as [_ ?]).
  assert (drop (length P + za) (P ++ A) = SA) as ->.
  { rewrite EA, app_assoc. apply drop_app_length'. rewrite length_app, length_replicate.
    reflexivity. }
  assert (drop (length P + zb) (P ++ B) = SB) as ->.
  { rewrite EB, app_assoc. apply drop_app_length'. by rewrite length_app, length_replicate. }
  destruct (skip_equal_run SA SB (length P + za) (length P + zb) HSA HSB)
    as (C & RA & RB & ESA & ESB & -> & Hdiff).
  set (i := (length P + za + length C)%nat). set (j := (length P + zb + length C)%nat).
  assert (Forall digit_rune C /\ Forall digit_rune RA) as [HC HRA]
    by (rewrite ESA in HSA; by apply Forall_app in HSA).
  assert (Forall digit_rune RB) as HRB
    by (rewrite ESB in HSB; by apply Forall_app in HSB as [_ ?]).
  assert (exists XA, P ++ A = XA ++ RA /\ length XA = i) as (XA & EXA & HXA).
  { exists (P ++ replicate za 48 ++ C). rewrite EA, ESA, <- !app_assoc. split; [done|].
    rewrite !length_app, length_replicate. unfold i. unfold rune in *. lia. }
  assert (exists XB, P ++ B = XB ++ RB /\ length XB = j) as (XB & EXB & HXB).
  { exists (P ++ replicate zb 48 ++ C). rewrite EB, ESB, <- !app_assoc. split; [done|].
    rewrite !length_app, length_replicate. unfold j. unfold rune in *. lia. }
  assert (forall m, digit_at (P ++ A) (i + m) = bool_decide (m < length RA)%nat) as HdA.
  { intros m. rewrite EXA, <- HXA, digit_at_app. by apply digit_at_run. }
  assert (forall m, digit_at (P ++ B) (j + m) = bool_decide (m < length RB)%nat) as HdB.
  { intros m. rewrite EXB, <- HXB, digit_at_app. by apply digit_at_run. }
  pose proof (HdA 0%nat) as HdA0. pose proof (HdB 0%nat) as HdB0.
  rewrite Nat.add_0_r in HdA0, HdB0.
  assert (drop i (P ++ A) = RA) as HdropA by (rewrite EXA; by apply drop_app_length').
  assert (drop j (P ++ B) = RB) as HdropB by (rewrite EXB; by apply drop_app_length').
  assert (num A = num C * 10 ^ Z.of_nat (length RA) + num RA) as NA
    by (by rewrite EA, num_zeros, ESA, num_app).
  assert (num B = num C * 10 ^ Z.of_nat (length RB) + num RB) as NB
    by (by rewrite EB, num_zeros, ESB, num_app).
  assert (length A = (za + length C + length RA)%nat) as LA
    by (rewrite EA, ESA, !length_app, length_replicate; unfold rune in *; lia).
  assert (length B = (zb + length C + length RB)%nat) as LB
    by (rewrite EB, ESB, !length_app, length_replicate; unfold rune in *; lia).
  pose proof (num_bounds C HC) as [HC0 _].
  pose proof (num_bounds RA HRA) as [HRA0 HRA1].
  pose proof (num_bounds RB HRB) as [HRB0 HRB1].
  assert ((length SB < length SA)%nat -> num B < num A) as Hlonger.
  { intros Hlen. rewrite EA, EB, !num_zeros. by apply num_longer. }
  assert ((length SA < length SB)%nat -> num A < num B) as Hshorter.
  { intros Hlen. rewrite EA, EB, !num_zeros. by apply num_longer. }
  rewrite ESA, ESB, !length_app in Hlonger, Hshorter.
  cbv beta iota. rewrite HdA0, HdB0, HdropA, HdropB.
  rewrite (common_digits_run RA RB 0 HRA HRB). simpl (0 + _)%nat.
  rewrite HdA, HdB.
  repeat case_bool_decide; simpl; try (exfalso; lia).
  all: try (eexists; split; [reflexivity|lia]).
  - assert (length RA = length RB) as Hlen by lia.
    assert (slice (P ++ A) i (i + length RA `min` length RB) = RA) as ->.
    { unfold slice. rewrite HdropA. apply take_ge. lia. }
    assert (slice (P ++ B) j (j + length RA `min` length RB) = RB) as ->.
    { unfold slice. rewrite HdropB. apply take_ge. lia. }
    assert (0 < 10 ^ Z.of_nat (length RA)) as Hpow by (apply Z.pow_pos_nonneg; lia).
    rewrite <- Hlen in NB, HRB1.
    rewrite !digitToInt_digit_runes; try done; try nia.
    2-3: intros ->; simpl in *; lia.
    simpl. eexists. split; [reflexivity|].
    rewrite wrap64_small by (unfold min_int, max_int, intSize in *; simpl in *; nia).
    split; [nia|]. split; [nia|]. intros Heq. exfalso.
    assert (RA = RB) as E by (apply num_inj; try done; nia).
    rewrite <- E in Hdiff. destruct RA as [|u RA]; [simpl in *; lia|].
    exact (Hdiff u u eq_refl eq_refl eq_refl).
  - assert (RA = []) as -> by (apply nil_length_inv; lia).
    assert (RB = []) as -> by (apply nil_length_inv; lia).
    rewrite app_nil_r in *. subst SA SB. simpl in *.
    destruct (Nat.eqb_spec i j) as [Hij|Hij]; simpl.
    + assert (za = zb) as -> by (unfold i, j in Hij; lia).
      subst A B. destruct fuel as [|fuel]; [lia|]. simpl.
      rewrite lookup_ge_None_2 by (rewrite <- HXA, EXA; lia).
      rewrite Nat.ltb_irrefl. eexists. split; [reflexivity|]. lia.
    + unfold i, j in *.
      destruct (Nat.ltb_spec (length P + za + length C) (length P + zb + length C));
        (eexists; split; [reflexivity|]); lia.
Qed.

(** The comparator walks a prefix that the two identifiers share and
    that holds no digit one character at a time. *)
Lemma strnum_loop_common_prefix (P A B : list rune) :
  Forall (fun r => IsDigit r = false) P ->
  forall d fuel i : nat,
    (i + d = length P)%nat ->
    strnum_loop (d + fuel) (P ++ A) (P ++ B) i i =
    strnum_loop fuel (P ++ A) (P ++ B) (length P) (length P).
Proof.
  intros HP. induction d as [|d IH]; intros fuel i Hi.
  - simpl. by replace i with (length P) by lia.
  - simpl. destruct (lookup_lt_is_Some_2 P i) as [r Hr]; [lia|].
    rewrite !(lookup_app_l_Some _ _ _ _ Hr).
    rewrite (Forall_lookup_1 _ _ _ _ HP Hr). simpl. rewrite Z.eqb_refl. simpl.
    apply IH. lia.
Qed.

Lemma length_list_ascii_of_string (s : string) :
  length (list_ascii_of_string s) = String.length s.
Proof. induction s as [|c s IH]; simpl; [done|]. by rewrite IH. Qed.

Lemma no_digit_runes_of_bytes (s : string) :
  all_bytes ascii_no_digit s = true ->
  Forall (fun r => IsDigit r = false) (map byte (list_ascii_of_string s)).
Proof.
  unfold all_bytes. induction (list_ascii_of_string s) as [|c l IH]; simpl; [constructor|].
  intros H. apply andb_true_iff in H as [Hc Hl]. constructor; [|by apply IH].
  unfold ascii_no_digit, is_ascii_digit in Hc. unfold IsDigit.
  destruct (Z.leb_spec (byte c) 255); lia.
Qed.

(** X4.  Two identifiers made of the same ASCII prefix without digits,
    followed by a decimal number each, both numbers within the range of
    [int]: the comparator returns, and it orders the identifiers by the
    value of the numbers.  When the values are equal the identifiers
    differ at most in leading zeros, and the one with more of them orders
    first. *)
Theorem strnum_cmp_numeric (p da db : string) (x y : Z) :
  all_bytes ascii_no_digit p = true ->
  all_bytes is_ascii_digit da = true -> all_bytes is_ascii_digit db = true ->
  Atoi da = Some x -> Atoi db = Some y ->
  exists v : Z,
    strnum_cmp (String.append p da) (String.append p db) = Returned v /\
    (x < y -> v < 0) /\ (y < x -> 0 < v) /\
    (x = y ->
     ((String.length da < String.length db)%nat -> 0 < v) /\
     ((String.length db < String.length da)%nat -> v < 0) /\
     (String.length da = String.length db -> v = 0)).
Proof.
  intros Hp Hda Hdb Hx Hy.
  apply Atoi_digit_bytes in Hx as (Hane & -> & Hxfit); [|done].
  apply Atoi_digit_bytes in Hy as (Hbne & -> & Hyfit); [|done].
  set (P := map byte (list_ascii_of_string p)).
  set (A := map byte (list_ascii_of_string da)) in *.
  set (B := map byte (list_ascii_of_string db)) in *.
  assert (forall d, all_bytes is_ascii_digit d = true ->
            runes_of_string (String.append p d) = P ++ map byte (list_ascii_of_string d))
    as Hrunes.
  { intros d Hd. rewrite runes_of_ascii, list_ascii_of_string_app, map_app; [done|].
    rewrite all_bytes_app. apply andb_true_iff. split.
    - revert Hp. apply all_bytes_impl. intros c Hc. unfold ascii_no_digit in Hc. lia.
    - revert Hd. apply all_bytes_impl. intros c Hc. apply is_ascii_digit_range in Hc. lia. }
  assert (Forall (fun r => IsDigit r = false) P) as HP
    by (by apply no_digit_runes_of_bytes).
  assert (length A = String.length da) as LA
    by (unfold A; by rewrite length_map, length_list_ascii_of_string).
  assert (length B = String.length db) as LB
    by (unfold B; by rewrite length_map, length_list_ascii_of_string).
  assert (0 < length A)%nat as HlA by (rewrite LA; destruct da; [done|simpl; lia]).
  unfold strnum_cmp. rewrite !Hrunes by done. fold A B.
  rewrite length_app.
  replace (S (length P + length A)) with (length P + S (length A))%nat by lia.
  pose proof (strnum_loop_common_prefix P A B HP (length P) (S (length A)) 0 eq_refl)
    as Hwalk.
  unfold rune in Hwalk. rewrite Hwalk. clear Hwalk.
  rewrite <- LA, <- LB.
  apply strnum_loop_numbers; try done; try (by apply digit_runes_of_bytes).
  - intros E. rewrite E in HlA. simpl in HlA. lia.
  - intros E. unfold B in E. destruct db; [done|discriminate].
Qed.

(** *** The errors of [Record] *)

Lemma Record_line_error (s s' : BamScanner) (sc : Scanner) (text : string) (e : error) :
  Record_line s sc text = Returned (Error e, s') ->
  prev s' = prev s /\ scanner s' = sc /\ LineNumber s' = incr (LineNumber s) /\
  Closed s' = false /\
  ((e = ErrEmptyRecord /\ TrimSpace text = "" /\ record s' = None) \/
   (e = ErrSortOrder (incr (LineNumber s)) /\ TrimSpace text <> "" /\
    record s' = Some (fields_of text) /\ out_of_order (prev s) (ident text))).
Proof.
  unfold Record_line. destruct (len (TrimSpace text) =? 0) eqn:Hblank.
  { apply len_zero in Hblank. intros [= <- <-]. simpl. repeat split; auto. }
  assert (TrimSpace text <> "") as Hne.
  { intros E. apply len_zero in E. congruence. }
  rewrite Split_length.
  destruct (negb (String.eqb (prev s) "")); [|discriminate].
  intros H. apply bind_Returned in H as (v & Hcmp & H).
  destruct (v >? 0) eqn:Hv; [|discriminate]. injection H as <- <-. simpl.
  repeat split; auto. right. repeat split; auto. exists v. split; [done|lia].
Qed.

(** X5.  The errors that [Record] returns are three: the read error of
    the scanner, which counts no line; the blank line, which is counted
    and consumed and leaves the cache empty; and the violation of the
    sorting order, at the line just counted, which leaves the offending
    record in the cache.  No error changes the identifier that the order
    of the next line is checked against, and the error of the second
    emptiness test, after the split, is never returned. *)
Theorem Record_errors (s s' : BamScanner) (e : error) :
  BamScanner_Record s = Returned (Error e, s') ->
  prev s' = prev s /\
  ((e = ErrScanner /\ record s' = None /\ LineNumber s' = LineNumber s) \/
   (e = ErrEmptyRecord /\ record s' = None /\ Closed s' = false /\
    LineNumber s' = incr (LineNumber s) /\
    exists text : string,
      TrimSpace text = "" /\ tokens (scanner s) = text :: tokens (scanner s')) \/
   (e = ErrSortOrder (incr (LineNumber s)) /\ Closed s' = false /\
    LineNumber s' = incr (LineNumber s) /\
    exists text : string,
      TrimSpace text <> "" /\ tokens (scanner s) = text :: tokens (scanner s') /\
      record s' = Some (fields_of text) /\ out_of_order (prev s) (ident text))).
Proof.
  unfold BamScanner_Record. destruct (record s) as [row|] eqn:Hrec; [discriminate|].
  destruct (Scan (scanner s)) as [[text err] sc] eqn:Hscan.
  destruct err.
  { intros [= <- <-]. simpl. auto. }
  destruct text as [text|]; [|discriminate].
  apply Scan_some in Hscan. intros H.
  apply Record_line_error in H as (Hprev & Hsc & Hline & Hopen & Hcase).
  split; [done|]. right. rewrite Hsc.
  destruct Hcase as [(-> & Hblank & Hcache)|(-> & Hne & Hcache & Hbad)]; [left|right];
    repeat split; try done; by exists text.
Qed.

(** X6.  The error of the sorting order is reported once.  The record
    that violates the order has been cached before the order is tested,
    so the next [Record] returns it as a record, with no error and no
    change of the cursor. *)
Theorem Record_order_error_once (s s' : BamScanner) (line : Z) :
  BamScanner_Record s = Returned (Error (ErrSortOrder line), s') ->
  exists row : list string,
    record s' = Some row /\ row <> [] /\
    BamScanner_Record s' = Returned (Val (Some row), s').
Proof.
  unfold BamScanner_Record at 1. destruct (record s) as [row|] eqn:Hrec; [discriminate|].
  destruct (Scan (scanner s)) as [[text err] sc] eqn:Hscan.
  destruct err; [discriminate|]. destruct text as [text|]; [|discriminate].
  intros H.
  apply Record_line_error in H as (_ & _ & _ & _ & [(? & _)|(_ & _ & Hcache & _)]);
    [discriminate|].
  exists (fields_of text). split; [done|]. split; [apply Split_not_nil|].
  by apply Record_cached.
Qed.

(** *** [Find] along a stream *)

Lemma index_fields_of (l : string) : index (fields_of l) 0 = Returned (ident l).
Proof.
  unfold index, ident, field, fields_of.
  pose proof (Split_not_nil (TrimSpace l) tab). by destruct (Split (TrimSpace l) tab).
Qed.

(** [Record] on the next line of a stream that is in order so far. *)
Lemma Record_cursor_at (n : Z) (l : string) (rest : list string) (last : string) :
  TrimSpace l <> "" -> last = "" \/ in_order last (ident l) ->
  BamScanner_Record (cursor_at n (l :: rest) last None false) =
  Returned (Val (Some (fields_of l)),
            cursor_at (n + 1) rest (ident l) (Some (fields_of l)) false).
Proof.
  intros Hne Hord.
  rewrite (Record_next_line _ l rest) by done.
  assert (scanned (cursor_at n (l :: rest) last None false)
            {| tokens := rest; read_error := None |} (Some (fields_of l)) (ident l)
          = cursor_at (n + 1) rest (ident l) (Some (fields_of l)) false) as <-.
  { unfold scanned, cursor_at. simpl. by rewrite incr_wrap64. }
  destruct Hord as [->|Hord]; [by apply Record_line_first|by apply Record_line_in_order].
Qed.

(** [Find] goes past the lines whose identifiers order before the one
    asked for. *)
Lemma Find_skips (id : string) (skipped : list string) :
  forall (n : Z) (rest : list string) (last : string),
    Forall (fun l => TrimSpace l <> "") skipped ->
    checked_from last skipped ->
    Forall (orders_before id) skipped ->
    BamScanner_Find (cursor_at n (skipped ++ rest) last None false) id =
    BamScanner_Find
      (cursor_at (n + Z.of_nat (length skipped)) rest
         (fold_left (fun _ l => ident l) skipped last) None false) id.
Proof.
  induction skipped as [|x skipped IH]; intros n rest last Hnb Hord Hlt.
  - simpl. by rewrite Z.add_0_r.
  - apply Forall_cons_1 in Hnb as [Hx Hnb]. destruct Hord as [Hx_ord Hord].
    apply Forall_cons_1 in Hlt as [(Hne & v & Hcmp & Hv) Hlt].
    rewrite Find_unfold. unfold Find_body. simpl Closed. cbv iota.
    change ((x :: skipped) ++ rest) with (x :: skipped ++ rest).
    rewrite Record_cursor_at by done. simpl.
    rewrite index_fields_of. simpl.
    apply String.eqb_neq in Hne. rewrite Hne, Hcmp. simpl.
    apply Z.ltb_lt in Hv. rewrite Hv. cbn [mbind outcome_bind].
    change (BamScanner_Ratchet
              (cursor_at (n + 1) (skipped ++ rest) (ident x) (Some (fields_of x)) false))
      with (cursor_at (n + 1) (skipped ++ rest) (ident x) None false).
    simpl length. simpl fold_left.
    replace (n + Z.of_nat (S (length skipped))) with (n + 1 + Z.of_nat (length skipped))
      by lia.
    by apply IH.
Qed.

(** X7.  [Find] on a fresh cursor over a stream without read errors,
    where the comparator returns.  Let the lines at the head of the
    stream be none blank, let the comparator return for each of them and
    the one before it a value that is not positive, and for each of them
    and [id] a negative value, their identifiers being other than [id]:
    they are passed over.  Let the line after them, if there is one, be
    not blank and let the comparator return for the last line passed
    over and for it a value that is not positive.  Then: if its
    identifier is [id], it is returned as its record and advanced past;
    if its identifier is another one and the comparator returns for it
    and [id] a value that is not negative, it ends the search with no
    record and stays in the cache; and where no line is left, the end of
    the stream ends the search with no record and closes the cursor.
    The cursor has counted the lines it has scanned. *)
Theorem Find_over_stream (id : string) (skipped : list string) :
  Forall (fun l => TrimSpace l <> "") skipped ->
  checked_from "" skipped ->
  Forall (orders_before id) skipped ->
  let k := Z.of_nat (length skipped) in
  let last := fold_left (fun _ l => ident l) skipped "" in
  (forall (l : string) (rest : list string),
      TrimSpace l <> "" -> last = "" \/ in_order last (ident l) -> ident l = id ->
      BamScanner_Find (OpenBam {| tokens := skipped ++ l :: rest; read_error := None |}) id
      = Returned (Val (Some (fields_of l)), cursor_at (k + 1) rest id None false))
  /\ (forall (l : string) (rest : list string) (v : Z),
        TrimSpace l <> "" -> last = "" \/ in_order last (ident l) ->
        ident l <> id -> strnum_cmp (ident l) id = Returned v -> 0 <= v ->
        BamScanner_Find (OpenBam {| tokens := skipped ++ l :: rest; read_error := None |}) id
        = Returned (Val None, cursor_at (k + 1) rest (ident l) (Some (fields_of l)) false))
  /\ BamScanner_Find (OpenBam {| tokens := skipped; read_error := None |}) id
     = Returned (Val None, cursor_at k [] last None true).
Proof.
  intros Hnb Hord Hlt k last.
  assert (forall rest, OpenBam {| tokens := skipped ++ rest; read_error := None |}
                       = cursor_at 0 (skipped ++ rest) "" None false) as Hopen
    by reflexivity.
  split; [|split].
  - intros l rest Hl Hl_ord Hid.
    rewrite Hopen, (Find_skips id skipped 0) by done. fold last k. rewrite Z.add_0_l.
    rewrite Find_unfold. unfold Find_body. simpl Closed. cbv iota.
    rewrite Record_cursor_at by done. simpl.
    rewrite index_fields_of. simpl. rewrite Hid, String.eqb_refl. reflexivity.
  - intros l rest v Hl Hl_ord Hne Hcmp Hv.
    rewrite Hopen, (Find_skips id skipped 0) by done. fold last k. rewrite Z.add_0_l.
    rewrite Find_unfold. unfold Find_body. simpl Closed. cbv iota.
    rewrite Record_cursor_at by done. simpl.
    rewrite index_fields_of. simpl.
    apply String.eqb_neq in Hne. rewrite Hne, Hcmp. simpl.
    apply Z.ltb_ge in Hv. by rewrite Hv.
  - rewrite <- (app_nil_r skipped) at 1.
    rewrite Hopen, (Find_skips id skipped 0) by done. fold last k. rewrite Z.add_0_l.
    rewrite Find_unfold. reflexivity.
Qed.

(** *** The two preliminary filters together *)

Lemma filters_select (m : Mates) :
  (min_length_filter m = None <-> List.filter long_enough (mates_of m) = [])
  /\ forall m1 : Mates,
       min_length_filter m = Some m1 ->
       mates_of m1 = List.filter long_enough (mates_of m) /\
       (max_dist_filter m1 = None <-> List.filter passes (mates_of m) = []) /\
       forall m2 : Mates,
         max_dist_filter m1 = Some m2 -> mates_of m2 = List.filter passes (mates_of m).
Proof.
  unfold min_length_filter, max_dist_filter, mates_of, long_enough, passes,
    promote, forget_mate2.
  assert (forall l, (MinLength args <=? l) = negb (l <? MinLength args)) as Rl
    by (intros; lia).
  assert (forall d, (d <=? MaxDist args) = negb (d >? MaxDist args)) as Rd
    by (intros; lia).
  destruct m as [r1 [r2|] l1 d1 l2 d2]; simpl; rewrite ?Rl, ?Rd;
    destruct (l1 <? MinLength args) eqn:E1; destruct (d1 >? MaxDist args) eqn:E2;
    try (destruct (l2 <? MinLength args) eqn:E3; destruct (d2 >? MaxDist args) eqn:E4);
    simpl; rewrite ?E1, ?E2, ?E3, ?E4; simpl;
    repeat match goal with
           | |- _ /\ _ => split
           | |- _ <-> _ => split
           | |- forall _, _ => intro
           | H : Some _ = Some _ |- _ =>
             injection H as <-; simpl; rewrite ?E1, ?E2, ?E3, ?E4; simpl
           | H : match _ with _ => _ end = _ |- _ =>
             progress (simpl in H; rewrite ?E1, ?E2, ?E3, ?E4 in H; simpl in H)
           end;
    done.
Qed.

Lemma passes_long_enough (l : list (list string * Z * Z)) :
  List.filter long_enough l = [] -> List.filter passes l = [].
Proof.
  unfold passes, long_enough. induction l as [|x l IH]; simpl; [done|].
  destruct (MinLength args <=? snd (fst x)); simpl; [discriminate|]. exact IH.
Qed.

Lemma emit_classes (m : Mates) (e e' : Engine) (ctl : control) :
  emit m e = (ctl, e') ->
  too_short (counters e') = too_short (counters e) /\
  too_diverged (counters e') = too_diverged (counters e) /\
  considered (counters e') = considered (counters e).
Proof.
  unfold emit, Fprintf.
  destruct (room (outfp e)) as [[|r1]|]; simpl.
  - by intros [= <- <-].
  - destruct (mate2 m) as [row2|]; simpl; [destruct r1 as [|r2]; simpl|];
      by intros [= <- <-].
  - destruct (mate2 m) as [row2|]; simpl; by intros [= <- <-].
Qed.

(** X8.  The filter on the length and the filter on the edit distance,
    one after the other, keep of a pair exactly the mates that reach the
    minimum length and stay within the maximum edit distance, in their
    order, with their measures.  And how the turn counts a pair that the
    ERCC test lets through: when no mate reaches the minimum length, the
    turn ends with [too_short] one more, as an [int], and with all else
    as it was; when some mate does and none of those stays within the
    maximum edit distance, it ends with [too_diverged] one more and with
    all else as it was; and when some mate meets both criteria, a turn
    that returns leaves [too_short] and [too_diverged] as they were and
    [considered] one more. *)
Theorem preliminary_filters_select (read : string) (m : Mates) (e : Engine) :
  ((min_length_filter m = None <-> List.filter long_enough (mates_of m) = [])
   /\ forall m1 : Mates,
        min_length_filter m = Some m1 ->
        mates_of m1 = List.filter long_enough (mates_of m) /\
        (max_dist_filter m1 = None <-> List.filter passes (mates_of m) = []) /\
        forall m2 : Mates,
          max_dist_filter m1 = Some m2 ->
          mates_of m2 = List.filter passes (mates_of m))
  /\ (MatchesErcc (mate1 m) (mate2 m) = Returned false ->
      (List.filter long_enough (mates_of m) = [] ->
       judge read m e =
       Returned (Next,
                 {| sample := sample e; sources := sources e;
                    counters :=
                      {| reads_kept := reads_kept (counters e);
                         read_mates_kept := read_mates_kept (counters e);
                         total_reads := total_reads (counters e);
                         total_read_mates := total_read_mates (counters e);
                         ercc := ercc (counters e);
                         considered := considered (counters e);
                         too_short := wrap64 (too_short (counters e) + 1);
                         too_diverged := too_diverged (counters e) |};
                    outfp := outfp e |}))
      /\ (List.filter long_enough (mates_of m) <> [] ->
          List.filter passes (mates_of m) = [] ->
          judge read m e =
          Returned (Next,
                    {| sample := sample e; sources := sources e;
                    counters :=
                      {| reads_kept := reads_kept (counters e);
                         read_mates_kept := read_mates_kept (counters e);
                         total_reads := total_reads (counters e);
                         total_read_mates := total_read_mates (counters e);
                         ercc := ercc (counters e);
                         considered := considered (counters e);
                         too_short := too_short (counters e);
                         too_diverged := wrap64 (too_diverged (counters e) + 1) |};
                    outfp := outfp e |}))
      /\ (List.filter passes (mates_of m) <> [] ->
          forall (ctl : control) (e' : Engine),
            judge read m e = Returned (ctl, e') ->
            too_short (counters e') = too_short (counters e) /\
            too_diverged (counters e') = too_diverged (counters e) /\
            considered (counters e') = wrap64 (considered (counters e) + 1))).
Proof.
  pose proof (filters_select m) as [Hnone Hsome]. split; [by split|].
  intros Hercc. split; [|split].
  - intros Hlong. apply Hnone in Hlong.
    unfold judge. rewrite Hercc. simpl. by rewrite Hlong.
  - intros Hlong Hpass.
    destruct (min_length_filter m) as [m1|] eqn:H1.
    2:{ exfalso. apply Hlong. by apply Hnone. }
    destruct (Hsome m1 eq_refl) as (_ & Hnone2 & _). apply Hnone2 in Hpass.
    unfold judge. rewrite Hercc. simpl. rewrite H1. by rewrite Hpass.
  - intros Hpass ctl e'.
    destruct (min_length_filter m) as [m1|] eqn:H1.
    2:{ exfalso. apply Hpass. apply passes_long_enough. by apply Hnone. }
    destruct (Hsome m1 eq_refl) as (_ & Hnone2 & _).
    destruct (max_dist_filter m1) as [m2|] eqn:H2.
    2:{ exfalso. apply Hpass. by apply Hnone2. }
    unfold judge. rewrite Hercc. simpl. rewrite H1, H2.
    intros H. apply bind_Returned in H as ([st w] & _ & H).
    destruct w; simpl in H.
    + by injection H as <- <-.
    + injection H as H. apply emit_classes in H as (E1 & E2 & E3).
      by rewrite E1, E2, E3.
Qed.

(** *** The comparator does not panic *)

Lemma strnum_loop_not_Panicked (fuel : nat) (a b : list rune) :
  forall (i j : nat) (p : panic), strnum_loop fuel a b i j <> Panicked p.
Proof.
  induction fuel as [|fuel IH]; intros i j p; simpl; [discriminate|].
  unfold digitToInt.
  repeat case_match; simpl; try discriminate; try apply IH;
    repeat case_match; simpl; discriminate.
Qed.

Lemma strnum_cmp_not_Panicked (a b : string) (p : panic) : strnum_cmp a b <> Panicked p.
Proof. apply strnum_loop_not_Panicked. Qed.

(** *** The sort-order checker *)

Lemma checker_loop_line (fuel : nat) (l : string) (rest : list string)
    (last : string) (n : Z) :
  checker_loop (S fuel) {| tokens := l :: rest; read_error := None |} last n =
  if negb (String.eqb last "") then
    v ← strnum_cmp last (ident l);
    if v >? 0 then Returned (FatalSortOrder (incr n))
    else checker_loop fuel {| tokens := rest; read_error := None |} (ident l) (incr n)
  else checker_loop fuel {| tokens := rest; read_error := None |} (ident l) (incr n).
Proof.
  simpl. fold (fields_of l). rewrite index_fields_of. reflexivity.
Qed.

Lemma ident_blank (l : string) : TrimSpace l = "" -> ident l = "".
Proof. intros H. unfold ident, fields_of. by rewrite H. Qed.

(** The checker and the cursor, line by line. *)
Lemma checker_simulates (lines : list string) :
  forall (fuel fuel' : nat) (s : BamScanner) (n : Z),
    (length lines < fuel)%nat -> (length lines < fuel')%nat ->
    record s = None -> tokens (scanner s) = lines -> read_error (scanner s) = None ->
    LineNumber s = wrap64 n ->
    Forall (fun l => TrimSpace l <> "") lines ->
    agree (read_all fuel s) (checker_loop fuel' (scanner s) (prev s) (LineNumber s))
      (wrap64 (n + Z.of_nat (length lines))).
Proof.
  induction lines as [|l lines IH];
    intros fuel fuel' s n Hfuel Hfuel' Hrec Htok Herr Hline Hnb;
    (destruct fuel as [|fuel]; [simpl in Hfuel; lia|]);
    (destruct fuel' as [|fuel']; [simpl in Hfuel'; lia|]).
  - simpl. unfold BamScanner_Record, Scan. rewrite Hrec, Htok, Herr. simpl.
    rewrite Hline. do 3 f_equal. lia.
  - apply Forall_cons_1 in Hnb as [Hl Hnb].
    destruct (scanner s) as [toks rerr] eqn:Hsc. simpl in Htok, Herr. subst toks rerr.
    rewrite checker_loop_line.
    cbn [read_all]. rewrite (Record_next_line s l lines) by (by rewrite ?Hsc).
    unfold Record_line. rewrite (len_nonzero _ Hl), Split_length.
    fold (fields_of l). fold (ident l).
    set (s1 := scanned s {| tokens := lines; read_error := None |}
                 (Some (fields_of l)) (ident l)).
    assert (agree
              ('(rows, e) ← read_all fuel (BamScanner_Ratchet s1);
               Returned (fields_of l :: rows, e))
              (checker_loop fuel' {| tokens := lines; read_error := None |} (ident l)
                 (incr (LineNumber s)))
              (wrap64 (n + Z.of_nat (length (l :: lines))))) as Hnext.
    { specialize (IH fuel fuel' (BamScanner_Ratchet s1) (n + 1)).
      simpl in IH. rewrite Hline, incr_wrap64 in IH.
      replace (n + Z.of_nat (length (l :: lines))) with (n + 1 + Z.of_nat (length lines))
        by (simpl length; lia).
      rewrite Hline, incr_wrap64.
      simpl in Hfuel, Hfuel'.
      specialize (IH ltac:(lia) ltac:(lia) eq_refl eq_refl eq_refl eq_refl Hnb).
      unfold agree in *.
      destruct (read_all fuel (BamScanner_Ratchet s1)) as [[rows [e|]]| | |]; simpl; done. }
    destruct (negb (String.eqb (prev s) "")); [|exact Hnext].
    destruct (strnum_cmp (prev s) (ident l)) as [v| | |] eqn:Hcmp; simpl; try done.
    + destruct (v >? 0); [reflexivity|exact Hnext].
    + by apply strnum_cmp_not_Panicked in Hcmp.
    + by apply strnum_cmp_terminates in Hcmp.
Qed.

(** X9.  On a stream without blank lines and without read errors the
    checker and the cursor of the filter say the same.  When the cursor,
    read to the end of the stream with [Record] and [Ratchet], yields
    every record, the checker prints [OK] with the count of lines; when
    the cursor stops with the error of the sorting order at a line, the
    checker ends the process for the sorting order at that line; and when
    the comparator ends the process under the one, it does so under the
    other.  Nothing else happens. *)
Theorem checker_agrees_with_cursor (lines : list string) :
  Forall (fun l => TrimSpace l <> "") lines ->
  agree (read_stream (OpenBam {| tokens := lines; read_error := None |}))
    (checker_main {| tokens := lines; read_error := None |})
    (wrap64 (Z.of_nat (length lines))).
Proof.
  intros Hnb. unfold read_stream, checker_main.
  apply (checker_simulates lines _ _ (OpenBam {| tokens := lines; read_error := None |}) 0);
    simpl; try done; unfold remaining; simpl; lia.
Qed.

(** The checker along a prefix of the stream that is in order. *)
Lemma checker_loop_in_order (pre : list string) :
  forall (fuel : nat) (rest : list string) (last : string) (n : Z),
    Forall (fun l => TrimSpace l <> "") pre ->
    checked_from last pre ->
    checker_loop (length pre + fuel) {| tokens := pre ++ rest; read_error := None |}
      last (wrap64 n) =
    checker_loop fuel {| tokens := rest; read_error := None |}
      (fold_left (fun _ l => ident l) pre last) (wrap64 (n + Z.of_nat (length pre))).
Proof.
  induction pre as [|l pre IH]; intros fuel rest last n Hnb Hord.
  - simpl. by rewrite Z.add_0_r.
  - apply Forall_cons_1 in Hnb as [Hl Hnb]. destruct Hord as [Hl_ord Hord].
    change (length (l :: pre) + fuel)%nat with (S (length pre + fuel)).
    change ((l :: pre) ++ rest) with (l :: pre ++ rest).
    rewrite checker_loop_line, incr_wrap64.
    replace (n + Z.of_nat (length (l :: pre))) with (n + 1 + Z.of_nat (length pre))
      by (simpl length; lia).
    destruct Hl_ord as [->|(v & Hcmp & Hv)].
    + simpl negb. cbv iota. by apply IH.
    + destruct (negb (String.eqb last "")); [|by apply IH].
      rewrite Hcmp. simpl. destruct (v >? 0) eqn:E; [lia|]. by apply IH.
Qed.

(** X10.  Blank lines under the checker.  A stream of blank lines only,
    the empty stream among them, is printed as [OK] with every line
    counted.  A blank line that follows lines in order, none of them
    blank, ends the process for the sorting order at the blank line: its
    first field is the empty identifier, which orders before the
    identifier of the line above. *)
Theorem checker_blank_lines :
  (forall blanks : list string,
      Forall (fun l => TrimSpace l = "") blanks ->
      checker_main {| tokens := blanks; read_error := None |}
      = Returned (PrintedOK (wrap64 (Z.of_nat (length blanks)))))
  /\ (forall (pre : list string) (blank : string) (post : list string),
        pre <> [] ->
        Forall (fun l => TrimSpace l <> "") pre -> checked_from "" pre ->
        TrimSpace blank = "" ->
        checker_main {| tokens := pre ++ blank :: post; read_error := None |}
        = Returned (FatalSortOrder (wrap64 (Z.of_nat (length pre) + 1)))).
Proof.
  split.
  - intros blanks Hall. unfold checker_main. simpl tokens.
    change 0 with (wrap64 0) at 1.
    assert (forall (n : Z) (fuel : nat),
              (length blanks < fuel)%nat ->
              checker_loop fuel {| tokens := blanks; read_error := None |} "" (wrap64 n)
              = Returned (PrintedOK (wrap64 (n + Z.of_nat (length blanks))))) as Hloop.
    { induction Hall as [|l blanks Hl Hall IH]; intros n fuel Hfuel;
        (destruct fuel as [|fuel]; [simpl in Hfuel; lia|]).
      - simpl. do 3 f_equal. lia.
      - rewrite checker_loop_line, (ident_blank _ Hl), incr_wrap64. simpl negb. cbv iota.
        rewrite IH by (simpl in Hfuel; lia). do 3 f_equal. simpl length. lia. }
    rewrite Hloop by lia. reflexivity.
  - intros pre blank post Hne Hnb Hord Hblank. unfold checker_main. simpl tokens.
    rewrite length_app. simpl length.
    replace (S (length pre + S (length post))) with (length pre + S (S (length post)))%nat
      by lia.
    change 0 with (wrap64 0) at 1.
    rewrite checker_loop_in_order by done.
    rewrite checker_loop_line, (ident_blank _ Hblank), incr_wrap64.
    assert (fold_left (fun _ l => ident l) pre "" <> "") as Hlast.
    { destruct pre as [|l pre] using rev_ind; [done|].
      rewrite fold_left_app. simpl. apply first_field_nonempty.
      apply Forall_app in Hnb as [_ Hl]. by apply Forall_cons_1 in Hl as [? _]. }
    rewrite (strnum_cmp_nil_r _ Hlast).
    apply String.eqb_neq in Hlast. rewrite Hlast. reflexivity.
Qed.

(** *** What a turn of the loop adds to the counters and to the output *)

Lemma Join_Split (s : string) (sep : ascii) : Join (Split s sep) (String sep "") = s.
Proof.
  unfold Join. induction s as [|a t IH]; [done|]. simpl Split.
  pose proof (Split_not_nil t sep) as Hne.
  destruct (Ascii.eqb_spec a sep) as [->|_].
  - destruct (Split t sep) as [|x xs]; [done|].
    change (String.concat (String sep "") ("" :: x :: xs))
      with (String sep (String.concat (String sep "") (x :: xs))).
    by rewrite IH.
  - destruct (Split t sep) as [|x xs]; [done|]. destruct xs as [|y ys].
    + simpl in *. by rewrite IH.
    + change (String.concat (String sep "") (String a x :: y :: ys))
        with (String a (String.concat (String sep "") (x :: y :: ys))).
      by rewrite IH.
Qed.

Lemma output_line_fields_of (l : string) : output_line (fields_of l) = kept_line l.
Proof. unfold output_line, fields_of, kept_line. by rewrite Join_Split. Qed.

Lemma Record_line_row (s s1 : BamScanner) (sc : Scanner) (text : string)
    (row : option (list string)) :
  Record_line s sc text = Returned (Val row, s1) -> row = Some (fields_of text).
Proof.
  unfold Record_line. intros H.
  repeat case_match; try discriminate;
    try (apply bind_Returned in H as (? & _ & H); case_match; try discriminate);
    by injection H as <- <-.
Qed.

Lemma pending_Ratchet (s : BamScanner) :
  pending (BamScanner_Ratchet s) (tokens (scanner s)).
Proof. reflexivity. Qed.

(** The record that [Record] returns is the first of the lines the cursor
    stands before, and stays there until [Ratchet]. *)
Lemma Record_pending (s s' : BamScanner) (row : list string) (ls : list string) :
  pending s ls -> BamScanner_Record s = Returned (Val (Some row), s') ->
  exists (l : string) (rest : list string),
    ls = l :: rest /\ row = fields_of l /\ pending s' ls /\
    pending (BamScanner_Ratchet s') rest.
Proof.
  unfold pending at 1, BamScanner_Record.
  destruct (record s) as [r|] eqn:Hrec.
  - intros (l & -> & ->) [= <- <-]. exists l, (tokens (scanner s)).
    split; [done|]. split; [done|]. split; [|done].
    unfold pending. rewrite Hrec. by exists l.
  - intros ->. destruct (Scan (scanner s)) as [[text err] sc] eqn:Hscan.
    destruct err; [discriminate|]. destruct text as [text|]; [|discriminate].
    intros H. pose proof (Record_line_row _ _ _ _ _ H) as [= ->].
    apply Record_line_some in H as (Hcache & Hsc & _).
    apply Scan_some in Hscan. exists text, (tokens sc).
    split; [done|]. split; [done|]. split.
    + unfold pending. rewrite Hcache. exists text. by rewrite Hsc.
    + unfold pending. simpl. by rewrite Hsc.
Qed.

Lemma Record_end_pending (s s' : BamScanner) (ls : list string) :
  pending s ls -> BamScanner_Record s = Returned (Val None, s') ->
  ls = [] /\ pending s' [].
Proof.
  unfold pending at 1, BamScanner_Record.
  destruct (record s) as [r|] eqn:Hrec; [discriminate|].
  intros ->. destruct (Scan (scanner s)) as [[text err] sc] eqn:Hscan.
  destruct err; [discriminate|]. destruct text as [text|].
  { intros H. by apply Record_line_row in H. }
  intros [= <-]. apply Scan_none in Hscan as (-> & Hsc & _).
  split; [done|]. unfold pending. simpl. by rewrite Hsc.
Qed.

(** [Find] takes the lines it passes over and the line it returns from
    the head of the lines the cursor stands before, and nothing else. *)
Lemma Find_loop_pending (fuel : nat) (id : string) :
  forall (s s' : BamScanner) (ls : list string) (row : option (list string)),
    pending s ls -> Find_loop fuel s id = Returned (Val row, s') ->
    exists skipped rest : list string,
      ls = skipped ++ rest /\
      match row with
      | Some row =>
        exists (l : string) (rest' : list string),
          rest = l :: rest' /\ row = fields_of l /\ record s' = None /\ pending s' rest'
      | None => pending s' rest
      end.
Proof.
  induction fuel as [|fuel IH]; intros s s' ls row Hp; simpl; [discriminate|].
  intros H. apply bind_Returned in H as (step & Hbody & H).
  unfold Find_body in Hbody.
  destruct (Closed s) eqn:Hc.
  { injection Hbody as <-. injection H as <- <-. by exists [], ls. }
  apply bind_Returned in Hbody as ([r s1] & Hrec & Hbody).
  destruct r as [row1|e]; [|injection Hbody as <-; discriminate].
  destruct (Closed s1) eqn:Hc1.
  { injection Hbody as <-. injection H as <- <-.
    destruct row1 as [row1|].
    - apply Record_some in Hrec as (_ & _ & Hopen). rewrite Hopen in Hc1; done.
    - apply (Record_end_pending _ _ _ Hp) in Hrec as [-> Hp']. by exists [], []. }
  destruct row1 as [row1|]; simpl in Hbody; [|discriminate].
  destruct (Record_pending _ _ _ _ Hp Hrec) as (l & rest & -> & -> & Hp1 & Hp2).
  apply bind_Returned in Hbody as (rid & _ & Hbody).
  destruct (String.eqb rid id).
  { injection Hbody as <-. injection H as <- <-.
    exists [], (l :: rest). split; [done|]. by exists l, rest. }
  apply bind_Returned in Hbody as (v & _ & Hbody).
  destruct (v <? 0).
  - injection Hbody as <-.
    destruct (IH _ _ _ _ Hp2 H) as (skipped & rest' & -> & Hrow).
    by exists (l :: skipped), rest'.
  - injection Hbody as <-. injection H as <- <-. by exists [], (l :: rest).
Qed.

Lemma bump_small (k : nat) (x : Z) :
  (k <= 2)%nat -> 0 <= x <= max_int -> 0 <= bump k x -> bump k x = x + Z.of_nat k.
Proof.
  unfold bump, incr, wrap64, max_int, intSize. intros Hk Hx.
  change (2 ^ (64 - 1)) with 9223372036854775808 in Hx.
  change (2 ^ 63) with 9223372036854775808.
  change (2 ^ 64) with 18446744073709551616.
  destruct k as [|[|[|k]]]; simpl; try lia; intros H; Z.div_mod_to_equations; lia.
Qed.

Lemma sublist_map {A B : Type} (f : A -> B) (l1 l2 : list A) :
  sublist l1 l2 -> sublist (map f l1) (map f l2).
Proof. induction 1; simpl; by constructor. Qed.

Lemma min_length_filter_rows (m m1 : Mates) :
  min_length_filter m = Some m1 -> sublist (rows m1) (rows m).
Proof.
  unfold min_length_filter, rows, promote, forget_mate2.
  destruct m as [r1 [r2|] l1 d1 l2 d2]; simpl;
    destruct (l1 <? MinLength args); simpl; destruct (l2 <? MinLength args); simpl;
    intros H; simplify_eq; simpl; by repeat constructor.
Qed.

Lemma max_dist_filter_rows (m m1 : Mates) :
  max_dist_filter m = Some m1 -> sublist (rows m1) (rows m).
Proof.
  unfold max_dist_filter, rows, promote, forget_mate2.
  destruct m as [r1 [r2|] l1 d1 l2 d2]; simpl;
    destruct (d1 >? MaxDist args); simpl; destruct (d2 >? MaxDist args); simpl;
    intros H; simplify_eq; simpl; by repeat constructor.
Qed.

Lemma MatchesErcc_true (row1 : list string) (row2 : option (list string)) :
  MatchesErcc row1 row2 = Returned true -> Ercc args = true.
Proof. unfold MatchesErcc. by destruct (Ercc args). Qed.

(** What writing the surviving mates adds: the lines written, in the
    order of the mates, one or two for a read that is counted as kept. *)
Lemma emit_effect (m : Mates) (e e' : Engine) (ctl : control) :
  emit m e = (ctl, e') ->
  exists (dk : nat) (w : list string),
    written (outfp e') = written (outfp e) ++ w /\
    sublist w (map output_line (rows m)) /\
    (dk <= length w <= 2 * dk)%nat /\
    reads_kept (counters e') = bump dk (reads_kept (counters e)) /\
    read_mates_kept (counters e') = bump (length w) (read_mates_kept (counters e)) /\
    total_reads (counters e') = total_reads (counters e) /\
    total_read_mates (counters e') = total_read_mates (counters e) /\
    ercc (counters e') = ercc (counters e) /\
    sample e' = sample e /\ ctl <> Return None.
Proof.
  unfold emit, Fprintf, rows.
  destruct (room (outfp e)) as [[|r1]|]; simpl.
  - intros [= <- <-]. exists 0%nat, []. simpl. rewrite app_nil_r.
    repeat match goal with |- _ /\ _ => split end; try done; try lia.
    apply sublist_nil_l.
  - destruct (mate2 m) as [row2|]; simpl.
    + destruct r1 as [|r2]; simpl; intros [= <- <-]; simpl.
      * exists 1%nat, [output_line (mate1 m)].
        repeat match goal with |- _ /\ _ => split end; try done; simpl; try lia.
        by repeat constructor.
      * exists 1%nat, [output_line (mate1 m); output_line row2].
        repeat match goal with |- _ /\ _ => split end; try done; simpl; try lia.
        by rewrite <- app_assoc.
    + intros [= <- <-]. simpl. exists 1%nat, [output_line (mate1 m)].
      repeat match goal with |- _ /\ _ => split end; try done; simpl; lia.
  - destruct (mate2 m) as [row2|]; simpl; intros [= <- <-]; simpl.
    + exists 1%nat, [output_line (mate1 m); output_line row2].
      repeat match goal with |- _ /\ _ => split end; try done; simpl; try lia.
      by rewrite <- app_assoc.
    + exists 1%nat, [output_line (mate1 m)].
      repeat match goal with |- _ /\ _ => split end; try done; simpl; lia.
Qed.

(** What the turn adds from the ERCC test on. *)
Lemma judge_effect (read : string) (m : Mates) (e e' : Engine) (ctl : control) :
  judge read m e = Returned (ctl, e') ->
  exists (de dk : nat) (w : list string),
    written (outfp e') = written (outfp e) ++ w /\
    sublist w (map output_line (rows m)) /\
    (dk <= length w <= 2 * dk)%nat /\
    reads_kept (counters e') = bump dk (reads_kept (counters e)) /\
    read_mates_kept (counters e') = bump (length w) (read_mates_kept (counters e)) /\
    total_reads (counters e') = total_reads (counters e) /\
    total_read_mates (counters e') = total_read_mates (counters e) /\
    ercc (counters e') = bump de (ercc (counters e)) /\
    (de <= 1)%nat /\ (de = 1%nat -> Ercc args = true) /\
    sample e' = sample e /\ ctl <> Return None.
Proof.
  unfold judge. intros H.
  assert (forall e1 : Engine,
            written (outfp e1) = written (outfp e) -> sample e1 = sample e ->
            reads_kept (counters e1) = reads_kept (counters e) ->
            read_mates_kept (counters e1) = read_mates_kept (counters e) ->
            total_reads (counters e1) = total_reads (counters e) ->
            total_read_mates (counters e1) = total_read_mates (counters e) ->
            forall de : nat,
              ercc (counters e1) = bump de (ercc (counters e)) ->
              (de <= 1)%nat -> (de = 1%nat -> Ercc args = true) ->
              exists (de dk : nat) (w : list string),
                written (outfp e1) = written (outfp e) ++ w /\
                sublist w (map output_line (rows m)) /\
                (dk <= length w <= 2 * dk)%nat /\
                reads_kept (counters e1) = bump dk (reads_kept (counters e)) /\
                read_mates_kept (counters e1)
                = bump (length w) (read_mates_kept (counters e)) /\
                total_reads (counters e1) = total_reads (counters e) /\
                total_read_mates (counters e1) = total_read_mates (counters e) /\
                ercc (counters e1) = bump de (ercc (counters e)) /\
                (de <= 1)%nat /\ (de = 1%nat -> Ercc args = true) /\
                sample e1 = sample e /\ Next <> Return None) as Hquiet.
  { intros e1 Hw Hs H1 H2 H3 H4 de H5 H6 H7. exists de, 0%nat, [].
    rewrite app_nil_r. simpl.
    repeat match goal with |- _ /\ _ => split end; try done; try lia.
    apply sublist_nil_l. }
  apply bind_Returned in H as (is_ercc & Hercc & H).
  destruct is_ercc.
  { injection H as <- <-. apply MatchesErcc_true in Hercc.
    apply (Hquiet (count incr_ercc e)
                eq_refl eq_refl eq_refl eq_refl eq_refl eq_refl 1%nat); [done|lia|done]. }
  destruct (min_length_filter m) as [m1|] eqn:Hm1.
  2:{ injection H as <- <-.
      apply (Hquiet (count incr_too_short e)
                  eq_refl eq_refl eq_refl eq_refl eq_refl eq_refl 0%nat); [done|lia|done]. }
  destruct (max_dist_filter m1) as [m2|] eqn:Hm2.
  2:{ injection H as <- <-.
      apply (Hquiet (count incr_too_diverged e)
                  eq_refl eq_refl eq_refl eq_refl eq_refl eq_refl 0%nat); [done|lia|done]. }
  apply bind_Returned in H as ([st' w] & _ & H).
  destruct w; simpl in H.
  { injection H as <- <-.
    apply (Hquiet (with_sources (count incr_considered e) st')
                eq_refl eq_refl eq_refl eq_refl eq_refl eq_refl 0%nat); [done|lia|done]. }
  injection H as H.
  apply emit_effect in H as (dk & w & Hw & Hsub & Hdk & H1 & H2 & H3 & H4 & H5 & Hs & Hctl).
  exists 0%nat, dk, w. simpl in Hw, H1, H2, H3, H4, H5, Hs.
  repeat match goal with |- _ /\ _ => split end; try done; try lia.
  etrans; [exact Hsub|]. apply sublist_map.
  etrans; [by apply max_dist_filter_rows|by apply min_length_filter_rows].
Qed.

Ltac split_all := repeat match goal with |- _ /\ _ => split end.

(** What one turn of the loop adds: to the counters, to the output, and
    what it takes from the lines of the sample. *)
Lemma turn_effect (e e' : Engine) (ctl : control) (ls : list string) :
  pending (sample e) ls ->
  turn e = Returned (ctl, e') ->
  exists (dr dm de dk : nat) (w consumed rest : list string),
    total_reads (counters e') = bump dr (total_reads (counters e)) /\
    total_read_mates (counters e') = bump dm (total_read_mates (counters e)) /\
    ercc (counters e') = bump de (ercc (counters e)) /\
    reads_kept (counters e') = bump dk (reads_kept (counters e)) /\
    read_mates_kept (counters e') = bump (length w) (read_mates_kept (counters e)) /\
    written (outfp e') = written (outfp e) ++ w /\
    (dr <= 1 /\ dr <= dm <= 2 * dr /\ de <= dr /\
     dk <= length w <= 2 * dk /\ length w <= dm)%nat /\
    (dr = 1%nat -> limit_reached e = false) /\
    (de = 1%nat -> Ercc args = true) /\
    ls = consumed ++ rest /\ sublist w (map kept_line consumed) /\
    (ctl = Next -> pending (sample e') rest) /\
    (ctl = Return None ->
     (limit_reached e = true /\ e' = e) \/ Closed (sample e') = true).
Proof.
  intros Hp. unfold turn. fold (limit_reached e).
  destruct (limit_reached e) eqn:Hlim.
  { intros [= <- <-]. exists 0%nat, 0%nat, 0%nat, 0%nat, [], [], ls.
    rewrite app_nil_r. simpl. split_all; try done; try lia; auto. }
  intros Hrun. apply bind_Returned in Hrun as (st & _ & Hrun).
  apply bind_Returned in Hrun as ([r sc] & Hrec & Hrun). simpl in Hrec.
  destruct r as [row1|err].
  2:{ injection Hrun as <- <-. exists 0%nat, 0%nat, 0%nat, 0%nat, [], [], ls.
      rewrite app_nil_r. simpl. split_all; try done; lia. }
  destruct (Closed sc) eqn:Hclosed.
  { injection Hrun as <- <-. exists 0%nat, 0%nat, 0%nat, 0%nat, [], [], ls.
    rewrite app_nil_r. simpl. split_all; try done; try lia. intros _. by right. }
  destruct row1 as [row1|]; simpl in Hrun; [|discriminate].
  destruct (Record_pending _ _ _ _ Hp Hrec) as (l1 & rest1 & -> & -> & _ & Hp1).
  apply bind_Returned in Hrun as (read & _ & Hrun).
  apply bind_Returned in Hrun as ([r2 sc2] & Hfind & Hrun). simpl in Hfind.
  destruct r2 as [row2|err].
  2:{ injection Hrun as <- <-. exists 1%nat, 1%nat, 0%nat, 0%nat, [], [], (l1 :: rest1).
      rewrite app_nil_r. simpl. split_all; try done; lia. }
  destruct (Find_loop_pending _ _ _ _ _ _ Hp1 Hfind) as (skipped & rest2 & -> & Hrow2).
  set (e4 := match row2 with
             | Some _ => _
             | None => _
             end) in Hrun.
  assert (exists dm : nat,
            (1 <= dm <= 2)%nat /\ length (fields_of l1 :: match row2 with
                                                          | Some row => [row]
                                                          | None => []
                                                          end) = dm /\
            total_reads (counters e4) = bump 1 (total_reads (counters e)) /\
            total_read_mates (counters e4) = bump dm (total_read_mates (counters e)) /\
            ercc (counters e4) = ercc (counters e) /\
            reads_kept (counters e4) = reads_kept (counters e) /\
            read_mates_kept (counters e4) = read_mates_kept (counters e) /\
            written (outfp e4) = written (outfp e))
    as (dm & Hdm & Hlen & T1 & T2 & T3 & T4 & T5 & T6).
  { unfold e4. destruct row2; [exists 2%nat|exists 1%nat]; simpl; split_all; try done; lia. }
  assert (exists (consumed rest : list string),
            l1 :: skipped ++ rest2 = consumed ++ rest /\
            sublist (map output_line (fields_of l1 :: match row2 with
                                                      | Some row => [row]
                                                      | None => []
                                                      end))
              (map kept_line consumed) /\
            pending (sample e4) rest) as (consumed & rest & Hsplit & Hsub & Hp4).
  { unfold e4. destruct row2 as [row2|].
    - destruct Hrow2 as (l2 & rest3 & -> & -> & Hnone & Hp3).
      exists (l1 :: skipped ++ [l2]), rest3.
      split; [simpl; by rewrite <- app_assoc|]. split.
      + simpl. rewrite !output_line_fields_of, map_app. simpl.
        apply sublist_skip. apply sublist_inserts_l. reflexivity.
      + unfold pending in *. simpl. by rewrite Hnone in Hp3.
    - exists (l1 :: skipped), rest2. split; [done|]. split; [|done].
      simpl. rewrite output_line_fields_of. apply sublist_skip, sublist_nil_l. }
  clearbody e4.
  assert (forall err : error,
            exists (dr dm de dk : nat) (w consumed rest : list string),
              total_reads (counters e4) = bump dr (total_reads (counters e)) /\
              total_read_mates (counters e4) = bump dm (total_read_mates (counters e)) /\
              ercc (counters e4) = bump de (ercc (counters e)) /\
              reads_kept (counters e4) = bump dk (reads_kept (counters e)) /\
              read_mates_kept (counters e4)
              = bump (length w) (read_mates_kept (counters e)) /\
              written (outfp e4) = written (outfp e) ++ w /\
              (dr <= 1 /\ dr <= dm <= 2 * dr /\ de <= dr /\
               dk <= length w <= 2 * dk /\ length w <= dm)%nat /\
              (dr = 1%nat -> false = false) /\
              (de = 1%nat -> Ercc args = true) /\
              l1 :: skipped ++ rest2 = consumed ++ rest /\
              sublist w (map kept_line consumed) /\
              (Return (Some err) = Next -> pending (sample e4) rest) /\
              (Return (Some err) = Return None ->
               (false = true /\ e4 = e) \/ Closed (sample e4) = true)) as Hfailed.
  { intros err. exists 1%nat, dm, 0%nat, 0%nat, [], [], (l1 :: skipped ++ rest2).
    rewrite app_nil_r. simpl. split_all; try done; lia. }
  apply bind_Returned in Hrun as (x1 & _ & Hrun).
  destruct x1 as [[len1 dist1]|err]; [|injection Hrun as <- <-; apply Hfailed].
  apply bind_Returned in Hrun as (x2 & _ & Hrun).
  destruct x2 as [[len2 dist2]|err]; [|injection Hrun as <- <-; apply Hfailed].
  apply judge_effect in Hrun
    as (de & dk & w & Hw & Hsubw & Hdk & J1 & J2 & J3 & J4 & J5 & Hde & Hercc & Hs & Hctl).
  change (rows _) with (fields_of l1 :: match row2 with
                                         | Some row => [row]
                                         | None => []
                                         end) in Hsubw.
  exists 1%nat, dm, de, dk, w, consumed, rest.
  assert (length w <= dm)%nat as Hwlen.
  { apply sublist_length in Hsubw. rewrite length_map in Hsubw. lia. }
  split_all; try congruence; try lia; try done.
  by etrans.
Qed.

(** *** The run of the loop, turn by turn *)

(** What holds at the head of every turn, and is turned by the turn that
    returns into what holds at the end of the run. *)
Lemma main_loop_heads (J : Engine -> Prop) (F : option error -> Engine -> Prop) :
  (forall e e', J e -> turn e = Returned (Next, e') -> J e') ->
  (forall e e' err, J e -> turn e = Returned (Return err, e') -> F err e') ->
  forall (fuel : nat) (e e' : Engine) (err : option error),
    J e -> main_loop fuel e = Returned (err, e') -> F err e'.
Proof.
  intros Hnext Hlast. induction fuel as [|fuel IH]; intros e e' err HJ; simpl;
    [discriminate|].
  intros Hrun. apply bind_Returned in Hrun as ([ctl e1] & Hturn & Hrun).
  destruct ctl as [|err1].
  - eapply IH; [|exact Hrun]. by eapply Hnext.
  - injection Hrun as <- <-. by eapply Hlast.
Qed.

Lemma pending_start (sample_input : Scanner) (pipe : option nat) :
  pending (sample (start sample_input pipe)) (tokens sample_input).
Proof. reflexivity. Qed.

(** X11.  The limit of reads.  With a positive limit the loop never
    counts more reads than the limit; and when it ends without an error,
    it has counted exactly as many reads as the limit, or the sample is
    at its end. *)
Theorem limit_bounds_reads (sample_input : Scanner) (pipe : option nat)
    (err : option error) (e' : Engine) :
  0 < Limit args <= max_int ->
  run (start sample_input pipe) = Returned (err, e') ->
  0 <= total_reads (counters e') <= Limit args /\
  (err = None ->
   total_reads (counters e') = Limit args \/ Closed (sample e') = true).
Proof.
  intros Hlimit Hrun. unfold run in Hrun.
  set (J := fun e : Engine =>
              0 <= total_reads (counters e) <= Limit args /\
              exists ls, pending (sample e) ls).
  assert (forall e e1 ctl, J e -> turn e = Returned (ctl, e1) ->
            0 <= total_reads (counters e1) <= Limit args /\
            (ctl = Next -> exists ls, pending (sample e1) ls) /\
            (ctl = Return None ->
             total_reads (counters e1) = Limit args \/ Closed (sample e1) = true))
    as Hstep.
  { intros e e1 ctl [Hbound [ls Hp]] Hturn.
    destruct (turn_effect _ _ _ _ Hp Hturn)
      as (dr & dm & de & dk & w & consumed & rest & T1 & _ & _ & _ & _ & _ & Hd & Hlim &
          _ & _ & _ & Hnext & Hend).
    split; [|split].
    - rewrite T1. destruct dr as [|[|dr]]; [done| |lia].
      specialize (Hlim eq_refl). unfold limit_reached in Hlim.
      simpl. rewrite incr_no_wrap; lia.
    - intros Hctl. exists rest. by apply Hnext.
    - intros Hctl. destruct (Hend Hctl) as [[Hreached ->]|Hclosed]; [|by right].
      left. unfold limit_reached in Hreached. lia. }
  apply (main_loop_heads J
           (fun err e1 =>
              0 <= total_reads (counters e1) <= Limit args /\
              (err = None ->
               total_reads (counters e1) = Limit args \/ Closed (sample e1) = true)))
    in Hrun; [done| | |].
  - intros e e1 HJ Hturn. destruct (Hstep _ _ _ HJ Hturn) as (H1 & H2 & _).
    split; [done|]. by apply H2.
  - intros e e1 err1 HJ Hturn. destruct (Hstep _ _ _ HJ Hturn) as (H1 & _ & H3).
    split; [done|]. intros ->. by apply H3.
  - split; [simpl; lia|]. eexists. apply pending_start.
Qed.

(** X12.  Without the flag [-ercc] no read is counted as ERCC. *)
Theorem ercc_off_counts_nothing (sample_input : Scanner) (pipe : option nat)
    (err : option error) (e' : Engine) :
  Ercc args = false ->
  run (start sample_input pipe) = Returned (err, e') ->
  ercc (counters e') = 0.
Proof.
  intros Hoff Hrun. unfold run in Hrun.
  set (J := fun e : Engine => ercc (counters e) = 0 /\ exists ls, pending (sample e) ls).
  assert (forall e e1 ctl, J e -> turn e = Returned (ctl, e1) ->
            ercc (counters e1) = 0 /\ (ctl = Next -> exists ls, pending (sample e1) ls))
    as Hstep.
  { intros e e1 ctl [Hzero [ls Hp]] Hturn.
    destruct (turn_effect _ _ _ _ Hp Hturn)
      as (dr & dm & de & dk & w & consumed & rest & _ & _ & T3 & _ & _ & _ & Hd & _ &
          Hercc & _ & _ & Hnext & _).
    split.
    - rewrite T3, Hzero. destruct de as [|[|de]]; [done| |lia].
      specialize (Hercc eq_refl). congruence.
    - intros Hctl. exists rest. by apply Hnext. }
  apply (main_loop_heads J (fun _ e1 => ercc (counters e1) = 0)) in Hrun; [done| | |].
  - intros e e1 HJ Hturn. destruct (Hstep _ _ _ HJ Hturn) as (H1 & H2).
    split; [done|]. by apply H2.
  - intros e e1 err1 HJ Hturn. by destruct (Hstep _ _ _ HJ Hturn) as (H1 & _).
  - split; [done|]. eexists. apply pending_start.
Qed.

(** X13.  What the filter writes is taken from the sample, in its
    order: the lines written are, each followed by a newline, lines of
    the sample with their surrounding white space removed, in the order
    of the sample, and no line of the sample is written twice. *)
Theorem output_is_subsequence (sample_input : Scanner) (pipe : option nat)
    (err : option error) (e' : Engine) :
  run (start sample_input pipe) = Returned (err, e') ->
  sublist (written (outfp e')) (map kept_line (tokens sample_input)).
Proof.
  intros Hrun. unfold run in Hrun.
  set (J := fun e : Engine =>
              exists done_ ls : list string,
                tokens sample_input = done_ ++ ls /\ pending (sample e) ls /\
                sublist (written (outfp e)) (map kept_line done_)).
  assert (forall e e1 ctl, J e -> turn e = Returned (ctl, e1) ->
            exists done_ ls : list string,
              tokens sample_input = done_ ++ ls /\
              (ctl = Next -> pending (sample e1) ls) /\
              sublist (written (outfp e1)) (map kept_line done_)) as Hstep.
  { intros e e1 ctl (done_ & ls & Hsplit & Hp & Hsub) Hturn.
    destruct (turn_effect _ _ _ _ Hp Hturn)
      as (dr & dm & de & dk & w & consumed & rest & _ & _ & _ & _ & _ & Hw & _ & _ &
          _ & -> & Hsubw & Hnext & _).
    exists (done_ ++ consumed), rest. split; [by rewrite <- app_assoc|].
    split; [done|]. rewrite Hw, map_app. by apply sublist_app. }
  apply (main_loop_heads J
           (fun _ e1 => sublist (written (outfp e1)) (map kept_line (tokens sample_input))))
    in Hrun; [done| | |].
  - intros e e1 HJ Hturn.
    destruct (Hstep _ _ _ HJ Hturn) as (done_ & ls & H1 & H2 & H3).
    exists done_, ls. split; [done|]. split; [by apply H2|done].
  - intros e e1 err1 HJ Hturn.
    destruct (Hstep _ _ _ HJ Hturn) as (done_ & ls & -> & _ & H3).
    rewrite map_app. by apply sublist_inserts_r.
  - exists [], (tokens sample_input). split; [done|].
    split; [apply pending_start|]. simpl. apply sublist_nil_l.
Qed.

Lemma ledger_bounds (d s j n : Z) (k0 : Counters) (st0 : Sources) (e : Engine) :
  ledger d s j n k0 st0 e -> 0 <= d -> 0 <= s -> 0 <= j ->
  let k := counters e in
  0 <= reads_kept k <= n /\ 0 <= read_mates_kept k <= n /\
  0 <= total_reads k <= n /\ 0 <= total_read_mates k <= n /\
  total_reads k <= total_read_mates k.
Proof. intros H Hd Hs Hj. open_ledger H. cbv zeta. lia. Qed.

(** One turn on the counters of reads and of mates, without
    wrap-around. *)
Lemma turn_counts (n : Z) (k0 : Counters) (st0 : Sources) (e e1 : Engine)
    (ctl : control) (ls : list string) :
  n <= max_int -> ledger 0 0 0 n k0 st0 e -> pending (sample e) ls ->
  turn e = Returned (ctl, e1) ->
  exists (dr dm dk : nat) (w rest : list string),
    total_reads (counters e1) = total_reads (counters e) + Z.of_nat dr /\
    total_read_mates (counters e1) = total_read_mates (counters e) + Z.of_nat dm /\
    reads_kept (counters e1) = reads_kept (counters e) + Z.of_nat dk /\
    read_mates_kept (counters e1)
    = read_mates_kept (counters e) + Z.of_nat (length w) /\
    written (outfp e1) = written (outfp e) ++ w /\
    (dr <= dm <= 2 * dr /\ dk <= length w <= 2 * dk)%nat /\
    total_read_mates (counters e1) <= n /\
    (ctl = Next -> ledger 0 0 0 n k0 st0 e1 /\ pending (sample e1) rest).
Proof.
  intros Hn Hledger Hp Hturn.
  destruct (turn_effect _ _ _ _ Hp Hturn)
    as (dr & dm & de & dk & w & consumed & rest & T1 & T2 & _ & T4 & T5 & Hw & Hd & _ &
        _ & _ & _ & Hnext & _).
  apply (turn_ledger n Hn k0 st0) in Hturn as [Hsettled _]; [|done].
  assert (exists d, 0 <= d /\ ledger d 0 0 n k0 st0 e1 /\ (ctl = Next -> d = 0))
    as (d & Hd0 & Hledger1 & Hd1).
  { destruct ctl as [|[err|]]; simpl in Hsettled.
    - exists 0. split; [lia|]. by split.
    - destruct Hsettled; [exists 0|exists 1]; (split; [lia|]); by split.
    - exists 0. split; [lia|]. by split. }
  pose proof (ledger_bounds _ _ _ _ _ _ _ Hledger ltac:(lia) ltac:(lia) ltac:(lia)) as B.
  pose proof (ledger_bounds _ _ _ _ _ _ _ Hledger1 Hd0 ltac:(lia) ltac:(lia)) as B1.
  cbv zeta in B, B1.
  rewrite T1, T2, T4, T5 in B1.
  rewrite (bump_small dr) in T1 by lia. rewrite (bump_small dm) in T2 by lia.
  rewrite (bump_small dk) in T4 by lia. rewrite (bump_small (length w)) in T5 by lia.
  rewrite (bump_small dm) in B1 by lia.
  exists dr, dm, dk, w, rest.
  split_all; try done; try lia.
  intros Hctl. rewrite (Hd1 Hctl) in Hledger1. split; [done|by apply Hnext].
Qed.

(** X14.  The count of mates kept is the count of lines written, and a
    read that is kept is written as one line or as two: the mates kept
    are at least as many as the reads kept and at most twice as many. *)
Theorem kept_mates_are_the_lines_written (sample_input : Scanner) (pipe : option nat)
    (err : option error) (e' : Engine) :
  Z.of_nat (length (tokens sample_input)) <= max_int ->
  run (start sample_input pipe) = Returned (err, e') ->
  let k := counters e' in
  read_mates_kept k = Z.of_nat (length (written (outfp e'))) /\
  reads_kept k <= read_mates_kept k <= 2 * reads_kept k.
Proof.
  intros Hn Hrun. cbv zeta. unfold run in Hrun.
  pose proof (ledger_start sample_input pipe) as H0. cbv zeta in H0.
  set (n := Z.of_nat (length (tokens sample_input))) in *.
  set (k0 := counters (start sample_input pipe)) in *.
  set (st0 := sources (start sample_input pipe)) in *.
  set (P := fun e : Engine =>
              read_mates_kept (counters e) = Z.of_nat (length (written (outfp e))) /\
              reads_kept (counters e) <= read_mates_kept (counters e)
              <= 2 * reads_kept (counters e)).
  set (J := fun e : Engine =>
              ledger 0 0 0 n k0 st0 e /\ (exists ls, pending (sample e) ls) /\ P e).
  assert (forall e e1 ctl, J e -> turn e = Returned (ctl, e1) ->
            P e1 /\ (ctl = Next -> J e1)) as Hstep.
  { intros e e1 ctl (Hledger & [ls Hp] & HP1 & HP2) Hturn.
    destruct (turn_counts _ _ _ _ _ _ _ Hn Hledger Hp Hturn)
      as (dr & dm & dk & w & rest & _ & _ & T3 & T4 & Hw & Hd & _ & Hnext).
    assert (P e1) as HP.
    { unfold P. rewrite T3, T4, Hw, length_app. lia. }
    split; [done|]. intros Hctl. destruct (Hnext Hctl) as [Hl1 Hp1].
    split; [done|]. split; [by exists rest|done]. }
  apply (main_loop_heads J (fun _ e1 => P e1)) in Hrun; [done| | |].
  - intros e e1 HJ Hturn. destruct (Hstep _ _ _ HJ Hturn) as [_ H2]. by apply H2.
  - intros e e1 err1 HJ Hturn. by destruct (Hstep _ _ _ HJ Hturn) as [H1 _].
  - split; [done|]. split; [eexists; apply pending_start|]. unfold P. simpl. lia.
Qed.

(** X15.  A read of the sample has one mate or two: the mates read are
    at least as many as the reads and at most twice as many, and they are
    no more than the lines of the sample. *)
Theorem mates_per_read (sample_input : Scanner) (pipe : option nat)
    (err : option error) (e' : Engine) :
  Z.of_nat (length (tokens sample_input)) <= max_int ->
  run (start sample_input pipe) = Returned (err, e') ->
  let k := counters e' in
  total_reads k <= total_read_mates k <= 2 * total_reads k /\
  total_read_mates k <= Z.of_nat (length (tokens sample_input)).
Proof.
  intros Hn Hrun. cbv zeta. unfold run in Hrun.
  pose proof (ledger_start sample_input pipe) as H0. cbv zeta in H0.
  set (n := Z.of_nat (length (tokens sample_input))) in *.
  set (k0 := counters (start sample_input pipe)) in *.
  set (st0 := sources (start sample_input pipe)) in *.
  set (P := fun e : Engine =>
              total_reads (counters e) <= total_read_mates (counters e)
              <= 2 * total_reads (counters e) /\
              total_read_mates (counters e) <= n).
  set (J := fun e : Engine =>
              ledger 0 0 0 n k0 st0 e /\ (exists ls, pending (sample e) ls) /\ P e).
  assert (forall e e1 ctl, J e -> turn e = Returned (ctl, e1) ->
            P e1 /\ (ctl = Next -> J e1)) as Hstep.
  { intros e e1 ctl (Hledger & [ls Hp] & HP1 & HP2) Hturn.
    destruct (turn_counts _ _ _ _ _ _ _ Hn Hledger Hp Hturn)
      as (dr & dm & dk & w & rest & T1 & T2 & _ & _ & _ & Hd & Hle & Hnext).
    assert (P e1) as HP.
    { unfold P. split; [|done]. rewrite T1, T2. lia. }
    split; [done|]. intros Hctl. destruct (Hnext Hctl) as [Hl1 Hp1].
    split; [done|]. split; [by exists rest|done]. }
  apply (main_loop_heads J (fun _ e1 => P e1)) in Hrun; [done| | |].
  - intros e e1 HJ Hturn. destruct (Hstep _ _ _ HJ Hturn) as [_ H2]. by apply H2.
  - intros e e1 err1 HJ Hturn. by destruct (Hstep _ _ _ HJ Hturn) as [H1 _].
  - split; [done|]. split; [eexists; apply pending_start|]. unfold P. simpl. lia.
Qed.

(** *** The panics of the loop *)

Lemma bind_Panicked {A B : Type} (m : outcome A) (k : A -> outcome B) (p : panic) :
  mbind k m = Panicked p ->
  m = Panicked p \/ exists a, m = Returned a /\ k a = Panicked p.
Proof.
  destruct m; simpl; intros H; try discriminate.
  - right. by eexists.
  - left. by injection H as ->.
Qed.

Lemma Record_line_not_Panicked (s : BamScanner) (sc : Scanner) (text : string)
    (p : panic) :
  Record_line s sc text <> Panicked p.
Proof.
  unfold Record_line. repeat case_match; try discriminate.
  intros Hb. apply bind_Panicked in Hb as [Hb|(v & _ & Hb)].
  - by apply strnum_cmp_not_Panicked in Hb.
  - by destruct (v >? 0).
Qed.

Lemma Record_not_Panicked (s : BamScanner) (p : panic) : BamScanner_Record s <> Panicked p.
Proof.
  unfold BamScanner_Record. repeat case_match; try discriminate.
  apply Record_line_not_Panicked.
Qed.

(** The body of the loop of [Find] on a cursor that stands before lines
    of its stream: it does not panic, and it leaves such a cursor. *)
Lemma Find_body_pending (s : BamScanner) (id : string) (ls : list string) :
  pending s ls ->
  (forall p, Find_body s id <> Panicked p) /\
  (forall s', Find_body s id = Returned (inr s') -> exists rest, pending s' rest).
Proof.
  intros Hp. unfold Find_body. destruct (Closed s); [split; intros; discriminate|].
  destruct (BamScanner_Record s) as [[r s1]| | |] eqn:Hrec; simpl;
    try (split; intros; discriminate).
  2:{ by apply Record_not_Panicked in Hrec. }
  destruct r as [row|e]; [|split; intros; discriminate].
  destruct (Closed s1) eqn:Hc1; [split; intros; discriminate|].
  destruct row as [row|].
  2:{ apply Record_end in Hrec as [Hclosed _]. congruence. }
  destruct (Record_pending _ _ _ _ Hp Hrec) as (l & rest & -> & -> & _ & Hp1).
  simpl. rewrite index_fields_of. simpl.
  destruct (String.eqb (ident l) id); [split; intros; discriminate|].
  destruct (strnum_cmp (ident l) id) as [v| | |] eqn:Hcmp; simpl;
    try (split; intros; discriminate).
  2:{ by apply strnum_cmp_not_Panicked in Hcmp. }
  destruct (v <? 0); split; intros; try discriminate. simplify_eq. by exists rest.
Qed.

Lemma Find_loop_not_Panicked (fuel : nat) (id : string) :
  forall (s : BamScanner) (ls : list string) (p : panic),
    pending s ls -> Find_loop fuel s id <> Panicked p.
Proof.
  induction fuel as [|fuel IH]; intros s ls p Hp; simpl; [discriminate|].
  destruct (Find_body_pending s id ls Hp) as [Hnp Hnext].
  intros H. apply bind_Panicked in H as [H|([ret|s'] & Hbody & H)].
  - by apply Hnp in H.
  - discriminate.
  - destruct (Hnext _ Hbody) as [rest Hp']. exact (IH _ _ _ Hp' H).
Qed.

Lemma Find_pending (s s' : BamScanner) (id : string) (ls : list string)
    (row : option (list string)) :
  pending s ls -> BamScanner_Find s id = Returned (Val row, s') ->
  exists ls', pending s' ls'.
Proof.
  intros Hp H. destruct (Find_loop_pending _ _ _ _ _ _ Hp H) as (skipped & rest & _ & Hrow).
  destruct row as [row|].
  - destruct Hrow as (l & rest' & _ & _ & _ & Hp'). by exists rest'.
  - by exists rest.
Qed.

Lemma extract_panic (row : list string) (p : panic) :
  extract row = Panicked p -> tag_panic p.
Proof.
  unfold extract. repeat case_match; try discriminate. intros [= <-].
  exists (len (field row 14)). split; [done|]. unfold len in *. lia.
Qed.

Lemma extract_Val_length (row : list string) (x : Z * Z) :
  extract row = Returned (Val x) -> (15 <= length row)%nat.
Proof.
  unfold extract. destruct (Nat.ltb_spec (length row) 15); [discriminate|done].
Qed.

Lemma source_loop_panic (fuel : nat) (c : nat) (read : string) (best : float) :
  forall (v : Source) (ls : list string) (p : panic),
    pending (cursor v) ls -> source_loop fuel c read best v = Panicked p -> tag_panic p.
Proof.
  induction fuel as [|fuel IH]; intros v ls p Hp; simpl; [discriminate|].
  intros H. apply bind_Panicked in H as [H|([v'|v'] & Hstep & H)].
  - unfold source_step in H. apply bind_Panicked in H as [H|([r sc] & Hfind & H)].
    + by apply (Find_loop_not_Panicked _ _ _ _ _ Hp) in H.
    + destruct r as [[mate|]|err]; try discriminate.
      apply bind_Panicked in H as [H|(x & _ & H)]; [by apply extract_panic in H|].
      by destruct x as [[l d]|err].
  - discriminate.
  - apply source_step_next in Hstep as (mate & l & d & Hfind & _).
    apply (Find_pending _ _ _ _ _ Hp) in Hfind as [ls' Hp']. by eapply IH.
Qed.

Lemma consumes_pending (read : string) (s s' : BamScanner) (mates : list (list string)) :
  consumes read s mates s' ->
  forall ls, pending s ls -> exists ls', pending s' ls'.
Proof.
  induction 1 as [s s' Hfind|s s1 s' mate mates Hfind _ IH]; intros ls Hp.
  - by eapply Find_pending.
  - apply (Find_pending _ _ _ _ _ Hp) in Hfind as [ls1 Hp1]. by eapply IH.
Qed.

Lemma cursors_ready_update (c : nat) (v : Source) (st : Sources) (ls : list string) :
  cursors_ready st -> pending (cursor v) ls -> cursors_ready (update c v st).
Proof.
  unfold cursors_ready, update. simpl. intros H Hp. apply Forall_insert; [done|].
  by exists ls.
Qed.

Lemma scan_sources_ready (read : string) (best : float) (todo : list nat) :
  forall (st : Sources) (w : bool),
    Forall (fun c => (c < length contamination)%nat) todo ->
    sized st -> cursors_ready st ->
    (forall p, scan_sources todo read best st w = Panicked p -> tag_panic p) /\
    (forall st' w', scan_sources todo read best st w = Returned (st', w') ->
       sized st' /\ cursors_ready st').
Proof.
  induction todo as [|c todo IH]; intros st w Hlt Hsized Hready; simpl.
  - split; [discriminate|]. by intros st' w' [= <- <-].
  - apply Forall_cons_1 in Hlt as [Hc Hlt].
    destruct (sized_view st c Hsized Hc) as [v Hview].
    rewrite (scan_source_view _ _ _ _ _ _ Hview).
    pose proof (view_inv _ _ _ Hview) as (Hsc & _).
    destruct (Forall_lookup_1 _ _ _ _ Hready Hsc) as [ls Hp].
    assert (forall v1, source_loop (S (remaining (cursor v))) c read best v = Returned v1 ->
              sized (update c v1 st) /\ cursors_ready (update c v1 st)) as Hafter.
    { intros v1 Hloop. split; [by apply sized_update|].
      apply source_loop_spec in Hloop as (mates & Hcons & _).
      destruct (consumes_pending _ _ _ _ Hcons _ Hp) as [ls1 Hp1].
      by eapply cursors_ready_update. }
    split.
    + intros p H. apply bind_Panicked in H as [H|([st1 w1] & H1 & H)].
      * apply bind_Panicked in H as [H|(v1 & _ & H)]; [|discriminate].
        by eapply source_loop_panic.
      * apply bind_Returned in H1 as (v1 & Hloop & [= <- <-]).
        destruct (Hafter _ Hloop) as [Hs1 Hr1].
        by apply (IH _ _ Hlt Hs1 Hr1) in H.
    + intros st' w' H. apply bind_Returned in H as ([st1 w1] & H1 & H).
      apply bind_Returned in H1 as (v1 & Hloop & [= <- <-]).
      destruct (Hafter _ Hloop) as [Hs1 Hr1].
      by apply (IH _ _ Hlt Hs1 Hr1) in H.
Qed.

Lemma contamination_check_ready (read : string) (best : float) (st : Sources) :
  sized st -> cursors_ready st ->
  (forall p, contamination_check read best st = Panicked p -> tag_panic p) /\
  (forall st' w', contamination_check read best st = Returned (st', w') ->
     sized st' /\ cursors_ready st').
Proof.
  intros Hsized Hready. apply scan_sources_ready; try done.
  apply Forall_forall. intros c Hc. apply elem_of_seq in Hc. lia.
Qed.

Lemma MatchesErcc_not_Panicked (row1 : list string) (row2 : option (list string))
    (p : panic) :
  (15 <= length row1)%nat -> (forall r2, row2 = Some r2 -> (15 <= length r2)%nat) ->
  MatchesErcc row1 row2 <> Panicked p.
Proof.
  intros H1 H2. unfold MatchesErcc, index. destruct (Ercc args); [|discriminate].
  destruct (lookup_lt_is_Some_2 row1 2) as [ref1 ->]; [lia|]. simpl.
  destruct (Contains ref1 "ERCC"); [discriminate|].
  destruct row2 as [r2|]; [|discriminate].
  destruct (lookup_lt_is_Some_2 r2 2) as [ref2 ->]; [specialize (H2 r2 eq_refl); lia|].
  discriminate.
Qed.

Lemma emit_sources (m : Mates) (e e' : Engine) (ctl : control) :
  emit m e = (ctl, e') -> sources e' = sources e.
Proof.
  unfold emit, Fprintf. intros H.
  repeat (case_match; simpl in H); simplify_eq; reflexivity.
Qed.

(** The turn from the ERCC test on, for rows that [extract] has
    accepted: a panic is that of a short tag in a contamination source,
    and the sources stay in shape. *)
Lemma judge_ready (read : string) (m : Mates) (e : Engine) :
  sized (sources e) -> cursors_ready (sources e) ->
  (15 <= length (mate1 m))%nat ->
  (forall r2, mate2 m = Some r2 -> (15 <= length r2)%nat) ->
  (forall p, judge read m e = Panicked p -> tag_panic p) /\
  (forall ctl e', judge read m e = Returned (ctl, e') ->
     sized (sources e') /\ cursors_ready (sources e')).
Proof.
  intros Hsized Hready H1 H2. unfold judge.
  destruct (MatchesErcc (mate1 m) (mate2 m)) as [is_ercc| | |] eqn:Hercc; simpl;
    try (split; intros; discriminate).
  2:{ by apply MatchesErcc_not_Panicked in Hercc. }
  destruct is_ercc.
  { split; [discriminate|]. by intros ctl e' [= <- <-]. }
  destruct (min_length_filter m) as [m1|].
  2:{ split; [discriminate|]. by intros ctl e' [= <- <-]. }
  destruct (max_dist_filter m1) as [m2|].
  2:{ split; [discriminate|]. by intros ctl e' [= <- <-]. }
  destruct (contamination_check_ready read (best_score m2) (sources e) Hsized Hready)
    as [Hpanic Hret].
  change (sources (count incr_considered e)) with (sources e).
  split.
  - intros p H. apply bind_Panicked in H as [H|([st' w] & _ & H)]; [by eapply Hpanic|].
    by destruct w.
  - intros ctl e' H. apply bind_Returned in H as ([st' w] & Hcheck & H).
    apply Hret in Hcheck. destruct w; simpl in H.
    + by injection H as <- <-.
    + injection H as H. apply emit_sources in H. by rewrite H.
Qed.

(** One turn of the loop: a panic is that of a short tag, and the turn
    leaves the sources in shape. *)
Lemma turn_ready (e : Engine) (ls : list string) :
  sized (sources e) -> cursors_ready (sources e) -> pending (sample e) ls ->
  (forall p, turn e = Panicked p -> tag_panic p) /\
  (forall ctl e', turn e = Returned (ctl, e') ->
     sized (sources e') /\ cursors_ready (sources e')).
Proof.
  intros Hsized Hready Hp. unfold turn.
  destruct ((Limit args >? 0) && (Limit args =? total_reads (counters e))).
  { split; [discriminate|]. by intros ctl e' [= <- <-]. }
  destruct (reset_flags_all _ Hsized) as (st1 & -> & Hsized1 & _ & Hsame & _). simpl.
  assert (cursors_ready st1) as Hready1 by (unfold cursors_ready; by rewrite Hsame).
  destruct (BamScanner_Record (sample e)) as [[r sc]| | |] eqn:Hrec; simpl;
    try (split; intros; discriminate).
  2:{ by apply Record_not_Panicked in Hrec. }
  destruct r as [row1|err].
  2:{ split; [discriminate|]. by intros ctl e' [= <- <-]. }
  destruct (Closed sc) eqn:Hclosed.
  { split; [discriminate|]. by intros ctl e' [= <- <-]. }
  destruct row1 as [row1|].
  2:{ apply Record_end in Hrec as [Hc _]. congruence. }
  destruct (Record_pending _ _ _ _ Hp Hrec) as (l1 & rest1 & -> & -> & _ & Hp1).
  simpl. rewrite index_fields_of. simpl.
  destruct (BamScanner_Find (BamScanner_Ratchet sc) (ident l1)) as [[r2 sc2]| | |] eqn:Hfind;
    simpl; try (split; intros; discriminate).
  2:{ by apply (Find_loop_not_Panicked _ _ _ _ _ Hp1) in Hfind. }
  destruct r2 as [row2|err].
  2:{ split; [discriminate|]. by intros ctl e' [= <- <-]. }
  set (e4 := match row2 with
             | Some _ => _
             | None => _
             end).
  assert (sources e4 = st1) as Hsrc by (unfold e4; by destruct row2).
  clearbody e4.
  destruct (extract (fields_of l1)) as [[[len1 dist1]|err]| | |] eqn:Hx1; simpl;
    try (split; intros; discriminate).
  2:{ split; [discriminate|]. intros ctl e' [= <- <-]. by rewrite Hsrc. }
  2:{ split; [|discriminate]. intros p' [= <-]. by eapply extract_panic. }
  apply extract_Val_length in Hx1.
  destruct (extract_opt row2) as [[[len2 dist2]|err]| | |] eqn:Hx2; simpl;
    try (split; intros; discriminate).
  2:{ split; [discriminate|]. intros ctl e' [= <- <-]. by rewrite Hsrc. }
  2:{ split; [|discriminate]. intros p' [= <-].
      destruct row2 as [row2|]; [|discriminate]. by eapply extract_panic. }
  apply judge_ready; simpl; rewrite ?Hsrc; try done.
  intros r2 ->. simpl in Hx2. by apply extract_Val_length in Hx2.
Qed.

Lemma main_loop_panic (fuel : nat) (p : panic) :
  forall (e : Engine) (ls : list string),
    sized (sources e) -> cursors_ready (sources e) -> pending (sample e) ls ->
    main_loop fuel e = Panicked p -> tag_panic p.
Proof.
  induction fuel as [|fuel IH]; intros e ls Hsized Hready Hp; simpl; [discriminate|].
  destruct (turn_ready e ls Hsized Hready Hp) as [Hpanic Hret].
  intros H. apply bind_Panicked in H as [H|([ctl e1] & Hturn & H)]; [by apply Hpanic|].
  destruct ctl as [|err]; [|discriminate].
  destruct (Hret _ _ Hturn) as [Hsized1 Hready1].
  destruct (turn_effect _ _ _ _ Hp Hturn)
    as (? & ? & ? & ? & ? & ? & rest & _ & _ & _ & _ & _ & _ & _ & _ & _ & _ & _ & Hnext & _).
  by apply (IH e1 rest Hsized1 Hready1 (Hnext eq_refl)).
Qed.

(** X16.  The loop panics in one way only: on the slice [edit_tag[:5]]
    of [extract], for an alignment of fifteen fields or more whose
    fifteenth field has fewer than five bytes.  No index of a row, of
    the slices of the sources or of the cursors is ever out of range. *)
Theorem run_panics_only_on_short_tag (sample_input : Scanner) (pipe : option nat)
    (p : panic) :
  run (start sample_input pipe) = Panicked p ->
  exists l : Z, p = SliceBoundsOutOfRange 5 l /\ 0 <= l < 5.
Proof.
  unfold run. apply main_loop_panic with (ls := tokens sample_input).
  - unfold sized, start. simpl. by rewrite length_map, !length_replicate.
  - unfold cursors_ready, start. simpl. apply Forall_forall. intros sc Hsc.
    apply list_elem_of_fmap_1 in Hsc as (input & -> & _). by exists (tokens input).
  - apply pending_start.
Qed.

(** *** What [Find] returns *)

Lemma Find_loop_returns_requested (fuel : nat) (id : string) :
  forall (s s' : BamScanner) (row : list string),
    Find_loop fuel s id = Returned (Val (Some row), s') ->
    row !! 0%nat = Some id /\ record s' = None /\ Closed s' = false /\
    (remaining s' < remaining s)%nat.
Proof.
  induction fuel as [|fuel IH]; intros s s' row; simpl; [discriminate|].
  intros H. apply bind_Returned in H as (step & Hbody & H).
  destruct step as [ret|s1].
  - injection H as ->. unfold Find_body in Hbody.
    destruct (Closed s) eqn:Hc; [discriminate|].
    apply bind_Returned in Hbody as ([r s1] & Hrec & Hbody).
    destruct r as [row1|e]; [|discriminate].
    destruct (Closed s1) eqn:Hc1; [discriminate|].
    destruct row1 as [row1|]; simpl in Hbody; [|discriminate].
    apply Record_some in Hrec as (Hcache & Hrem & _).
    unfold index in Hbody. destruct (row1 !! 0%nat) as [rid|] eqn:Hrid; [|discriminate].
    simpl in Hbody. destruct (String.eqb_spec rid id) as [->|_].
    + injection Hbody as <- <-. simpl. split; [done|]. split; [done|]. split; [done|].
      unfold remaining in *. rewrite Hcache in Hrem. simpl. lia.
    + apply bind_Returned in Hbody as (v & _ & Hbody). by destruct (v <? 0).
  - pose proof (Find_body_next _ _ _ Hbody) as [Hlt _].
    apply IH in H as (H1 & H2 & H3 & H4). split; [done|]. split; [done|].
    split; [done|]. lia.
Qed.

(** X17.  A record that [Find] returns carries the identifier asked
    for, byte for byte, as its first field; the cursor has advanced past
    it, its cache is empty, and it is not closed. *)
Theorem Find_returns_requested (s s' : BamScanner) (id : string) (row : list string) :
  BamScanner_Find s id = Returned (Val (Some row), s') ->
  row !! 0%nat = Some id /\ record s' = None /\ Closed s' = false /\
  (remaining s' < remaining s)%nat.
Proof. apply Find_loop_returns_requested. Qed.

(** *** The reads that the sources reject *)

Lemma sum_counts_le (l : list Z) :
  forall l' : list Z,
    length l = length l' ->
    (forall (c : nat) (x x' : Z), l !! c = Some x -> l' !! c = Some x' -> x <= x') ->
    sum_counts l <= sum_counts l'.
Proof.
  induction l as [|x l IH]; intros [|x' l'] Hlen Hle; simpl in *; try lia.
  pose proof (Hle 0%nat x x' eq_refl eq_refl).
  assert (sum_counts l <= sum_counts l'); [|lia].
  apply IH; [lia|]. intros c y y' Hy Hy'. by apply (Hle (S c)).
Qed.

Lemma sum_counts_lt (l : list Z) :
  forall (l' : list Z) (c : nat) (x : Z),
    length l = length l' ->
    (forall (c : nat) (x x' : Z), l !! c = Some x -> l' !! c = Some x' -> x <= x') ->
    l !! c = Some x -> l' !! c = Some (x + 1) ->
    sum_counts l + 1 <= sum_counts l'.
Proof.
  induction l as [|y l IH]; intros [|y' l'] c x Hlen Hle Hc Hc'; simpl in *; try done.
  destruct c as [|c]; simpl in *.
  - simplify_eq.
    assert (sum_counts l <= sum_counts l'); [|lia].
    apply sum_counts_le; [lia|]. intros c y y' Hy Hy'. by apply (Hle (S c)).
  - pose proof (Hle 0%nat y y' eq_refl eq_refl).
    assert (sum_counts l + 1 <= sum_counts l'); [|lia].
    apply (IH l' c x); [lia| |done|done].
    intros c0 z z' Hz Hz'. by apply (Hle (S c0)).
Qed.

Lemma rejection_step_quiet (ctl : control) (e e' : Engine) :
  reads_filtered (sources e') = reads_filtered (sources e) ->
  considered (counters e') = considered (counters e) ->
  reads_kept (counters e') = reads_kept (counters e) ->
  rejection_step ctl e e'.
Proof.
  intros E1 E2 E3. exists 0%nat, 0%nat, false. rewrite E1, E2, E3. simpl.
  split_all; try done; try lia.
  intros c nr' H. exists nr'. split; [done|by left].
Qed.

Lemma rejection_step_from (ctl : control) (e e1 e' : Engine) :
  reads_filtered (sources e1) = reads_filtered (sources e) ->
  considered (counters e1) = considered (counters e) ->
  reads_kept (counters e1) = reads_kept (counters e) ->
  rejection_step ctl e1 e' -> rejection_step ctl e e'.
Proof.
  intros E1 E2 E3 (dc & dk & w & H). exists dc, dk, w.
  by rewrite E1, E2, E3 in H.
Qed.

Lemma emit_kept (m : Mates) (e e' : Engine) (ctl : control) :
  emit m e = (ctl, e') ->
  sources e' = sources e /\ considered (counters e') = considered (counters e) /\
  exists dk : nat,
    (dk <= 1)%nat /\ reads_kept (counters e') = bump dk (reads_kept (counters e)) /\
    (ctl <> Return (Some ErrWrite) -> dk = 1%nat).
Proof.
  unfold emit, Fprintf.
  destruct (room (outfp e)) as [[|r1]|]; simpl.
  - intros [= <- <-]. simpl. split; [done|]. split; [done|]. exists 0%nat.
    split; [lia|]. split; [done|]. intros H. by destruct H.
  - destruct (mate2 m) as [row2|]; simpl; [destruct r1 as [|r2]; simpl|];
      intros [= <- <-]; simpl; (split; [done|]); (split; [done|]); exists 1%nat;
      (split; [lia|]); by split.
  - destruct (mate2 m) as [row2|]; simpl; intros [= <- <-]; simpl;
      (split; [done|]); (split; [done|]); exists 1%nat; (split; [lia|]); by split.
Qed.

Lemma judge_rejections (read : string) (m : Mates) (e e' : Engine) (ctl : control) :
  sized (sources e) -> flags_clear (sources e) ->
  judge read m e = Returned (ctl, e') -> rejection_step ctl e e'.
Proof.
  intros Hsized Hclear. unfold judge. intros Hrun.
  apply bind_Returned in Hrun as (is_ercc & _ & Hrun).
  destruct is_ercc; [injection Hrun as <- <-; by apply rejection_step_quiet|].
  destruct (min_length_filter m) as [m1|];
    [|injection Hrun as <- <-; by apply rejection_step_quiet].
  destruct (max_dist_filter m1) as [m2|];
    [|injection Hrun as <- <-; by apply rejection_step_quiet].
  apply bind_Returned in Hrun as ([st' w] & Hcheck & Hrun). simpl in Hcheck.
  pose proof (contamination_check_sources _ _ _ _ _ Hsized Hclear Hcheck) as [Hall Hw].
  pose proof (contamination_check_counts _ _ _ _ _ Hsized Hclear Hcheck) as [Hsized' _].
  assert (forall (c : nat) (nr' : Z),
            reads_filtered st' !! c = Some nr' ->
            exists nr : Z,
              reads_filtered (sources e) !! c = Some nr /\
              (nr' = nr \/ (nr' = incr nr /\ w = true))) as Hcounts.
  { intros c nr' Hnr'.
    assert (c < length contamination)%nat as Hc.
    { apply lookup_lt_Some in Hnr'. destruct Hsized' as (_ & _ & <- & _). done. }
    destruct (Hall c Hc)
      as (sc & sc' & mates & nf & nr & _ & _ & _ & _ & _ & H2 & _ & _ & H3 & H4).
    exists nr. split; [done|]. rewrite Hnr' in H4. injection H4 as ->.
    destruct (existsb _ mates); [|by left].
    right. split; [done|]. apply Hw. by exists c. }
  destruct w; simpl in Hrun.
  - injection Hrun as <- <-. exists 1%nat, 0%nat, true. simpl.
    split_all; try done; try lia.
    intros _. split; [done|]. split; [done|].
    destruct Hw as [Hw _]. destruct (Hw eq_refl) as (c & Hc & Hrej).
    destruct (Hall c Hc)
      as (sc & sc' & mates & nf & nr & _ & _ & _ & _ & _ & H2 & _ & _ & H3 & H4).
    exists c, nr. split; [done|]. rewrite Hrej in H3. injection H3 as H3.
    by rewrite <- H3 in H4.
  - injection Hrun as Hemit.
    apply emit_kept in Hemit as (Hsrc & Hcons & dk & Hdk & Hkept & Hctl).
    simpl in Hsrc, Hcons, Hkept.
    exists 1%nat, dk, false. rewrite Hsrc, Hcons, Hkept. simpl.
    split_all; try done; try lia; auto.
Qed.

Lemma turn_rejections (e e' : Engine) (ctl : control) :
  sized (sources e) -> turn e = Returned (ctl, e') -> rejection_step ctl e e'.
Proof.
  intros Hsized. unfold turn.
  destruct ((Limit args >? 0) && (Limit args =? total_reads (counters e))).
  { intros [= <- <-]. by apply rejection_step_quiet. }
  destruct (reset_flags_all _ Hsized) as (st1 & -> & Hsized1 & Hclear & _ & E1 & E2).
  simpl. intros Hrun.
  apply bind_Returned in Hrun as ([r sc] & _ & Hrun).
  destruct r as [row1|err]; [|injection Hrun as <- <-; by apply rejection_step_quiet].
  destruct (Closed sc); [injection Hrun as <- <-; by apply rejection_step_quiet|].
  apply bind_Returned in Hrun as (read & _ & Hrun).
  apply bind_Returned in Hrun as ([r2 sc2] & _ & Hrun).
  destruct r2 as [row2|err]; [|injection Hrun as <- <-; by apply rejection_step_quiet].
  set (e6 := match row2 with
             | Some _ => _
             | None => _
             end) in Hrun.
  assert (sources e6 = st1 /\ considered (counters e6) = considered (counters e) /\
          reads_kept (counters e6) = reads_kept (counters e)) as (Hsrc & Hcons & Hkept).
  { unfold e6. by destruct row2. }
  clearbody e6.
  assert (reads_filtered (sources e6) = reads_filtered (sources e)) as Hfil.
  { by rewrite Hsrc. }
  apply bind_Returned in Hrun as (x1 & _ & Hrun).
  destruct x1 as [[len1 dist1]|err];
    [|injection Hrun as <- <-; by apply rejection_step_quiet].
  apply bind_Returned in Hrun as (x2 & _ & Hrun).
  destruct x2 as [[len2 dist2]|err];
    [|injection Hrun as <- <-; by apply rejection_step_quiet].
  apply judge_rejections in Hrun; [|by rewrite Hsrc|by rewrite Hsrc].
  by eapply rejection_step_from.
Qed.

Lemma ledger_rejection_bounds (d s j n : Z) (k0 : Counters) (st0 : Sources) (e : Engine) :
  ledger d s j n k0 st0 e -> 0 <= d -> 0 <= s -> 0 <= j ->
  0 <= reads_kept (counters e) <= n /\ 0 <= considered (counters e) <= n /\
  length (reads_filtered (sources e)) = length contamination /\
  forall (c : nat) (nr : Z),
    reads_filtered (sources e) !! c = Some nr -> 0 <= nr <= n.
Proof.
  intros H Hd Hs Hj. open_ledger H. split; [lia|]. split; [lia|].
  destruct Hsized as (_ & Hf & Hr & _). split; [done|].
  intros c nr Hnr.
  destruct (lookup_lt_is_Some_2 (reads_found (sources e)) c) as [nf Hnf].
  { apply lookup_lt_Some in Hnr. lia. }
  specialize (Hsrc c nf nr Hnf Hnr). lia.
Qed.

(** X18.  The reads that the sources reject.  When the loop ends, no
    source has rejected more reads than were considered and not kept; and
    unless the loop ends on a failed write, the reads considered and not
    kept are no more than the rejections of all the sources together:
    each of them was rejected by a source. *)
Theorem reads_not_kept_were_rejected (sample_input : Scanner) (pipe : option nat)
    (err : option error) (e' : Engine) :
  Z.of_nat (length (tokens sample_input)) <= max_int ->
  run (start sample_input pipe) = Returned (err, e') ->
  let k := counters e' in
  (forall (c : nat) (nr : Z),
      reads_filtered (sources e') !! c = Some nr -> nr <= considered k - reads_kept k) /\
  (err <> Some ErrWrite ->
   considered k - reads_kept k <= sum_counts (reads_filtered (sources e'))).
Proof.
  intros Hn Hrun. cbv zeta. unfold run in Hrun.
  pose proof (ledger_start sample_input pipe) as H0. cbv zeta in H0.
  set (n := Z.of_nat (length (tokens sample_input))) in *.
  set (k0 := counters (start sample_input pipe)) in *.
  set (st0 := sources (start sample_input pipe)) in *.
  set (P1 := fun e : Engine =>
               forall (c : nat) (nr : Z),
                 reads_filtered (sources e) !! c = Some nr ->
                 nr <= considered (counters e) - reads_kept (counters e)).
  set (P2 := fun e : Engine =>
               considered (counters e) - reads_kept (counters e)
               <= sum_counts (reads_filtered (sources e))).
  set (J := fun e : Engine => ledger 0 0 0 n k0 st0 e /\ P1 e /\ P2 e).
  assert (forall e e1 ctl, J e -> turn e = Returned (ctl, e1) ->
            P1 e1 /\ (ctl <> Return (Some ErrWrite) -> P2 e1) /\
            (ctl = Next -> ledger 0 0 0 n k0 st0 e1)) as Hstep.
  { intros e e1 ctl (Hledger & HP1 & HP2) Hturn.
    pose proof Hledger as [Hsized _].
    pose proof (turn_rejections _ _ _ Hsized Hturn)
      as (dc & dk & w & T1 & T2 & Hd & Hcounts & Hw & Hquiet).
    apply (turn_ledger n Hn k0 st0) in Hturn as [Hsettled _]; [|done].
    assert (exists d, 0 <= d /\ ledger d 0 0 n k0 st0 e1 /\ (ctl = Next -> d = 0))
      as (d & Hd0 & Hledger1 & Hd1).
    { destruct ctl as [|[err1|]]; simpl in Hsettled.
      - exists 0. split; [lia|]. by split.
      - destruct Hsettled; [exists 0|exists 1]; (split; [lia|]); by split.
      - exists 0. split; [lia|]. by split. }
    pose proof (ledger_rejection_bounds _ _ _ _ _ _ _ Hledger
                  ltac:(lia) ltac:(lia) ltac:(lia)) as (B1 & B2 & B3 & B4).
    pose proof (ledger_rejection_bounds _ _ _ _ _ _ _ Hledger1 Hd0
                  ltac:(lia) ltac:(lia)) as (C1 & C2 & C3 & C4).
    rewrite T1 in C2. rewrite T2 in C1.
    rewrite (bump_small dc) in T1 by lia. rewrite (bump_small dk) in T2 by lia.
    assert (forall (c : nat) (x x' : Z),
              reads_filtered (sources e) !! c = Some x ->
              reads_filtered (sources e1) !! c = Some x' ->
              x' = x \/ (x' = x + 1 /\ w = true)) as Hpoint.
    { intros c x x' Hx Hx'. destruct (Hcounts c x' Hx') as (nr & Hnr & Hcase).
      rewrite Hx in Hnr. injection Hnr as <-.
      destruct Hcase as [->|[-> Hwt]]; [by left|]. right. split; [|done].
      pose proof (B4 c x Hx). pose proof (C4 c _ Hx').
      apply (bump_small 1 x); [lia|lia|simpl; lia]. }
    split; [|split].
    - intros c nr' Hnr'. unfold P1 in HP1. rewrite T1, T2.
      destruct (Hcounts c nr' Hnr') as (nr & Hnr & _).
      specialize (HP1 c nr Hnr).
      destruct (Hpoint c nr nr' Hnr Hnr') as [->|[-> ->]]; [lia|].
      destruct (Hw eq_refl) as (-> & -> & _). lia.
    - intros Hctl. unfold P2 in *. rewrite T1, T2.
      destruct w.
      + destruct (Hw eq_refl) as (-> & -> & c & nr & Hnr & Hnr').
        destruct (Hpoint c nr _ Hnr Hnr') as [E|[E _]].
        * assert (sum_counts (reads_filtered (sources e)) + 1
                  <= sum_counts (reads_filtered (sources e1))); [|lia].
          apply (sum_counts_lt _ _ c nr); [lia| |done|].
          -- intros c0 x x' Hx Hx'. destruct (Hpoint c0 x x' Hx Hx'); lia.
          -- rewrite Hnr'. f_equal.
             pose proof (B4 c nr Hnr). pose proof (C4 c _ Hnr').
             apply (bump_small 1 nr); [lia|lia|simpl; lia].
        * assert (sum_counts (reads_filtered (sources e)) + 1
                  <= sum_counts (reads_filtered (sources e1))); [|lia].
          apply (sum_counts_lt _ _ c nr); [lia| |done|by rewrite Hnr', E].
          intros c0 x x' Hx Hx'. destruct (Hpoint c0 x x' Hx Hx'); lia.
      + rewrite (Hquiet eq_refl Hctl).
        assert (sum_counts (reads_filtered (sources e))
                <= sum_counts (reads_filtered (sources e1))); [|lia].
        apply sum_counts_le; [lia|].
        intros c0 x x' Hx Hx'. destruct (Hpoint c0 x x' Hx Hx'); lia.
    - intros Hctl. by rewrite (Hd1 Hctl) in Hledger1. }
  apply (main_loop_heads J
           (fun err e1 => P1 e1 /\ (err <> Some ErrWrite -> P2 e1))) in Hrun; [done| | |].
  - intros e e1 HJ Hturn. destruct (Hstep _ _ _ HJ Hturn) as (H1 & H2 & H3).
    split; [by apply H3|]. split; [done|]. by apply H2.
  - intros e e1 err1 HJ Hturn. destruct (Hstep _ _ _ HJ Hturn) as (H1 & H2 & _).
    split; [done|]. intros Hne. apply H2. congruence.
  - split; [done|]. split.
    + intros c nr Hnr. simpl in Hnr. apply lookup_replicate in Hnr as [-> _]. simpl. lia.
    + unfold P2. simpl. induction (length contamination); simpl; [lia|].
      unfold sum_counts in *. lia.
Qed.

(** *** The line of machine parsable stats *)

Lemma append_nil_r (s : string) : String.append s "" = s.
Proof. induction s as [|c s IH]; simpl; [done|]. by rewrite IH. Qed.

Lemma fmt_digits_spec (fuel : nat) :
  forall (u : Z) (buf : string),
    (0 < fuel)%nat -> 0 <= u < 10 ^ Z.of_nat fuel ->
    exists ds : string,
      fmt_digits fuel u buf = String.append ds buf /\ ds <> "" /\
      all_bytes is_ascii_digit ds = true /\
      num (map byte (list_ascii_of_string ds)) = u.
Proof.
  induction fuel as [|fuel IH]; intros u buf Hfuel Hu; [lia|].
  assert (0 <= u mod 10 < 10) as Hd by (apply Z.mod_pos_bound; lia).
  assert (is_ascii_digit (byte_of (48 + u mod 10)) = true) as Hdigit.
  { unfold is_ascii_digit. rewrite byte_byte_of by lia. lia. }
  simpl. destruct (Z.ltb_spec u 10) as [Hsmall|Hbig].
  - exists (String (byte_of (48 + u mod 10)) ""). split; [done|]. split; [done|].
    split; [unfold all_bytes; simpl; by rewrite Hdigit|].
    unfold num, num_from. simpl. rewrite byte_byte_of by lia.
    rewrite Z.mod_small; lia.
  - assert (0 < fuel)%nat as Hfuel'.
    { destruct fuel; [|lia]. simpl in Hu. lia. }
    assert (0 <= u / 10 < 10 ^ Z.of_nat fuel) as Hu'.
    { rewrite Nat2Z.inj_succ, Z.pow_succ_r in Hu by lia.
      split; [apply Z.div_pos; lia|]. apply Z.div_lt_upper_bound; lia. }
    destruct (IH (u / 10) (String (byte_of (48 + u mod 10)) buf) Hfuel' Hu')
      as (ds & -> & Hne & Hall & Hnum).
    exists (String.append ds (String (byte_of (48 + u mod 10)) "")).
    split; [by rewrite append_assoc|]. split; [by destruct ds|].
    split.
    + rewrite all_bytes_app, Hall. unfold all_bytes. simpl. by rewrite Hdigit.
    + rewrite list_ascii_of_string_app, map_app, num_app, Hnum. simpl.
      unfold num, num_from. simpl. rewrite byte_byte_of by lia.
      change (Z.pow_pos 10 1) with 10. pose proof (Z.div_mod u 10). lia.
Qed.

(** The digits that [fmt_d] writes for a number within the range of
    [int]. *)
Lemma fmt_d_digits (z : Z) :
  min_int <= z <= max_int ->
  exists ds : string,
    fmt_d z = (if z <? 0 then String "-" ds else ds) /\ ds <> "" /\
    all_bytes is_ascii_digit ds = true /\
    num (map byte (list_ascii_of_string ds)) = Z.abs z.
Proof.
  unfold min_int, max_int, intSize. change (2 ^ (64 - 1)) with 9223372036854775808.
  intros Hz. unfold fmt_d.
  destruct (Z.ltb_spec z 0) as [Hneg|Hpos].
  - destruct (fmt_digits_spec 19 (- z) "") as (ds & -> & Hne & Hall & Hnum);
      [lia|change (10 ^ Z.of_nat 19) with 10000000000000000000; lia|].
    exists ds. rewrite append_nil_r. split_all; try done. lia.
  - destruct (fmt_digits_spec 19 z "") as (ds & -> & Hne & Hall & Hnum);
      [lia|change (10 ^ Z.of_nat 19) with 10000000000000000000; lia|].
    exists ds. rewrite append_nil_r. split_all; try done. lia.
Qed.

Lemma Atoi_fmt_d (z : Z) : min_int <= z <= max_int -> Atoi (fmt_d z) = Some z.
Proof.
  intros Hz. destruct (fmt_d_digits z Hz) as (ds & -> & Hne & Hall & Hnum).
  destruct ds as [|c t]; [done|].
  assert (is_ascii_digit c = true) as Hc.
  { unfold all_bytes in Hall. simpl in Hall. by apply andb_true_iff in Hall as [? _]. }
  destruct (Z.ltb_spec z 0) as [Hneg|Hpos].
  - unfold Atoi. rewrite (parse_digits_bytes _ _ Hall).
    fold (num (map byte (list_ascii_of_string (String c t)))). rewrite Hnum.
    replace (- Z.abs z) with z by lia.
    destruct (Z.leb_spec min_int z); [|lia]. destruct (Z.leb_spec z max_int); [|lia].
    done.
  - rewrite (Atoi_digit_head _ _ Hc), (parse_digits_bytes _ _ Hall).
    fold (num (map byte (list_ascii_of_string (String c t)))). rewrite Hnum.
    replace (Z.abs z) with z by lia.
    destruct (Z.leb_spec z max_int); [done|lia].
Qed.

Lemma fmt_d_no_tab (z : Z) :
  min_int <= z <= max_int ->
  all_bytes (fun c => negb (Ascii.eqb c tab)) (fmt_d z) = true.
Proof.
  intros Hz. destruct (fmt_d_digits z Hz) as (ds & -> & _ & Hall & _).
  assert (all_bytes (fun c => negb (Ascii.eqb c tab)) ds = true) as Hds.
  { apply (all_bytes_impl is_ascii_digit); [|done].
    intros c Hc. apply is_ascii_digit_range in Hc.
    destruct (Ascii.eqb_spec c tab) as [->|_]; [|done].
    change (byte tab) with 9 in Hc. lia. }
  destruct (z <? 0); [|done]. unfold all_bytes in *. simpl. exact Hds.
Qed.

Lemma Split_no_sep (s : string) (sep : ascii) :
  all_bytes (fun c => negb (Ascii.eqb c sep)) s = true -> Split s sep = [s].
Proof.
  unfold all_bytes. induction s as [|c s IH]; simpl; [done|].
  intros H. apply andb_true_iff in H as [Hc Hs].
  apply negb_true_iff in Hc. rewrite Hc, (IH Hs). done.
Qed.

Lemma Split_app_sep (s t : string) (sep : ascii) :
  Split (String.append s (String sep t)) sep = Split s sep ++ Split t sep.
Proof.
  induction s as [|c s IH]; simpl.
  - by rewrite Ascii.eqb_refl.
  - rewrite IH. pose proof (Split_not_nil s sep).
    destruct (Ascii.eqb c sep); [done|]. by destruct (Split s sep).
Qed.

(** The fields of a string to which numbers are appended, each after a
    tab, as [statsStr] is built. *)
Lemma Split_appended_numbers (l : list Z) :
  forall s : string,
    Forall (fun z => min_int <= z <= max_int) l ->
    Split (fold_left (fun statsStr z => String.append statsStr (String tab (fmt_d z))) l s)
      tab
    = Split s tab ++ map fmt_d l.
Proof.
  induction l as [|z l IH]; intros s Hl; simpl; [by rewrite app_nil_r|].
  apply Forall_cons_1 in Hl as [Hz Hl].
  rewrite (IH _ Hl), Split_app_sep, (Split_no_sep (fmt_d z)) by (by apply fmt_d_no_tab).
  by rewrite <- app_assoc.
Qed.

Lemma ledger_stats (d s j n : Z) (k0 : Counters) (st0 : Sources) (e : Engine) :
  ledger d s j n k0 st0 e -> 0 <= d -> 0 <= s -> 0 <= j ->
  Forall (fun z => 0 <= z <= n) (stats e) /\
  length (stats e) = (8 + 2 * length contamination)%nat.
Proof.
  intros H Hd Hs Hj. open_ledger H. destruct Hsized as (_ & Hf & Hr & _).
  split.
  - unfold stats. cbv zeta. repeat (apply Forall_cons; split; [lia|]).
    apply Forall_app. split; apply Forall_lookup_2; intros c x Hx.
    + destruct (lookup_lt_is_Some_2 (reads_filtered (sources e)) c) as [nr Hnr].
      { apply lookup_lt_Some in Hx. lia. }
      specialize (Hsrc c x nr Hx Hnr). lia.
    + destruct (lookup_lt_is_Some_2 (reads_found (sources e)) c) as [nf Hnf].
      { apply lookup_lt_Some in Hx. lia. }
      specialize (Hsrc c nf x Hnf Hx). lia.
  - unfold stats. cbv zeta. simpl. rewrite length_app. lia.
Qed.

(** X19.  The line of machine parsable stats can be parsed.  When the
    loop has ended without an error on a sample of no more lines than an
    [int] can count, the line that [main] logs last has, split at the
    tabs, the field "stats" and then one field for each of the eight
    counters and two for each source; and [strconv.Atoi] reads from each
    field the count that was written. *)
Theorem stats_line_parses_back (sample_input : Scanner) (pipe : option nat)
    (e' : Engine) :
  Z.of_nat (length (tokens sample_input)) <= max_int ->
  run (start sample_input pipe) = Returned (None, e') ->
  exists fields : list string,
    Split (statsStr e') tab = "stats" :: fields /\
    length fields = (8 + 2 * length contamination)%nat /\
    map Atoi fields = map Some (stats e').
Proof.
  intros Hn Hrun. unfold run in Hrun.
  pose proof (ledger_start sample_input pipe) as H0. cbv zeta in H0.
  apply (main_loop_ledger _ Hn _ _ _ _ _ _ H0) in Hrun. simpl in Hrun.
  apply ledger_stats in Hrun as [Hrange Hlen]; [|lia|lia|lia].
  assert (Forall (fun z => min_int <= z <= max_int) (stats e')) as Hint.
  { eapply Forall_impl; [exact Hrange|]. intros z Hz. simpl in Hz.
    unfold min_int, max_int, intSize in *. lia. }
  exists (map fmt_d (stats e')). split; [|split].
  - unfold statsStr. by rewrite (Split_appended_numbers _ _ Hint).
  - by rewrite length_map.
  - clear Hrange Hlen. induction Hint as [|z l Hz Hl IH]; simpl; [done|].
    by rewrite (Atoi_fmt_d z Hz), IH.
Qed.

(** *** The loop for unpaired reads *)

Lemma flags_track_start (st : Sources) : sized st -> flags_clear st -> flags_track st st.
Proof.
  intros Hsized Hclear. split; [done|]. intros c Hc.
  destruct (Hclear c Hc) as [Hf Hr].
  destruct Hsized as (_ & H2 & H3 & _).
  destruct (lookup_lt_is_Some_2 (reads_found st) c) as [nf Hnf]; [lia|].
  destruct (lookup_lt_is_Some_2 (reads_filtered st) c) as [nr Hnr]; [lia|].
  exists nf, nr, false, false. by split_all.
Qed.

Lemma flags_track_cursors (st0 st : Sources) (cs : list BamScanner) :
  flags_track st0 st -> length cs = length contamination ->
  flags_track st0 {| contScanners := cs; reads_found := reads_found st;
                     reads_filtered := reads_filtered st; rejected := rejected st;
                     found := found st |}.
Proof.
  intros [Hsized H] Hlen. split; [|exact H].
  unfold sized in *. simpl. by destruct Hsized as (_ & ? & ? & ? & ?).
Qed.

Lemma mark_found_track (c : nat) (st0 st st' : Sources) :
  flags_track st0 st -> (c < length contamination)%nat ->
  mark_found c st = Returned st' ->
  flags_track st0 st' /\ found st' !! c = Some true /\ rejected st' = rejected st.
Proof.
  intros [Hsized Htrack] Hc. unfold mark_found.
  destruct (Htrack c Hc) as (nf & nr & f & r & Hnf0 & Hnr0 & Hf & Hr & Hnf & Hnr & Hrf).
  rewrite (get_lookup _ _ _ Hf). simpl. destruct f; simpl.
  - intros [= <-]. split; [by split|]. by split.
  - rewrite (put_lookup _ _ _ _ Hf). simpl. rewrite (get_lookup _ _ _ Hnf). simpl.
    rewrite (put_lookup _ _ _ _ Hnf). simpl. intros [= <-]. simpl.
    pose proof (lookup_lt_Some _ _ _ Hf) as Hlf.
    pose proof (lookup_lt_Some _ _ _ Hnf) as Hlnf.
    split; [|split; [|done]].
    + split. { unfold sized in *. simpl. by rewrite !length_insert. }
      intros c' Hc'. simpl.
      destruct (decide (c' = c)) as [->|Hne].
      * exists nf, nr, true, r. rewrite !list_lookup_insert_eq by done.
        by split_all.
      * destruct (Htrack c' Hc')
          as (nf' & nr' & f' & r' & H1 & H2 & H3 & H4 & H5 & H6 & H7).
        exists nf', nr', f', r'. rewrite !list_lookup_insert_ne by done. by split_all.
    + by apply list_lookup_insert_eq.
Qed.

Lemma mark_rejected_track (c : nat) (st0 st st' : Sources) (w w' : bool) :
  flags_track st0 st -> (c < length contamination)%nat ->
  found st !! c = Some true ->
  (w = true <-> some_rejected st) ->
  mark_rejected c st w = Returned (st', w') ->
  flags_track st0 st' /\ (w' = true <-> some_rejected st').
Proof.
  intros [Hsized Htrack] Hc Hfound Hw. unfold mark_rejected.
  destruct (Htrack c Hc) as (nf & nr & f & r & Hnf0 & Hnr0 & Hf & Hr & Hnf & Hnr & Hrf).
  rewrite Hfound in Hf. injection Hf as <-.
  rewrite (get_lookup _ _ _ Hr). simpl. destruct r; simpl.
  - intros [= <- <-]. split; [by split|done].
  - rewrite (get_lookup _ _ _ Hnr). simpl. rewrite (put_lookup _ _ _ _ Hnr). simpl.
    rewrite (put_lookup _ _ _ _ Hr). simpl. intros [= <- <-].
    pose proof (lookup_lt_Some _ _ _ Hr) as Hlr.
    pose proof (lookup_lt_Some _ _ _ Hnr) as Hlnr.
    split.
    + split. { unfold sized in *. simpl. by rewrite !length_insert. }
      intros c' Hc'. simpl.
      destruct (decide (c' = c)) as [->|Hne].
      * exists nf, nr, true, true. rewrite !list_lookup_insert_eq by done.
        by split_all.
      * destruct (Htrack c' Hc')
          as (nf' & nr' & f' & r' & H1 & H2 & H3 & H4 & H5 & H6 & H7).
        exists nf', nr', f', r'. rewrite !list_lookup_insert_ne by done. by split_all.
    + split; [|done]. intros _. exists c. simpl. by apply list_lookup_insert_eq.
Qed.

Lemma find_alignment_track (c : nat) (read : string) (s : float) (st0 st st' : Sources)
    (w w' : bool) :
  flags_track st0 st -> (c < length contamination)%nat ->
  (w = true <-> some_rejected st) ->
  find_alignment c read s st w = Returned (st', w') ->
  flags_track st0 st' /\ (w' = true <-> some_rejected st').
Proof.
  intros Htrack Hc Hw. unfold find_alignment. intros Hrun.
  apply bind_Returned in Hrun as (sc & Hsc & Hrun).
  apply bind_Returned in Hrun as ([r sc'] & _ & Hrun).
  set (st1 := {| contScanners := <[c:=sc']> (contScanners st);
                 reads_found := reads_found st; reads_filtered := reads_filtered st;
                 rejected := rejected st; found := found st |}) in Hrun.
  assert (flags_track st0 st1) as Htrack1.
  { apply flags_track_cursors; [done|]. rewrite length_insert. by destruct Htrack as [[? _] _]. }
  assert (w = true <-> some_rejected st1) as Hw1 by exact Hw.
  clearbody st1.
  destruct r as [[mate|]|err]; [|by injection Hrun as <- <-|discriminate].
  apply bind_Returned in Hrun as (st2 & Hfound & Hrun).
  apply (mark_found_track _ _ _ _ Htrack1 Hc) in Hfound as (Htrack2 & Hf2 & Hr2).
  assert (w = true <-> some_rejected st2) as Hw2.
  { unfold some_rejected. by rewrite Hr2. }
  apply bind_Returned in Hrun as (x & _ & Hrun).
  destruct x as [[l d]|err]; [|discriminate].
  destruct (_ && _) in Hrun; [|by injection Hrun as <- <-].
  exact (mark_rejected_track _ _ _ _ _ _ Htrack2 Hc Hf2 Hw2 Hrun).
Qed.

Lemma check_sources_track (read : string) (s : float) (st0 : Sources) (todo : list nat) :
  forall (st st' : Sources) (w w' : bool),
    Forall (fun c => (c < length contamination)%nat) todo ->
    flags_track st0 st -> (w = true <-> some_rejected st) ->
    check_sources todo read s st w = Returned (st', w') ->
    flags_track st0 st' /\ (w' = true <-> some_rejected st').
Proof.
  induction todo as [|c todo IH]; intros st st' w w' Hlt Htrack Hw; simpl.
  - by intros [= <- <-].
  - apply Forall_cons_1 in Hlt as [Hc Hlt]. intros Hrun.
    apply bind_Returned in Hrun as ([st1 w1] & H1 & Hrun).
    apply (find_alignment_track _ _ _ _ _ _ _ _ Htrack Hc Hw) in H1 as [Htrack1 Hw1].
    apply bind_Returned in Hrun as ([st2 w2] & H2 & Hrun).
    apply (find_alignment_track _ _ _ _ _ _ _ _ Htrack1 Hc Hw1) in H2 as [Htrack2 Hw2].
    by eapply IH.
Qed.

(** What the two calls of [Find] for each source do to the counts. *)
Lemma check_sources_counts (read : string) (s : float) (st st' : Sources) (w : bool) :
  sized st -> flags_clear st ->
  check_sources (seq 0 (length contamination)) read s st false = Returned (st', w) ->
  sized st' /\
  (forall (c : nat) (nf' nr' : Z),
      reads_found st' !! c = Some nf' -> reads_filtered st' !! c = Some nr' ->
      exists nf nr : Z,
        reads_found st !! c = Some nf /\ reads_filtered st !! c = Some nr /\
        ((nf' = nf /\ nr' = nr) \/ (nf' = incr nf /\ nr' = nr) \/
         (nf' = incr nf /\ nr' = incr nr /\ w = true))) /\
  (w = true ->
   exists (c : nat) (nr : Z),
     reads_filtered st !! c = Some nr /\ reads_filtered st' !! c = Some (incr nr)).
Proof.
  intros Hsized Hclear Hrun.
  apply (check_sources_track _ _ st) in Hrun as [[Hsized' Htrack] Hw].
  2:{ apply Forall_forall. intros c Hc. apply elem_of_seq in Hc. lia. }
  2:{ by apply flags_track_start. }
  2:{ split; [done|]. intros (c & Hc).
      destruct (Hclear c) as [_ Hr]; [|congruence].
      apply lookup_lt_Some in Hc. by destruct Hsized as (_ & _ & _ & <- & _). }
  split; [done|]. split.
  - intros c nf' nr' Hnf' Hnr'.
    assert (c < length contamination)%nat as Hc.
    { apply lookup_lt_Some in Hnf'. by destruct Hsized' as (_ & <- & _). }
    destruct (Htrack c Hc) as (nf & nr & f & r & H1 & H2 & H3 & H4 & H5 & H6 & H7).
    exists nf, nr. split; [done|]. split; [done|].
    rewrite Hnf' in H5. rewrite Hnr' in H6. simplify_eq.
    destruct r.
    + rewrite (H7 eq_refl). right. right. split; [done|]. split; [done|].
      apply Hw. by exists c.
    + destruct f; auto.
  - intros Hwt. apply Hw in Hwt as (c & Hr).
    assert (c < length contamination)%nat as Hc.
    { apply lookup_lt_Some in Hr. by destruct Hsized' as (_ & _ & _ & <- & _). }
    destruct (Htrack c Hc) as (nf & nr & f & r & H1 & H2 & H3 & H4 & H5 & H6 & H7).
    rewrite Hr in H4. injection H4 as <-. by exists c, nr.
Qed.

Lemma pending_remaining (s : BamScanner) (ls : list string) :
  pending s ls -> remaining s = length ls.
Proof.
  unfold pending, remaining. destruct (record s); [intros (x & _ & ->)|intros ->]; done.
Qed.

Lemma Record_open (s s' : BamScanner) (row : option (list string)) :
  Closed s = false -> BamScanner_Record s = Returned (Val row, s') ->
  Closed s' = is_nil row.
Proof.
  intros Hopen Hrec. destruct row as [row|]; simpl.
  - apply Record_some in Hrec as (_ & _ & H). by apply H.
  - by apply Record_end in Hrec as [H _].
Qed.

(** One turn of the loop for unpaired reads: a turn that goes on has
    read one line of the sample and counted it as one read. *)
Lemma unpaired_turn_step (lines : list string) (e e' : Engine) (ctl : control) :
  Z.of_nat (length lines) <= max_int ->
  unpaired_head lines e ->
  unpaired_turn e = Returned (ctl, e') ->
  match ctl with
  | Next => unpaired_head lines e' /\ (remaining (sample e') < remaining (sample e))%nat
  | Return err => unpaired_end lines err e'
  end.
Proof.
  intros Hn (done_ & rest & Hlines & Hp & Hopen & Hsized & Htotal & Hbooks & Hcover & Hsub).
  unfold unpaired_turn.
  destruct (reset_flags_all _ Hsized) as (st1 & -> & Hsized1 & Hclear & _ & E1 & E2).
  simpl. intros Hrun.
  assert (sublist (written (outfp e)) (map kept_line lines)) as Hsub'.
  { rewrite Hlines, map_app. by apply sublist_inserts_r. }
  unfold unpaired_books in Hbooks. cbv zeta in Hbooks.
  destruct Hbooks as (B1 & (B2 & B3 & B4) & (B5 & B6) & B7 & B8 & B9).
  unfold rejections_cover in Hcover.
  destruct e as [smp src [rk rmk tr trm er co ts td] out]. simpl in *.
  apply bind_Returned in Hrun as ([r sc] & Hrec & Hrun).
  destruct r as [row|err].
  2:{ injection Hrun as <- <-. unfold unpaired_end, unpaired_books, rejections_cover.
      simpl. rewrite E1, E2. split_all; try done. by left. }
  pose proof (Record_open _ _ _ Hopen Hrec) as Hclosed. rewrite Hclosed in Hrun.
  destruct row as [row|]; simpl in Hrun, Hclosed.
  2:{ injection Hrun as <- <-.
      apply (Record_end_pending _ _ _ Hp) in Hrec as [-> Hp'].
      unfold unpaired_end, unpaired_books, rejections_cover.
      simpl. rewrite E1, E2. split_all; try done; [by left|].
      intros _. left. split; [done|]. rewrite Hlines, length_app. simpl. lia. }
  destruct (Record_pending _ _ _ _ Hp Hrec) as (l & rest1 & -> & -> & _ & Hp1).
  assert (Z.of_nat (length lines)
          = Z.of_nat (length done_) + 1 + Z.of_nat (length rest1)) as Hlen.
  { rewrite Hlines, length_app. simpl. lia. }
  assert (remaining (BamScanner_Ratchet sc) < remaining smp)%nat as Hless.
  { rewrite (pending_remaining _ _ Hp1), (pending_remaining _ _ Hp). simpl. lia. }
  destruct ((limit flags >? 0) && (limit flags =? tr)) eqn:Hlim.
  { injection Hrun as <- <-. apply andb_true_iff in Hlim as [Hl1 Hl2].
    unfold unpaired_end, unpaired_books, rejections_cover.
    simpl. rewrite E1, E2. split_all; try done; [by left|].
    intros _. right. rewrite (pending_remaining _ _ Hp1). split_all; try done; lia. }
  assert (forall c nf nr,
            reads_found src !! c = Some nf -> reads_filtered src !! c = Some nr ->
            nr < max_int /\ nf < max_int) as Hsmall.
  { intros c nf nr Hnf Hnr. specialize (B8 c nf nr Hnf Hnr). lia. }
  assert (sublist (written out) (map kept_line (done_ ++ [l]))) as Hsub1.
  { rewrite map_app. by apply sublist_inserts_r. }
  assert (lines = (done_ ++ [l]) ++ rest1) as Hlines1 by (by rewrite <- app_assoc).
  assert (Z.of_nat (length (done_ ++ [l])) = tr + 1) as Hdone1.
  { rewrite length_app. simpl. lia. }
  apply bind_Returned in Hrun as (x & _ & Hrun).
  destruct x as [[sample_len sample_edit_dist]|err].
  2:{ injection Hrun as <- <-. unfold unpaired_end, unpaired_books, rejections_cover.
      simpl. rewrite E1, E2, (incr_no_wrap tr) by lia.
      split_all; try done. right. split_all; try done; lia. }
  destruct (sample_len <? minsamplen flags).
  { injection Hrun as <- <-. split; [|done]. exists (done_ ++ [l]), rest1.
    unfold unpaired_books, rejections_cover. simpl.
    rewrite E1, E2, (incr_no_wrap tr), (incr_no_wrap ts) by lia.
    split_all; try done; lia. }
  destruct (sample_edit_dist >? maxdist flags).
  { injection Hrun as <- <-. split; [|done]. exists (done_ ++ [l]), rest1.
    unfold unpaired_books, rejections_cover. simpl.
    rewrite E1, E2, (incr_no_wrap tr), (incr_no_wrap td) by lia.
    split_all; try done; lia. }
  apply bind_Returned in Hrun as (read & _ & Hrun).
  apply bind_Returned in Hrun as (is_ercc & _ & Hrun).
  destruct is_ercc.
  { injection Hrun as <- <-. split; [|done]. exists (done_ ++ [l]), rest1.
    unfold unpaired_books, rejections_cover. simpl.
    rewrite E1, E2, (incr_no_wrap tr), (incr_no_wrap er) by lia.
    split_all; try done; lia. }
  apply bind_Returned in Hrun as ([st' w] & Hcheck & Hrun).
  apply (check_sources_counts _ _ _ _ _ Hsized1 Hclear) in Hcheck
    as (Hsized' & Hcounts & Hwit).
  rewrite E1, E2 in Hcounts. rewrite E2 in Hwit.
  assert (length (reads_filtered src) = length (reads_filtered st')) as Hlenf.
  { destruct Hsized as (_ & _ & -> & _). by destruct Hsized' as (_ & _ & -> & _). }
  assert (forall (c : nat) (nr' : Z),
            reads_filtered st' !! c = Some nr' ->
            exists nf nf' nr : Z,
              reads_found src !! c = Some nf /\ reads_filtered src !! c = Some nr /\
              reads_found st' !! c = Some nf' /\
              (0 <= nr /\ nr <= nf /\ nf <= co) /\
              ((nf' = nf /\ nr' = nr) \/ (nf' = nf + 1 /\ nr' = nr) \/
               (nf' = nf + 1 /\ nr' = nr + 1 /\ w = true))) as Hpoint.
  { intros c nr' Hnr'.
    destruct (lookup_lt_is_Some_2 (reads_found st') c) as [nf' Hnf'].
    { apply lookup_lt_Some in Hnr'.
      destruct Hsized' as (_ & -> & Hf & _). by rewrite <- Hf. }
    destruct (Hcounts c nf' nr' Hnf' Hnr') as (nf & nr & Hnf & Hnr & Hcase).
    pose proof (B8 c nf nr Hnf Hnr) as Hb.
    exists nf, nf', nr. split_all; try done; try lia.
    rewrite !incr_no_wrap in Hcase by lia. exact Hcase. }
  assert (forall (c : nat) (x x' : Z),
            reads_filtered src !! c = Some x -> reads_filtered st' !! c = Some x' ->
            x <= x') as Hmono.
  { intros c x x' Hx Hx'.
    destruct (Hpoint c x' Hx') as (nf & nf' & nr & _ & Hnr & _ & _ & Hcase).
    rewrite Hx in Hnr. injection Hnr as <-. lia. }
  assert (forall (c : nat) (nf' nr' : Z),
            reads_found st' !! c = Some nf' -> reads_filtered st' !! c = Some nr' ->
            0 <= nr' /\ nr' <= nf' /\ nf' <= co + 1) as Hsrc'.
  { intros c nf' nr' Hnf' Hnr'.
    destruct (Hpoint c nr' Hnr') as (nf & nf1 & nr & _ & _ & Hnf1 & Hb & Hcase).
    rewrite Hnf' in Hnf1. injection Hnf1 as <-. lia. }
  destruct w; simpl in Hrun.
  - injection Hrun as <- <-. split; [|done]. exists (done_ ++ [l]), rest1.
    unfold unpaired_books, rejections_cover. simpl.
    rewrite (incr_no_wrap tr), (incr_no_wrap co) by lia.
    split_all; try done; try lia.
    + intros c nr' Hnr'.
      destruct (Hpoint c nr' Hnr') as (nf & nf' & nr & _ & Hnr & _ & _ & Hcase).
      specialize (B9 c nr Hnr). lia.
    + destruct (Hwit eq_refl) as (c & nr & Hnr & Hnr').
      assert (sum_counts (reads_filtered src) + 1 <= sum_counts (reads_filtered st'));
        [|lia].
      apply (sum_counts_lt _ _ c nr); try done.
      rewrite Hnr'. f_equal.
      destruct (Hpoint c _ Hnr') as (nf & nf' & nr0 & _ & Hnr0 & _ & Hb & _).
      rewrite Hnr in Hnr0. injection Hnr0 as <-. apply incr_no_wrap; lia.
  - assert (forall (c : nat) (nr' : Z),
              reads_filtered st' !! c = Some nr' -> nr' <= co - rk) as Hsame.
    { intros c nr' Hnr'.
      destruct (Hpoint c nr' Hnr') as (nf & nf' & nr & _ & Hnr & _ & _ & Hcase).
      specialize (B9 c nr Hnr). destruct Hcase as [?|[?|(_ & _ & ?)]]; [lia|lia|done]. }
    assert (sum_counts (reads_filtered src) <= sum_counts (reads_filtered st'))
      as Hsum by (by apply sum_counts_le).
    unfold Fprintf in Hrun. simpl in Hrun.
    destruct (room out) as [[|n]|]; simpl in Hrun; injection Hrun as <- <-.
    + unfold unpaired_end, unpaired_books, rejections_cover. simpl.
      rewrite (incr_no_wrap tr), (incr_no_wrap co) by lia.
      split_all; try done.
      left. split_all; try done; try lia.
      intros c nr' Hnr'. specialize (Hsame c nr' Hnr'). lia.
    + split; [|done]. exists (done_ ++ [l]), rest1.
      unfold unpaired_books, rejections_cover. simpl.
      rewrite (incr_no_wrap tr), (incr_no_wrap co), (incr_no_wrap rk) by lia.
      rewrite map_app, output_line_fields_of. simpl.
      split_all; try done; try lia.
      * rewrite length_app. simpl. lia.
      * intros c nr' Hnr'. specialize (Hsame c nr' Hnr'). lia.
      * by apply sublist_app.
    + split; [|done]. exists (done_ ++ [l]), rest1.
      unfold unpaired_books, rejections_cover. simpl.
      rewrite (incr_no_wrap tr), (incr_no_wrap co), (incr_no_wrap rk) by lia.
      rewrite map_app, output_line_fields_of. simpl.
      split_all; try done; try lia.
      * rewrite length_app. simpl. lia.
      * intros c nr' Hnr'. specialize (Hsame c nr' Hnr'). lia.
      * by apply sublist_app.
Qed.

Lemma get_not_Timeout {A : Type} (l : list A) (c : nat) : get l c <> Timeout.
Proof. unfold get. case_match; discriminate. Qed.

Lemma put_not_Timeout {A : Type} (l : list A) (c : nat) (v : A) : put l c v <> Timeout.
Proof. unfold put. case_match; discriminate. Qed.

Lemma find_alignment_not_Timeout (c : nat) (read : string) (s : float) (st : Sources)
    (w : bool) :
  find_alignment c read s st w <> Timeout.
Proof.
  unfold find_alignment.
  apply bind_not_Timeout; [apply get_not_Timeout|]. intros sc _.
  apply bind_not_Timeout; [apply Find_terminates|]. intros [r sc'] _.
  destruct r as [[mate|]|err]; try discriminate.
  apply bind_not_Timeout.
  { unfold mark_found. apply bind_not_Timeout; [apply get_not_Timeout|]. intros f _.
    destruct f; simpl; [discriminate|].
    apply bind_not_Timeout; [apply put_not_Timeout|]. intros found' _.
    apply bind_not_Timeout; [apply get_not_Timeout|]. intros n _.
    apply bind_not_Timeout; [apply put_not_Timeout|]. discriminate. }
  intros st1 _. apply bind_not_Timeout; [apply extract_not_Timeout|].
  intros [[l d]|err] _; [|discriminate].
  destruct (_ && _); [|discriminate].
  unfold mark_rejected. apply bind_not_Timeout; [apply get_not_Timeout|]. intros r _.
  destruct r; simpl; [discriminate|].
  apply bind_not_Timeout; [apply get_not_Timeout|]. intros n _.
  apply bind_not_Timeout; [apply put_not_Timeout|]. intros filtered' _.
  apply bind_not_Timeout; [apply put_not_Timeout|]. discriminate.
Qed.

Lemma check_sources_not_Timeout (read : string) (s : float) (todo : list nat) :
  forall (st : Sources) (w : bool), check_sources todo read s st w <> Timeout.
Proof.
  induction todo as [|c todo IH]; intros st w; simpl; [discriminate|].
  apply bind_not_Timeout; [apply find_alignment_not_Timeout|]. intros [st1 w1] _.
  apply bind_not_Timeout; [apply find_alignment_not_Timeout|]. intros [st2 w2] _.
  apply IH.
Qed.

Lemma unpaired_turn_not_Timeout (e : Engine) :
  sized (sources e) -> unpaired_turn e <> Timeout.
Proof.
  intros Hsized. unfold unpaired_turn.
  destruct (reset_flags_all _ Hsized) as (st1 & -> & _). simpl.
  apply bind_not_Timeout; [apply Record_not_Timeout|].
  intros [r sc] _. destruct r as [row|err]; [|discriminate].
  destruct (Closed sc); [discriminate|].
  destruct (_ && _); [discriminate|].
  apply bind_not_Timeout; [apply extract_not_Timeout|].
  intros [[len1 dist1]|err] _; [|discriminate].
  destruct (len1 <? _); [discriminate|]. destruct (dist1 >? _); [discriminate|].
  apply bind_not_Timeout; [apply index_not_Timeout|]. intros read _.
  apply bind_not_Timeout.
  { unfold is_ercc_record. destruct (filterErcc flags); [|discriminate].
    apply bind_not_Timeout; [apply index_not_Timeout|]. discriminate. }
  intros is_ercc _. destruct is_ercc; [discriminate|].
  apply bind_not_Timeout; [apply check_sources_not_Timeout|].
  intros [st' w] _. destruct w; simpl; [discriminate|].
  destruct (Fprintf _ _) as [[|] w']; discriminate.
Qed.

(** The loop for unpaired reads comes to an end within the lines of the
    sample, and ends as [unpaired_end] says. *)
Lemma unpaired_loop_end (lines : list string) (fuel : nat) :
  Z.of_nat (length lines) <= max_int ->
  forall e : Engine,
    unpaired_head lines e -> (remaining (sample e) < fuel)%nat ->
    unpaired_loop fuel e <> Timeout /\
    forall (err : option error) (e' : Engine),
      unpaired_loop fuel e = Returned (err, e') -> unpaired_end lines err e'.
Proof.
  intros Hn. induction fuel as [|fuel IH]; intros e Hhead Hfuel; [lia|]. simpl.
  assert (sized (sources e)) as Hsized.
  { by destruct Hhead as (done_ & rest & _ & _ & _ & H & _). }
  split.
  - apply bind_not_Timeout; [by apply unpaired_turn_not_Timeout|].
    intros [ctl e1] Hturn. destruct ctl as [|err1]; [|discriminate].
    apply (unpaired_turn_step lines _ _ _ Hn Hhead) in Hturn as [Hhead1 Hless].
    apply IH; [done|lia].
  - intros err e' Hrun. apply bind_Returned in Hrun as ([ctl e1] & Hturn & Hrun).
    apply (unpaired_turn_step lines _ _ _ Hn Hhead) in Hturn.
    destruct ctl as [|err1].
    + destruct Hturn as [Hhead1 Hless]. apply (IH e1); [done|lia|done].
    + by injection Hrun as <- <-.
Qed.

Lemma unpaired_head_start (sample_input : Scanner) (pipe : option nat) :
  unpaired_head (tokens sample_input) (start sample_input pipe).
Proof.
  exists [], (tokens sample_input). unfold unpaired_books, rejections_cover. simpl.
  split_all; try done; try lia.
  - unfold sized. simpl. by rewrite length_map, !length_replicate.
  - intros c nf nr Hnf Hnr. apply lookup_replicate in Hnf as [-> _].
    apply lookup_replicate in Hnr as [-> _]. lia.
  - intros c nr Hnr. apply lookup_replicate in Hnr as [-> _]. lia.
  - induction (length contamination); simpl; [lia|]. unfold sum_counts in *. simpl. lia.
Qed.

Lemma unpaired_run_end (sample_input : Scanner) (pipe : option nat) :
  Z.of_nat (length (tokens sample_input)) <= max_int ->
  unpaired_run (start sample_input pipe) <> Timeout /\
  forall (err : option error) (e' : Engine),
    unpaired_run (start sample_input pipe) = Returned (err, e') ->
    unpaired_end (tokens sample_input) err e'.
Proof.
  intros Hn. apply unpaired_loop_end; [done|apply unpaired_head_start|lia].
Qed.

(** X20.  The counters of the loop for unpaired reads.  On a sample of
    no more lines than an [int] can count the loop comes to an end.  When
    it ends without an error, the reads are the sum of the reads too
    short, too diverged, excluded as ERCC and considered; after an error
    they are that sum or one more.  The reads kept are at most the reads
    considered, and for every source the reads rejected are at most the
    reads found, which are at most the reads considered. *)
Theorem unpaired_counters_tally (sample_input : Scanner) (pipe : option nat) :
  Z.of_nat (length (tokens sample_input)) <= max_int ->
  unpaired_run (start sample_input pipe) <> Timeout /\
  forall (err : option error) (e' : Engine),
    unpaired_run (start sample_input pipe) = Returned (err, e') ->
    let k := counters e' in
    (err = None ->
     total_reads k = too_short k + too_diverged k + ercc k + considered k) /\
    (total_reads k = too_short k + too_diverged k + ercc k + considered k \/
     total_reads k = too_short k + too_diverged k + ercc k + considered k + 1) /\
    0 <= reads_kept k <= considered k /\
    forall (c : nat) (nf nr : Z),
      reads_found (sources e') !! c = Some nf ->
      reads_filtered (sources e') !! c = Some nr ->
      0 <= nr <= nf /\ nf <= considered k.
Proof.
  intros Hn. destruct (unpaired_run_end sample_input pipe Hn) as [Hstop Hend].
  split; [done|]. intros err e' Hrun. cbv zeta.
  destruct (Hend err e' Hrun) as (Hbooks & _).
  unfold unpaired_books in Hbooks. cbv zeta in Hbooks.
  destruct Hbooks as [H|[Herr H]];
    destruct H as (B1 & (B2 & B3 & B4) & (B5 & B6) & B7 & B8 & B9);
    split_all; try done; try lia.
  all: intros c nf nr Hnf Hnr; specialize (B8 c nf nr Hnf Hnr); lia.
Qed.

(** X21.  What the loop for unpaired reads writes.  Every read that is
    kept is written as one line: the reads kept are the lines written,
    and the lines written are lines of the sample, white space trimmed
    and a newline appended, in the order of the sample. *)
Theorem unpaired_output (sample_input : Scanner) (pipe : option nat)
    (err : option error) (e' : Engine) :
  Z.of_nat (length (tokens sample_input)) <= max_int ->
  unpaired_run (start sample_input pipe) = Returned (err, e') ->
  reads_kept (counters e') = Z.of_nat (length (written (outfp e'))) /\
  sublist (written (outfp e')) (map kept_line (tokens sample_input)).
Proof.
  intros Hn Hrun. destruct (unpaired_run_end sample_input pipe Hn) as [_ Hend].
  destruct (Hend err e' Hrun) as (Hbooks & _ & Hsub & _).
  split; [|done]. unfold unpaired_books in Hbooks.
  by destruct Hbooks as [H|[_ H]]; destruct H as (_ & _ & _ & B7 & _).
Qed.

(** X22.  Every line is a read.  When the loop for unpaired reads ends
    without an error, then either the sample is at its end and the reads
    counted are the lines of the sample, or the limit is positive and
    reached: the reads counted are the limit, and one more line of the
    sample has been read than reads were counted, the record that was
    read before the limit was tested. *)
Theorem unpaired_reads_are_lines (sample_input : Scanner) (pipe : option nat)
    (e' : Engine) :
  Z.of_nat (length (tokens sample_input)) <= max_int ->
  unpaired_run (start sample_input pipe) = Returned (None, e') ->
  let k := counters e' in
  (Closed (sample e') = true /\
   total_reads k = Z.of_nat (length (tokens sample_input))) \/
  (Closed (sample e') = false /\ 0 < limit flags /\ total_reads k = limit flags /\
   Z.of_nat (remaining (sample e')) + total_reads k + 1
   = Z.of_nat (length (tokens sample_input))).
Proof.
  intros Hn Hrun. destruct (unpaired_run_end sample_input pipe Hn) as [_ Hend].
  destruct (Hend None e' Hrun) as (_ & _ & _ & H). by apply H.
Qed.

(** X23.  The reads that the sources reject, in the loop for unpaired
    reads.  No source has rejected more reads than were considered and
    not kept; and unless the loop ends on a failed write, every read
    considered and not kept was rejected by a source. *)
Theorem unpaired_rejections (sample_input : Scanner) (pipe : option nat)
    (err : option error) (e' : Engine) :
  Z.of_nat (length (tokens sample_input)) <= max_int ->
  unpaired_run (start sample_input pipe) = Returned (err, e') ->
  let k := counters e' in
  (forall (c : nat) (nr : Z),
      reads_filtered (sources e') !! c = Some nr -> nr <= considered k - reads_kept k) /\
  (err <> Some ErrWrite ->
   considered k - reads_kept k <= sum_counts (reads_filtered (sources e'))).
Proof.
  intros Hn Hrun. destruct (unpaired_run_end sample_input pipe Hn) as [_ Hend].
  destruct (Hend err e' Hrun) as (Hbooks & Hcover & _).
  split; [|exact Hcover]. unfold unpaired_books in Hbooks.
  by destruct Hbooks as [H|[_ H]]; destruct H as (_ & _ & _ & _ & _ & B9).
Qed.

(** *** The comparator on identifiers that differ in a number *)

Lemma digit_run_split (R : list rune) :
  off_digit_last R -> R <> [] ->
  exists (D : list rune) (c : rune) (R2 : list rune),
    R = D ++ c :: R2 /\ Forall (fun r => IsDigit r = true) D /\ IsDigit c = false.
Proof.
  unfold off_digit_last. induction R as [|r R IH]; intros Hoff Hne; [done|].
  destruct (IsDigit r) eqn:Hr.
  - rewrite last_cons in Hoff. destruct R as [|r1 R1]; [simpl in Hoff; congruence|].
    destruct (last (r1 :: R1)) as [y|] eqn:Hlast; [|by apply last_None in Hlast].
    destruct IH as (D & c & R2 & E & HD & Hc); [done|done|].
    exists (r :: D), c, R2. rewrite E. split; [done|]. split; [by constructor|done].
  - exists [], r, R. by split_all.
Qed.

Lemma skip_equal_shared (D : list rune) :
  forall (c : rune) (X Y : list rune) (i : nat),
    Forall (fun r => IsDigit r = true) D -> IsDigit c = false ->
    skip_equal_digits (D ++ c :: X) (D ++ c :: Y) i i
    = ((i + length D)%nat, (i + length D)%nat).
Proof.
  induction D as [|d D IH]; intros c X Y i HD Hc; simpl.
  - rewrite Hc. simpl. by rewrite Nat.add_0_r.
  - apply Forall_cons_1 in HD as [Hd HD]. rewrite Hd, Z.eqb_refl. simpl.
    rewrite (IH c X Y (S i) HD Hc). f_equal; lia.
Qed.

Lemma IsDigit_zero : IsDigit 48 = true.
Proof. reflexivity. Qed.

(** The comparator walks a prefix that the two identifiers share and
    that does not end in a digit: a character or a run of digits at a
    time. *)
Lemma strnum_loop_shared_prefix (X Y : list rune) (n : nat) :
  forall Pre R : list rune,
    (length R <= n)%nat -> off_digit_last R ->
    exists d : nat,
      (d <= length R)%nat /\
      forall fuel : nat,
        strnum_loop (d + fuel) (Pre ++ R ++ X) (Pre ++ R ++ Y) (length Pre) (length Pre)
        = strnum_loop fuel (Pre ++ R ++ X) (Pre ++ R ++ Y)
            (length (Pre ++ R)) (length (Pre ++ R)).
Proof.
  induction n as [|n IH]; intros Pre R Hlen Hoff.
  { destruct R; [|simpl in Hlen; lia]. exists 0%nat. split; [done|]. intros fuel.
    by rewrite app_nil_r. }
  destruct R as [|r R1].
  { exists 0%nat. split; [done|]. intros fuel. by rewrite app_nil_r. }
  destruct (IsDigit r) eqn:Hr.
  - destruct (digit_run_split (r :: R1) Hoff) as (D & c & R2 & E & HD & Hc); [done|].
    assert (D <> []) as HDne.
    { intros ->. simpl in E. injection E as -> _. congruence. }
    assert (length (r :: R1) = (length D + S (length R2))%nat) as HlenR.
    { rewrite E, length_app. done. }
    assert (0 < length D)%nat as HDpos by (destruct D; [done|simpl; lia]).
    destruct (IH (Pre ++ D) (c :: R2)) as (d1 & Hd1 & Hwalk).
    { simpl in *. lia. }
    { unfold off_digit_last in *. by rewrite E, last_app_cons in Hoff. }
    exists (S d1). split; [simpl in *; lia|]. intros fuel.
    rewrite E. specialize (Hwalk fuel).
    assert (forall Z0 : list rune,
              (Pre ++ D) ++ (c :: R2) ++ Z0 = Pre ++ (D ++ c :: R2) ++ Z0) as Ea.
    { intros Z0. by rewrite <- !app_assoc. }
    assert ((Pre ++ D) ++ c :: R2 = Pre ++ D ++ c :: R2) as El
      by (by rewrite <- app_assoc).
    rewrite !Ea, El in Hwalk. rewrite <- Hwalk. clear Hwalk.
    set (a := Pre ++ (D ++ c :: R2) ++ X). set (b := Pre ++ (D ++ c :: R2) ++ Y).
    destruct (zeros_split D) as (z & D2 & ED & HhD).
    assert (Forall (fun r => IsDigit r = true) D2) as HD2.
    { rewrite ED in HD. by apply Forall_app in HD as [_ ?]. }
    assert (length (Pre ++ D) = (length Pre + z + length D2)%nat) as HlenD.
    { rewrite ED, !length_app, length_replicate. unfold rune. lia. }
    assert (forall Z0 : list rune,
              let t := Pre ++ (D ++ c :: R2) ++ Z0 in
              t !! length Pre = Some r /\
              skip_zeros (drop (length Pre) t) (length Pre) = (length Pre + z)%nat /\
              drop (length Pre + z) t = D2 ++ c :: R2 ++ Z0 /\
              digit_at t (length (Pre ++ D)) = false) as Hfacts.
    { intros Z0 t. unfold t. split_all.
      - rewrite lookup_app_r by lia. rewrite Nat.sub_diag, <- E. done.
      - rewrite drop_app_length, ED, <- !app_assoc. apply skip_zeros_run.
        destruct D2 as [|d2 D2']; [|done]. simpl. intros [= ->].
        by rewrite IsDigit_zero in Hc.
      - replace (Pre ++ (D ++ c :: R2) ++ Z0)
          with ((Pre ++ replicate z 48) ++ D2 ++ c :: R2 ++ Z0)
          by (by rewrite ED, <- !app_assoc).
        apply drop_app_length'. by rewrite length_app, length_replicate.
      - unfold digit_at.
        replace (Pre ++ (D ++ c :: R2) ++ Z0) with ((Pre ++ D) ++ c :: R2 ++ Z0)
          by (by rewrite <- !app_assoc).
        rewrite (list_lookup_middle (Pre ++ D) (R2 ++ Z0) c) by done. exact Hc. }
    destruct (Hfacts X) as (Ha1 & Ha2 & Ha3 & Ha4).
    destruct (Hfacts Y) as (Hb1 & Hb2 & Hb3 & Hb4).
    fold a in Ha1, Ha2, Ha3, Ha4. fold b in Hb1, Hb2, Hb3, Hb4.
    change (S d1 + fuel)%nat with (S (d1 + fuel)).
    cbn [strnum_loop]. rewrite Ha1, Hb1, Hr. cbn [andb].
    rewrite Ha2, Hb2, Ha3, Hb3.
    rewrite (skip_equal_shared D2 c _ _ _ HD2 Hc).
    rewrite <- HlenD. rewrite Ha4, Hb4.
    simpl. rewrite Nat.eqb_refl. simpl. reflexivity.
  - destruct (IH (Pre ++ [r]) R1) as (d1 & Hd1 & Hwalk).
    { simpl in *. lia. }
    { unfold off_digit_last in *. rewrite last_cons in Hoff.
      destruct (last R1); done. }
    exists (S d1). split; [simpl in *; lia|]. intros fuel.
    specialize (Hwalk fuel).
    assert (forall Z0 : list rune,
              (Pre ++ [r]) ++ R1 ++ Z0 = Pre ++ (r :: R1) ++ Z0) as Ea.
    { intros Z0. by rewrite <- !app_assoc. }
    assert ((Pre ++ [r]) ++ R1 = Pre ++ r :: R1) as El by (by rewrite <- app_assoc).
    rewrite !Ea, El in Hwalk. rewrite <- Hwalk. clear Hwalk.
    change (S d1 + fuel)%nat with (S (d1 + fuel)). simpl.
    rewrite !(list_lookup_middle Pre _ r) by done. rewrite Hr. simpl.
    rewrite Z.eqb_refl. simpl. rewrite length_app. simpl.
    by rewrite Nat.add_1_r.
Qed.

Lemma skip_equal_run_then (xs : list rune) :
  forall (ys qa qb : list rune) (i j : nat),
    Forall digit_rune xs -> Forall digit_rune ys ->
    digit_at qa 0 = false -> digit_at qb 0 = false ->
    exists c rx ry : list rune,
      xs = c ++ rx /\ ys = c ++ ry /\
      skip_equal_digits (xs ++ qa) (ys ++ qb) i j
      = ((i + length c)%nat, (j + length c)%nat) /\
      (forall u w, head rx = Some u -> head ry = Some w -> u <> w).
Proof.
  induction xs as [|x xs IH]; intros ys qa qb i j Hx Hy Hqa Hqb.
  - exists [], [], ys. rewrite !Nat.add_0_r. split_all; try done.
    destruct qa as [|q qa]; simpl; [done|].
    unfold digit_at in Hqa. simpl in Hqa. rewrite Hqa. simpl. by destruct (ys ++ qb).
  - destruct ys as [|y ys].
    + exists [], (x :: xs), []. rewrite !Nat.add_0_r. split_all; try done.
      destruct qb as [|q qb]; simpl; [done|].
      unfold digit_at in Hqb. simpl in Hqb. by rewrite Hqb, andb_false_r.
    + apply Forall_cons_1 in Hx as [Hdx Hx]. apply Forall_cons_1 in Hy as [Hdy Hy].
      simpl. rewrite !digit_rune_IsDigit by done. simpl.
      destruct (Z.eqb_spec x y) as [->|Hne].
      * destruct (IH ys qa qb (S i) (S j) Hx Hy Hqa Hqb)
          as (c & rx & ry & -> & -> & -> & Hd).
        exists (y :: c), rx, ry. simpl. repeat split; [f_equal; lia|done].
      * exists [], (x :: xs), (y :: ys). simpl. rewrite !Nat.add_0_r.
        repeat split. intros u w [= <-] [= <-]. done.
Qed.

Lemma common_digits_run_then (xs : list rune) :
  forall (ys qa qb : list rune) (k : nat),
    Forall digit_rune xs -> Forall digit_rune ys ->
    digit_at qa 0 = false -> digit_at qb 0 = false ->
    common_digits (xs ++ qa) (ys ++ qb) k = (k + Nat.min (length xs) (length ys))%nat.
Proof.
  induction xs as [|x xs IH]; intros ys qa qb k Hx Hy Hqa Hqb.
  - simpl. rewrite Nat.add_0_r. destruct qa as [|q qa]; simpl; [done|].
    unfold digit_at in Hqa. simpl in Hqa. rewrite Hqa. by destruct (ys ++ qb).
  - destruct ys as [|y ys].
    + simpl. rewrite Nat.add_0_r. destruct qb as [|q qb]; simpl; [done|].
      unfold digit_at in Hqb. simpl in Hqb. by rewrite Hqb, andb_false_r.
    + apply Forall_cons_1 in Hx as [Hdx Hx]. apply Forall_cons_1 in Hy as [Hdy Hy].
      simpl. rewrite !digit_rune_IsDigit by done. simpl.
      rewrite (IH ys qa qb (S k) Hx Hy Hqa Hqb). lia.
Qed.

Lemma digit_at_run_then (ds q : list rune) (m : nat) :
  Forall digit_rune ds -> digit_at q 0 = false -> (m <= length ds)%nat ->
  digit_at (ds ++ q) m = bool_decide (m < length ds)%nat.
Proof.
  intros Hds Hq Hm. destruct (decide (m < length ds)%nat) as [Hlt|Hge].
  - rewrite bool_decide_eq_true_2 by done. unfold digit_at.
    destruct (lookup_lt_is_Some_2 ds m Hlt) as [r Hr].
    rewrite (lookup_app_l_Some _ _ _ _ Hr). apply digit_rune_IsDigit.
    by eapply Forall_lookup_1.
  - rewrite bool_decide_eq_false_2 by done.
    replace m with (length ds + 0)%nat by lia. by rewrite digit_at_app.
Qed.

(** The comparator where two identifiers, equal so far, go on with two
    different numbers, whatever follows the numbers. *)
Lemma strnum_loop_numbers_then (fuel : nat) (P A B QA QB : list rune) :
  Forall digit_rune A -> Forall digit_rune B -> A <> [] -> B <> [] ->
  num A <= max_int -> num B <= max_int ->
  digit_at QA 0 = false -> digit_at QB 0 = false -> A <> B ->
  exists v : Z,
    strnum_loop (S fuel) (P ++ A ++ QA) (P ++ B ++ QB) (length P) (length P)
    = Returned v /\
    (num A < num B -> v < 0) /\ (num B < num A -> 0 < v) /\
    (num A = num B ->
     ((length A < length B)%nat -> 0 < v) /\ ((length B < length A)%nat -> v < 0)).
Proof.
  intros HA HB HAne HBne HfitA HfitB HQA HQB Hneq.
  assert (forall X : list rune, (P ++ X) !! length P = X !! 0%nat) as Hhead.
  { intros X. rewrite lookup_app_r by lia. by rewrite Nat.sub_diag. }
  destruct (A !! 0%nat) as [a0|] eqn:Ha0; [|by destruct A].
  destruct (B !! 0%nat) as [b0|] eqn:Hb0; [|by destruct B].
  simpl. rewrite !Hhead, (lookup_app_l_Some _ _ _ _ Ha0), (lookup_app_l_Some _ _ _ _ Hb0).
  rewrite (digit_rune_IsDigit a0 (Forall_lookup_1 _ _ _ _ HA Ha0)).
  rewrite (digit_rune_IsDigit b0 (Forall_lookup_1 _ _ _ _ HB Hb0)).
  simpl. rewrite !drop_app_length.
  destruct (zeros_split A) as (za & SA & EA & HhA).
  destruct (zeros_split B) as (zb & SB & EB & HhB).
  assert (forall (S0 Q : list rune),
            head S0 <> Some 48 -> digit_at Q 0 = false -> head (S0 ++ Q) <> Some 48)
    as Hnz.
  { intros S0 Q HS HQ. destruct S0 as [|s0 S0]; [|done]. simpl.
    destruct Q as [|q Q]; [done|]. simpl. intros [= ->].
    unfold digit_at in HQ. simpl in HQ. by rewrite IsDigit_zero in HQ. }
  assert (skip_zeros (A ++ QA) (length P) = (length P + za)%nat) as ->.
  { rewrite EA, <- app_assoc. apply skip_zeros_run. by apply Hnz. }
  assert (skip_zeros (B ++ QB) (length P) = (length P + zb)%nat) as ->.
  { rewrite EB, <- app_assoc. apply skip_zeros_run. by apply Hnz. }
  assert (Forall digit_rune SA) as HSA by (rewrite EA in HA; by apply Forall_app in HA as [_ ?]).
  assert (Forall digit_rune SB) as HSB by (rewrite EB in HB; by apply Forall_app in HB as [_ ?]).
  assert (drop (length P + za) (P ++ A ++ QA) = SA ++ QA) as ->.
  { replace (P ++ A ++ QA) with ((P ++ replicate za 48) ++ SA ++ QA)
      by (by rewrite EA, <- !app_assoc).
    apply drop_app_length'. by rewrite length_app, length_replicate. }
  assert (drop (length P + zb) (P ++ B ++ QB) = SB ++ QB) as ->.
  { replace (P ++ B ++ QB) with ((P ++ replicate zb 48) ++ SB ++ QB)
      by (by rewrite EB, <- !app_assoc).
    apply drop_app_length'. by rewrite length_app, length_replicate. }
  destruct (skip_equal_run_then SA SB QA QB (length P + za) (length P + zb)
              HSA HSB HQA HQB)
    as (C & RA & RB & ESA & ESB & -> & Hdiff).
  set (i := (length P + za + length C)%nat). set (j := (length P + zb + length C)%nat).
  assert (Forall digit_rune C /\ Forall digit_rune RA) as [HC HRA]
    by (rewrite ESA in HSA; by apply Forall_app in HSA).
  assert (Forall digit_rune RB) as HRB
    by (rewrite ESB in HSB; by apply Forall_app in HSB as [_ ?]).
  assert (exists XA, P ++ A ++ QA = XA ++ RA ++ QA /\ length XA = i) as (XA & EXA & HXA).
  { exists (P ++ replicate za 48 ++ C). rewrite EA, ESA, <- !app_assoc. split; [done|].
    rewrite !length_app, length_replicate. unfold i. unfold rune in *. lia. }
  assert (exists XB, P ++ B ++ QB = XB ++ RB ++ QB /\ length XB = j) as (XB & EXB & HXB).
  { exists (P ++ replicate zb 48 ++ C). rewrite EB, ESB, <- !app_assoc. split; [done|].
    rewrite !length_app, length_replicate. unfold j. unfold rune in *. lia. }
  assert (forall m, (m <= length RA)%nat ->
            digit_at (P ++ A ++ QA) (i + m) = bool_decide (m < length RA)%nat) as HdA.
  { intros m Hm. rewrite EXA, <- HXA, digit_at_app. by apply digit_at_run_then. }
  assert (forall m, (m <= length RB)%nat ->
            digit_at (P ++ B ++ QB) (j + m) = bool_decide (m < length RB)%nat) as HdB.
  { intros m Hm. rewrite EXB, <- HXB, digit_at_app. by apply digit_at_run_then. }
  pose proof (HdA 0%nat ltac:(lia)) as HdA0. pose proof (HdB 0%nat ltac:(lia)) as HdB0.
  rewrite Nat.add_0_r in HdA0, HdB0.
  assert (drop i (P ++ A ++ QA) = RA ++ QA) as HdropA
    by (rewrite EXA; by apply drop_app_length').
  assert (drop j (P ++ B ++ QB) = RB ++ QB) as HdropB
    by (rewrite EXB; by apply drop_app_length').
  assert (num A = num C * 10 ^ Z.of_nat (length RA) + num RA) as NA
    by (by rewrite EA, num_zeros, ESA, num_app).
  assert (num B = num C * 10 ^ Z.of_nat (length RB) + num RB) as NB
    by (by rewrite EB, num_zeros, ESB, num_app).
  assert (length A = (za + length C + length RA)%nat) as LA
    by (rewrite EA, ESA, !length_app, length_replicate; unfold rune in *; lia).
  assert (length B = (zb + length C + length RB)%nat) as LB
    by (rewrite EB, ESB, !length_app, length_replicate; unfold rune in *; lia).
  pose proof (num_bounds C HC) as [HC0 _].
  pose proof (num_bounds RA HRA) as [HRA0 HRA1].
  pose proof (num_bounds RB HRB) as [HRB0 HRB1].
  assert ((length SB < length SA)%nat -> num B < num A) as Hlonger.
  { intros Hlen. rewrite EA, EB, !num_zeros. by apply num_longer. }
  assert ((length SA < length SB)%nat -> num A < num B) as Hshorter.
  { intros Hlen. rewrite EA, EB, !num_zeros. by apply num_longer. }
  rewrite ESA, ESB, !length_app in Hlonger, Hshorter.
  cbv beta iota. rewrite HdA0, HdB0, HdropA, HdropB.
  rewrite (common_digits_run_then RA RB QA QB 0 HRA HRB HQA HQB). simpl (0 + _)%nat.
  rewrite HdA, HdB by lia.
  repeat case_bool_decide; simpl; try (exfalso; lia).
  all: try (eexists; split; [reflexivity|lia]).
  - assert (length RA = length RB) as Hlen by lia.
    assert (slice (P ++ A ++ QA) i (i + length RA `min` length RB) = RA) as ->.
    { unfold slice. rewrite HdropA. apply take_app_length'. lia. }
    assert (slice (P ++ B ++ QB) j (j + length RA `min` length RB) = RB) as ->.
    { unfold slice. rewrite HdropB. apply take_app_length'. lia. }
    assert (0 < 10 ^ Z.of_nat (length RA)) as Hpow by (apply Z.pow_pos_nonneg; lia).
    rewrite <- Hlen in NB, HRB1.
    rewrite !digitToInt_digit_runes; try done; try nia.
    2-3: intros ->; simpl in *; lia.
    simpl. eexists. split; [reflexivity|].
    rewrite wrap64_small by (unfold min_int, max_int, intSize in *; simpl in *; nia).
    split; [nia|]. split; [nia|]. intros Heq. exfalso.
    assert (RA = RB) as E by (apply num_inj; try done; nia).
    rewrite <- E in Hdiff. destruct RA as [|u RA]; [simpl in *; lia|].
    exact (Hdiff u u eq_refl eq_refl eq_refl).
  - assert (RA = []) as -> by (apply nil_length_inv; lia).
    assert (RB = []) as -> by (apply nil_length_inv; lia).
    rewrite app_nil_r in *. subst SA SB. simpl in *.
    destruct (Nat.eqb_spec i j) as [Hij|Hij]; simpl.
    + exfalso. apply Hneq. assert (za = zb) as -> by (unfold i, j in Hij; lia).
      by rewrite EA, EB.
    + unfold i, j in *.
      destruct (Nat.ltb_spec (length P + za + length C) (length P + zb + length C));
        (eexists; split; [reflexivity|]); lia.
Qed.

Lemma IsDigit_byte (c : ascii) : is_ascii c = true -> IsDigit (byte c) = is_ascii_digit c.
Proof.
  unfold is_ascii, IsDigit, is_ascii_digit. intros H.
  destruct (Z.leb_spec (byte c) 255); [done|lia].
Qed.

Lemma off_digit_last_bytes (s : string) :
  all_bytes is_ascii s = true -> ends_with_digit s = false ->
  off_digit_last (map byte (list_ascii_of_string s)).
Proof.
  unfold all_bytes, ends_with_digit, off_digit_last.
  induction (list_ascii_of_string s) as [|c l IH]; [done|].
  simpl forallb. intros H. apply andb_true_iff in H as [Hc Hl].
  change (map byte (c :: l)) with (byte c :: map byte l). rewrite !last_cons.
  specialize (IH Hl).
  destruct l as [|c1 l1]; [simpl; intros E; by rewrite IsDigit_byte|].
  destruct (last (c1 :: l1)) as [y|] eqn:E1; [|by apply last_None in E1].
  intros E. specialize (IH E). cbn [map] in IH |- *. unfold rune in *.
  destruct (last (byte c1 :: map byte l1)) as [r|] eqn:E2; [done|].
  by apply last_None in E2.
Qed.

Lemma off_digit_head_bytes (s : string) :
  all_bytes is_ascii s = true -> starts_with_digit s = false ->
  digit_at (map byte (list_ascii_of_string s)) 0 = false.
Proof.
  unfold all_bytes, starts_with_digit, digit_at. destruct s as [|c t]; [done|].
  simpl. intros H E. apply andb_true_iff in H as [Hc _]. by rewrite IsDigit_byte.
Qed.

(** X24.  The first number in which two identifiers differ decides.
    Let two ASCII identifiers share a prefix that does not end in a
    digit, go on with a decimal number each, both within the range of
    [int] and different in value or in length, and end with anything
    that does not start with a digit.  The comparator returns, whatever
    follows the numbers, and orders the identifiers by the value of the
    numbers; when the values are equal, the number with more leading
    zeros orders first. *)
Theorem strnum_cmp_first_number (p da db qa qb : string) (x y : Z) :
  all_bytes is_ascii p = true -> ends_with_digit p = false ->
  all_bytes is_ascii_digit da = true -> all_bytes is_ascii_digit db = true ->
  Atoi da = Some x -> Atoi db = Some y ->
  x <> y \/ String.length da <> String.length db ->
  all_bytes is_ascii qa = true -> starts_with_digit qa = false ->
  all_bytes is_ascii qb = true -> starts_with_digit qb = false ->
  exists v : Z,
    strnum_cmp (String.append p (String.append da qa))
               (String.append p (String.append db qb)) = Returned v /\
    (x < y -> v < 0) /\ (y < x -> 0 < v) /\
    (x = y ->
     ((String.length da < String.length db)%nat -> 0 < v) /\
     ((String.length db < String.length da)%nat -> v < 0)).
Proof.
  intros Hp Hpend Hda Hdb Hx Hy Hneq Hqa Hqa0 Hqb Hqb0.
  apply Atoi_digit_bytes in Hx as (Hane & -> & Hxfit); [|done].
  apply Atoi_digit_bytes in Hy as (Hbne & -> & Hyfit); [|done].
  set (P := map byte (list_ascii_of_string p)).
  set (A := map byte (list_ascii_of_string da)) in *.
  set (B := map byte (list_ascii_of_string db)) in *.
  set (QA := map byte (list_ascii_of_string qa)).
  set (QB := map byte (list_ascii_of_string qb)).
  assert (forall d q,
            all_bytes is_ascii_digit d = true -> all_bytes is_ascii q = true ->
            runes_of_string (String.append p (String.append d q))
            = P ++ map byte (list_ascii_of_string d) ++ map byte (list_ascii_of_string q))
    as Hrunes.
  { intros d q Hd Hq.
    rewrite runes_of_ascii, !list_ascii_of_string_app, !map_app; [done|].
    rewrite !all_bytes_app. apply andb_true_iff. split; [exact Hp|].
    apply andb_true_iff. split; [|exact Hq].
    revert Hd. apply all_bytes_impl. intros c Hc. apply is_ascii_digit_range in Hc.
    unfold is_ascii. lia. }
  assert (length A = String.length da) as LA
    by (unfold A; by rewrite length_map, length_list_ascii_of_string).
  assert (length B = String.length db) as LB
    by (unfold B; by rewrite length_map, length_list_ascii_of_string).
  unfold strnum_cmp. rewrite !Hrunes by done. fold A B QA QB.
  destruct (strnum_loop_shared_prefix (A ++ QA) (B ++ QB) (length P) [] P)
    as (d & Hd & Hwalk); [done|by apply off_digit_last_bytes|].
  simpl in Hwalk. unfold rune in *.
  replace (S (length (P ++ A ++ QA))) with (d + S (length (P ++ A ++ QA) - d))%nat
    by (rewrite length_app; lia).
  rewrite Hwalk. rewrite <- LA, <- LB.
  apply strnum_loop_numbers_then; try done; try (by apply digit_runes_of_bytes).
  - intros E. unfold A in E. destruct da; [done|discriminate].
  - intros E. unfold B in E. destruct db; [done|discriminate].
  - by apply off_digit_head_bytes.
  - by apply off_digit_head_bytes.
  - intros E. rewrite E in Hneq, LA. destruct Hneq as [H|H]; [done|]. lia.
Qed.

End Contfilter.

(** ** Concrete inputs

    The identifiers below are ASCII.  On ASCII [unicode.IsDigit] answers
    from the range '0'..'9' and never consults the table beyond Latin-1,
    so the table chosen here plays no part in the values computed.

    The sample is that of the scenario of the specification: two mates of
    read R1, of length 80 and edit distance 1, and one mate of read R2,
    of length 60 and edit distance 0; penalty 2, margin 1, minimum length
    60, maximum edit distance 5.  The best score of R1 is 78.  The
    contamination source maps R1 with length 77 and edit distance 0: its
    score is 77, and 78 <= 77 + 1 is a tie. *)
Definition no_digits_beyond_latin1 : rune -> bool := fun _ => false.

Definition lines_in (lines : list string) : Scanner :=
  {| tokens := lines; read_error := None |}.

Definition alignment (id : string) (length : nat) (edit_dist : string) : string :=
  sam_line
    [id; "0"; "chr1"; "1"; "255"; "M"; "*"; "0"; "0";
     string_of_list_ascii (repeat "A"%char length); "*";
     "NH:i:1"; "HI:i:1"; "AS:i:1"; String.append "nM:i:" edit_dist].

Definition demo_args : Args :=
  {| Margin := 1; MinLength := 60; MaxDist := 5; Limit := 0; Penalty := 2;
     Ercc := false |}.

Definition demo_sample : Scanner :=
  lines_in [alignment "R1" 80 "1"; alignment "R1" 80 "1"; alignment "R2" 60 "0"].

Definition demo_contamination : list Scanner :=
  [lines_in [alignment "R1" 77 "0"]].



(** The state in which the loop leaves the engine on the sample. *)
Definition demo_final : Engine :=
  Eval vm_compute in
    match run no_digits_beyond_latin1 demo_args demo_contamination
            (start demo_contamination demo_sample None) with
    | Returned (_, e) => e
    | _ => start demo_contamination demo_sample None
    end.

(** Mate1 of length 40, mate2 of length 70 and edit distance 2. *)
Definition demo_pair : Mates :=
  {| mate1 := fields_of (alignment "R3" 40 "0");
     mate2 := Some (fields_of (alignment "R3" 70 "2"));
     mate1_len := 40; mate1_edit_dist := 0;
     mate2_len := 70; mate2_edit_dist := 2 |}.

Definition short_pair : Mates :=
  {| mate1 := fields_of (alignment "R4" 40 "0");
     mate2 := Some (fields_of (alignment "R4" 50 "1"));
     mate1_len := 40; mate1_edit_dist := 0;
     mate2_len := 50; mate2_edit_dist := 1 |}.

Definition diverged_pair : Mates :=
  {| mate1 := fields_of (alignment "R5" 70 "9");
     mate2 := Some (fields_of (alignment "R5" 45 "0"));
     mate1_len := 70; mate1_edit_dist := 9;
     mate2_len := 45; mate2_edit_dist := 0 |}.

Definition demo_lines : list string :=
  [sam_line ["r1"; "a"]; sam_line ["r2"; "b"]; sam_line ["r10"; "c"]].

Definition demo_cursor : BamScanner := OpenBam (lines_in demo_lines).



(** X26 on the cursor of an empty stream. *)
Lemma end_of_stream_is_final_witness :
  let s' := {| LineNumber := 0; scanner := lines_in []; prev := "";
               record := None; Closed := true |} in
  BamScanner_Record no_digits_beyond_latin1 (OpenBam (lines_in []))
  = Returned (Val None, s') /\
  Closed s' = true /\
  BamScanner_Record no_digits_beyond_latin1 s' = Returned (Val None, s') /\
  BamScanner_Find no_digits_beyond_latin1 s' "r1" = Returned (Val None, s').
Proof.
  intros s'.
  assert (BamScanner_Record no_digits_beyond_latin1 (OpenBam (lines_in []))
          = Returned (Val None, s')) as Hend by (vm_compute; reflexivity).
  destruct (end_of_stream_is_final no_digits_beyond_latin1 _ _ Hend)
    as (Hclosed & Hagain & Hfind).
  split; [exact Hend|]. split; [exact Hclosed|]. split; [exact Hagain|].
  exact (Hfind "r1").
Defined.

(** C4 on the pair of the scenario of the specification, where mate2
    takes the place of a mate1 that is too short, and on a pair whose
    mates are both too short, which the turn counts and drops. *)
Lemma min_length_filter_promotes_witness :
  MatchesErcc demo_args (mate1 demo_pair) (mate2 demo_pair) = Returned false /\
  mate1_len demo_pair < MinLength demo_args /\
  MinLength demo_args <= mate2_len demo_pair /\
  (exists m' : Mates,
     min_length_filter demo_args demo_pair = Some m' /\
     mate1 m' = fields_of (alignment "R3" 70 "2") /\ mate2 m' = None /\
     mate1_len m' = 70 /\ mate1_edit_dist m' = 2) /\
  MatchesErcc demo_args (mate1 short_pair) (mate2 short_pair) = Returned false /\
  mate1_len short_pair < MinLength demo_args /\
  mate2_len short_pair < MinLength demo_args /\
  min_length_filter demo_args short_pair = None /\
  exists e' : Engine,
    judge no_digits_beyond_latin1 demo_args demo_contamination "R4" short_pair
      (start demo_contamination demo_sample None) = Returned (Next, e') /\
    too_short (counters e') = 1 /\
    considered (counters e') = 0 /\ too_diverged (counters e') = 0 /\
    reads_kept (counters e') = 0 /\ written (outfp e') = [].
Proof.
  assert (MatchesErcc demo_args (mate1 demo_pair) (mate2 demo_pair) = Returned false)
    as Hercc by reflexivity.
  assert (mate1_len demo_pair < MinLength demo_args) as Hshort by (simpl; lia).
  assert (MinLength demo_args <= mate2_len demo_pair) as Hlong by (simpl; lia).
  assert (MatchesErcc demo_args (mate1 short_pair) (mate2 short_pair) = Returned false)
    as Hercc' by reflexivity.
  assert (mate1_len short_pair < MinLength demo_args) as Hshort1 by (simpl; lia).
  assert (mate2_len short_pair < MinLength demo_args) as Hshort2 by (simpl; lia).
  split; [exact Hercc|]. split; [exact Hshort|]. split; [exact Hlong|].
  split.
  { destruct (proj2 (proj1 (min_length_filter_promotes no_digits_beyond_latin1 demo_args
                              demo_contamination "R3" demo_pair
                              (start demo_contamination demo_sample None) Hercc) Hshort)
                (fields_of (alignment "R3" 70 "2")) eq_refl Hlong)
      as (m' & H1 & H2 & H3 & H4 & H5 & _).
    exists m'. repeat split; assumption. }
  split; [exact Hercc'|]. split; [exact Hshort1|]. split; [exact Hshort2|].
  destruct (proj1 (proj1 (min_length_filter_promotes no_digits_beyond_latin1 demo_args
                            demo_contamination "R4" short_pair
                            (start demo_contamination demo_sample None) Hercc') Hshort1)
              (or_intror Hshort2))
    as [Hnone Hjudge].
  split; [exact Hnone|].
  eexists. split; [exact Hjudge|]. repeat split; reflexivity.
Defined.



(** X25 on a stream in natural order that is not in the order of its
    bytes, which is read to its end, and on the same lines the other way
    round, where the second [Record] fails with the sort-order error for
    line 2. *)
Lemma Record_enforces_order_witness :
  Forall (fun l => TrimSpace l <> "") [sam_line ["r2"; "x"]; sam_line ["r10"; "y"]] /\
  nondecreasing no_digits_beyond_latin1 [sam_line ["r2"; "x"]; sam_line ["r10"; "y"]] /\
  read_stream no_digits_beyond_latin1
    (OpenBam (lines_in [sam_line ["r2"; "x"]; sam_line ["r10"; "y"]]))
  = Returned ([["r2"; "x"]; ["r10"; "y"]], None) /\
  Forall (fun l => TrimSpace l <> "") [sam_line ["r10"; "y"]; sam_line ["r2"; "x"]] /\
  out_of_order no_digits_beyond_latin1 "r10" "r2" /\
  read_stream no_digits_beyond_latin1
    (OpenBam (lines_in [sam_line ["r10"; "y"]; sam_line ["r2"; "x"]]))
  = Returned ([["r10"; "y"]], Some (ErrSortOrder 2)).
Proof.
  assert (Forall (fun l => TrimSpace l <> "")
            [sam_line ["r2"; "x"]; sam_line ["r10"; "y"]]) as Hnb.
  { repeat constructor; intros H; vm_compute in H; discriminate. }
  assert (nondecreasing no_digits_beyond_latin1
            [sam_line ["r2"; "x"]; sam_line ["r10"; "y"]]) as Hord.
  { split; [|exact I]. exists (-1). split; [vm_compute; reflexivity|lia]. }
  assert (Forall (fun l => TrimSpace l <> "")
            [sam_line ["r10"; "y"]; sam_line ["r2"; "x"]]) as Hnb'.
  { repeat constructor; intros H; vm_compute in H; discriminate. }
  assert (out_of_order no_digits_beyond_latin1 "r10" "r2") as Hout.
  { exists 1. split; [vm_compute; reflexivity|lia]. }
  split; [exact Hnb|]. split; [exact Hord|].
  split; [exact (proj1 (Record_enforces_order no_digits_beyond_latin1 _ Hnb) Hord)|].
  split; [exact Hnb'|]. split; [exact Hout|].
  exact (proj2 (Record_enforces_order no_digits_beyond_latin1 _ Hnb')
           [] (sam_line ["r10"; "y"]) (sam_line ["r2"; "x"]) [] eq_refl I Hout).
Defined.

(** C8: the comparator does not place ["read02"] and ["read2"] equal, and
    on this pair it agrees with the lexicographic order of the bytes. *)
Lemma strnum_cmp_leading_zero_not_equal :
  strnum_cmp no_digits_beyond_latin1 "read02" "read2" = Returned (-1) /\
  String.compare "read02" "read2" = Lt.
Proof. split; vm_compute; reflexivity. Qed.

(** C10 on the sample of the scenario: the loop returns [nil], and the
    counters it leaves are in the relations stated. *)
Lemma counters_tally_witness :
  Z.of_nat (length (tokens demo_sample)) <= max_int /\
  run no_digits_beyond_latin1 demo_args demo_contamination
    (start demo_contamination demo_sample None) = Returned (None, demo_final) /\
  tally demo_final.
Proof.
  assert (Z.of_nat (length (tokens demo_sample)) <= max_int) as Hfits.
  { vm_compute. discriminate. }
  assert (run no_digits_beyond_latin1 demo_args demo_contamination
            (start demo_contamination demo_sample None) = Returned (None, demo_final))
    as Hrun.
  { vm_compute. reflexivity. }
  split; [exact Hfits|]. split; [exact Hrun|].
  destruct (counters_tally no_digits_beyond_latin1 demo_args demo_contamination
              demo_sample None Hfits) as (_ & _ & _ & _ & Hend & _).
  exact (proj1 (Hend demo_final Hrun)).
Defined.

(** The run of the scenario, with the tie: both reads are considered, R1
    is found in the source and rejected by it, R2 is kept and written. *)
Example demo_run :
  match run no_digits_beyond_latin1 demo_args demo_contamination
          (start demo_contamination demo_sample None) with
  | Returned (None, e) =>
    counters e = {| reads_kept := 1; read_mates_kept := 1; total_reads := 2;
                    total_read_mates := 3; ercc := 0; considered := 2;
                    too_short := 0; too_diverged := 0 |} /\
    reads_found (sources e) = [1] /\ reads_filtered (sources e) = [1] /\
    written (outfp e) = [output_line (fields_of (alignment "R2" 60 "0"))]
  | _ => False
  end.
Proof. vm_compute. repeat split. Qed.

(** C10: a sample whose only line has a single field.  The turn counts
    the read, [extract] refuses it, and the loop ends with the [return]
    of the error: the total of reads is 1 and the four classes are
    empty. *)
Lemma error_exit_leaves_read_unclassified :
  match run no_digits_beyond_latin1 demo_args demo_contamination
          (start demo_contamination (lines_in ["r1"]) None) with
  | Returned (Some ErrTooFewFields, e) =>
    total_reads (counters e) = 1 /\
    ercc (counters e) + too_short (counters e) + too_diverged (counters e)
    + considered (counters e) = 0
  | _ => False
  end.
Proof. vm_compute. split; reflexivity. Qed.

(** ** The further properties on concrete inputs *)

(** X2 on an identifier of one letter. *)
Lemma strnum_cmp_empty_witness :
  "r" <> "" /\
  strnum_cmp no_digits_beyond_latin1 "" "r" = Returned (-1) /\
  strnum_cmp no_digits_beyond_latin1 "r" "" = Returned 1.
Proof.
  assert ("r" <> "") as Hne by discriminate.
  split; [exact Hne|]. exact (strnum_cmp_empty no_digits_beyond_latin1 "r" Hne).
Defined.

(** X3 on the pair of the specification. *)
Lemma strnum_cmp_antisymmetric_witness :
  strnum_cmp no_digits_beyond_latin1 "read2" "read10" = Returned (-1) /\
  strnum_cmp no_digits_beyond_latin1 "read10" "read2" = Returned 1.
Proof.
  assert (strnum_cmp no_digits_beyond_latin1 "read2" "read10" = Returned (-1)) as H
    by (vm_compute; reflexivity).
  split; [exact H|].
  exact (strnum_cmp_antisymmetric no_digits_beyond_latin1 "read2" "read10" (-1) H).
Defined.

(** X4 on the pair of the specification: 2 is less than 10. *)
Lemma strnum_cmp_numeric_witness :
  all_bytes ascii_no_digit "read" = true /\
  all_bytes is_ascii_digit "2" = true /\ all_bytes is_ascii_digit "10" = true /\
  Atoi "2" = Some 2 /\ Atoi "10" = Some 10 /\
  exists v : Z,
    strnum_cmp no_digits_beyond_latin1 "read2" "read10" = Returned v /\ v < 0.
Proof.
  repeat match goal with |- _ /\ _ => split end; try reflexivity.
  destruct (strnum_cmp_numeric no_digits_beyond_latin1 "read" "2" "10" 2 10
              eq_refl eq_refl eq_refl eq_refl eq_refl) as (v & Hv & Hlt & _).
  exists v. split; [exact Hv|]. apply Hlt. lia.
Defined.

(** A cursor that has read [r2] and stands before [r1], out of order. *)
Definition unsorted_cursor : BamScanner :=
  {| LineNumber := 1; scanner := lines_in [sam_line ["r1"; "b"]]; prev := "r2";
     record := None; Closed := false |}.

Definition unsorted_cursor_failed : BamScanner :=
  {| LineNumber := 2; scanner := lines_in []; prev := "r2";
     record := Some ["r1"; "b"]; Closed := false |}.

(** X5 and X6 on the line that violates the order: the error is
    reported at line 2, and the next [Record] returns the record. *)
Lemma Record_errors_witness :
  BamScanner_Record no_digits_beyond_latin1 unsorted_cursor
  = Returned (Error (ErrSortOrder 2), unsorted_cursor_failed) /\
  prev unsorted_cursor_failed = prev unsorted_cursor.
Proof.
  assert (BamScanner_Record no_digits_beyond_latin1 unsorted_cursor
          = Returned (Error (ErrSortOrder 2), unsorted_cursor_failed)) as H
    by (vm_compute; reflexivity).
  split; [exact H|].
  exact (proj1 (Record_errors no_digits_beyond_latin1 _ _ _ H)).
Defined.

Lemma Record_order_error_once_witness :
  BamScanner_Record no_digits_beyond_latin1 unsorted_cursor
  = Returned (Error (ErrSortOrder 2), unsorted_cursor_failed) /\
  exists row : list string,
    record unsorted_cursor_failed = Some row /\ row <> [] /\
    BamScanner_Record no_digits_beyond_latin1 unsorted_cursor_failed
    = Returned (Val (Some row), unsorted_cursor_failed).
Proof.
  assert (BamScanner_Record no_digits_beyond_latin1 unsorted_cursor
          = Returned (Error (ErrSortOrder 2), unsorted_cursor_failed)) as H
    by (vm_compute; reflexivity).
  split; [exact H|].
  exact (Record_order_error_once no_digits_beyond_latin1 _ _ _ H).
Defined.

(** X7 on the stream [r1], [r2], [r10]: [Find] for [r2] passes over
    [r1], returns [r2] and leaves the cursor before [r10], two lines
    counted. *)
Lemma Find_over_stream_witness :
  Forall (fun l => TrimSpace l <> "") [sam_line ["r1"; "a"]] /\
  checked_from no_digits_beyond_latin1 "" [sam_line ["r1"; "a"]] /\
  Forall (orders_before no_digits_beyond_latin1 "r2") [sam_line ["r1"; "a"]] /\
  BamScanner_Find no_digits_beyond_latin1 demo_cursor "r2"
  = Returned (Val (Some (fields_of (sam_line ["r2"; "b"]))),
              cursor_at 2 [sam_line ["r10"; "c"]] "r2" None false).
Proof.
  assert (Forall (fun l => TrimSpace l <> "") [sam_line ["r1"; "a"]]) as Hnb.
  { repeat constructor. intros H. vm_compute in H. discriminate. }
  assert (checked_from no_digits_beyond_latin1 "" [sam_line ["r1"; "a"]]) as Hord.
  { split; [by left|exact I]. }
  assert (Forall (orders_before no_digits_beyond_latin1 "r2") [sam_line ["r1"; "a"]])
    as Hlt.
  { repeat constructor; [intros H; vm_compute in H; discriminate|].
    exists (-1). split; [vm_compute; reflexivity|lia]. }
  split; [exact Hnb|]. split; [exact Hord|]. split; [exact Hlt|].
  apply (proj1 (Find_over_stream no_digits_beyond_latin1 "r2" [sam_line ["r1"; "a"]]
                  Hnb Hord Hlt) (sam_line ["r2"; "b"]) [sam_line ["r10"; "c"]]).
  - intros H. vm_compute in H. discriminate.
  - right. exists (-1). split; [vm_compute; reflexivity|lia].
  - vm_compute. reflexivity.
Defined.

(** X8 on the pair of the scenario: mate1 is too short, mate2 passes
    both criteria and is the one mate left; and on a pair whose one mate
    of sufficient length is too far from the reference, which the turn
    counts as too diverged and drops. *)
Lemma preliminary_filters_select_witness :
  (exists m1 m2 : Mates,
     min_length_filter demo_args demo_pair = Some m1 /\
     max_dist_filter demo_args m1 = Some m2 /\
     mates_of m2 = [(fields_of (alignment "R3" 70 "2"), 70, 2)]) /\
  MatchesErcc demo_args (mate1 diverged_pair) (mate2 diverged_pair) = Returned false /\
  List.filter (long_enough demo_args) (mates_of diverged_pair) <> [] /\
  List.filter (passes demo_args) (mates_of diverged_pair) = [] /\
  exists e' : Engine,
    judge no_digits_beyond_latin1 demo_args demo_contamination "R5" diverged_pair
      (start demo_contamination demo_sample None) = Returned (Next, e') /\
    too_diverged (counters e') = 1 /\ too_short (counters e') = 0 /\
    considered (counters e') = 0 /\ reads_kept (counters e') = 0 /\
    written (outfp e') = [].
Proof.
  assert (MatchesErcc demo_args (mate1 diverged_pair) (mate2 diverged_pair)
          = Returned false) as Hercc by reflexivity.
  assert (List.filter (long_enough demo_args) (mates_of diverged_pair) <> []) as Hlong
    by (intros H; vm_compute in H; discriminate).
  assert (List.filter (passes demo_args) (mates_of diverged_pair) = []) as Hpass
    by reflexivity.
  split.
  { destruct (preliminary_filters_select no_digits_beyond_latin1 demo_args
                demo_contamination "R3" demo_pair
                (start demo_contamination demo_sample None)) as [[_ H] _].
    exists (promote demo_pair), (promote demo_pair).
    split; [reflexivity|]. split; [reflexivity|].
    destruct (H (promote demo_pair) eq_refl) as (_ & _ & H2).
    rewrite (H2 (promote demo_pair) eq_refl). reflexivity. }
  split; [exact Hercc|]. split; [exact Hlong|]. split; [exact Hpass|].
  destruct (preliminary_filters_select no_digits_beyond_latin1 demo_args
              demo_contamination "R5" diverged_pair
              (start demo_contamination demo_sample None)) as [_ Hjudge].
  destruct (Hjudge Hercc) as (_ & Hdiv & _).
  eexists. split; [exact (Hdiv Hlong Hpass)|]. repeat split; reflexivity.
Defined.

(** X9 on the stream [r2], [r10]: the cursor yields both records and the
    checker prints [OK 2]. *)
Lemma checker_agrees_with_cursor_witness :
  Forall (fun l => TrimSpace l <> "") [sam_line ["r2"; "x"]; sam_line ["r10"; "y"]] /\
  read_stream no_digits_beyond_latin1
    (OpenBam (lines_in [sam_line ["r2"; "x"]; sam_line ["r10"; "y"]]))
  = Returned ([["r2"; "x"]; ["r10"; "y"]], None) /\
  checker_main no_digits_beyond_latin1 (lines_in [sam_line ["r2"; "x"]; sam_line ["r10"; "y"]])
  = Returned (PrintedOK 2).
Proof.
  assert (Forall (fun l => TrimSpace l <> "")
            [sam_line ["r2"; "x"]; sam_line ["r10"; "y"]]) as Hnb.
  { repeat constructor; intros H; vm_compute in H; discriminate. }
  assert (read_stream no_digits_beyond_latin1
            (OpenBam (lines_in [sam_line ["r2"; "x"]; sam_line ["r10"; "y"]]))
          = Returned ([["r2"; "x"]; ["r10"; "y"]], None)) as Hread
    by (vm_compute; reflexivity).
  split; [exact Hnb|]. split; [exact Hread|].
  pose proof (checker_agrees_with_cursor no_digits_beyond_latin1 _ Hnb) as H.
  unfold lines_in in Hread. rewrite Hread in H. exact H.
Defined.

(** X10 on a blank line after a record: the checker ends the process
    for the sorting order at line 2. *)
Lemma checker_blank_lines_witness :
  [sam_line ["r1"; "a"]] <> [] /\
  Forall (fun l => TrimSpace l <> "") [sam_line ["r1"; "a"]] /\
  checked_from no_digits_beyond_latin1 "" [sam_line ["r1"; "a"]] /\
  TrimSpace "  " = "" /\
  checker_main no_digits_beyond_latin1
    (lines_in [sam_line ["r1"; "a"]; "  "; sam_line ["r2"; "b"]])
  = Returned (FatalSortOrder 2).
Proof.
  assert ([sam_line ["r1"; "a"]] <> []) as Hne by discriminate.
  assert (Forall (fun l => TrimSpace l <> "") [sam_line ["r1"; "a"]]) as Hnb.
  { repeat constructor. intros H. vm_compute in H. discriminate. }
  assert (checked_from no_digits_beyond_latin1 "" [sam_line ["r1"; "a"]]) as Hord.
  { split; [by left|exact I]. }
  assert (TrimSpace "  " = "") as Hblank by reflexivity.
  split; [exact Hne|]. split; [exact Hnb|]. split; [exact Hord|]. split; [exact Hblank|].
  exact (proj2 (checker_blank_lines no_digits_beyond_latin1)
           [sam_line ["r1"; "a"]] "  " [sam_line ["r2"; "b"]] Hne Hnb Hord Hblank).
Defined.

(** The run of the scenario under a limit of one read. *)
Definition limited_args : Args :=
  {| Margin := 1; MinLength := 60; MaxDist := 5; Limit := 1; Penalty := 2;
     Ercc := false |}.

Definition limited_final : Engine :=
  Eval vm_compute in
    match run no_digits_beyond_latin1 limited_args demo_contamination
            (start demo_contamination demo_sample None) with
    | Returned (_, e) => e
    | _ => start demo_contamination demo_sample None
    end.

(** X11 on the scenario with [-limit 1]: the loop ends without error
    after one read. *)
Lemma limit_bounds_reads_witness :
  0 < Limit limited_args <= max_int /\
  run no_digits_beyond_latin1 limited_args demo_contamination
    (start demo_contamination demo_sample None) = Returned (None, limited_final) /\
  total_reads (counters limited_final) = 1.
Proof.
  assert (0 < Limit limited_args <= max_int) as Hlimit by (vm_compute; split; congruence).
  assert (run no_digits_beyond_latin1 limited_args demo_contamination
            (start demo_contamination demo_sample None) = Returned (None, limited_final))
    as Hrun by (vm_compute; reflexivity).
  split; [exact Hlimit|]. split; [exact Hrun|].
  pose proof (limit_bounds_reads no_digits_beyond_latin1 limited_args demo_contamination
                demo_sample None None limited_final Hlimit Hrun) as [_ H].
  destruct (H eq_refl) as [Hreached|Hclosed]; [exact Hreached|discriminate Hclosed].
Defined.

(** X12 to X15 on the run of the scenario. *)
Lemma ercc_off_counts_nothing_witness :
  Ercc demo_args = false /\
  run no_digits_beyond_latin1 demo_args demo_contamination
    (start demo_contamination demo_sample None) = Returned (None, demo_final) /\
  ercc (counters demo_final) = 0.
Proof.
  assert (run no_digits_beyond_latin1 demo_args demo_contamination
            (start demo_contamination demo_sample None) = Returned (None, demo_final))
    as Hrun by (vm_compute; reflexivity).
  split; [reflexivity|]. split; [exact Hrun|].
  exact (ercc_off_counts_nothing no_digits_beyond_latin1 demo_args demo_contamination
           demo_sample None None demo_final eq_refl Hrun).
Defined.

Lemma output_is_subsequence_witness :
  run no_digits_beyond_latin1 demo_args demo_contamination
    (start demo_contamination demo_sample None) = Returned (None, demo_final) /\
  sublist (written (outfp demo_final)) (map kept_line (tokens demo_sample)).
Proof.
  assert (run no_digits_beyond_latin1 demo_args demo_contamination
            (start demo_contamination demo_sample None) = Returned (None, demo_final))
    as Hrun by (vm_compute; reflexivity).
  split; [exact Hrun|].
  exact (output_is_subsequence no_digits_beyond_latin1 demo_args demo_contamination
           demo_sample None None demo_final Hrun).
Defined.

Lemma kept_mates_are_the_lines_written_witness :
  Z.of_nat (length (tokens demo_sample)) <= max_int /\
  run no_digits_beyond_latin1 demo_args demo_contamination
    (start demo_contamination demo_sample None) = Returned (None, demo_final) /\
  read_mates_kept (counters demo_final) = Z.of_nat (length (written (outfp demo_final))).
Proof.
  assert (Z.of_nat (length (tokens demo_sample)) <= max_int) as Hfits.
  { vm_compute. discriminate. }
  assert (run no_digits_beyond_latin1 demo_args demo_contamination
            (start demo_contamination demo_sample None) = Returned (None, demo_final))
    as Hrun by (vm_compute; reflexivity).
  split; [exact Hfits|]. split; [exact Hrun|].
  exact (proj1 (kept_mates_are_the_lines_written no_digits_beyond_latin1 demo_args
                  demo_contamination demo_sample None None demo_final Hfits Hrun)).
Defined.

Lemma mates_per_read_witness :
  Z.of_nat (length (tokens demo_sample)) <= max_int /\
  run no_digits_beyond_latin1 demo_args demo_contamination
    (start demo_contamination demo_sample None) = Returned (None, demo_final) /\
  total_read_mates (counters demo_final) <= Z.of_nat (length (tokens demo_sample)).
Proof.
  assert (Z.of_nat (length (tokens demo_sample)) <= max_int) as Hfits.
  { vm_compute. discriminate. }
  assert (run no_digits_beyond_latin1 demo_args demo_contamination
            (start demo_contamination demo_sample None) = Returned (None, demo_final))
    as Hrun by (vm_compute; reflexivity).
  split; [exact Hfits|]. split; [exact Hrun|].
  exact (proj2 (mates_per_read no_digits_beyond_latin1 demo_args demo_contamination
                  demo_sample None None demo_final Hfits Hrun)).
Defined.

(** A sample whose only line has fifteen fields and the tag [nM]. *)
Definition short_tag_line : string :=
  sam_line ["r1"; "0"; "chr1"; "1"; "255"; "4M"; "*"; "0"; "0"; "ACGT"; "IIII";
            "NH:i:1"; "HI:i:1"; "AS:i:3"; "nM"].

(** X16 on that sample: the loop panics on the slice of the tag. *)
Lemma run_panics_only_on_short_tag_witness :
  run no_digits_beyond_latin1 demo_args demo_contamination
    (start demo_contamination (lines_in [short_tag_line]) None)
  = Panicked (SliceBoundsOutOfRange 5 2) /\
  exists l : Z, SliceBoundsOutOfRange 5 2 = SliceBoundsOutOfRange 5 l /\ 0 <= l < 5.
Proof.
  assert (run no_digits_beyond_latin1 demo_args demo_contamination
            (start demo_contamination (lines_in [short_tag_line]) None)
          = Panicked (SliceBoundsOutOfRange 5 2)) as Hrun by (vm_compute; reflexivity).
  split; [exact Hrun|].
  exact (run_panics_only_on_short_tag no_digits_beyond_latin1 demo_args demo_contamination
           (lines_in [short_tag_line]) None _ Hrun).
Defined.

(** X17 on the stream [r1], [r2], [r10]. *)
Lemma Find_returns_requested_witness :
  BamScanner_Find no_digits_beyond_latin1 demo_cursor "r2"
  = Returned (Val (Some ["r2"; "b"]), cursor_at 2 [sam_line ["r10"; "c"]] "r2" None false) /\
  ["r2"; "b"] !! 0%nat = Some "r2".
Proof.
  assert (BamScanner_Find no_digits_beyond_latin1 demo_cursor "r2"
          = Returned (Val (Some ["r2"; "b"]),
                      cursor_at 2 [sam_line ["r10"; "c"]] "r2" None false)) as H
    by (vm_compute; reflexivity).
  split; [exact H|].
  exact (proj1 (Find_returns_requested no_digits_beyond_latin1 _ _ _ _ H)).
Defined.

(** Of the two reads of the sample that are considered, one is kept and
    one is rejected by the one source. *)
Lemma reads_not_kept_were_rejected_witness :
  Z.of_nat (length (tokens demo_sample)) <= max_int /\
  run no_digits_beyond_latin1 demo_args demo_contamination
    (start demo_contamination demo_sample None) = Returned (None, demo_final) /\
  considered (counters demo_final) - reads_kept (counters demo_final)
  <= sum_counts (reads_filtered (sources demo_final)).
Proof.
  assert (Z.of_nat (length (tokens demo_sample)) <= max_int) as Hfits.
  { vm_compute. discriminate. }
  assert (run no_digits_beyond_latin1 demo_args demo_contamination
            (start demo_contamination demo_sample None) = Returned (None, demo_final))
    as Hrun by (vm_compute; reflexivity).
  split; [exact Hfits|]. split; [exact Hrun|].
  apply (proj2 (reads_not_kept_were_rejected no_digits_beyond_latin1 demo_args
                  demo_contamination demo_sample None None demo_final Hfits Hrun)).
  discriminate.
Defined.

(** The line of stats of the run on the sample has eleven fields. *)
Lemma stats_line_parses_back_witness :
  Z.of_nat (length (tokens demo_sample)) <= max_int /\
  run no_digits_beyond_latin1 demo_args demo_contamination
    (start demo_contamination demo_sample None) = Returned (None, demo_final) /\
  exists fields : list string,
    Split (statsStr demo_final) tab = "stats" :: fields /\
    length fields = (8 + 2 * length demo_contamination)%nat /\
    map Atoi fields = map Some (stats demo_final).
Proof.
  assert (Z.of_nat (length (tokens demo_sample)) <= max_int) as Hfits.
  { vm_compute. discriminate. }
  assert (run no_digits_beyond_latin1 demo_args demo_contamination
            (start demo_contamination demo_sample None) = Returned (None, demo_final))
    as Hrun by (vm_compute; reflexivity).
  split; [exact Hfits|]. split; [exact Hrun|].
  exact (stats_line_parses_back no_digits_beyond_latin1 demo_args demo_contamination
           demo_sample None demo_final Hfits Hrun).
Defined.

(** The loop for unpaired reads on the sample: the second line of R1 is
    a read of its own, for which the source has no alignment left. *)
Definition demo_flags : Flags :=
  {| margin := 1; minsamplen := 60; mincontlen := 70; maxdist := 5; limit := 0;
     penalty := 2; filterErcc := false |}.

Definition demo_unpaired_final : Engine :=
  Eval vm_compute in
    match unpaired_run no_digits_beyond_latin1 demo_contamination demo_flags
            (start demo_contamination demo_sample None) with
    | Returned (_, e) => e
    | _ => start demo_contamination demo_sample None
    end.

Lemma unpaired_counters_tally_witness :
  Z.of_nat (length (tokens demo_sample)) <= max_int /\
  unpaired_run no_digits_beyond_latin1 demo_contamination demo_flags
    (start demo_contamination demo_sample None) = Returned (None, demo_unpaired_final) /\
  total_reads (counters demo_unpaired_final) = 3 /\
  considered (counters demo_unpaired_final) = 3 /\
  0 <= reads_kept (counters demo_unpaired_final) <= considered (counters demo_unpaired_final).
Proof.
  assert (Z.of_nat (length (tokens demo_sample)) <= max_int) as Hfits.
  { vm_compute. discriminate. }
  assert (unpaired_run no_digits_beyond_latin1 demo_contamination demo_flags
            (start demo_contamination demo_sample None)
          = Returned (None, demo_unpaired_final))
    as Hrun by (vm_compute; reflexivity).
  split; [exact Hfits|]. split; [exact Hrun|].
  split; [reflexivity|]. split; [reflexivity|].
  pose proof (proj2 (unpaired_counters_tally no_digits_beyond_latin1 demo_contamination
                       demo_flags demo_sample None Hfits)
                None demo_unpaired_final Hrun) as (_ & _ & H & _).
  exact H.
Defined.

Lemma unpaired_output_witness :
  Z.of_nat (length (tokens demo_sample)) <= max_int /\
  unpaired_run no_digits_beyond_latin1 demo_contamination demo_flags
    (start demo_contamination demo_sample None) = Returned (None, demo_unpaired_final) /\
  reads_kept (counters demo_unpaired_final) = 2 /\
  reads_kept (counters demo_unpaired_final)
  = Z.of_nat (length (written (outfp demo_unpaired_final))).
Proof.
  assert (Z.of_nat (length (tokens demo_sample)) <= max_int) as Hfits.
  { vm_compute. discriminate. }
  assert (unpaired_run no_digits_beyond_latin1 demo_contamination demo_flags
            (start demo_contamination demo_sample None)
          = Returned (None, demo_unpaired_final))
    as Hrun by (vm_compute; reflexivity).
  split; [exact Hfits|]. split; [exact Hrun|]. split; [reflexivity|].
  exact (proj1 (unpaired_output no_digits_beyond_latin1 demo_contamination demo_flags
                  demo_sample None None demo_unpaired_final Hfits Hrun)).
Defined.

(** Under a limit of one read the loop for unpaired reads has read two
    of the three lines of the sample when it ends. *)
Definition limited_flags : Flags :=
  {| margin := 1; minsamplen := 60; mincontlen := 70; maxdist := 5; limit := 1;
     penalty := 2; filterErcc := false |}.

Definition limited_unpaired_final : Engine :=
  Eval vm_compute in
    match unpaired_run no_digits_beyond_latin1 demo_contamination limited_flags
            (start demo_contamination demo_sample None) with
    | Returned (_, e) => e
    | _ => start demo_contamination demo_sample None
    end.

Lemma unpaired_reads_are_lines_witness :
  Z.of_nat (length (tokens demo_sample)) <= max_int /\
  unpaired_run no_digits_beyond_latin1 demo_contamination limited_flags
    (start demo_contamination demo_sample None)
  = Returned (None, limited_unpaired_final) /\
  total_reads (counters limited_unpaired_final) = 1 /\
  remaining (sample limited_unpaired_final) = 1%nat /\
  ((Closed (sample limited_unpaired_final) = true /\
    total_reads (counters limited_unpaired_final)
    = Z.of_nat (length (tokens demo_sample))) \/
   (Closed (sample limited_unpaired_final) = false /\ 0 < limit limited_flags /\
    total_reads (counters limited_unpaired_final) = limit limited_flags /\
    Z.of_nat (remaining (sample limited_unpaired_final))
    + total_reads (counters limited_unpaired_final) + 1
    = Z.of_nat (length (tokens demo_sample)))).
Proof.
  assert (Z.of_nat (length (tokens demo_sample)) <= max_int) as Hfits.
  { vm_compute. discriminate. }
  assert (unpaired_run no_digits_beyond_latin1 demo_contamination limited_flags
            (start demo_contamination demo_sample None)
          = Returned (None, limited_unpaired_final))
    as Hrun by (vm_compute; reflexivity).
  split; [exact Hfits|]. split; [exact Hrun|].
  split; [reflexivity|]. split; [reflexivity|].
  exact (unpaired_reads_are_lines no_digits_beyond_latin1 demo_contamination
           limited_flags demo_sample None limited_unpaired_final Hfits Hrun).
Defined.

Lemma unpaired_rejections_witness :
  Z.of_nat (length (tokens demo_sample)) <= max_int /\
  unpaired_run no_digits_beyond_latin1 demo_contamination demo_flags
    (start demo_contamination demo_sample None) = Returned (None, demo_unpaired_final) /\
  reads_filtered (sources demo_unpaired_final) = [1] /\
  considered (counters demo_unpaired_final) - reads_kept (counters demo_unpaired_final)
  <= sum_counts (reads_filtered (sources demo_unpaired_final)).
Proof.
  assert (Z.of_nat (length (tokens demo_sample)) <= max_int) as Hfits.
  { vm_compute. discriminate. }
  assert (unpaired_run no_digits_beyond_latin1 demo_contamination demo_flags
            (start demo_contamination demo_sample None)
          = Returned (None, demo_unpaired_final))
    as Hrun by (vm_compute; reflexivity).
  split; [exact Hfits|]. split; [exact Hrun|]. split; [reflexivity|].
  apply (proj2 (unpaired_rejections no_digits_beyond_latin1 demo_contamination
                  demo_flags demo_sample None None demo_unpaired_final Hfits Hrun)).
  discriminate.
Defined.

(** Two read names that differ first in their second number, 9 and 10,
    and then in what follows it. *)
Lemma strnum_cmp_first_number_witness :
  exists v : Z,
    strnum_cmp no_digits_beyond_latin1 "SRR1234.9/1" "SRR1234.10/2" = Returned v /\
    v < 0.
Proof.
  destruct (strnum_cmp_first_number no_digits_beyond_latin1
              "SRR1234." "9" "10" "/1" "/2" 9 10)
    as (v & Hv & Hlt & _); try reflexivity.
  - left. discriminate.
  - exists v. split; [exact Hv|]. apply Hlt. reflexivity.
Defined.
